(* ===== verification/_CoqProject ===== *)
-Q . S2P
Prelude.v
Machine.v
Lock.v
Str.v
Layout.v
Interfaces.v
Pmm.v
PmmSpec.v
PmmInit.v
PageTable.v
Vmm.v
VmmSpec.v
VmmInit.v
VmmWitness.v
Kheap.v
KheapSpec.v
KheapProps.v
KheapFree.v
KheapWitness.v
Heap.v
KheapHeap.v
Vector.v
VectorSpec.v
VectorWitness.v
Hashmap.v
HashmapSpec.v
HashmapProps.v
HashmapWitness.v
Lapic.v
Stdio.v
StdioSpec.v
Gdt.v
Idt.v
Sched.v
SchedSpec.v
Smp.v
SmpSpec.v
Asm.v
AsmSpec.v
SmpRace.v
Exceptions.v
Termination.v
Env.v
Vfs.v
Tmpfs.v
VfsOps.v
TmpfsSpec.v
TmpfsWitness.v
Acpi.v
AcpiSpec.v
Drivers.v
Syscalls.v
SyscallsSpec.v
Initramfs.v
InitramfsSpec.v
Elf.v
Kernel.v
Structs.v
StructsSpec.v
PathSpec.v
PathWitness.v
UserSpace.v
MmapSpec.v
MmapWitness.v
Boot.v
UserStack.v
ElfSpec.v
ElfLoad.v
ElfWitness.v
