(* ===== verification/Prelude.v ===== *)
(** * A verification of the flan kernel

    flan is a small x86-64 kernel in C: it boots from a bootloader's answers, sets up
    segments, interrupts, frames, page tables and a heap, reads the firmware tables,
    starts the cores, unpacks an archive into a file system in memory, loads a
    program and runs it under a round-robin scheduler.  This library translates its
    sources into Rocq definitions and proves what they do.  Paths below are relative
    to the kernel's source directory.

    ** The model

    [Machine]: the state is a byte-addressed memory, the C globals and processor
    registers by name, and a trace of what leaves the kernel (text, instructions,
    device registers, ports).  Operations are programs of a monad [K] over it with
    the outcomes [Ok], [Halt] (a failed [assert]), [Fault] (a page fault, undefined
    behaviour) and [NoFuel] (the model's loop bound).  Machine integers are [Z] with
    the wrap-around written out ([u8] to [u64], [s32], [s64]); structures are offsets
    into memory ([Layout]), so that aliasing, overflow of blocks and pointer
    arithmetic are those of the code.  [wp] is total correctness: most theorems say
    that the operation returns, and what it leaves.

    Bounds: [kloop] runs at most [2^64] rounds, more than there are addresses; a
    scan of a string has one round more than there are mapped bytes ([scan]), and
    [Termination] proves that no scan needs it; [spinlock_acquire] makes the ten
    million attempts of the code; [itoa] has 64 rounds, one per bit.

    ** The parts

    - [Prelude], [Machine], [Layout]: integers, automation, memory, structures.
    - [Lock] (lib/lock): the spinlock of one core, and of several cores as a step
      relation.  [Str] (lib/str), with [strdup] in [Heap].
    - [Pmm], [PmmSpec], [PmmInit] (memory/pmm): the bitmap of frames; [Interfaces]
      has the class [FrameAllocator] that the page tables are written against.
    - [PageTable], [Vmm], [VmmSpec], [VmmInit], [VmmWitness] (memory/vmm): page tables
      as trees, the operations on tables in memory, the processor's translation.
      [Boot]: [pmm_init], [vmm_init] and [kheap_init], one after the other.
    - [Kheap], [KheapSpec], [KheapProps], [KheapFree], [KheapWitness] (memory/kheap): the free
      list; [Heap] has the class [KernelHeap] that its clients are written against,
      and [KheapHeap] the instance.
    - [Vector], [VectorSpec], [VectorWitness] (lib/vector); [Hashmap], [HashmapSpec],
      [HashmapProps], [HashmapWitness] (lib/hashmap).
    - [Gdt] (memory/gdt), [Idt] (sys/idt), [Smp], [SmpSpec] (sys/cpu.h, sys/smp), [SmpRace]
      (sys/smp: the loop that starts the cores and their increments, as a step relation).
    - [Asm], [AsmSpec]: the assembly.  A state of the processor, the instructions that
      the code uses over [K], and as lists of them the stub of a vector (sys/idt/isr.asm),
      the entry of a system call (sys/syscalls/syscall_handler.asm), the reload of the
      segments (memory/gdt/loadgdt.asm) and the statement of [switch_to_thread]; the
      called function is a parameter, a program on the same state.  [Exceptions] puts
      the stub and [exception_handler] together.
    - [Structs], [StructsSpec]: the declarations of the C structures, their placement by
      the ABI, and the members that the operations write.
    - [Lapic] (dev/apic/lapic, dev/pit, lib/io.h), [Acpi], [AcpiSpec] (acpi, acpi/tables/madt,
      dev/apic/ioapic), [Drivers] (dev/pit, dev/ps2, dev/fb), [Stdio], [StdioSpec] (dev/serial,
      dev/console, lib/stdio).
    - [Sched], [SchedSpec], [UserStack] (proc/sched): processes, threads, the run queue, the
      first stack of a program.
    - [Env]: what comes from the C library's headers and from the linker.  [Vfs],
      [VfsOps], [PathSpec], [PathWitness] (fs/vfs), [Tmpfs], [TmpfsSpec], [TmpfsWitness] (fs/tmpfs, fs/ext2fs),
      [Initramfs], [InitramfsSpec] (fs/initramfs), [Elf], [ElfSpec], [ElfLoad], [ElfWitness]
      (lib/elf), [Syscalls], [SyscallsSpec], [MmapSpec], [MmapWitness] (sys/syscalls), [Kernel]
      (kernel.c).  [UserSpace]: frames for a program, for [mmap] and the loader.
    - [Termination]: the loops of lib/str that the model bounds.

    A definition has the name of the C function; a loop is a definition of its own,
    named in the comment above it.

    ** What the theorems show

    - Frames: the bitmap search refines a first-fit allocator over a set of frames,
      blocks that are in use are disjoint after any history, [pmm_free] undoes
      [pmm_malloc], [pmm_init] builds the allocator from the memory map.
    - Boot: after [pmm_init], [vmm_init] and [kheap_init] the processor translates the first
      4 GiB, their direct map and the kernel image, and the three components are well
      formed.
    - Address spaces: [vmm_map_page], [vmm_unmap_page], [vmm_map_pages], [vmm_new_pagemap] and
      [vmm_init] change exactly the translations they should, in terms of the walk
      of the processor; lookups return what was mapped; [mmap] adds zeroed frames that
      nobody had to the address space of the caller.
    - Programs: after [elf_load] the processor sees the segments of the file at their
      addresses, and the auxiliary values are those of the headers.
    - Heap and containers: first fit, splitting, growing and freeing keep the list of
      blocks well formed and hand out disjoint memory; vectors are lists; hash maps
      are finite maps, and [hash] is the polynomial djb2.
    - Scheduler: the queue is a ring, [get_next_thread] takes the first runnable
      thread after the current one; a program finds the process stack of the System V
      ABI.  Locks: mutual exclusion for all interleavings.
    - Processor tables: what the processor decodes from the descriptor tables, and
      which segments the system call instructions load from them.
    - Entries of the kernel: an interrupt resumes the program it interrupted with all its
      registers, also when another thread ran in between; a system call returns
      behind its instruction and changes no register but the four that it may; the
      handler of an interrupt gets an [interrupt_frame] whose members are the registers
      of their names; an exception prints them.
    - Structures: members are inside their structure, aligned and apart, and the
      operations on descriptors, gates, blocks and threads write the members that the
      declarations name.
    - Cores: the wait of [smp_init] never ends too early, and can be for ever exactly when
      there are three cores or two of which the second boots.
    - Files: [path_to_node] refines the lookup of the components of a path in the tree
      that the nodes and their hash maps represent; a file of the memory file system returns what was written to it; octal
      fields are read back; [lseek] has the outcomes of its specification.
    - Text: [itoa], [strtok], and [printf] against a reference rendering of its format.
      Firmware tables: the search against a filter of the list of tables.
    - Loops: the scans of strings end at a terminator or at the end of the mapped memory.
    - Where the code does not do what it means to, a theorem says what it does
      instead: merging of free blocks, shrinking a block, removal from hash maps,
      indices out of range, files that grow within a block, a queue that loses a
      thread, a bitmap that is too short, numbers in base 2, the parent of a node that
      an absolute path names, an increment that is lost, a mapping that leaves the
      user space, memory above 4 GiB that is handed out and not mapped.

    ** Parameters

    The bootloader's answers (direct-map offset, memory map, kernel addresses,
    modules, cores, frame buffer), what devices answer (functions of the trace), the
    terminal library, the C library's constants and structures ([LibC], with the laws
    the code relies on and the instance [stat_h]), addresses of functions, literals
    and statics.

    ** Not modelled

    The user program, whose [main] returns 0, the makefiles and recipes.  In the runs of
    the C code one core runs; several cores are in [Lock] and [SmpRace], as step
    relations.  The instructions of assembly in a C function ([lgdt], the restore of
    [switch_to_thread]) are events of its run, and [Asm] says what they do.  [Asm] has the
    instructions that the code uses, not an encoding, and no faults of the processor
    but those of memory.  Calls of [printf] in other components are events, and [Stdio]
    says what the function does.  Memory accesses use the
    direct map as the bootloader made it, before and after [vmm_init].

    ** What comes next

    Programs with an interpreter in [elf_load], the interrupt redirections of [Acpi], and
    the steps of [Kernel] behind the three of [Boot]. *)
From Stdlib Require Export ZArith Lia.
From stdpp Require Export base decidable gmap strings list fin_maps numbers.

Set Default Goal Selector "!".

Declare Scope kernel_scope.
Delimit Scope kernel_scope with kernel.

Open Scope Z_scope.

(** * Machine integers *)

(** Conversion to the unsigned fixed-width types of [<stdint.h>]. *)
Definition u8 (z : Z) : Z := z mod 2 ^ 8.
Definition u16 (z : Z) : Z := z mod 2 ^ 16.
Definition u32 (z : Z) : Z := z mod 2 ^ 32.
Definition u64 (z : Z) : Z := z mod 2 ^ 64.

(** Conversion to [int] (two's complement, 32 bits). *)
Definition s32 (z : Z) : Z := (z + 2 ^ 31) mod 2 ^ 32 - 2 ^ 31.

(** Conversion to [int64_t]. *)
Definition s64 (z : Z) : Z := (z + 2 ^ 63) mod 2 ^ 64 - 2 ^ 63.

(** The alignment macros of [lib/stddef.h] at a [uint64_t] operand: the mask
    [~(ALIGN - 1)] is an [int] that is sign extended to 64 bits. *)
Definition ALIGN_UP (num align : Z) : Z :=
  Z.land (u64 (num + align - 1)) (u64 (Z.lnot (align - 1))).
Definition ALIGN_DOWN (num align : Z) : Z :=
  Z.land (u64 num) (u64 (Z.lnot (align - 1))).

(** [MAX] of [lib/stddef.h]. *)
Definition MAX (a b : Z) : Z := if a >? b then a else b.


(** * Tactics *)

(** Linear arithmetic with [/] and [mod] turned into Euclidean equations. *)
Ltac zlia := intros; Z.to_euclidean_division_equations; lia.

(** Unfolds the fixed-width conversions and closes the goal. *)
Ltac ulia := unfold u8, u16, u32, u64, s32, s64 in *; zlia.

(** Resolves one boolean comparison of the goal or of a hypothesis. *)
Ltac zcase :=
  match goal with
  | |- context [Z.eqb ?x ?y] => destruct (Z.eqb_spec x y)
  | |- context [Z.ltb ?x ?y] => destruct (Z.ltb_spec x y)
  | |- context [Z.leb ?x ?y] => destruct (Z.leb_spec x y)
  | H : context [Z.eqb ?x ?y] |- _ => destruct (Z.eqb_spec x y)
  | H : context [Z.ltb ?x ?y] |- _ => destruct (Z.ltb_spec x y)
  | H : context [Z.leb ?x ?y] |- _ => destruct (Z.leb_spec x y)
  end.

(** Facts about memory, globals and locks that close routine side conditions. *)
Create HintDb kernel discriminated.

(** Lemmas that bound or simplify machine words. *)
Create HintDb mword discriminated.

Section words.
Implicit Types (x y k : Z).

Lemma u64_small x : 0 <= x < 2 ^ 64 -> u64 x = x.
Proof. ulia. Qed.
Lemma u64_range x : 0 <= u64 x < 2 ^ 64.
Proof. ulia. Qed.
Lemma u64_u64 x : u64 (u64 x) = u64 x.
Proof. ulia. Qed.
Lemma u64_add_l x y : u64 (u64 x + y) = u64 (x + y).
Proof. unfold u64. by rewrite Zplus_mod_idemp_l. Qed.
Lemma u64_add_r x y : u64 (x + u64 y) = u64 (x + y).
Proof. unfold u64. by rewrite Zplus_mod_idemp_r. Qed.
Lemma u64_sub_l x y : u64 (u64 x - y) = u64 (x - y).
Proof. unfold u64. by rewrite Zminus_mod_idemp_l. Qed.
Lemma u64_mul_r x y : u64 (x * u64 y) = u64 (x * y).
Proof. unfold u64. by rewrite Zmult_mod_idemp_r. Qed.
Lemma u8_small x : 0 <= x < 2 ^ 8 -> u8 x = x.
Proof. ulia. Qed.
Lemma u8_range x : 0 <= u8 x < 2 ^ 8.
Proof. ulia. Qed.
Lemma u32_small x : 0 <= x < 2 ^ 32 -> u32 x = x.
Proof. ulia. Qed.
Lemma s32_small x : - 2 ^ 31 <= x < 2 ^ 31 -> s32 x = x.
Proof. ulia. Qed.

(** The sign-extended mask [~(2^k - 1)] clears the [k] low bits. *)
Lemma land_align_mask x k :
  0 <= k <= 64 -> 0 <= x < 2 ^ 64 ->
  Z.land x (u64 (Z.lnot (2 ^ k - 1))) = 2 ^ k * (x / 2 ^ k).
Proof.
  intros Hk Hx.
  replace (2 ^ k * (x / 2 ^ k)) with (Z.shiftl (Z.shiftr x k) k).
  2:{ rewrite Z.shiftl_mul_pow2, Z.shiftr_div_pow2 by lia. lia. }
  replace (2 ^ k - 1) with (Z.ones k) by (rewrite Z.ones_equiv; lia).
  apply Z.bits_inj'. intros i Hi. unfold u64.
  rewrite Z.land_spec, Z.shiftl_spec by lia.
  destruct (decide (i < k)).
  - rewrite (Z.testbit_neg_r _ (i - k)) by lia.
    rewrite Z.mod_pow2_bits_low by lia.
    rewrite Z.lnot_spec by lia.
    rewrite Z.ones_spec_low by lia. by rewrite andb_false_r.
  - rewrite Z.shiftr_spec by lia. replace (i - k + k) with i by lia.
    destruct (decide (i < 64)).
    + rewrite Z.mod_pow2_bits_low by lia.
      rewrite Z.lnot_spec by lia.
      rewrite Z.ones_spec_high by lia. by rewrite andb_true_r.
    + rewrite Z.mod_pow2_bits_high by lia. rewrite andb_false_r.
      symmetry. rewrite <- (Z.mod_small x (2 ^ 64)) by lia.
      apply Z.mod_pow2_bits_high. lia.
Qed.

Lemma ALIGN_UP_spec x k :
  0 <= k <= 63 -> 0 <= x -> x + 2 ^ k - 1 < 2 ^ 64 ->
  ALIGN_UP x (2 ^ k) = 2 ^ k * ((x + 2 ^ k - 1) / 2 ^ k).
Proof.
  intros Hk Hx Hb. assert (0 < 2 ^ k) by lia.
  unfold ALIGN_UP. rewrite land_align_mask by (try apply u64_range; lia).
  by rewrite u64_small by lia.
Qed.

Lemma ALIGN_UP_page x :
  0 <= x < 2 ^ 63 -> ALIGN_UP x 0x1000 = 0x1000 * ((x + 0xfff) / 0x1000).
Proof.
  intros Hx. change 0x1000 with (2 ^ 12). rewrite ALIGN_UP_spec by lia.
  change 0xfff with (2 ^ 12 - 1). by rewrite Z.add_sub_assoc.
Qed.

Lemma ALIGN_DOWN_spec x k :
  0 <= k <= 64 -> 0 <= x < 2 ^ 64 ->
  ALIGN_DOWN x (2 ^ k) = 2 ^ k * (x / 2 ^ k).
Proof.
  intros Hk Hx. unfold ALIGN_DOWN. rewrite u64_small by lia.
  by apply land_align_mask.
Qed.

(** A bit field read by mask and shift: [(v & (ones n << k)) >> k]. *)
Lemma bitfield_spec v n k :
  0 <= n -> 0 <= k ->
  Z.shiftr (Z.land v (Z.shiftl (Z.ones n) k)) k = (v / 2 ^ k) mod 2 ^ n.
Proof.
  intros Hn Hk. rewrite Z.shiftr_land, Z.shiftr_shiftl_l by lia.
  rewrite Z.sub_diag, Z.shiftl_0_r, Z.land_ones by lia.
  by rewrite Z.shiftr_div_pow2 by lia.
Qed.

(** A multiple of [2^k] and a value below [2^k] share no bit. *)
Lemma land_pow2_disjoint x y k :
  0 <= k -> 0 <= y < 2 ^ k -> Z.land (2 ^ k * x) y = 0.
Proof.
  intros Hk Hy. apply Z.bits_inj'. intros i Hi.
  rewrite Z.land_spec, Z.testbit_0_l, (Z.mul_comm (2 ^ k)), Z.mul_pow2_bits by lia.
  destruct (decide (i < k)); [by rewrite Z.testbit_neg_r by lia|].
  rewrite <- (Z.mod_small y (2 ^ k)), Z.mod_pow2_bits_high by lia. apply andb_false_r.
Qed.

(** A disjoint bitwise or is an addition. *)
Lemma lor_add_disjoint x y k :
  0 <= k -> 0 <= y < 2 ^ k -> Z.lor (2 ^ k * x) y = 2 ^ k * x + y.
Proof.
  intros Hk Hy. rewrite Z.add_nocarry_lxor by (by apply land_pow2_disjoint).
  by rewrite Z.lxor_lor by (by apply land_pow2_disjoint).
Qed.

End words.

#[export] Hint Resolve u64_range u8_range : mword.

(** * Lists *)

Section filters.
Context {A : Type} (P Q : A -> Prop) `{!forall x, Decision (P x)} `{!forall x, Decision (Q x)}.

Lemma filter_iff_elem (l : list A) :
  (forall x, x ∈ l -> P x <-> Q x) -> filter P l = filter Q l.
Proof.
  induction l as [|y l IH]; intros Hpq; [done|].
  assert (IH' : filter P l = filter Q l) by (apply IH; intros x Hx; apply Hpq, elem_of_cons; by right).
  assert (Hy : P y <-> Q y) by (apply Hpq, elem_of_cons; by left).
  destruct (decide (P y)).
  - by rewrite !filter_cons_True, IH' by tauto.
  - by rewrite !filter_cons_False, IH' by tauto.
Qed.

(** Taking one element out of a filter. *)
Lemma filter_length_take `{EqDecision A} f (l : list A) :
  NoDup l -> f ∈ l -> P f -> ~ Q f -> (forall x, x ∈ l -> x <> f -> P x <-> Q x) ->
  length (filter P l) = S (length (filter Q l)).
Proof.
  intros Hnd Hin HP HQ Heq. induction l as [|y l IH]; [by apply not_elem_of_nil in Hin|].
  apply list.NoDup_cons in Hnd as [Hy Hnd]. destruct (decide (y = f)) as [->|Hne].
  - rewrite filter_cons_True, filter_cons_False by done. simpl. do 2 f_equal.
    apply filter_iff_elem. intros x Hx. apply Heq; [apply elem_of_cons; by right|].
    by intros ->.
  - apply elem_of_cons in Hin as [->|Hin]; [done|].
    assert (IH' : length (filter P l) = S (length (filter Q l))).
    { apply IH; [done|done|]. intros x Hx. apply Heq, elem_of_cons. by right. }
    assert (Hpq : P y <-> Q y) by (apply Heq; [apply elem_of_cons; by left|done]).
    destruct (decide (P y)).
    + rewrite !filter_cons_True by tauto. simpl. by rewrite IH'.
    + by rewrite !filter_cons_False by tauto.
Qed.

Lemma filter_all (l : list A) : (forall x, x ∈ l -> P x) -> filter P l = l.
Proof.
  induction l as [|y l IH]; intros Hall; [done|].
  rewrite filter_cons_True by (apply Hall, elem_of_cons; by left).
  f_equal. apply IH. intros x Hx. apply Hall, elem_of_cons. by right.
Qed.

End filters.

Lemma length_bind_const {A B} (f : A -> list B) c (l : list A) :
  (forall x, length (f x) = c) -> length (l ≫= f) = (c * length l)%nat.
Proof.
  intros H. induction l as [|x l IH]; [simpl; lia|].
  rewrite bind_cons, length_app, IH, H. simpl. lia.
Qed.

Lemma size_list_to_set_le `{Countable A} (l : list A) : (size (list_to_set l : gset A) <= length l)%nat.
Proof.
  induction l as [|x l IH]; [by rewrite list_to_set_nil, size_empty|].
  rewrite list_to_set_cons, size_union_alt, size_singleton.
  assert ((size ((list_to_set l : gset A) ∖ {[x]}) <= size (list_to_set l : gset A))%nat) by (apply subseteq_size; set_solver).
  simpl. lia.
Qed.
