(* ===== verification/Machine.v ===== *)
(** The machine the kernel runs on: the shared state of all components, the
    monad their operations are written in, byte-addressed memory with
    little-endian accesses, and the rules of total correctness [wp] that the
    components' proofs use.

    - [mem] is the kernel's view of virtual memory, one byte per mapped
      address; an access to an address that is not mapped is a page fault.
    - [glob] holds the C globals whose address is only used as a name (scalars,
      lock words, control registers); a global that was never written is 0, as
      C's static initialisation has it.
    - [trace] records what leaves the model: the [printf] calls, the
      instructions of the [asm] statements, and the writes to device registers
      and ports. *)
From S2P Require Import Prelude.
From Stdlib Require Import Init.Byte.
From Stdlib Require Import Strings.Byte.

(** * Bytes *)

Abbreviation byte := Byte.byte.

Definition byte_Z (b : byte) : Z := Z.of_N (Byte.to_N b).
Definition Z_byte (z : Z) : byte := default Byte.x00 (Byte.of_N (Z.to_N (z mod 256))).

#[export] Instance byte_eq_dec : EqDecision byte := Byte.byte_eq_dec.

(** * Globals *)

(** The C globals and static variables, by the name the source gives them. *)
Inductive gvar :=
  | g_bitmap            (* memory/pmm.c *)
  | g_limit             (* memory/pmm.c *)
  | g_pmm_lock          (* memory/pmm.c *)
  | g_vmm_lock          (* memory/vmm.c *)
  | g_kernel_pagemap    (* memory/vmm.c *)
  | g_kheap_lock        (* memory/kheap.c *)
  | g_strtok_s          (* lib/str.c, static of strtok *)
  | g_gdt_lock          (* memory/gdt/gdt.c, static of gdt_load_tss *)
  | g_cr3               (* control register *)
  | g_gs_base           (* MSR_GSBASE *)
  | g_kgs_base          (* MSR_KGSBASE *)
  | g_queue_start       (* proc/sched.c, queue.start *)
  | g_queue_end         (* proc/sched.c, queue.end *)
  | g_queue_lock        (* proc/sched.c, queue.lock *)
  | g_kernel_process    (* proc/sched.c *)
  | g_vfs_lock          (* fs/vfs.c *)
  | g_root              (* fs/vfs.c *)
  | g_fs_base           (* MSR_FSBASE *)
  | g_apic_base         (* MSR 0x1b *)
  | g_lapic_lock        (* dev/apic/lapic.c *)
  | g_ticks             (* dev/pit.c *)
  | g_efer              (* MSR_EFER *)
  | g_star              (* MSR_STAR *)
  | g_lstar             (* MSR_LSTAR *)
  | g_cstar             (* MSR_CSTAR *)
  | g_fmask             (* MSR_FMASK *)
  | g_cr0               (* control register *)
  | g_cr4               (* control register *)
  | g_cpus_running      (* sys/smp.c *)
  | g_print_lock        (* lib/stdio.c *)
  | g_serial_lock       (* dev/serial.c, static of serial_out *)
  | g_console_lock      (* dev/console.c *)
  | g_term_context      (* dev/console.c *)
  | g_rsdp              (* acpi/acpi.c *)
  | g_rsdt.             (* acpi/acpi.c *)

#[export] Instance gvar_eq_dec : EqDecision gvar.
Proof. solve_decision. Defined.

Definition gvar_code (v : gvar) : nat :=
  match v with
  | g_bitmap => 0 | g_limit => 1 | g_pmm_lock => 2 | g_vmm_lock => 3
  | g_kernel_pagemap => 4 | g_kheap_lock => 5 | g_strtok_s => 6
  | g_gdt_lock => 7 | g_cr3 => 8 | g_gs_base => 9 | g_kgs_base => 10
  | g_queue_start => 11 | g_queue_end => 12 | g_queue_lock => 13
  | g_kernel_process => 14 | g_vfs_lock => 15 | g_root => 16
  | g_fs_base => 17 | g_apic_base => 18 | g_lapic_lock => 19 | g_ticks => 20
  | g_efer => 21 | g_star => 22 | g_lstar => 23 | g_cstar => 24
  | g_fmask => 25 | g_cr0 => 26 | g_cr4 => 27 | g_cpus_running => 28
  | g_print_lock => 29 | g_serial_lock => 30 | g_console_lock => 31
  | g_term_context => 32 | g_rsdp => 33 | g_rsdt => 34
  end.
Definition gvar_decode (n : nat) : option gvar :=
  [g_bitmap; g_limit; g_pmm_lock; g_vmm_lock; g_kernel_pagemap; g_kheap_lock;
   g_strtok_s; g_gdt_lock; g_cr3; g_gs_base; g_kgs_base; g_queue_start; g_queue_end;
   g_queue_lock; g_kernel_process; g_vfs_lock; g_root; g_fs_base; g_apic_base; g_lapic_lock; g_ticks; g_efer; g_star;
   g_lstar; g_cstar; g_fmask; g_cr0; g_cr4; g_cpus_running;
   g_print_lock; g_serial_lock; g_console_lock; g_term_context; g_rsdp; g_rsdt] !! n.

#[export] Instance gvar_countable : Countable gvar.
Proof. by refine (inj_countable gvar_code gvar_decode _); intros []. Defined.

(** * The state and the monad *)

Inductive event :=
  | EvPrintf (fmt : string) (args : list Z)
  | EvAsm (instr : string) (arg : Z)
  | EvMmio (addr val : Z)
  | EvOut (port val : Z)
  | EvOutw (port val : Z)
  | EvOutd (port val : Z).

Record kstate := KState {
  mem : gmap Z byte;
  glob : gmap gvar Z;
  trace : list event
}.

(** [Halt]: a failed [assert], which prints and executes [hlt] for ever.
    [Fault]: an access the machine or the language does not define (page fault,
    division by zero, signed overflow).  [NoFuel]: the loop bound of the model
    is exhausted; no source behaviour. *)
Inductive outcome (A : Type) :=
  | Ok (a : A) (s : kstate)
  | Halt
  | Fault
  | NoFuel.
Arguments Ok {A} _ _.
Arguments Halt {A}.
Arguments Fault {A}.
Arguments NoFuel {A}.

Definition K (A : Type) : Type := kstate -> outcome A.

#[export] Instance K_ret : MRet K := fun A a s => Ok a s.
#[export] Instance K_bind : MBind K := fun A B f c s =>
  match c s with
  | Ok a s' => f a s'
  | Halt => Halt
  | Fault => Fault
  | NoFuel => NoFuel
  end.

Definition halt {A} : K A := fun _ => Halt.
Definition fault {A} : K A := fun _ => Fault.
Definition nofuel {A} : K A := fun _ => NoFuel.

(** [lib/assert.h]: a false condition prints and halts the core. *)
Definition kassert (b : bool) : K unit := if b then mret tt else halt.

Definition emit (e : event) : K unit := fun s =>
  Ok tt (KState (mem s) (glob s) (trace s ++ [e])).
Definition printf (fmt : string) (args : list Z) : K unit := emit (EvPrintf fmt args).
Definition asm (instr : string) (arg : Z) : K unit := emit (EvAsm instr arg).

Definition gval (s : kstate) (v : gvar) : Z := default 0 (glob s !! v).
Definition gget (v : gvar) : K Z := fun s => Ok (gval s v) s.
Definition with_glob (s : kstate) (v : gvar) (x : Z) : kstate :=
  KState (mem s) (<[v := x]> (glob s)) (trace s).
Definition gput (v : gvar) (x : Z) : K unit := fun s => Ok tt (with_glob s v x).

(** * Memory accesses *)

(** [rd n m a]: the [n]-byte little-endian word at [a]; [None] when a byte of it
    is not mapped. *)
Fixpoint rd (n : nat) (m : gmap Z byte) (a : Z) : option Z :=
  match n with
  | O => Some 0
  | S n' =>
      match m !! a, rd n' m (a + 1) with
      | Some b, Some r => Some (byte_Z b + 256 * r)
      | _, _ => None
      end
  end.

(** [wr n m a v]: the memory after an [n]-byte little-endian store. *)
Fixpoint wr (n : nat) (m : gmap Z byte) (a v : Z) : gmap Z byte :=
  match n with
  | O => m
  | S n' => <[a := Z_byte v]> (wr n' m (a + 1) (v / 256))
  end.

Definition with_mem (s : kstate) (m : gmap Z byte) : kstate :=
  KState m (glob s) (trace s).

Definition ld (n : nat) (a : Z) : K Z := fun s =>
  match rd n (mem s) a with
  | Some v => Ok v s
  | None => Fault
  end.
Definition st (n : nat) (a v : Z) : K unit := fun s =>
  match rd n (mem s) a with
  | Some _ => Ok tt (with_mem s (wr n (mem s) a v))
  | None => Fault
  end.

(** [for (uint64_t i = lo; i < hi; i++) body(i)], for a body that changes
    neither [i] nor the bound. *)
Fixpoint kfor_n (n : nat) (i : Z) (body : Z -> K unit) : K unit :=
  match n with
  | O => mret tt
  | S n' => body i ;; kfor_n n' (i + 1) body
  end.
Definition kfor (lo hi : Z) (body : Z -> K unit) : K unit :=
  kfor_n (Z.to_nat (hi - lo)) lo body.

(** [while] loops.  The body returns [inl x] to go on with the loop variables [x]
    and [inr r] to leave the loop; [kiter p] is at most [p] rounds.  The bound of
    [kloop] is [2^64]: no loop over distinct 64-bit addresses can exceed it. *)
Fixpoint kiter {S R} (p : positive) (body : S -> K (S + R)) (x : S) : K (S + R) :=
  match p with
  | xH => body x
  | xO q => r ← kiter q body x;
            match r with inl x' => kiter q body x' | inr v => mret (inr v) end
  | xI q => r ← body x;
            match r with
            | inl x' => r' ← kiter q body x';
                        match r' with inl x'' => kiter q body x'' | inr v => mret (inr v) end
            | inr v => mret (inr v)
            end
  end.
Definition loop_bound : positive := 2 ^ 64.
Definition kloop {S R} (body : S -> K (S + R)) (x : S) : K R :=
  r ← kiter loop_bound body x;
  match r with inl _ => nofuel | inr v => mret v end.

(** Every byte of [[a, a + n)] is mapped. *)
Definition mapped (m : gmap Z byte) (a n : Z) : Prop :=
  forall x, a <= x < a + n -> is_Some (m !! x).

(** [m'] maps what [m] maps and agrees with it outside [[a, a + n)]. *)
Definition same_outside (a n : Z) (m m' : gmap Z byte) : Prop :=
  (forall x, is_Some (m' !! x) <-> is_Some (m !! x)) /\
  (forall x, ~ (a <= x < a + n) -> m' !! x = m !! x).

(** Total correctness: [c] returns normally from [s], and the result satisfies [Q]. *)
Definition wp {A} (c : K A) (Q : A -> kstate -> Prop) (s : kstate) : Prop :=
  match c s with
  | Ok a s' => Q a s'
  | _ => False
  end.

(** A region of memory as the list of its bytes. *)
Definition bytes_at (m : gmap Z byte) (a : Z) (l : list byte) : Prop :=
  forall i b, l !! i = Some b -> m !! (a + Z.of_nat i) = Some b.

(** * Bytes and words *)

Section bytes.
Implicit Types (b : byte) (z : Z).

Lemma byte_Z_range b : 0 <= byte_Z b < 256.
Proof. unfold byte_Z. pose proof (Byte.to_N_bounded b). lia. Qed.

Lemma byte_Z_Z_byte z : byte_Z (Z_byte z) = z mod 256.
Proof.
  unfold Z_byte, byte_Z. destruct (Byte.of_N (Z.to_N (z mod 256))) as [b|] eqn:E; simpl.
  - apply Byte.to_of_N in E. rewrite E. zlia.
  - apply Byte.of_N_None_iff in E. zlia.
Qed.

Lemma Z_byte_byte_Z b : Z_byte (byte_Z b) = b.
Proof.
  unfold Z_byte. pose proof (byte_Z_range b). rewrite Z.mod_small by lia.
  unfold byte_Z. by rewrite N2Z.id, Byte.of_to_N.
Qed.

Lemma byte_Z_inj b b' : byte_Z b = byte_Z b' -> b = b'.
Proof. intros E. by rewrite <- (Z_byte_byte_Z b), E, Z_byte_byte_Z. Qed.

Lemma Z_byte_0 : Z_byte 0 = Byte.x00.
Proof. done. Qed.

End bytes.
#[global] Arguments byte_Z : simpl never.
#[global] Arguments Z_byte : simpl never.

Section memory.
Implicit Types (m : gmap Z byte) (a b x v k : Z) (n : nat).

Lemma mapped_sub m a k b j :
  mapped m a k -> a <= b -> b + j <= a + k -> mapped m b j.
Proof. intros H ? ? x Hx. apply H. lia. Qed.

Lemma rd_mapped n m a : is_Some (rd n m a) <-> mapped m a (Z.of_nat n).
Proof.
  revert a. induction n as [|n IH]; intros a; simpl.
  - split; [intros _ x ?; lia | by eauto].
  - specialize (IH (a + 1)). destruct (m !! a) as [c|] eqn:E.
    + destruct (rd n m (a + 1)) as [r|].
      * split; [|by eauto]. intros _ x Hx.
        destruct (decide (x = a)) as [->|]; [by eauto|].
        apply IH; [by eauto|lia].
      * split; [by intros []|]. intros H. exfalso.
        destruct (proj2 IH) as [? ?]; [|done]. intros x Hx. apply H. lia.
    + split; [by intros []|]. intros H. destruct (H a ltac:(lia)) as [? ?]. congruence.
Qed.

Lemma rd_Some n m a : mapped m a (Z.of_nat n) -> exists v, rd n m a = Some v.
Proof. intros H%rd_mapped. destruct H as [v ?]. by eauto. Qed.

Lemma rd_Some_mapped n m a v : rd n m a = Some v -> mapped m a (Z.of_nat n).
Proof. intros H. apply rd_mapped. by rewrite H. Qed.

Lemma rd_range n m a v : rd n m a = Some v -> 0 <= v < 2 ^ (8 * Z.of_nat n).
Proof.
  revert a v. induction n as [|n IH]; intros a v; simpl rd.
  - intros [= <-]. lia.
  - destruct (m !! a) as [c|]; [|done].
    destruct (rd n m (a + 1)) as [r|] eqn:E; [|done]. intros [= <-].
    specialize (IH _ _ E). pose proof (byte_Z_range c).
    replace (8 * Z.of_nat (S n)) with (8 + 8 * Z.of_nat n) by lia.
    rewrite Z.pow_add_r by lia. lia.
Qed.

Lemma rd_ext n m m' a :
  (forall x, a <= x < a + Z.of_nat n -> m' !! x = m !! x) -> rd n m' a = rd n m a.
Proof.
  revert a. induction n as [|n IH]; intros a H; simpl; [done|].
  rewrite H by lia. by rewrite IH by (intros; apply H; lia).
Qed.

(** A copy of a word. *)
Lemma rd_copy n m m' a b :
  (forall j, 0 <= j < Z.of_nat n -> m' !! (a + j) = m !! (b + j)) -> rd n m' a = rd n m b.
Proof.
  revert a b. induction n as [|n IH]; intros a b H; simpl; [done|].
  pose proof (H 0 ltac:(lia)) as H0. rewrite !Z.add_0_r in H0. rewrite H0, (IH (a + 1) (b + 1)); [done|].
  intros j Hj. rewrite <- !Z.add_assoc. apply H. lia.
Qed.

Lemma lookup_wr_out n m a v x :
  ~ (a <= x < a + Z.of_nat n) -> wr n m a v !! x = m !! x.
Proof.
  revert a v. induction n as [|n IH]; intros a v Hx; simpl; [done|].
  rewrite lookup_insert_ne by lia. apply IH. lia.
Qed.

Lemma lookup_wr_in n m a v x :
  a <= x < a + Z.of_nat n ->
  wr n m a v !! x = Some (Z_byte (v / 2 ^ (8 * (x - a)))).
Proof.
  revert a v. induction n as [|n IH]; intros a v Hx; simpl; [lia|].
  destruct (decide (x = a)) as [->|].
  - rewrite lookup_insert_eq, Z.sub_diag. by rewrite Z.div_1_r.
  - rewrite lookup_insert_ne, IH by lia. do 2 f_equal.
    rewrite Z.div_div by lia. f_equal. change 256 with (2 ^ 8).
    rewrite <- Z.pow_add_r by lia. f_equal. lia.
Qed.

Lemma mapped_wr n m a v b k :
  mapped m b k -> mapped (wr n m a v) b k.
Proof.
  intros H x Hx. destruct (decide (a <= x < a + Z.of_nat n)).
  - rewrite lookup_wr_in by lia. by eauto.
  - rewrite lookup_wr_out by lia. by apply H.
Qed.

Lemma rd_wr_same n m a v : rd n (wr n m a v) a = Some (v mod 2 ^ (8 * Z.of_nat n)).
Proof.
  revert a v. induction n as [|n IH]; intros a v; simpl rd; simpl wr.
  - by rewrite Z.mod_1_r.
  - rewrite lookup_insert_eq.
    rewrite (rd_ext n (wr n m (a + 1) (v / 256))), IH.
    2:{ intros x Hx. rewrite lookup_insert_ne by lia. done. }
    rewrite byte_Z_Z_byte. f_equal.
    replace (8 * Z.of_nat (S n)) with (8 + 8 * Z.of_nat n) by lia.
    rewrite Z.pow_add_r by lia. change (2 ^ 8) with 256.
    rewrite Z.rem_mul_r by lia. lia.
Qed.

Lemma rd_wr_ne n m a n' b v :
  a + Z.of_nat n <= b \/ b + Z.of_nat n' <= a ->
  rd n (wr n' m b v) a = rd n m a.
Proof. intros H. apply rd_ext. intros x Hx. apply lookup_wr_out. lia. Qed.

Lemma same_outside_refl a k m : same_outside a k m m.
Proof. done. Qed.

Lemma same_outside_trans a k m1 m2 m3 :
  same_outside a k m1 m2 -> same_outside a k m2 m3 -> same_outside a k m1 m3.
Proof.
  intros [D1 E1] [D2 E2]. split; intros x.
  - by rewrite D2, D1.
  - intros Hx. by rewrite E2, E1.
Qed.

Lemma same_outside_weaken a k b j m m' :
  same_outside a k m m' -> b <= a -> a + k <= b + j -> same_outside b j m m'.
Proof. intros [D E] ? ?. split; [done|]. intros x Hx. apply E. lia. Qed.

Lemma same_outside_wr n m a v :
  mapped m a (Z.of_nat n) -> same_outside a (Z.of_nat n) m (wr n m a v).
Proof.
  intros H. split.
  - intros x. destruct (decide (a <= x < a + Z.of_nat n)).
    + rewrite lookup_wr_in by done. split; [by intros; apply H|by eauto].
    + by rewrite lookup_wr_out.
  - intros x Hx. by apply lookup_wr_out.
Qed.

Lemma same_outside_rd a k m m' n b :
  same_outside a k m m' -> b + Z.of_nat n <= a \/ a + k <= b ->
  rd n m' b = rd n m b.
Proof. intros [_ E] H. apply rd_ext. intros x Hx. apply E. lia. Qed.

Lemma same_outside_mapped a k m m' b j :
  same_outside a k m m' -> mapped m b j -> mapped m' b j.
Proof. intros [D _] H x Hx. apply D. by apply H. Qed.

(** A one-byte read is a lookup. *)
Lemma rd1_byte m a c : rd 1 m a = Some c <-> m !! a = Some (Z_byte c) /\ 0 <= c < 256.
Proof.
  simpl. destruct (m !! a) as [b|].
  - rewrite Z.mul_0_r, Z.add_0_r. split.
    + intros [= <-]. rewrite Z_byte_byte_Z. by split; [|apply byte_Z_range].
    + intros [[= ->] ?]. by rewrite byte_Z_Z_byte, Z.mod_small.
  - by split; [|intros []].
Qed.

Lemma wr1_insert m a v : wr 1 m a v = <[a := Z_byte v]> m.
Proof. done. Qed.

Lemma rd_zero n m a :
  (forall x, a <= x < a + Z.of_nat n -> m !! x = Some Byte.x00) -> rd n m a = Some 0.
Proof.
  revert a. induction n as [|n IH]; intros a H; simpl; [done|].
  rewrite H by lia. by rewrite IH by (intros x Hx; apply H; lia).
Qed.

End memory.
#[global] Arguments rd : simpl never.
#[global] Arguments wr : simpl never.

#[export] Hint Resolve same_outside_refl mapped_wr : kernel.

(** Storing back the word that was read restores the memory. *)
Lemma wr_rd_id n (m : gmap Z byte) a v : rd n m a = Some v -> wr n m a v = m.
Proof.
  revert a v. induction n as [|n IH]; intros a v; [done|]. unfold rd, wr; fold rd wr.
  destruct (m !! a) as [c|] eqn:Ec; [|done].
  destruct (rd n m (a + 1)) as [r|] eqn:Er; [|done]. intros [= <-].
  pose proof (byte_Z_range c).
  replace ((byte_Z c + 256 * r) / 256) with r by zlia.
  rewrite IH by done. apply insert_id. rewrite Ec. f_equal.
  rewrite <- (Z_byte_byte_Z c) at 1. apply byte_Z_inj. rewrite !byte_Z_Z_byte. zlia.
Qed.

(** A store to the same place overwrites an earlier one. *)
Lemma wr_wr_same n (m : gmap Z byte) a v w : wr n (wr n m a v) a w = wr n m a w.
Proof.
  apply map_eq. intros x. destruct (decide (a <= x < a + Z.of_nat n)).
  - by rewrite !lookup_wr_in by done.
  - by rewrite !lookup_wr_out by done.
Qed.

(** * Globals *)

(** The observable equality of globals: an absent entry and a 0 are the same. *)
Definition same_globals (s s' : kstate) : Prop := forall v, gval s' v = gval s v.

Section globals.
Implicit Types (s : kstate) (v w : gvar).

Lemma gval_with_glob_eq s v x : gval (with_glob s v x) v = x.
Proof. unfold gval. simpl. by rewrite lookup_insert_eq. Qed.
Lemma gval_with_glob_ne s v w x : v <> w -> gval (with_glob s v x) w = gval s w.
Proof. intros H. unfold gval. simpl. by rewrite lookup_insert_ne. Qed.
Lemma gval_with_mem s m v : gval (with_mem s m) v = gval s v.
Proof. done. Qed.

#[export] Instance same_globals_equiv : Equivalence same_globals.
Proof.
  split; unfold same_globals; [done|by intros ? ? H v; rewrite H|].
  intros s1 s2 s3 H1 H2 v. by rewrite H2, H1.
Qed.

Lemma same_globals_mem s m : same_globals s (with_mem s m).
Proof. done. Qed.

Lemma with_mem_mem s m m' : with_mem (with_mem s m) m' = with_mem s m'.
Proof. done. Qed.

End globals.

(** * Rules of total correctness *)

Section wp.
Context {A B : Type}.
Implicit Types (s : kstate) (Q : A -> kstate -> Prop).

Lemma wp_Ok (c : K A) Q s : wp c Q s <-> exists a s', c s = Ok a s' /\ Q a s'.
Proof.
  unfold wp. destruct (c s); split; try (intros []; fail); eauto.
  all: by intros (? & ? & ? & ?); simplify_eq.
Qed.

Lemma wp_mono (c : K A) Q Q' s :
  wp c Q s -> (forall a s', Q a s' -> Q' a s') -> wp c Q' s.
Proof. unfold wp. destruct (c s); eauto. Qed.

Lemma wp_eq (c : K A) Q s a s' : c s = Ok a s' -> Q a s' -> wp c Q s.
Proof. unfold wp. by intros ->. Qed.

Lemma wp_ret a Q s : Q a s -> wp (mret a) Q s.
Proof. done. Qed.

Lemma wp_bind (c : K B) (f : B -> K A) Q s :
  wp c (fun b s' => wp (f b) Q s') s -> wp (c ≫= f) Q s.
Proof. unfold wp, mbind, K_bind. by destruct (c s). Qed.

Lemma bind_Ok (c : K B) (f : B -> K A) s b s' : c s = Ok b s' -> (c ≫= f) s = f b s'.
Proof. unfold mbind, K_bind. by intros ->. Qed.

Lemma bind_assoc_Ok {C} (c : K C) (d : K B) (f : B -> K A) s b s' :
  (c ;; d) s = Ok b s' -> (c ;; (d ≫= f)) s = f b s'.
Proof.
  unfold mbind, K_bind. destruct (c s) as [? s1| | |]; try done. by intros ->.
Qed.

Lemma printf_then fmt args (k : K A) s :
  (printf fmt args ;; k) s = k (KState (mem s) (glob s) (trace s ++ [EvPrintf fmt args])).
Proof. done. Qed.

End wp.

Section wp_prim.
Implicit Types (s : kstate).

Lemma wp_ld n a v Q s : rd n (mem s) a = Some v -> Q v s -> wp (ld n a) Q s.
Proof. unfold wp, ld. by intros ->. Qed.

Lemma st_ok n a v s :
  mapped (mem s) a (Z.of_nat n) -> st n a v s = Ok tt (with_mem s (wr n (mem s) a v)).
Proof. intros H%rd_mapped. unfold st. by destruct H as [? ->]. Qed.

Lemma ld_ok n a v s : rd n (mem s) a = Some v -> ld n a s = Ok v s.
Proof. unfold ld. by intros ->. Qed.

Lemma wp_st n a v Q s :
  mapped (mem s) a (Z.of_nat n) -> Q tt (with_mem s (wr n (mem s) a v)) -> wp (st n a v) Q s.
Proof. intros H%rd_mapped. unfold wp, st. by destruct H as [? ->]. Qed.

Lemma wp_gget v Q s : Q (gval s v) s -> wp (gget v) Q s.
Proof. done. Qed.

Lemma wp_gput v x Q s : Q tt (with_glob s v x) -> wp (gput v x) Q s.
Proof. done. Qed.

Lemma wp_kassert b Q s : b = true -> Q tt s -> wp (kassert b) Q s.
Proof. by intros ->. Qed.

Lemma wp_kfor_n (I : Z -> kstate -> Prop) n i body (Q : unit -> kstate -> Prop) s :
  I i s ->
  (forall j s', i <= j < i + Z.of_nat n -> I j s' -> wp (body j) (fun _ s'' => I (j + 1) s'') s') ->
  (forall s', I (i + Z.of_nat n) s' -> Q tt s') ->
  wp (kfor_n n i body) Q s.
Proof.
  revert i s. induction n as [|n IH]; intros i s Hi Hb HQ; simpl.
  - apply wp_ret, HQ. by rewrite Z.add_0_r.
  - apply wp_bind. eapply wp_mono; [apply Hb; [lia|done]|].
    intros [] s' Hs'. apply IH; [done| |].
    + intros j s'' Hj. apply Hb. lia.
    + intros s'' H. apply HQ. by replace (i + Z.of_nat (S n)) with (i + 1 + Z.of_nat n) by lia.
Qed.

Lemma wp_kfor (I : Z -> kstate -> Prop) lo hi body (Q : unit -> kstate -> Prop) s :
  lo <= hi ->
  I lo s ->
  (forall j s', lo <= j < hi -> I j s' -> wp (body j) (fun _ s'' => I (j + 1) s'') s') ->
  (forall s', I hi s' -> Q tt s') ->
  wp (kfor lo hi body) Q s.
Proof.
  intros Hle Hi Hb HQ. unfold kfor. apply (wp_kfor_n I); [done| |].
  - intros j s' Hj. apply Hb. lia.
  - intros s'. replace (lo + Z.of_nat (Z.to_nat (hi - lo))) with hi by lia. apply HQ.
Qed.

Lemma kfor_empty lo hi body s : hi <= lo -> kfor lo hi body s = Ok tt s.
Proof. intros H. unfold kfor. by replace (Z.to_nat (hi - lo)) with O by lia. Qed.

End wp_prim.

(** * While loops *)

Section loops.
Context {X R : Type} (body : X -> K (X + R)).
Implicit Types (x : X) (v : R) (s : kstate).

(** [n] rounds lead from [x] and [s] to an exit with [v] in [s']. *)
Inductive runs : nat -> X -> kstate -> R -> kstate -> Prop :=
  | runs_exit x s v s' : body x s = Ok (inr v) s' -> runs 1 x s v s'
  | runs_next n x s x' s' v s'' :
      body x s = Ok (inl x') s' -> runs n x' s' v s'' -> runs (S n) x s v s''.

(** [n] rounds without an exit. *)
Inductive rounds : nat -> X -> kstate -> X -> kstate -> Prop :=
  | rounds_0 x s : rounds 0 x s x s
  | rounds_S n x s x' s' x'' s'' :
      body x s = Ok (inl x') s' -> rounds n x' s' x'' s'' -> rounds (S n) x s x'' s''.

Lemma kiter_runs p n x s v s' :
  runs n x s v s' ->
  ((n <= Pos.to_nat p)%nat -> kiter p body x s = Ok (inr v) s') /\
  ((Pos.to_nat p < n)%nat -> exists x1 s1,
     kiter p body x s = Ok (inl x1) s1 /\ runs (n - Pos.to_nat p) x1 s1 v s').
Proof.
  revert n x s. induction p as [q IH|q IH|]; intros n x s Hr; simpl kiter.
  - rewrite Pos2Nat.inj_xI. pose proof (Pos2Nat.is_pos q). destruct Hr as [x s v s' E|n x s x1 s1 v s' E Hr].
    { rewrite (bind_Ok _ _ _ _ _ E). split; [done|lia]. }
    rewrite (bind_Ok _ _ _ _ _ E). destruct (IH n x1 s1 Hr) as [H1 H2].
    destruct (decide (n <= Pos.to_nat q)%nat) as [Hn|Hn].
    { rewrite (bind_Ok _ _ _ _ _ (H1 Hn)). split; [done|lia]. }
    destruct H2 as (x2 & s2 & E2 & Hr2); [lia|]. rewrite (bind_Ok _ _ _ _ _ E2).
    destruct (IH _ x2 s2 Hr2) as [H3 H4]. split; [intros; apply H3; lia|].
    intros Hlt. destruct H4 as (x3 & s3 & E3 & Hr3); [lia|]. exists x3, s3. split; [done|].
    by replace (S n - S (2 * Pos.to_nat q))%nat with (n - Pos.to_nat q - Pos.to_nat q)%nat by lia.
  - rewrite Pos2Nat.inj_xO. pose proof (Pos2Nat.is_pos q). destruct (IH n x s Hr) as [H1 H2].
    destruct (decide (n <= Pos.to_nat q)%nat) as [Hn|Hn].
    { rewrite (bind_Ok _ _ _ _ _ (H1 Hn)). split; [done|lia]. }
    destruct H2 as (x2 & s2 & E2 & Hr2); [lia|]. rewrite (bind_Ok _ _ _ _ _ E2).
    destruct (IH _ x2 s2 Hr2) as [H3 H4]. split; [intros; apply H3; lia|].
    intros Hlt. destruct H4 as (x3 & s3 & E3 & Hr3); [lia|]. exists x3, s3. split; [done|].
    by replace (n - 2 * Pos.to_nat q)%nat with (n - Pos.to_nat q - Pos.to_nat q)%nat by lia.
  - change (Pos.to_nat 1) with 1%nat. destruct Hr as [x s v s' E|n x s x1 s1 v s' E Hr].
    + split; [done|lia].
    + split; [destruct Hr; lia|]. intros _. exists x1, s1. split; [done|].
      by replace (S n - 1)%nat with n by lia.
Qed.

Lemma kloop_runs n x s v s' :
  runs n x s v s' -> Z.of_nat n <= 2 ^ 64 -> kloop body x s = Ok v s'.
Proof.
  intros Hr Hn. unfold kloop. destruct (kiter_runs loop_bound n x s v s' Hr) as [H _].
  rewrite (bind_Ok _ _ s (inr v) s'); [done|]. apply H.
  apply Nat2Z.inj_le. rewrite positive_nat_Z. unfold loop_bound. lia.
Qed.

Lemma rounds_runs k n x s x' s' v s'' :
  rounds k x s x' s' -> runs n x' s' v s'' -> runs (k + n) x s v s''.
Proof. induction 1; simpl; [done|]. intros Hr. econstructor; eauto. Qed.

End loops.

(** Symbolic execution: one [wp] rule per step, in the order of the code. *)
Ltac wstep :=
  match goal with
  | |- wp (mret _) _ _ => apply wp_ret
  | |- wp (_ ≫= _) _ _ => apply wp_bind
  | |- wp (gget _) _ _ => apply wp_gget
  | |- wp (gput _ _) _ _ => apply wp_gput
  | |- wp (ld _ _) _ _ => eapply wp_ld
  | |- wp (st _ _ _) _ _ => apply wp_st
  | |- wp (kassert _) _ _ => apply wp_kassert
  end.
