(* ===== verification/Lock.v ===== *)
(** The spinlocks of [lib/lock.h] and [lib/lock.c].

    [Seq]: the operations as one core executes them, in the kernel monad.  A
    lock is either a global (its word is a [gvar]) or a [spinlock_t] inside a
    structure in memory.  While a core runs alone nobody else releases the
    lock, so an acquire of a held lock ends in the deadlock assertion.

    [Conc]: any number of cores that interleave the atomic steps of the same
    operations on one lock word, as a step relation, with mutual exclusion. *)
From S2P Require Import Prelude Machine.

(** [__sync_bool_compare_and_swap]: the new word, and whether it was swapped. *)
Definition CAS (word expected new : Z) : Z * bool :=
  if word =? expected then (new, true) else (word, false).

(** The bound of the busy-wait loop: the 10000001st failure asserts. *)
Definition spin_limit : positive := 10000001.

Module Seq.

Inductive lockref :=
  | LG (v : gvar)
  | LM (a : Z).

(** The [int lock] field is the first member of [spinlock_t]. *)
Definition lock_read (l : lockref) : K Z :=
  match l with LG v => gget v | LM a => ld 4 a end.
Definition lock_write (l : lockref) (x : Z) : K unit :=
  match l with LG v => gput v x | LM a => st 4 a x end.

Definition spinlock_test_and_acq (l : lockref) : K bool :=
  w ← lock_read l;
  let '(w', ok) := CAS w 0 1 in
  lock_write l w' ;; mret ok.

(** [tries p c]: at most [p] attempts of [c], stopping at the first success. *)
Fixpoint tries (p : positive) (c : K bool) : K bool :=
  match p with
  | xH => c
  | xO q => b ← tries q c; if b : bool then mret true else tries q c
  | xI q =>
      b ← c; if b : bool then mret true else
      b ← tries q c; if b : bool then mret true else tries q c
  end.

Definition spinlock_acquire (l : lockref) : K unit :=
  b ← tries spin_limit (spinlock_test_and_acq l);
  if b : bool then mret tt else printf "%s deadlock" [] ;; kassert false.

Definition spinlock_release (l : lockref) : K unit :=
  w ← lock_read l;
  let '(w', _) := CAS w 1 0 in
  lock_write l w'.

(** The word of a lock in a state, and the state with another word. *)
Definition lock_val (s : kstate) (l : lockref) : option Z :=
  match l with LG v => Some (gval s v) | LM a => rd 4 (mem s) a end.
Definition lock_set (s : kstate) (l : lockref) (x : Z) : kstate :=
  match l with
  | LG v => with_glob s v x
  | LM a => with_mem s (wr 4 (mem s) a x)
  end.

Lemma lock_read_eq l s w : lock_val s l = Some w -> lock_read l s = Ok w s.
Proof. destruct l; simpl; [by intros [= <-]|]. unfold ld. by intros ->. Qed.

Lemma lock_write_eq l s w x : lock_val s l = Some w -> lock_write l x s = Ok tt (lock_set s l x).
Proof. destruct l; simpl; [done|]. unfold st. by intros ->. Qed.

Lemma test_and_acq_eq l s w :
  lock_val s l = Some w ->
  spinlock_test_and_acq l s =
    if w =? 0 then Ok true (lock_set s l 1) else Ok false (lock_set s l w).
Proof.
  intros H. unfold spinlock_test_and_acq.
  rewrite (bind_Ok _ _ _ _ _ (lock_read_eq _ _ _ H)). unfold CAS.
  by destruct (w =? 0); rewrite (bind_Ok _ _ _ _ _ (lock_write_eq _ _ _ _ H)).
Qed.

Lemma tries_success p c s s' : c s = Ok true s' -> tries p c s = Ok true s'.
Proof.
  intros H. induction p as [p IH|p IH|]; simpl; [| |done].
  - by rewrite (bind_Ok _ _ _ _ _ H).
  - by rewrite (bind_Ok _ _ _ _ _ IH).
Qed.

(** An attempt that fails without changing the state fails every time. *)
Lemma tries_failure p c s : c s = Ok false s -> tries p c s = Ok false s.
Proof.
  intros H. induction p as [p IH|p IH|]; simpl; [| |done].
  - by rewrite (bind_Ok _ _ _ _ _ H), (bind_Ok _ _ _ _ _ IH).
  - by rewrite (bind_Ok _ _ _ _ _ IH).
Qed.

Lemma acquire_free l s :
  lock_val s l = Some 0 -> spinlock_acquire l s = Ok tt (lock_set s l 1).
Proof.
  intros H. unfold spinlock_acquire. rewrite (bind_Ok _ _ s true (lock_set s l 1)); [done|].
  apply tries_success. by rewrite (test_and_acq_eq _ _ _ H).
Qed.

Lemma release_held l s :
  lock_val s l = Some 1 -> spinlock_release l s = Ok tt (lock_set s l 0).
Proof.
  intros H. unfold spinlock_release. rewrite (bind_Ok _ _ _ _ _ (lock_read_eq _ _ _ H)).
  apply (lock_write_eq _ _ _ _ H).
Qed.

Lemma wp_acquire_g v (Q : unit -> kstate -> Prop) s :
  gval s v = 0 -> Q tt (with_glob s v 1) -> wp (spinlock_acquire (LG v)) Q s.
Proof. intros H HQ. eapply wp_eq; [apply acquire_free; simpl; by rewrite H|done]. Qed.

Lemma wp_release_g v (Q : unit -> kstate -> Prop) s :
  gval s v = 1 -> Q tt (with_glob s v 0) -> wp (spinlock_release (LG v)) Q s.
Proof. intros H HQ. eapply wp_eq; [apply release_held; simpl; by rewrite H|done]. Qed.

Lemma wp_acquire_m a (Q : unit -> kstate -> Prop) s :
  rd 4 (mem s) a = Some 0 -> Q tt (with_mem s (wr 4 (mem s) a 1)) ->
  wp (spinlock_acquire (LM a)) Q s.
Proof. intros H HQ. eapply wp_eq; [by apply acquire_free|done]. Qed.

Lemma wp_release_m a (Q : unit -> kstate -> Prop) s :
  rd 4 (mem s) a = Some 1 -> Q tt (with_mem s (wr 4 (mem s) a 0)) ->
  wp (spinlock_release (LM a)) Q s.
Proof. intros H HQ. eapply wp_eq; [by apply release_held|done]. Qed.

(** Writing back the value a lock holds changes nothing that can be observed. *)
Lemma lock_val_set_self l s w x :
  lock_val s l = Some w -> 0 <= x < 2 ^ 32 -> lock_val (lock_set s l x) l = Some x.
Proof.
  intros H Hx. destruct l; simpl; [by rewrite gval_with_glob_eq|].
  rewrite rd_wr_same. f_equal. by apply Z.mod_small.
Qed.

(** The deadlock assertion: acquiring a held lock on a lone core halts it. *)
Lemma acquire_held_global v s w :
  gval s v = w -> w <> 0 -> glob s !! v = Some w -> spinlock_acquire (LG v) s = Halt.
Proof.
  intros Hw Hne Hg. unfold spinlock_acquire. rewrite (bind_Ok _ _ s false s).
  2:{ apply tries_failure. rewrite (test_and_acq_eq _ _ w) by (simpl; by rewrite Hw).
      destruct (Z.eqb_spec w 0); [done|]. f_equal. unfold lock_set, with_glob.
      rewrite insert_id by done. by destruct s. }
  done.
Qed.

Lemma acquire_held_mem a s w :
  rd 4 (mem s) a = Some w -> w <> 0 -> spinlock_acquire (LM a) s = Halt.
Proof.
  intros Hw Hne. unfold spinlock_acquire. rewrite (bind_Ok _ _ s false s).
  2:{ apply tries_failure. rewrite (test_and_acq_eq _ _ w) by done.
      destruct (Z.eqb_spec w 0); [done|]. f_equal. unfold lock_set, with_mem.
      rewrite wr_rd_id by done. by destruct s. }
  done.
Qed.

Lemma gval_nonzero_lookup s v w : gval s v = w -> w <> 0 -> glob s !! v = Some w.
Proof. unfold gval. destruct (glob s !! v); simpl; [by intros ->|by intros <-]. Qed.

(** Acquire on one core: a free lock is taken, a held lock halts the core. *)
Lemma acquire_cases l s w :
  lock_val s l = Some w ->
  spinlock_acquire l s = if w =? 0 then Ok tt (lock_set s l 1) else Halt.
Proof.
  intros H. destruct (Z.eqb_spec w 0) as [->|Hne]; [by apply acquire_free|].
  destruct l as [v|a]; simpl in H.
  - injection H as H. by apply (acquire_held_global _ _ w), gval_nonzero_lookup.
  - by apply (acquire_held_mem _ _ w).
Qed.

End Seq.

Module Conc.

(** Where a core is in [spinlock_acquire; critical section; spinlock_release]:
    [Spin n] has failed [n] times. *)
Inductive pc := Idle | Spin (spinlock_count : Z) | Crit | Dead.

Record lstate := LState { word : Z; cores : gmap nat pc }.

Definition try_acquire (w n : Z) : Z * pc :=
  let '(w', ok) := CAS w 0 1 in
  (w', if ok : bool then Crit else if 10000000 <? n + 1 then Dead else Spin (n + 1)).

(** One atomic step of one core. *)
Inductive step : lstate -> lstate -> Prop :=
  | step_begin w c i :
      c !! i = Some Idle ->
      step (LState w c) (LState w (<[i := Spin 0]> c))
  | step_try w c i n :
      c !! i = Some (Spin n) ->
      step (LState w c)
        (LState (try_acquire w n).1 (<[i := (try_acquire w n).2]> c))
  | step_release w c i :
      c !! i = Some Crit ->
      step (LState w c) (LState (CAS w 1 0).1 (<[i := Idle]> c)).

Definition init (n : nat) : lstate :=
  LState 0 (list_to_map ((fun i => (i, Idle)) <$> seq 0 n)).

(** The lock word is 1 exactly while some core is inside, and the cores inside
    are one core. *)
Definition lock_inv (x : lstate) : Prop :=
  (word x = 0 /\ forall i, cores x !! i <> Some Crit) \/
  (word x = 1 /\ exists i, cores x !! i = Some Crit /\
     forall j, cores x !! j = Some Crit -> j = i).

Definition count_inv (x : lstate) : Prop :=
  forall i n, cores x !! i = Some (Spin n) -> 0 <= n <= 10000000.

Lemma init_cores n i p : cores (init n) !! i = Some p -> p = Idle.
Proof.
  simpl. intros H%elem_of_list_to_map_2.
  apply list_elem_of_fmap in H as (? & [= <- ->] & _). done.
Qed.

Lemma init_inv n : lock_inv (init n).
Proof. left. split; [done|]. by intros i H%init_cores. Qed.

Lemma step_inv x y : step x y -> lock_inv x -> lock_inv y.
Proof.
  unfold lock_inv. destruct 1 as [w c i Hi|w c i n Hi|w c i Hi]; simpl; intros Hinv.
  - destruct Hinv as [[-> Hn]|(-> & k & Hk & Hu)].
    + left. split; [done|]. intros j.
      destruct (decide (i = j)) as [->|]; simplify_map_eq; [done|auto].
    + right. split; [done|]. exists k.
      assert (i <> k) by congruence. split; [by simplify_map_eq|].
      intros j. destruct (decide (i = j)) as [->|]; simplify_map_eq; [done|auto].
  - unfold try_acquire, CAS. destruct Hinv as [[-> Hn]|(-> & k & Hk & Hu)]; simpl.
    + right. split; [done|]. exists i. split; [by simplify_map_eq|].
      intros j. destruct (decide (i = j)) as [->|]; simplify_map_eq; [done|].
      intros Hj. by destruct (Hn j).
    + right. split; [done|]. exists k. assert (i <> k) by congruence.
      split; [by simplify_map_eq|].
      intros j. destruct (decide (i = j)) as [->|]; simplify_map_eq; [|by auto].
      by case_match.
  - destruct Hinv as [[_ Hn]|(-> & k & Hk & Hu)]; [by destruct (Hn i)|].
    left. split; [done|]. intros j. destruct (decide (i = j)) as [->|];
      simplify_map_eq; [done|]. intros Hj.
    by rewrite (Hu i Hi), (Hu j Hj) in *.
Qed.

Lemma step_count_inv x y : step x y -> count_inv x -> count_inv y.
Proof.
  unfold count_inv. destruct 1 as [w c i Hi|w c i n Hi|w c i Hi]; simpl; intros Hinv j k.
  all: destruct (decide (i = j)) as [->|]; [rewrite lookup_insert_eq|rewrite lookup_insert_ne by done; eauto].
  - intros [= <-]. lia.
  - specialize (Hinv j n Hi). unfold try_acquire, CAS.
    repeat zcase; simpl; try done. intros [= <-]. lia.
  - done.
Qed.

Lemma reachable_inv n x : rtc step (init n) x -> lock_inv x.
Proof.
  apply (rtc_ind_r lock_inv (init n)); [apply init_inv|]. intros y z _ H Hy. by eapply step_inv.
Qed.

Lemma reachable_count n x : rtc step (init n) x -> count_inv x.
Proof.
  apply (rtc_ind_r count_inv (init n)).
  - intros i k H. by apply init_cores in H.
  - intros y z _ H Hy. by eapply step_count_inv.
Qed.

End Conc.

(** * Properties *)

(** C26: mutual exclusion.  However [n] cores interleave the atomic steps of
    acquire and release, at most one of them is in its critical section, and
    the lock word says whether one is. *)
Theorem spinlock_mutual_exclusion n x i j :
  rtc Conc.step (Conc.init n) x ->
  Conc.cores x !! i = Some Conc.Crit -> Conc.cores x !! j = Some Conc.Crit ->
  i = j /\ Conc.word x = 1.
Proof.
  intros H Hi Hj. destruct (Conc.reachable_inv _ _ H) as [[_ Hn]|(Hw & k & _ & Hu)].
  - by destruct (Hn i).
  - by rewrite (Hu i Hi), (Hu j Hj).
Qed.

(** The run that lets core 0 enter its critical section. *)
Definition run_enter : Conc.lstate :=
  Conc.LState 1 (<[0%nat := Conc.Crit]> (<[0%nat := Conc.Spin 0]> (Conc.cores (Conc.init 2)))).

Lemma run_enter_reachable : rtc Conc.step (Conc.init 2) run_enter.
Proof.
  eapply rtc_l; [by apply (Conc.step_begin 0 _ 0%nat)|].
  eapply rtc_l; [by apply (Conc.step_try 0 _ 0%nat 0)|]. apply rtc_refl.
Qed.

Lemma spinlock_mutual_exclusion_witness :
  Conc.cores run_enter !! 0%nat = Some Conc.Crit /\ (0 = 0)%nat /\ Conc.word run_enter = 1.
Proof.
  split; [reflexivity|].
  apply (spinlock_mutual_exclusion 2 run_enter 0 0 run_enter_reachable); reflexivity.
Defined.

(** No spurious deadlock report.  A core that waits is only declared dead
    by the attempt after ten million failed ones, and when the lock is free
    its next attempt enters the critical section. *)
Theorem spinlock_deadlock_only_after_limit n x i k :
  rtc Conc.step (Conc.init n) x -> Conc.cores x !! i = Some (Conc.Spin k) ->
  (Conc.word x = 0 -> Conc.try_acquire (Conc.word x) k = (1, Conc.Crit)) /\
  (Conc.word x <> 0 ->
     Conc.try_acquire (Conc.word x) k =
       (Conc.word x, if k =? 10000000 then Conc.Dead else Conc.Spin (k + 1))).
Proof.
  intros H Hi. pose proof (Conc.reachable_count _ _ H i k Hi) as Hk.
  unfold Conc.try_acquire, CAS. split; intros Hw; repeat zcase; done || lia.
Qed.

Lemma spinlock_deadlock_only_after_limit_witness :
  exists x, rtc Conc.step (Conc.init 1) x /\ Conc.cores x !! 0%nat = Some (Conc.Spin 0) /\
    Conc.try_acquire (Conc.word x) 0 = (1, Conc.Crit).
Proof.
  assert (R : rtc Conc.step (Conc.init 1)
    (Conc.LState 0 (<[0%nat := Conc.Spin 0]> (Conc.cores (Conc.init 1))))).
  { apply rtc_once. by apply Conc.step_begin. }
  eexists. split; [exact R|]. split; [reflexivity|].
  apply (proj1 (spinlock_deadlock_only_after_limit 1 _ 0 0 R eq_refl)). reflexivity.
Defined.

(** Acquire on a core that runs alone.  A free lock is taken and nothing
    else changes; a lock that is held is never obtained and ends in the
    deadlock assertion, which halts the core. *)
Theorem spinlock_acquire_outcome l s w :
  Seq.lock_val s l = Some w ->
  Seq.spinlock_acquire l s = if w =? 0 then Ok tt (Seq.lock_set s l 1) else Halt.
Proof. apply Seq.acquire_cases. Qed.

Lemma spinlock_acquire_outcome_witness :
  Seq.spinlock_acquire (Seq.LG g_pmm_lock) (KState ∅ {[g_pmm_lock := 1]} []) = Halt.
Proof. apply (spinlock_acquire_outcome _ _ 1). reflexivity. Defined.

(** A critical section on a lone core is balanced: acquiring a free lock
    and releasing it leaves the word 0 and the memory as it was. *)
Theorem spinlock_acquire_release l s :
  Seq.lock_val s l = Some 0 ->
  exists s', (Seq.spinlock_acquire l ;; Seq.spinlock_release l) s = Ok tt s' /\
    Seq.lock_val s' l = Some 0 /\ mem s' = mem s /\ same_globals s s'.
Proof.
  intros H. exists (Seq.lock_set (Seq.lock_set s l 1) l 0).
  assert (H1 : Seq.lock_val (Seq.lock_set s l 1) l = Some 1)
    by (apply (Seq.lock_val_set_self _ _ 0); [done|lia]).
  split; [|split; [|split]].
  - rewrite (bind_Ok _ _ _ _ _ (Seq.acquire_free _ _ H)). by apply Seq.release_held.
  - apply (Seq.lock_val_set_self _ _ 1); [done|lia].
  - destruct l as [v|a]; simpl; [done|]. by rewrite wr_wr_same, wr_rd_id.
  - destruct l as [v|a]; simpl in *; [|done]. intros u. injection H as H.
    destruct (decide (v = u)) as [->|]; [by rewrite gval_with_glob_eq|].
    by rewrite !gval_with_glob_ne.
Qed.

Lemma spinlock_acquire_release_witness :
  exists s', (Seq.spinlock_acquire (Seq.LG g_vmm_lock) ;; Seq.spinlock_release (Seq.LG g_vmm_lock))
      (KState ∅ ∅ []) = Ok tt s' /\
    Seq.lock_val s' (Seq.LG g_vmm_lock) = Some 0 /\ mem s' = ∅ /\
    same_globals (KState ∅ ∅ []) s'.
Proof. apply (spinlock_acquire_release (Seq.LG g_vmm_lock) (KState ∅ ∅ [])). reflexivity. Defined.
