(* ===== verification/Str.v ===== *)
(** The string and memory routines of [lib/str.c].

    Strings are C strings in memory; [cstr m a l] says that the bytes [l], none
    of them NUL, and a terminating NUL are stored at [a].  Every scan of a string
    runs with the number of mapped bytes as its bound, which [strlen_never_nofuel]
    shows to be enough: a scan that never meets its terminator leaves the mapped
    memory first.  [strdup], which allocates, is in [Heap]. *)
From S2P Require Import Prelude Machine.

Definition NULL : Z := 0.

(** A scan over memory, run with the number of mapped bytes as its bound. *)
Definition scan {A} (f : nat -> K A) : K A := fun s => f (S (size (mem s))) s.

(** [int ct]: the increment past [INT_MAX] is undefined. *)
Fixpoint strlen_loop (fuel : nat) (f ct : Z) : K Z :=
  match fuel with
  | O => nofuel
  | S fuel' =>
      c ← ld 1 (f + ct);
      if c =? 0 then mret ct
      else if ct =? 2 ^ 31 - 1 then fault
      else strlen_loop fuel' f (ct + 1)
  end.
Definition strlen (f : Z) : K Z := scan (fun fuel => strlen_loop fuel f 0).

Definition repr : list Z :=
  [48; 49; 50; 51; 52; 53; 54; 55; 56; 57; 97; 98; 99; 100; 101; 102; 0].

Section itoa.
(** The address of the function's static [buffer[50]]. *)
Variable buffer : Z.

(** The [do ... while]: one digit per round; a 64-bit number has at most 64. *)
Fixpoint itoa_loop (fuel : nat) (ptr num base : Z) : K Z :=
  match fuel with
  | O => nofuel
  | S fuel' =>
      if base =? 0 then fault else
      match repr !! Z.to_nat (num mod base) with
      | None => fault
      | Some d =>
          st 1 (ptr - 1) d ;;
          if num / base =? 0 then mret (ptr - 1)
          else itoa_loop fuel' (ptr - 1) (num / base) base
      end
  end.
(** [num % base] converts [base] to [uint64_t]. *)
Definition itoa (num base : Z) : K Z :=
  let ptr := buffer + 49 in
  st 1 ptr 0 ;; itoa_loop 64 ptr num (u64 base).

End itoa.

Definition memset (ptr n size : Z) : K unit :=
  kassert (negb (ptr =? NULL)) ;;
  kfor 0 size (fun i => st 1 (ptr + i) (u8 n)).

Fixpoint memcmp_loop (n : nat) (i s1 s2 : Z) : K Z :=
  match n with
  | O => mret 0
  | S n' =>
      p1 ← ld 1 (s1 + i); p2 ← ld 1 (s2 + i);
      if negb (p1 =? p2) then mret (if p1 <? p2 then -1 else 1)
      else memcmp_loop n' (i + 1) s1 s2
  end.
Definition memcmp (s1 s2 size : Z) : K Z := memcmp_loop (Z.to_nat size) 0 s1 s2.

Definition memcpy (dest src n : Z) : K unit :=
  kassert (negb (src =? NULL)) ;;
  kassert (negb (dest =? NULL)) ;;
  kfor 0 n (fun i => b ← ld 1 (src + i); st 1 (dest + i) b).

(** [bool]: [false] is 0, "same". *)
Definition strcmp (str1 str2 : Z) : K bool :=
  l1 ← strlen str1; l2 ← strlen str2;
  if negb (l1 =? l2) then mret true else
  l ← strlen str1; c ← memcmp str1 str2 l;
  mret (negb (c =? 0)).

Fixpoint strchr_loop (fuel : nat) (str c : Z) : K Z :=
  match fuel with
  | O => nofuel
  | S fuel' =>
      b ← ld 1 str;
      if b =? c then mret str
      else if b =? 0 then mret NULL
      else strchr_loop fuel' (str + 1) c
  end.
Definition strchr (str c : Z) : K Z := scan (fun fuel => strchr_loop fuel str c).

(** The scan of [strtok]; the position is the static [s], kept in [g_strtok_s]. *)
Fixpoint strtok_loop (fuel : nat) (token delim : Z) : K Z :=
  match fuel with
  | O => nofuel
  | S fuel' =>
      p ← gget g_strtok_s;
      c ← ld 1 p;
      if c =? 0 then gput g_strtok_s NULL ;; mret token
      else
        r ← strchr delim c;
        if negb (r =? NULL) then
          st 1 p 0 ;; gput g_strtok_s (p + 1) ;; mret token
        else gput g_strtok_s (p + 1) ;; strtok_loop fuel' token delim
  end.
Definition strtok (str delim : Z) : K Z :=
  (if negb (str =? NULL) then gput g_strtok_s str else mret tt) ;;
  p ← gget g_strtok_s;
  if p =? NULL then mret NULL
  else scan (fun fuel => strtok_loop fuel p delim).

Definition slash : Z := 47.

(** First loop of [basename]: erases trailing slashes. *)
Fixpoint basename_strip (i : nat) (s : Z) : K nat :=
  match i with
  | O => mret O
  | S i' =>
      c ← ld 1 (s + Z.of_nat i);
      if c =? slash then st 1 (s + Z.of_nat i) 0 ;; basename_strip i' s
      else mret i
  end.
(** Second loop: walks back to the character after the previous slash. *)
Fixpoint basename_back (i : nat) (s : Z) : K nat :=
  match i with
  | O => mret O
  | S i' =>
      c ← ld 1 (s + (Z.of_nat i - 1));
      if negb (c =? slash) then basename_back i' s else mret i
  end.

Section basename.
(** The address of the string literal [.]. *)
Variable dot : Z.

Definition basename (s : Z) : K Z :=
  if s =? NULL then mret dot else
  c ← ld 1 s;
  if c =? 0 then mret dot else
  l ← strlen s;
  i ← basename_strip (Z.to_nat (u64 (l - 1))) s;
  j ← basename_back i s;
  mret (s + Z.of_nat j).

End basename.

(** * C strings *)

Definition cstr (m : gmap Z byte) (a : Z) (l : list byte) : Prop :=
  bytes_at m a (l ++ [Byte.x00]) /\ Byte.x00 ∉ l.

(** [m'] is [m] with the [n] bytes at [src] copied to [dest]. *)
Definition copied (m m' : gmap Z byte) (dest src n : Z) : Prop :=
  same_outside dest n m m' /\
  forall i, 0 <= i < n -> m' !! (dest + i) = m !! (src + i).

Definition filled (m m' : gmap Z byte) (dest n : Z) (b : byte) : Prop :=
  same_outside dest n m m' /\ forall i, 0 <= i < n -> m' !! (dest + i) = Some b.

Fixpoint lex (l1 l2 : list byte) : Z :=
  match l1, l2 with
  | b1 :: l1', b2 :: l2' =>
      if byte_Z b1 =? byte_Z b2 then lex l1' l2'
      else if byte_Z b1 <? byte_Z b2 then -1 else 1
  | _, _ => 0
  end.

(** The string [basename] returns for a non-empty path, read off the path: the
    last component after trailing slashes are dropped; [/] for a path of slashes. *)
Fixpoint drop_slashes (l : list byte) : list byte :=
  match l with
  | b :: l' => if byte_Z b =? slash then drop_slashes l' else l
  | [] => []
  end.
Fixpoint until_slash (l : list byte) : list byte :=
  match l with
  | b :: l' => if byte_Z b =? slash then [] else b :: until_slash l'
  | [] => []
  end.
Definition slash_byte : byte := Z_byte slash.
Definition base_of (l : list byte) : list byte :=
  match drop_slashes (rev l) with
  | [] => [slash_byte]
  | r => rev (until_slash r)
  end.

(** The components of [l] between delimiters, empty ones included. *)
Fixpoint split_on (ds l : list byte) : list (list byte) :=
  match l with
  | [] => [[]]
  | b :: l' =>
      if decide (b ∈ ds) then [] :: split_on ds l'
      else match split_on ds l' with [] => [[b]] | t :: ts => (b :: t) :: ts end
  end.

(** All tokens of a string, as a caller collects them: [strtok(str, delim)],
    then [strtok(NULL, delim)] until it returns [NULL]. *)
Fixpoint strtok_all (fuel : nat) (str delim : Z) : K (list Z) :=
  match fuel with
  | O => nofuel
  | S fuel' =>
      t ← strtok str delim;
      if t =? NULL then mret []
      else ts ← strtok_all fuel' NULL delim; mret (t :: ts)
  end.

(** The digits [ds] read as a number in [base], most significant first. *)
Definition val_digits (base : Z) (ds : list Z) : Z := foldl (fun acc d => acc * base + d) 0 ds.
Definition digit_byte (d : Z) : byte := Z_byte (default 0 (repr !! Z.to_nat d)).

(** The position of the first [c] in [l]. *)
Fixpoint find_byte (c : byte) (l : list byte) : option nat :=
  match l with
  | [] => None
  | b :: l' => if decide (b = c) then Some O else S <$> find_byte c l'
  end.

(** * Regions of memory *)

Section regions.
Implicit Types (m : gmap Z byte) (a n : Z) (l : list byte) (s : kstate).

Lemma mapped_size m a n : 0 <= n -> mapped m a n -> n <= Z.of_nat (size m).
Proof.
  intros Hn H. assert (Hsub : list_to_set (seqZ a n) ⊆ dom m).
  { intros x Hx. apply elem_of_list_to_set, elem_of_seqZ in Hx.
    apply elem_of_dom. by apply H. }
  apply subseteq_size in Hsub. rewrite size_dom in Hsub.
  rewrite size_list_to_set in Hsub by apply NoDup_seqZ.
  rewrite length_seqZ in Hsub. lia.
Qed.

Lemma bytes_at_nil m a : bytes_at m a [].
Proof. by intros i b H. Qed.

Lemma bytes_at_cons m a b l :
  bytes_at m a (b :: l) <-> m !! a = Some b /\ bytes_at m (a + 1) l.
Proof.
  split.
  - intros H. split.
    + rewrite <- (Z.add_0_r a). by apply (H 0%nat).
    + intros i c Hc. replace (a + 1 + Z.of_nat i) with (a + Z.of_nat (S i)) by lia. by apply H.
  - intros [H0 H1] [|i] c Hc; simpl in Hc; simplify_eq.
    + by rewrite Z.add_0_r.
    + replace (a + Z.of_nat (S i)) with (a + 1 + Z.of_nat i) by lia. by apply H1.
Qed.

Lemma bytes_at_app m a l1 l2 :
  bytes_at m a (l1 ++ l2) <-> bytes_at m a l1 /\ bytes_at m (a + Z.of_nat (length l1)) l2.
Proof.
  revert a. induction l1 as [|b l1 IH]; intros a; simpl.
  - rewrite Z.add_0_r. split; [intros; split; [apply bytes_at_nil|done]|by intros []].
  - rewrite !bytes_at_cons, IH.
    replace (a + 1 + Z.of_nat (length l1)) with (a + Z.of_nat (S (length l1))) by lia. tauto.
Qed.

Lemma bytes_at_mapped m a l : bytes_at m a l -> mapped m a (Z.of_nat (length l)).
Proof.
  intros H x Hx. destruct (lookup_lt_is_Some_2 l (Z.to_nat (x - a))) as [b Hb]; [lia|].
  apply H in Hb. replace (a + Z.of_nat (Z.to_nat (x - a))) with x in Hb by lia. by rewrite Hb.
Qed.

Lemma bytes_at_agree m m' a l :
  (forall x, a <= x < a + Z.of_nat (length l) -> m' !! x = m !! x) ->
  bytes_at m a l -> bytes_at m' a l.
Proof.
  intros E H i b Hb. pose proof (lookup_lt_Some _ _ _ Hb). rewrite E by lia. by apply H.
Qed.

Lemma bytes_at_outside m m' a n b l :
  same_outside a n m m' -> b + Z.of_nat (length l) <= a \/ a + n <= b ->
  bytes_at m b l -> bytes_at m' b l.
Proof. intros [_ E] H. apply bytes_at_agree. intros x Hx. apply E. lia. Qed.

Lemma bytes_at_ld s a l i b :
  bytes_at (mem s) a l -> l !! i = Some b -> ld 1 (a + Z.of_nat i) s = Ok (byte_Z b) s.
Proof.
  intros H Hb. unfold ld. apply H in Hb.
  rewrite (proj2 (rd1_byte _ _ (byte_Z b))); [done|].
  rewrite Z_byte_byte_Z. split; [done|apply byte_Z_range].
Qed.

(** Facts about [cstr]. *)
Lemma cstr_length m a l : cstr m a l -> Z.of_nat (length l) < Z.of_nat (size m).
Proof.
  intros [H _]. apply bytes_at_mapped in H. apply mapped_size in H; [|lia].
  rewrite length_app in H. simpl in H. lia.
Qed.

Lemma cstr_cons m a b l : cstr m a (b :: l) -> m !! a = Some b /\ b <> Byte.x00 /\ cstr m (a + 1) l.
Proof.
  intros [H1 H2]. simpl in H1. apply bytes_at_cons in H1 as [? ?].
  apply not_elem_of_cons in H2 as [? ?]. by repeat split.
Qed.

Lemma cstr_nil m a : cstr m a [] -> m !! a = Some Byte.x00.
Proof. intros [H _]. simpl in H. by apply bytes_at_cons in H as []. Qed.

Lemma cstr_push m a b l :
  cstr m a l -> b <> Byte.x00 -> cstr (<[a - 1 := b]> m) (a - 1) (b :: l).
Proof.
  intros [H1 H2] Hb. split; [|by apply not_elem_of_cons].
  simpl. apply bytes_at_cons. split; [by rewrite lookup_insert_eq|].
  replace (a - 1 + 1) with a by lia. eapply bytes_at_agree; [|done].
  intros x Hx. by rewrite lookup_insert_ne by lia.
Qed.

Lemma ld_byte s a b : mem s !! a = Some b -> ld 1 a s = Ok (byte_Z b) s.
Proof.
  intros H. unfold ld. rewrite (proj2 (rd1_byte _ _ (byte_Z b))); [done|].
  rewrite Z_byte_byte_Z. split; [done|apply byte_Z_range].
Qed.

Lemma st_byte s a v : is_Some (mem s !! a) -> st 1 a v s = Ok tt (with_mem s (<[a := Z_byte v]> (mem s))).
Proof.
  intros [b H]. unfold st. rewrite (proj2 (rd1_byte _ _ (byte_Z b))); [done|].
  rewrite Z_byte_byte_Z. split; [done|apply byte_Z_range].
Qed.

Lemma byte_Z_x00 b : byte_Z b = 0 <-> b = Byte.x00.
Proof. split; [|by intros ->]. intros H. by apply byte_Z_inj. Qed.

End regions.

(** * [strlen] *)

Section strlen.
Implicit Types (s : kstate) (f ct : Z).

Lemma strlen_loop_cstr fuel f ct l s :
  cstr (mem s) (f + ct) l -> (length l < fuel)%nat ->
  0 <= ct -> ct + Z.of_nat (length l) < 2 ^ 31 ->
  strlen_loop fuel f ct s = Ok (ct + Z.of_nat (length l)) s.
Proof.
  revert ct fuel. induction l as [|b l IH]; intros ct [|fuel] H Hf Hct Hl; simpl in *; try lia.
  - rewrite (bind_Ok _ _ _ _ _ (ld_byte _ _ _ (cstr_nil _ _ H))). simpl. f_equal. lia.
  - apply cstr_cons in H as (Hb & Hne & H).
    rewrite (bind_Ok _ _ _ _ _ (ld_byte _ _ _ Hb)).
    destruct (Z.eqb_spec (byte_Z b) 0) as [E|]; [by apply byte_Z_x00 in E|].
    destruct (Z.eqb_spec ct (2 ^ 31 - 1)); [lia|].
    rewrite IH; [f_equal; lia| |lia..]. by replace (f + (ct + 1)) with (f + ct + 1) by lia.
Qed.

Lemma strlen_eq f l s :
  cstr (mem s) f l -> Z.of_nat (length l) < 2 ^ 31 ->
  strlen f s = Ok (Z.of_nat (length l)) s.
Proof.
  intros H Hl. unfold strlen, scan. pose proof (cstr_length _ _ _ H).
  rewrite strlen_loop_cstr with (l := l); [done|by rewrite Z.add_0_r|lia..].
Qed.

(** A scan that runs out of bound has read that many consecutive bytes. *)
Lemma strlen_loop_nofuel fuel f ct s :
  strlen_loop fuel f ct s = NoFuel -> mapped (mem s) (f + ct) (Z.of_nat fuel).
Proof.
  revert ct. induction fuel as [|fuel IH]; intros ct; simpl; [intros _ x Hx; lia|].
  unfold mbind, K_bind, ld. destruct (rd 1 (mem s) (f + ct)) as [c|] eqn:E; [|done].
  destruct (c =? 0); [done|]. destruct (ct =? 2 ^ 31 - 1); [done|]. intros H%IH x Hx.
  destruct (decide (x = f + ct)) as [->|]; [|apply H; lia].
  apply rd1_byte in E as [-> _]. by eauto.
Qed.

Lemma strlen_never_nofuel f s : strlen f s <> NoFuel.
Proof.
  intros H. apply strlen_loop_nofuel, mapped_size in H; lia.
Qed.

End strlen.

(** * [memset], [memcpy], [memcmp] *)

Section memops.
Implicit Types (m : gmap Z byte) (s : kstate).

Lemma same_outside_insert m m' a n x b :
  same_outside a n m m' -> is_Some (m !! x) -> a <= x < a + n ->
  same_outside a n m (<[x := b]> m').
Proof.
  intros [D E] Hx Hr. split; intros y.
  - destruct (decide (x = y)) as [->|].
    + rewrite lookup_insert_eq. split; [done|by eauto].
    + by rewrite lookup_insert_ne.
  - intros Hy. rewrite lookup_insert_ne by lia. by apply E.
Qed.

Lemma memset_loop_wp s p n c :
  0 <= n -> mapped (mem s) p n ->
  wp (kfor 0 n (fun i => st 1 (p + i) c))
    (fun _ s' => exists m', s' = with_mem s m' /\ filled (mem s) m' p n (Z_byte c)) s.
Proof.
  intros Hn Hm.
  apply (wp_kfor (fun i s' => exists m', s' = with_mem s m' /\
           same_outside p n (mem s) m' /\
           forall j, 0 <= j < i -> m' !! (p + j) = Some (Z_byte c))); [done| | |].
  - exists (mem s). split; [by destruct s|]. split; [done|]. lia.
  - intros i s' Hi (m' & -> & Hso & Hf). eapply wp_eq.
    + apply st_byte. simpl. apply Hso. apply Hm. lia.
    + simpl. eexists. split; [done|]. split.
      * apply same_outside_insert; [done|apply Hm; lia|lia].
      * intros j Hj. destruct (decide (i = j)) as [->|]; [by rewrite lookup_insert_eq|].
        rewrite lookup_insert_ne by lia. apply Hf. lia.
  - intros s' (m' & -> & Hso & Hf). exists m'. split; [done|by split].
Qed.

Lemma memset_eq s p c n :
  p <> NULL -> 0 <= n -> mapped (mem s) p n ->
  exists m', memset p c n s = Ok tt (with_mem s m') /\ filled (mem s) m' p n (Z_byte (u8 c)).
Proof.
  intros Hp Hn Hm. unfold memset. destruct (Z.eqb_spec p NULL) as [|_]; [done|].
  rewrite (bind_Ok _ _ s tt s) by done.
  destruct (proj1 (wp_Ok _ _ _) (memset_loop_wp s p n (u8 c) Hn Hm)) as ([] & s' & -> & m' & -> & Hf).
  by exists m'.
Qed.

Lemma memcpy_loop_wp s dest src n :
  0 <= n -> mapped (mem s) dest n -> mapped (mem s) src n ->
  dest <= src \/ src + n <= dest ->
  wp (kfor 0 n (fun i => b ← ld 1 (src + i); st 1 (dest + i) b))
    (fun _ s' => exists m', s' = with_mem s m' /\ copied (mem s) m' dest src n) s.
Proof.
  intros Hn Hd Hs Hov.
  apply (wp_kfor (fun i s' => exists m', s' = with_mem s m' /\
           same_outside dest n (mem s) m' /\
           (forall x, ~ (dest <= x < dest + i) -> m' !! x = mem s !! x) /\
           forall j, 0 <= j < i -> m' !! (dest + j) = mem s !! (src + j))); [done| | |].
  - exists (mem s). split; [by destruct s|]. split; [done|]. split; [done|lia].
  - intros i s' Hi (m' & -> & Hso & Hout & Hf).
    destruct (Hs (src + i)) as [b Hb]; [lia|].
    assert (Hb' : m' !! (src + i) = Some b) by (rewrite Hout by lia; done).
    apply wp_bind. eapply wp_eq; [by apply ld_byte|]. eapply wp_eq.
    + apply st_byte. simpl. apply Hso. apply Hd. lia.
    + simpl. rewrite Z_byte_byte_Z. eexists. split; [done|]. split; [|split].
      * apply same_outside_insert; [done|apply Hd; lia|lia].
      * intros x Hx. rewrite lookup_insert_ne by lia. apply Hout. lia.
      * intros j Hj. destruct (decide (i = j)) as [->|]; [by rewrite lookup_insert_eq, Hb|].
        rewrite lookup_insert_ne by lia. apply Hf. lia.
  - intros s' (m' & -> & Hso & _ & Hf). exists m'. split; [done|by split].
Qed.

Lemma memcpy_eq s dest src n :
  dest <> NULL -> src <> NULL -> 0 <= n ->
  mapped (mem s) dest n -> mapped (mem s) src n ->
  dest <= src \/ src + n <= dest ->
  exists m', memcpy dest src n s = Ok tt (with_mem s m') /\ copied (mem s) m' dest src n.
Proof.
  intros Hd0 Hs0 Hn Hd Hs Hov. unfold memcpy.
  destruct (Z.eqb_spec src NULL) as [|_]; [done|].
  destruct (Z.eqb_spec dest NULL) as [|_]; [done|].
  rewrite (bind_Ok _ _ s tt s), (bind_Ok _ _ s tt s) by done.
  destruct (proj1 (wp_Ok _ _ _) (memcpy_loop_wp s dest src n Hn Hd Hs Hov))
    as ([] & s' & -> & m' & -> & Hf).
  by exists m'.
Qed.

Lemma memcmp_loop_eq s i a1 a2 l1 l2 :
  bytes_at (mem s) (a1 + i) l1 -> bytes_at (mem s) (a2 + i) l2 -> length l1 = length l2 ->
  memcmp_loop (length l1) i a1 a2 s = Ok (lex l1 l2) s.
Proof.
  revert i l2. induction l1 as [|b1 l1 IH]; intros i [|b2 l2] H1 H2 Hl; try done.
  apply bytes_at_cons in H1 as [Hb1 H1]. apply bytes_at_cons in H2 as [Hb2 H2]. simpl.
  rewrite (bind_Ok _ _ _ _ _ (ld_byte _ _ _ Hb1)), (bind_Ok _ _ _ _ _ (ld_byte _ _ _ Hb2)).
  destruct (byte_Z b1 =? byte_Z b2); simpl; [|done].
  apply IH; [| |by injection Hl].
  - by replace (a1 + (i + 1)) with (a1 + i + 1) by lia.
  - by replace (a2 + (i + 1)) with (a2 + i + 1) by lia.
Qed.

Lemma memcmp_eq s a1 a2 l1 l2 :
  bytes_at (mem s) a1 l1 -> bytes_at (mem s) a2 l2 -> length l1 = length l2 ->
  memcmp a1 a2 (Z.of_nat (length l1)) s = Ok (lex l1 l2) s.
Proof.
  intros H1 H2 Hl. unfold memcmp. rewrite Nat2Z.id.
  apply memcmp_loop_eq; [by rewrite Z.add_0_r..|done].
Qed.

Lemma lex_refl l : lex l l = 0.
Proof. induction l as [|b l IH]; simpl; [done|]. by rewrite Z.eqb_refl. Qed.

Lemma lex_0 l1 l2 : length l1 = length l2 -> lex l1 l2 = 0 <-> l1 = l2.
Proof.
  revert l2. induction l1 as [|b1 l1 IH]; intros [|b2 l2] Hl; try done.
  injection Hl as Hl. simpl. destruct (Z.eqb_spec (byte_Z b1) (byte_Z b2)) as [E|E].
  - apply byte_Z_inj in E as ->. rewrite IH by done. split; congruence.
  - split; [by destruct (byte_Z b1 <? byte_Z b2)|]. intros [= -> ->]. done.
Qed.

End memops.

(** * [strcmp], [strchr], [strtok] *)

Section strings.
Implicit Types (m : gmap Z byte) (s : kstate) (l : list byte).

Lemma bytes_at_cstr m a l : cstr m a l -> bytes_at m a l.
Proof. intros [H _]. by apply bytes_at_app in H as []. Qed.

Lemma strcmp_eq s a b l1 l2 :
  cstr (mem s) a l1 -> cstr (mem s) b l2 ->
  Z.of_nat (length l1) < 2 ^ 31 -> Z.of_nat (length l2) < 2 ^ 31 ->
  strcmp a b s = Ok (negb (bool_decide (l1 = l2))) s.
Proof.
  intros H1 H2 Hl1 Hl2. unfold strcmp.
  rewrite (bind_Ok _ _ _ _ _ (strlen_eq _ _ _ H1 Hl1)), (bind_Ok _ _ _ _ _ (strlen_eq _ _ _ H2 Hl2)).
  destruct (Z.eqb_spec (Z.of_nat (length l1)) (Z.of_nat (length l2))) as [E|E]; simpl.
  - apply Nat2Z.inj in E. rewrite (bind_Ok _ _ _ _ _ (strlen_eq _ _ _ H1 Hl1)).
    rewrite (bind_Ok _ _ _ _ _ (memcmp_eq _ _ _ _ _ (bytes_at_cstr _ _ _ H1) (bytes_at_cstr _ _ _ H2) E)).
    unfold mret, K_ret. do 2 f_equal. destruct (Z.eqb_spec (lex l1 l2) 0) as [L|L].
    + symmetry. by apply bool_decide_eq_true_2, lex_0.
    + symmetry. apply bool_decide_eq_false_2. by rewrite <- lex_0.
  - rewrite bool_decide_eq_false_2; [done|]. congruence.
Qed.

Lemma find_byte_None c l : find_byte c l = None <-> c ∉ l.
Proof.
  induction l as [|b l IH]; simpl; [split; [by intros _ ?%not_elem_of_nil|done]|].
  rewrite not_elem_of_cons. case_decide as E.
  - split; [done|]. intros [? _]. congruence.
  - rewrite fmap_None, IH. split; [intros; split; [congruence|done]|by intros []].
Qed.

Definition strchr_result (a : Z) (c : byte) (l : list byte) : Z :=
  match find_byte c (l ++ [Byte.x00]) with Some i => a + Z.of_nat i | None => NULL end.

Lemma strchr_loop_eq fuel a c l s :
  cstr (mem s) a l -> (length l < fuel)%nat ->
  strchr_loop fuel a (byte_Z c) s = Ok (strchr_result a c l) s.
Proof.
  unfold strchr_result. revert a fuel.
  induction l as [|b l IH]; intros a [|fuel] H Hf; simpl in *; try lia.
  - rewrite (bind_Ok _ _ _ _ _ (ld_byte _ _ _ (cstr_nil _ _ H))).
    destruct (decide (Byte.x00 = c)) as [<-|Hc]; [by rewrite Z.eqb_refl, Z.add_0_r|].
    destruct (Z.eqb_spec (byte_Z Byte.x00) (byte_Z c)) as [E%byte_Z_inj|_]; done.
  - apply cstr_cons in H as (Hb & Hne & H).
    rewrite (bind_Ok _ _ _ _ _ (ld_byte _ _ _ Hb)).
    destruct (decide (b = c)) as [->|Hc]; [by rewrite Z.eqb_refl, Z.add_0_r|].
    destruct (Z.eqb_spec (byte_Z b) (byte_Z c)) as [E%byte_Z_inj|_]; [done|].
    destruct (Z.eqb_spec (byte_Z b) 0) as [E%byte_Z_x00|_]; [done|].
    rewrite IH by (done || lia).
    destruct (find_byte c (l ++ [Byte.x00])); simpl; [|done]. f_equal. lia.
Qed.

Lemma strchr_eq a c l s :
  cstr (mem s) a l -> strchr a (byte_Z c) s = Ok (strchr_result a c l) s.
Proof.
  intros H. unfold strchr, scan. pose proof (cstr_length _ _ _ H).
  apply strchr_loop_eq; [done|lia].
Qed.

(** [strchr] on a character that is not NUL says whether it is in the string. *)
Lemma strchr_mem a c l :
  0 < a -> c <> Byte.x00 -> (strchr_result a c l =? NULL) = negb (bool_decide (c ∈ l)).
Proof.
  intros Ha Hc. unfold strchr_result.
  destruct (find_byte c (l ++ [Byte.x00])) as [i|] eqn:E.
  - rewrite bool_decide_eq_true_2.
    + simpl. apply Z.eqb_neq. unfold NULL. lia.
    + destruct (decide (c ∈ l)) as [|Hn]; [done|]. exfalso.
      assert (find_byte c (l ++ [Byte.x00]) = None) as E'; [|congruence].
      apply find_byte_None. rewrite elem_of_app, list_elem_of_singleton. tauto.
  - apply find_byte_None in E. rewrite elem_of_app in E.
    rewrite bool_decide_eq_false_2 by tauto. done.
Qed.

(** What a [strtok] call leaves alone. *)
Definition strtok_frame (s s' : kstate) : Prop :=
  trace s' = trace s /\ forall v, v <> g_strtok_s -> gval s' v = gval s v.

Lemma strtok_loop_hit fuel token delim ds p tok d rest s :
  cstr (mem s) p (tok ++ d :: rest) -> cstr (mem s) delim ds -> 0 < delim ->
  (forall b, b ∈ tok -> b ∉ ds) -> d ∈ ds ->
  gval s g_strtok_s = p -> (length tok < fuel)%nat ->
  exists s', strtok_loop fuel token delim s = Ok token s' /\
    mem s' = <[p + Z.of_nat (length tok) := Byte.x00]> (mem s) /\
    gval s' g_strtok_s = p + Z.of_nat (length tok) + 1 /\ strtok_frame s s'.
Proof.
  revert p fuel s. induction tok as [|b tok IH]; intros p [|fuel] s Hp Hd Hd0 Htok Hdd Hg Hf;
    simpl in *; try lia.
  - apply cstr_cons in Hp as (Hb & Hne & Hp).
    rewrite (bind_Ok _ _ s p s) by (unfold gget; by rewrite Hg).
    rewrite (bind_Ok _ _ _ _ _ (ld_byte _ _ _ Hb)).
    destruct (Z.eqb_spec (byte_Z d) 0) as [E%byte_Z_x00|_]; [done|].
    rewrite (bind_Ok _ _ _ _ _ (strchr_eq _ _ _ _ Hd)), strchr_mem by done.
    rewrite bool_decide_eq_true_2 by done. simpl.
    rewrite (bind_Ok _ _ _ _ _ (st_byte s p 0 ltac:(by rewrite Hb))).
    eexists. split; [reflexivity|]. simpl. rewrite Z.add_0_r. split; [done|].
    split; [by rewrite gval_with_glob_eq|]. split; [done|].
    intros v Hv. by rewrite gval_with_glob_ne.
  - apply cstr_cons in Hp as (Hb & Hne & Hp).
    rewrite (bind_Ok _ _ s p s) by (unfold gget; by rewrite Hg).
    rewrite (bind_Ok _ _ _ _ _ (ld_byte _ _ _ Hb)).
    destruct (Z.eqb_spec (byte_Z b) 0) as [E%byte_Z_x00|_]; [done|].
    rewrite (bind_Ok _ _ _ _ _ (strchr_eq _ _ _ _ Hd)), strchr_mem by done.
    rewrite bool_decide_eq_false_2 by (apply Htok, elem_of_cons; by left). simpl.
    destruct (IH (p + 1) fuel (with_glob s g_strtok_s (p + 1))) as (s' & E1 & E2 & E3 & E4 & E5);
      [done|done|done| |done|by rewrite gval_with_glob_eq|lia|].
    { intros c Hc. apply Htok, elem_of_cons. by right. }
    exists s'. split; [exact E1|].
    replace (p + Z.of_nat (S (length tok))) with (p + 1 + Z.of_nat (length tok)) by lia.
    split; [done|]. split; [done|]. split; [done|].
    intros v Hv. rewrite E5 by done. by apply gval_with_glob_ne.
Qed.

Lemma strtok_loop_end fuel token delim ds p tok s :
  cstr (mem s) p tok -> cstr (mem s) delim ds -> 0 < delim ->
  (forall b, b ∈ tok -> b ∉ ds) ->
  gval s g_strtok_s = p -> (length tok < fuel)%nat ->
  exists s', strtok_loop fuel token delim s = Ok token s' /\ mem s' = mem s /\
    gval s' g_strtok_s = NULL /\ strtok_frame s s'.
Proof.
  revert p fuel s. induction tok as [|b tok IH]; intros p [|fuel] s Hp Hd Hd0 Htok Hg Hf;
    simpl in *; try lia.
  - rewrite (bind_Ok _ _ s p s) by (unfold gget; by rewrite Hg).
    rewrite (bind_Ok _ _ _ _ _ (ld_byte _ _ _ (cstr_nil _ _ Hp))).
    eexists. split; [reflexivity|]. simpl. split; [done|].
    split; [by rewrite gval_with_glob_eq|]. split; [done|].
    intros v Hv. by rewrite gval_with_glob_ne.
  - apply cstr_cons in Hp as (Hb & Hne & Hp).
    rewrite (bind_Ok _ _ s p s) by (unfold gget; by rewrite Hg).
    rewrite (bind_Ok _ _ _ _ _ (ld_byte _ _ _ Hb)).
    destruct (Z.eqb_spec (byte_Z b) 0) as [E%byte_Z_x00|_]; [done|].
    rewrite (bind_Ok _ _ _ _ _ (strchr_eq _ _ _ _ Hd)), strchr_mem by done.
    rewrite bool_decide_eq_false_2 by (apply Htok, elem_of_cons; by left). simpl.
    destruct (IH (p + 1) fuel (with_glob s g_strtok_s (p + 1))) as (s' & E1 & E2 & E3 & E4 & E5);
      [done|done|done| |by rewrite gval_with_glob_eq|lia|].
    { intros c Hc. apply Htok, elem_of_cons. by right. }
    exists s'. split; [exact E1|]. split; [done|]. split; [done|]. split; [done|].
    intros v Hv. rewrite E5 by done. by apply gval_with_glob_ne.
Qed.

Lemma split_on_end (ds : list byte) l : (forall b, b ∈ l -> b ∉ ds) -> split_on ds l = [l].
Proof.
  induction l as [|b l IH]; intros H; simpl; [done|].
  rewrite decide_False by (apply H, elem_of_cons; by left).
  rewrite IH; [done|]. intros c Hc. apply H, elem_of_cons. by right.
Qed.

Lemma split_on_hit (ds : list byte) tok d rest :
  (forall b, b ∈ tok -> b ∉ ds) -> d ∈ ds ->
  split_on ds (tok ++ d :: rest) = tok :: split_on ds rest.
Proof.
  induction tok as [|b tok IH]; intros H Hd; simpl; [by rewrite decide_True|].
  rewrite decide_False by (apply H, elem_of_cons; by left).
  rewrite IH; [done| |done]. intros c Hc. apply H, elem_of_cons. by right.
Qed.

Lemma split_first (ds : list byte) l :
  (forall b, b ∈ l -> b ∉ ds) \/
  exists tok d rest, l = tok ++ d :: rest /\ (forall b, b ∈ tok -> b ∉ ds) /\ d ∈ ds.
Proof.
  induction l as [|b l IH]; [left; by intros b ?%not_elem_of_nil|].
  destruct (decide (b ∈ ds)) as [Hb|Hb].
  - right. exists [], b, l. split; [done|]. split; [by intros c ?%not_elem_of_nil|done].
  - destruct IH as [H|(tok & d & rest & -> & H & Hd)].
    + left. intros c [->|Hc]%elem_of_cons; auto.
    + right. exists (b :: tok), d, rest. split; [done|]. split; [|done].
      intros c [->|Hc]%elem_of_cons; auto.
Qed.

(** [strtok] at position [p], whether passed as [str] or kept from the last call. *)
Lemma strtok_at str p delim s :
  p <> NULL -> str = p \/ str = NULL /\ gval s g_strtok_s = p ->
  exists s0, gval s0 g_strtok_s = p /\ mem s0 = mem s /\ strtok_frame s s0 /\
    strtok str delim s = strtok_loop (S (size (mem s0))) p delim s0.
Proof.
  intros Hp Hstr. unfold strtok. destruct Hstr as [->|[-> Hg]].
  - destruct (Z.eqb_spec p NULL) as [|_]; [done|]. simpl negb. cbv iota.
    exists (with_glob s g_strtok_s p). split; [by rewrite gval_with_glob_eq|].
    split; [done|]. split; [split; [done|intros v Hv; by rewrite gval_with_glob_ne]|].
    rewrite (bind_Ok _ _ s tt (with_glob s g_strtok_s p)) by done.
    rewrite (bind_Ok _ _ _ p (with_glob s g_strtok_s p)) by (unfold gget; by rewrite gval_with_glob_eq).
    by destruct (Z.eqb_spec p NULL).
  - exists s. split; [done|]. split; [done|]. split; [by split|].
    rewrite (bind_Ok _ _ s tt s) by done.
    rewrite (bind_Ok _ _ _ p s) by (unfold gget; by rewrite Hg).
    by destruct (Z.eqb_spec p NULL).
Qed.

Lemma strtok_frame_trans s1 s2 s3 : strtok_frame s1 s2 -> strtok_frame s2 s3 -> strtok_frame s1 s3.
Proof. intros [T1 G1] [T2 G2]. split; [congruence|]. intros v Hv. rewrite G2, G1; done. Qed.

Lemma strtok_last str p delim ds tok s :
  p <> NULL -> str = p \/ str = NULL /\ gval s g_strtok_s = p ->
  cstr (mem s) p tok -> cstr (mem s) delim ds -> 0 < delim ->
  (forall b, b ∈ tok -> b ∉ ds) ->
  exists s', strtok str delim s = Ok p s' /\ mem s' = mem s /\
    gval s' g_strtok_s = NULL /\ strtok_frame s s'.
Proof.
  intros Hp Hstr Hc Hd Hd0 Htok. destruct (strtok_at str p delim s Hp Hstr) as (s0 & Hg & Hm & Hf & ->).
  pose proof (cstr_length _ _ _ Hc).
  destruct (strtok_loop_end (S (size (mem s0))) p delim ds p tok s0) as (s' & E1 & E2 & E3 & E4);
    rewrite ?Hm in *; [done..|lia|].
  exists s'. split; [done|]. split; [done|]. split; [done|]. by eapply strtok_frame_trans.
Qed.

Lemma strtok_first str p delim ds tok d rest s :
  p <> NULL -> str = p \/ str = NULL /\ gval s g_strtok_s = p ->
  cstr (mem s) p (tok ++ d :: rest) -> cstr (mem s) delim ds -> 0 < delim ->
  (forall b, b ∈ tok -> b ∉ ds) -> d ∈ ds ->
  exists s', strtok str delim s = Ok p s' /\
    mem s' = <[p + Z.of_nat (length tok) := Byte.x00]> (mem s) /\
    gval s' g_strtok_s = p + Z.of_nat (length tok) + 1 /\ strtok_frame s s'.
Proof.
  intros Hp Hstr Hc Hd Hd0 Htok Hdd.
  destruct (strtok_at str p delim s Hp Hstr) as (s0 & Hg & Hm & Hf & ->).
  pose proof (cstr_length _ _ _ Hc) as Hlen. rewrite length_app in Hlen. simpl in Hlen.
  destruct (strtok_loop_hit (S (size (mem s0))) p delim ds p tok d rest s0)
    as (s' & E1 & E2 & E3 & E4); rewrite ?Hm in *; [done..|lia|].
  exists s'. split; [done|]. split; [done|]. split; [done|]. by eapply strtok_frame_trans.
Qed.

(** The bytes of a string after its delimiter was overwritten: the token and
    the rest are strings of their own. *)
Lemma cstr_cut m p tok d rest :
  cstr m p (tok ++ d :: rest) ->
  cstr (<[p + Z.of_nat (length tok) := Byte.x00]> m) p tok /\
  cstr (<[p + Z.of_nat (length tok) := Byte.x00]> m) (p + Z.of_nat (length tok) + 1) rest.
Proof.
  intros [H Hn]. rewrite <- app_assoc in H. apply bytes_at_app in H as [H1 H2].
  simpl in H2. apply bytes_at_cons in H2 as [_ H3].
  rewrite not_elem_of_app, not_elem_of_cons in Hn. destruct Hn as (Hn1 & _ & Hn2).
  split; (split; [|done]).
  - apply bytes_at_app. split.
    + eapply bytes_at_agree; [|done]. intros x Hx. by rewrite lookup_insert_ne by lia.
    + apply bytes_at_cons. split; [by rewrite lookup_insert_eq|apply bytes_at_nil].
  - eapply bytes_at_agree; [|done]. intros x Hx. by rewrite lookup_insert_ne by lia.
Qed.

Lemma cstr_outside m m' a n b l :
  same_outside a n m m' -> b + Z.of_nat (length l) + 1 <= a \/ a + n <= b ->
  cstr m b l -> cstr m' b l.
Proof.
  intros H Hd [Hb ?]. split; [|done]. eapply bytes_at_outside; [done| |done].
  rewrite length_app. simpl. lia.
Qed.

Lemma strtok_null_done delim s :
  gval s g_strtok_s = NULL -> strtok NULL delim s = Ok NULL s.
Proof.
  intros Hg. unfold strtok. rewrite (bind_Ok _ _ s tt s) by done.
  by rewrite (bind_Ok _ _ _ NULL s) by (unfold gget; by rewrite Hg).
Qed.

Lemma strtok_all_eq fuel str p delim ds l s :
  0 < p -> str = p \/ str = NULL /\ gval s g_strtok_s = p ->
  cstr (mem s) p l -> cstr (mem s) delim ds -> 0 < delim ->
  (p + Z.of_nat (length l) + 1 <= delim \/ delim + Z.of_nat (length ds) + 1 <= p) ->
  (length l + 1 < fuel)%nat ->
  exists ts s', strtok_all fuel str delim s = Ok ts s' /\
    Forall2 (cstr (mem s')) ts (split_on ds l) /\
    same_outside p (Z.of_nat (length l) + 1) (mem s) (mem s') /\ strtok_frame s s'.
Proof.
  revert str p l s. induction fuel as [|fuel IH]; intros str p l s Hp Hstr Hl Hd Hd0 Hdisj Hf; [lia|].
  assert (Hp0 : p <> NULL) by (unfold NULL; lia). simpl.
  destruct (split_first ds l) as [Hend|(tok & d & rest & -> & Htok & Hdd)].
  - destruct (strtok_last str p delim ds l s) as (s1 & E1 & Hm & Hg & Hfr); [done..|].
    rewrite (bind_Ok _ _ _ _ _ E1). destruct (Z.eqb_spec p NULL) as [|_]; [done|].
    destruct fuel as [|fuel]; [lia|]. exists [p], s1. split.
    + unfold strtok_all at 1; fold strtok_all.
      rewrite (bind_Ok _ _ s1 [] s1); [done|].
      by rewrite (bind_Ok _ _ _ _ _ (strtok_null_done delim s1 Hg)).
    + rewrite Hm, split_on_end by done. split; [constructor; [done|constructor]|]. done.
  - destruct (strtok_first str p delim ds tok d rest s) as (s1 & E1 & Hm & Hg & Hfr); [done..|].
    rewrite (bind_Ok _ _ _ _ _ E1). destruct (Z.eqb_spec p NULL) as [|_]; [done|].
    rewrite length_app in *. simpl in *.
    assert (Hso : same_outside p (Z.of_nat (length tok) + 1) (mem s) (mem s1)).
    { rewrite Hm. apply same_outside_insert; [done| |lia].
      destruct Hl as [Hb%bytes_at_mapped _]. apply Hb. rewrite !length_app. simpl. lia. }
    destruct (cstr_cut _ _ _ _ _ Hl) as [Hc1 Hc2]. rewrite <- Hm in Hc1, Hc2.
    destruct (IH NULL (p + Z.of_nat (length tok) + 1) rest s1) as (ts & s2 & E2 & HF & Hso2 & Hfr2);
      [lia|by right|done|eapply cstr_outside; [done|lia|done]|done|lia|lia|].
    exists (p :: ts), s2. split; [by rewrite (bind_Ok _ _ _ _ _ E2)|].
    rewrite split_on_hit by done. split; [|split].
    + constructor; [|done]. eapply cstr_outside; [done|lia|done].
    + eapply same_outside_trans; eapply same_outside_weaken; try done; lia.
    + by eapply strtok_frame_trans.
Qed.

End strings.

(** * [basename] *)

Section basename_proofs.
Implicit Types (m : gmap Z byte) (s : kstate) (l p : list byte).

Lemma byte_slash b : (byte_Z b =? slash) = bool_decide (b = slash_byte).
Proof.
  destruct (Z.eqb_spec (byte_Z b) slash) as [E|E].
  - symmetry. apply bool_decide_eq_true_2, byte_Z_inj. by rewrite E.
  - symmetry. apply bool_decide_eq_false_2. by intros ->.
Qed.

(** The path after the first loop. *)
Definition stripped l : list byte :=
  match rev (drop_slashes (rev l)) with [] => [slash_byte] | r => r end.

Lemma bytes_at_last m a l b : bytes_at m a (l ++ [b]) -> m !! (a + Z.of_nat (length l)) = Some b.
Proof. intros [_ H]%bytes_at_app. by apply bytes_at_cons in H as []. Qed.

Lemma stripped_snoc l b :
  stripped (l ++ [b]) =
    if decide (b = slash_byte) then (if decide (l = []) then [slash_byte] else stripped l) else l ++ [b].
Proof.
  unfold stripped. rewrite rev_app_distr. simpl. rewrite byte_slash. case_decide as E.
  - rewrite bool_decide_eq_true_2 by done. case_decide as E'; [by subst l|done].
  - rewrite bool_decide_eq_false_2 by done. simpl. rewrite rev_involutive.
    by destruct l.
Qed.

Lemma basename_strip_eq a l s :
  l <> [] -> cstr (mem s) a l ->
  exists m', basename_strip (length l - 1) a s =
      Ok (length (stripped l) - 1)%nat (with_mem s m') /\
    cstr m' a (stripped l) /\ stripped l <> [] /\
    same_outside a (Z.of_nat (length l)) (mem s) m'.
Proof.
  revert s. induction l as [|b l IH] using rev_ind; intros s Hne Hc; [done|]. clear Hne.
  rewrite length_app. simpl length. replace (length l + 1 - 1)%nat with (length l) by lia.
  rewrite stripped_snoc. destruct (decide (l = [])) as [->|Hl].
  - exists (mem s). simpl.
    assert (Hb : (if decide (b = slash_byte) then [slash_byte] else [b]) = [b])
      by (case_decide; congruence).
    rewrite Hb. split; [by destruct s|]. by split.
  - destruct (length l) as [|i] eqn:Elen; [by destruct l|]. simpl basename_strip.
    assert (Hb : mem s !! (a + Z.of_nat (S i)) = Some b).
    { rewrite <- Elen. destruct Hc as [Hc _]. apply bytes_at_app in Hc as [Hc _].
      by apply bytes_at_last. }
    rewrite (bind_Ok _ _ _ _ _ (ld_byte _ _ _ Hb)), byte_slash.
    case_decide as Hs.
    + rewrite bool_decide_eq_true_2 by done.
      rewrite (bind_Ok _ _ _ _ _ (st_byte s (a + Z.of_nat (S i)) 0 ltac:(by rewrite Hb))).
      rewrite <- Elen in *. destruct (cstr_cut (mem s) a l b [] Hc) as [Hc1 _].
      rewrite Z_byte_0.
      destruct (IH (with_mem s (<[a + Z.of_nat (length l) := Byte.x00]> (mem s)))) as (m' & E & Hm & Hn & Hso);
        [done|done|].
      exists m'. replace i with (length l - 1)%nat by lia. split; [exact E|]. split; [done|].
      split; [done|]. eapply same_outside_trans; [|eapply same_outside_weaken; [exact Hso|lia..]].
      apply same_outside_insert; [done|by rewrite Hb|lia].
    + rewrite bool_decide_eq_false_2 by done. exists (mem s).
      rewrite length_app. simpl. replace (length l + 1 - 1)%nat with (S i) by lia.
      split; [by destruct s|]. split; [done|]. split; [by destruct l|done].
Qed.

Lemma basename_back_eq a p s :
  bytes_at (mem s) a p ->
  basename_back (length p) a s = Ok (length p - length (until_slash (rev p)))%nat s.
Proof.
  induction p as [|b p IH] using rev_ind; intros H; [done|].
  rewrite length_app, rev_app_distr. simpl.
  replace (length p + 1)%nat with (S (length p)) by lia. simpl basename_back.
  assert (Hb : mem s !! (a + (Z.of_nat (S (length p)) - 1)) = Some b).
  { replace (Z.of_nat (S (length p)) - 1) with (Z.of_nat (length p)) by lia. by apply bytes_at_last. }
  rewrite (bind_Ok _ _ _ _ _ (ld_byte _ _ _ Hb)), byte_slash.
  case_bool_decide; simpl; [done|].
  apply bytes_at_app in H as [H _]. by rewrite IH.
Qed.

Lemma until_slash_prefix l : exists k, l = until_slash l ++ k.
Proof.
  induction l as [|b l [k IH]]; simpl; [by exists []|].
  destruct (byte_Z b =? slash); [by eexists|]. exists k. simpl. by rewrite <- IH.
Qed.

(** The component read by the second loop is the tail of the stripped path. *)
Lemma base_of_stripped l p c :
  stripped l = p ++ [c] -> base_of l = rev (until_slash (rev p)) ++ [c].
Proof.
  unfold stripped, base_of. destruct (drop_slashes (rev l)) as [|b r] eqn:E; simpl.
  - intros H. destruct p as [|? p]; simplify_list_eq; [done|by destruct p].
  - assert (Hb : b <> slash_byte).
    { clear -E. revert E. generalize (rev l). intros k. induction k as [|d k IH]; simpl; [done|].
      rewrite byte_slash. case_bool_decide; [done|]. by intros [= -> ->]. }
    destruct (rev r ++ [b]) as [|? ?] eqn:E'; [by destruct (rev r)|].
    rewrite <- E'. intros H. apply app_inj_tail in H as [<- <-].
    rewrite rev_involutive. simpl. by rewrite byte_slash, bool_decide_eq_false_2.
Qed.

Lemma stripped_length l : l <> [] -> (length (stripped l) <= length l)%nat.
Proof.
  intros Hl. assert (0 < length l)%nat by (destruct l; simpl; done || lia). unfold stripped.
  destruct (rev (drop_slashes (rev l))) eqn:E; [simpl; lia|]. rewrite <- E, length_rev.
  rewrite <- (length_rev l). generalize (rev l). intros r.
  induction r as [|d r IH]; simpl; [lia|]. destruct (byte_Z d =? slash); simpl; lia.
Qed.

Lemma cstr_drop m a l1 l2 : cstr m a (l1 ++ l2) -> cstr m (a + Z.of_nat (length l1)) l2.
Proof.
  intros [H Hn]. rewrite <- app_assoc in H. apply bytes_at_app in H as [_ H].
  apply not_elem_of_app in Hn as [_ Hn]. by split.
Qed.

Lemma basename_eq dot a l s :
  a <> NULL -> l <> [] -> cstr (mem s) a l -> Z.of_nat (length l) < 2 ^ 31 ->
  exists q m', basename dot a s = Ok q (with_mem s m') /\ cstr m' q (base_of l) /\
    same_outside a (Z.of_nat (length l)) (mem s) m' /\
    a <= q < a + Z.of_nat (length l).
Proof.
  intros Ha Hl Hc Hlen. unfold basename. destruct (Z.eqb_spec a NULL) as [|_]; [done|].
  destruct l as [|b l'] eqn:El; [done|]. rewrite <- El in *.
  assert (Hb : mem s !! a = Some b /\ b <> Byte.x00)
    by (rewrite El in Hc; apply cstr_cons in Hc; tauto).
  destruct Hb as [Hb Hb0]. rewrite (bind_Ok _ _ _ _ _ (ld_byte _ _ _ Hb)).
  destruct (Z.eqb_spec (byte_Z b) 0) as [E%byte_Z_x00|_]; [done|].
  rewrite (bind_Ok _ _ _ _ _ (strlen_eq _ _ _ Hc Hlen)).
  assert (Hpos : (0 < length l)%nat) by (rewrite El; simpl; lia).
  replace (Z.to_nat (u64 (Z.of_nat (length l) - 1))) with (length l - 1)%nat
    by (rewrite u64_small; lia).
  destruct (basename_strip_eq a l s Hl Hc) as (m' & E1 & Hm' & Hne & Hso).
  rewrite (bind_Ok _ _ _ _ _ E1).
  destruct (exists_last Hne) as (p & c & Ep).
  assert (Hp : (length (stripped l) - 1 = length p)%nat)
    by (rewrite Ep, length_app; simpl; lia). rewrite Hp.
  assert (Hbp : bytes_at m' a p).
  { rewrite Ep in Hm'. by apply bytes_at_cstr, bytes_at_app in Hm' as []. }
  rewrite (bind_Ok _ _ _ _ _ (basename_back_eq a p (with_mem s m') Hbp)).
  destruct (until_slash_prefix (rev p)) as [k Hk].
  assert (Hpk : p = rev k ++ rev (until_slash (rev p)))
    by (rewrite <- rev_app_distr, <- Hk; by rewrite rev_involutive).
  assert (Hlp : length p = (length k + length (until_slash (rev p)))%nat)
    by (rewrite Hpk at 1; rewrite length_app, !length_rev; done).
  pose proof (stripped_length l Hl) as Hsl.
  eexists _, m'. split; [reflexivity|].
  replace (length p - length (until_slash (rev p)))%nat with (length (rev k))
    by (rewrite length_rev; lia).
  split; [|split; [done|]].
  - rewrite (base_of_stripped l p c Ep). apply cstr_drop.
    by rewrite app_assoc, <- Hpk, <- Ep.
  - rewrite length_rev. split; [lia|]. rewrite Ep, length_app in Hsl. simpl in Hsl. lia.
Qed.

End basename_proofs.

(** * [itoa] *)

Section itoa_proofs.
Implicit Types (s : kstate) (m : gmap Z byte).

Lemma repr_digit d : 0 <= d < 16 -> exists c, repr !! Z.to_nat d = Some c /\ digit_byte d = Z_byte c.
Proof.
  intros Hd. destruct (lookup_lt_is_Some_2 repr (Z.to_nat d)) as [c Hc]; [simpl; lia|].
  exists c. split; [done|]. unfold digit_byte. by rewrite Hc.
Qed.

Lemma digit_byte_nonzero d : 0 <= d < 16 -> digit_byte d <> Byte.x00.
Proof.
  intros Hd.
  assert (d = 0 \/ d = 1 \/ d = 2 \/ d = 3 \/ d = 4 \/ d = 5 \/ d = 6 \/ d = 7 \/ d = 8 \/
          d = 9 \/ d = 10 \/ d = 11 \/ d = 12 \/ d = 13 \/ d = 14 \/ d = 15) as H by lia.
  by destruct_or! H; subst d.
Qed.

Lemma val_digits_snoc base ds d : val_digits base (ds ++ [d]) = val_digits base ds * base + d.
Proof. unfold val_digits. by rewrite foldl_app. Qed.

Lemma itoa_loop_eq k fuel lo n ptr num base l s :
  2 <= base <= 16 -> 0 <= num < base ^ Z.of_nat (S k) -> (k < fuel)%nat ->
  lo + Z.of_nat (S k) <= ptr < lo + n -> mapped (mem s) lo n ->
  cstr (mem s) ptr l ->
  exists p ds m', itoa_loop fuel ptr num base s = Ok p (with_mem s m') /\
    cstr m' p ((digit_byte <$> ds) ++ l) /\ val_digits base ds = num /\
    Forall (fun d => 0 <= d < base) ds /\ (0 < length ds <= S k)%nat /\
    p = ptr - Z.of_nat (length ds) /\
    same_outside lo n (mem s) m' /\ (head ds = Some 0 -> ds = [0]).
Proof.
  intros Hbase. revert fuel ptr num l s.
  induction k as [|k IH]; intros [|fuel] ptr num l s Hnum Hf Hptr Hm Hc; try lia.
  all: assert (Hd : 0 <= num mod base < base) by (apply Z.mod_pos_bound; lia).
  all: destruct (repr_digit (num mod base)) as (c & Hc1 & Hc2); [lia|].
  all: pose proof (Z.div_mod num base ltac:(lia)) as Hdm.
  all: assert (Hst : is_Some (mem s !! (ptr - 1))) by (apply Hm; lia).
  all: assert (Hc' : cstr (<[ptr - 1 := Z_byte c]> (mem s)) (ptr - 1) (digit_byte (num mod base) :: l))
         by (rewrite <- Hc2; apply cstr_push; [done|apply digit_byte_nonzero; lia]).
  all: assert (Hso : same_outside lo n (mem s) (<[ptr - 1 := Z_byte c]> (mem s)))
         by (apply same_outside_insert; [done|done|lia]).
  all: simpl; destruct (Z.eqb_spec base 0) as [|_]; [lia|]; rewrite Hc1.
  all: rewrite (bind_Ok _ _ _ _ _ (st_byte s (ptr - 1) c Hst)).
  all: destruct (Z.eqb_spec (num / base) 0) as [E0|E0].
  1, 3: exists (ptr - 1), [num mod base], (<[ptr - 1 := Z_byte c]> (mem s)).
  1, 2: split; [done|]; split; [done|]; split; [rewrite E0 in Hdm; unfold val_digits; simpl; lia|].
  1, 2: split; [by repeat constructor; lia|]; split; [simpl; lia|]; split; [done|]; split; [done|]; intros [= ->]; done.
  - exfalso. apply E0. apply Z.div_small. simpl in Hnum. lia.
  - destruct (IH fuel (ptr - 1) (num / base) (digit_byte (num mod base) :: l)
      (with_mem s (<[ptr - 1 := Z_byte c]> (mem s)))) as (p & ds & m' & E & Hcs & Hv & Hfa & Hlen & Hp & Hso' & Hlead).
    + split; [apply Z.div_pos; lia|]. apply Z.div_lt_upper_bound; [lia|].
      rewrite Nat2Z.inj_succ, Z.pow_succ_r in Hnum by lia. lia.
    + lia.
    + lia.
    + eapply same_outside_mapped; done.
    + done.
    + exists p, (ds ++ [num mod base]), m'. split; [exact E|]. split.
      * rewrite fmap_app, <- app_assoc. done.
      * split; [rewrite val_digits_snoc, Hv; lia|]. split; [apply Forall_app; split; [done|repeat constructor; lia]|].
        split; [rewrite length_app; simpl; lia|].
        split; [rewrite length_app; simpl; lia|]. split; [by eapply same_outside_trans|].
        destruct ds as [|d ds]; [simpl in Hlen; lia|]. simpl. intros [= ->]. rewrite (Hlead eq_refl) in Hv.
        unfold val_digits in Hv. simpl in Hv. lia.
Qed.

Lemma val_digits_bound base ds :
  0 < base -> Forall (fun d => 0 <= d < base) ds -> 0 <= val_digits base ds < base ^ Z.of_nat (length ds).
Proof.
  intros Hb. induction ds as [|d ds IH] using rev_ind; intros H.
  - unfold val_digits. simpl. lia.
  - apply Forall_app in H as [H1 H2]. inversion_clear H2. specialize (IH H1).
    rewrite val_digits_snoc, length_app. simpl.
    rewrite Nat2Z.inj_add, Z.pow_add_r by lia. change (Z.of_nat 1) with 1. rewrite Z.pow_1_r.
    assert ((val_digits base ds + 1) * base <= base ^ Z.of_nat (length ds) * base)
      by (apply Z.mul_le_mono_nonneg_r; lia).
    pose proof (Z.mul_nonneg_nonneg (val_digits base ds) base). lia.
Qed.

(** [lo] is where the writable region starts: [buffer] itself, or below it. *)
Lemma itoa_eq buffer lo k num base s :
  2 <= base <= 16 -> 0 <= num < base ^ Z.of_nat (S k) -> (k < 64)%nat ->
  lo + Z.of_nat (S k) <= buffer + 49 -> mapped (mem s) lo (buffer + 50 - lo) ->
  exists p ds m', itoa buffer num base s = Ok p (with_mem s m') /\
    cstr m' p (digit_byte <$> ds) /\ val_digits base ds = num /\
    Forall (fun d => 0 <= d < base) ds /\ (0 < length ds <= S k)%nat /\
    p = buffer + 49 - Z.of_nat (length ds) /\
    same_outside lo (buffer + 50 - lo) (mem s) m' /\ (head ds = Some 0 -> ds = [0]).
Proof.
  intros Hbase Hnum Hk Hlo Hm. unfold itoa.
  assert (Hst : is_Some (mem s !! (buffer + 49))) by (apply Hm; lia).
  rewrite (bind_Ok _ _ _ _ _ (st_byte s (buffer + 49) 0 Hst)).
  rewrite u64_small by lia. rewrite Z_byte_0.
  set (m1 := <[buffer + 49 := Byte.x00]> (mem s)).
  assert (Hso : same_outside lo (buffer + 50 - lo) (mem s) m1)
    by (apply same_outside_insert; [done|done|lia]).
  destruct (itoa_loop_eq k 64 lo (buffer + 50 - lo) (buffer + 49) num base [] (with_mem s m1))
    as (p & ds & m' & E & Hc & Hv & Hfa & Hl & Hp & Hso' & Hlead); [done|done|lia|lia| | |].
  - by eapply same_outside_mapped.
  - split; [|by apply not_elem_of_nil]. simpl. apply bytes_at_cons.
    split; [apply lookup_insert_eq|apply bytes_at_nil].
  - exists p, ds, m'. rewrite app_nil_r in Hc. split; [exact E|]. split; [done|].
    split; [done|]. split; [done|]. split; [lia|]. split; [done|]. split; [by eapply same_outside_trans|done].
Qed.

End itoa_proofs.

(** * Properties *)

(** [strlen] terminates on every address and in every state: it returns the
    length, or reads past the mapped memory and faults, but never runs for ever. *)
Theorem strlen_terminates f s : strlen f s <> NoFuel.
Proof. apply strlen_never_nofuel. Qed.

(** A small memory for the examples: [len] zero bytes from [a]. *)
Fixpoint zeros (a : Z) (len : nat) : gmap Z byte :=
  match len with
  | O => ∅
  | S len' => <[a := Byte.x00]> (zeros (a + 1) len')
  end.
Definition put_bytes (m : gmap Z byte) (a : Z) (l : list byte) : gmap Z byte :=
  list_to_map (imap (fun i b => (a + Z.of_nat i, b)) l) ∪ m.

Lemma zeros_mapped a len x : a <= x < a + Z.of_nat len -> is_Some (zeros a len !! x).
Proof.
  revert a. induction len as [|len IH]; intros a Hx; simpl; [lia|].
  destruct (decide (x = a)) as [->|]; [by rewrite lookup_insert_eq|].
  rewrite lookup_insert_ne by done. apply IH. lia.
Qed.

Lemma zeros_lookup a len x b : zeros a len !! x = Some b -> b = Byte.x00.
Proof.
  revert a. induction len as [|len IH]; intros a; simpl; [by rewrite lookup_empty|].
  destruct (decide (x = a)) as [->|]; [rewrite lookup_insert_eq; by intros [= <-]|].
  rewrite lookup_insert_ne by done. apply IH.
Qed.

Lemma zeros_byte a len x : a <= x < a + Z.of_nat len -> zeros a len !! x = Some Byte.x00.
Proof. intros H. destruct (zeros_mapped a len x H) as [b E]. by rewrite E, (zeros_lookup _ _ _ _ E). Qed.

Lemma zeros_none a len x : ~ (a <= x < a + Z.of_nat len) -> zeros a len !! x = None.
Proof.
  revert a. induction len as [|len IH]; intros a Hx; simpl; [apply lookup_empty|].
  rewrite lookup_insert_ne by lia. apply IH. lia.
Qed.

Lemma rd1_lookup m x v : rd 1 m x = Some v -> m !! x = Some (Z_byte v).
Proof. intros [E _]%rd1_byte. exact E. Qed.

(** Reads from the memories of the examples - writes to zeroed regions - without
    computing the whole memory: [mem_none] for a byte that is not mapped, [mem_zero]
    for one that was not written, [mem_rd] for a word. *)
Ltac mem_none :=
  lazymatch goal with
  | |- wr _ _ _ _ !! _ = None => rewrite lookup_wr_out by lia; mem_none
  | |- (_ ∪ _) !! _ = None => apply lookup_union_None; split; mem_none
  | |- zeros _ _ !! _ = None => apply zeros_none; lia
  end.
Ltac mem_zero :=
  lazymatch goal with
  | |- wr _ _ _ _ !! _ = _ => rewrite lookup_wr_out by lia; mem_zero
  | |- zeros _ _ !! _ = _ => apply zeros_byte; lia
  | |- (_ ∪ _) !! _ = _ =>
      first [rewrite lookup_union_r by mem_none; mem_zero | rewrite lookup_union_l by mem_none; mem_zero]
  end.
Ltac mem_rd :=
  lazymatch goal with
  | |- rd _ (wr _ _ _ _) _ = _ =>
      first [rewrite rd_wr_ne by lia; mem_rd | rewrite rd_wr_same; reflexivity]
  | |- rd _ _ _ = _ => apply rd_zero; intros ? ?; mem_zero
  end.

(** [memcpy] copies exactly the requested bytes and changes no other byte,
    when the regions do not overlap or the destination is below the source. *)
Theorem memcpy_copies s dest src n :
  dest <> NULL -> src <> NULL -> 0 <= n ->
  mapped (mem s) dest n -> mapped (mem s) src n ->
  dest <= src \/ src + n <= dest ->
  exists m', memcpy dest src n s = Ok tt (with_mem s m') /\ copied (mem s) m' dest src n.
Proof. apply memcpy_eq. Qed.

Lemma memcpy_copies_witness :
  exists m', memcpy 16 8 4 (KState (zeros 8 16) ∅ []) = Ok tt (KState m' ∅ []) /\
    copied (zeros 8 16) m' 16 8 4.
Proof.
  apply (memcpy_copies (KState (zeros 8 16) ∅ []) 16 8 4); try (unfold NULL; lia);
    intros x Hx; apply zeros_mapped; lia.
Defined.

(** [strcmp] is 0 exactly on equal strings. *)
Theorem strcmp_equality s a b l1 l2 :
  cstr (mem s) a l1 -> cstr (mem s) b l2 ->
  Z.of_nat (length l1) < 2 ^ 31 -> Z.of_nat (length l2) < 2 ^ 31 ->
  strcmp a b s = Ok (negb (bool_decide (l1 = l2))) s.
Proof. apply strcmp_eq. Qed.

Definition str_ab : list byte := [Byte.x61; Byte.x62].

Lemma cstr_put m a l : Byte.x00 ∉ l -> cstr (put_bytes m a (l ++ [Byte.x00])) a l.
Proof.
  intros H. split; [|done]. intros i b Hb. unfold put_bytes.
  apply lookup_union_Some_l, elem_of_list_to_map_1.
  - rewrite fmap_imap. apply NoDup_alt. intros j k x Hj Hk.
    rewrite !list_lookup_imap in Hj, Hk.
    apply fmap_Some in Hj as (? & ? & ->), Hk as (? & ? & E). simpl in E. lia.
  - apply list_elem_of_lookup. exists i. by rewrite list_lookup_imap, Hb.
Qed.

Lemma strcmp_equality_witness :
  strcmp 8 8 (KState (put_bytes ∅ 8 (str_ab ++ [Byte.x00])) ∅ []) =
    Ok false (KState (put_bytes ∅ 8 (str_ab ++ [Byte.x00])) ∅ []).
Proof.
  apply (strcmp_equality (KState (put_bytes ∅ 8 (str_ab ++ [Byte.x00])) ∅ []) 8 8 str_ab str_ab);
    try (apply cstr_put; by apply (bool_decide_unpack _)); done.
Defined.

(** The tokens a caller collects with [strtok(str, delim)] and then
    [strtok(NULL, delim)] until [NULL] are exactly the delimiter-separated
    components of the string, in order and with the empty ones, as C strings
    cut out of the original buffer; nothing outside that buffer is written. *)
Theorem strtok_enumerates_components p delim ds l s :
  0 < p -> cstr (mem s) p l -> cstr (mem s) delim ds -> 0 < delim ->
  (p + Z.of_nat (length l) + 1 <= delim \/ delim + Z.of_nat (length ds) + 1 <= p) ->
  exists ts s', strtok_all (length l + 2) p delim s = Ok ts s' /\
    Forall2 (cstr (mem s')) ts (split_on ds l) /\
    same_outside p (Z.of_nat (length l) + 1) (mem s) (mem s').
Proof.
  intros Hp Hl Hd Hd0 Hdisj.
  destruct (strtok_all_eq (length l + 2) p p delim ds l s) as (ts & s' & H1 & H2 & H3 & _);
    [done|by left|done..|lia|].
  by exists ts, s'.
Qed.

(** The path [a/b] at 32 and the delimiter string [/] at 8. *)
Definition tok_mem : gmap Z byte :=
  put_bytes (put_bytes ∅ 8 [slash_byte; Byte.x00]) 32 [Byte.x61; slash_byte; Byte.x62; Byte.x00].

Lemma strtok_enumerates_components_witness :
  exists ts s', strtok_all 5 32 8 (KState tok_mem ∅ []) = Ok ts s' /\
    Forall2 (cstr (mem s')) ts [[Byte.x61]; [Byte.x62]] /\
    same_outside 32 4 tok_mem (mem s').
Proof.
  apply (strtok_enumerates_components 32 8 [slash_byte] [Byte.x61; slash_byte; Byte.x62] (KState tok_mem ∅ [])).
  - lia.
  - apply (cstr_put _ 32 [Byte.x61; slash_byte; Byte.x62]). by apply (bool_decide_unpack _).
  - split; [|by apply (bool_decide_unpack _)].
    apply bytes_at_cons. split; [reflexivity|]. apply bytes_at_cons.
    split; [reflexivity|]. apply bytes_at_nil.
  - lia.
  - simpl. lia.
Defined.

(** [basename] returns the last component of a non-empty path: a string
    inside the path's own buffer that holds what follows the last slash once
    trailing slashes are dropped, and [/] for a path of slashes only. *)
Theorem basename_last_component dot a l s :
  a <> NULL -> l <> [] -> cstr (mem s) a l -> Z.of_nat (length l) < 2 ^ 31 ->
  exists q m', basename dot a s = Ok q (with_mem s m') /\ cstr m' q (base_of l) /\
    same_outside a (Z.of_nat (length l)) (mem s) m' /\
    a <= q < a + Z.of_nat (length l).
Proof. apply basename_eq. Qed.

Lemma basename_last_component_witness :
  exists q m', basename 4 32 (KState tok_mem ∅ []) = Ok q (KState m' ∅ []) /\
    cstr m' q [Byte.x62] /\ same_outside 32 3 tok_mem m' /\ 32 <= q < 35.
Proof.
  apply (basename_last_component 4 32 [Byte.x61; slash_byte; Byte.x62] (KState tok_mem ∅ [])).
  - unfold NULL. lia.
  - done.
  - apply (cstr_put _ 32 [Byte.x61; slash_byte; Byte.x62]). by apply (bool_decide_unpack _).
  - simpl. lia.
Defined.

(** [itoa] round trip.  A number below [base^49] (so every 64-bit number
    in bases 10 and 16) is written as its digits, most significant first,
    inside the static buffer and without a leading zero: read back, they give
    the number. *)
Theorem itoa_roundtrip buffer num base s :
  2 <= base <= 16 -> 0 <= num < base ^ 49 -> mapped (mem s) buffer 50 ->
  exists p ds m', itoa buffer num base s = Ok p (with_mem s m') /\
    cstr m' p (digit_byte <$> ds) /\ val_digits base ds = num /\
    Forall (fun d => 0 <= d < base) ds /\ (head ds = Some 0 -> ds = [0]) /\ buffer <= p /\
    same_outside buffer 50 (mem s) m'.
Proof.
  intros Hb Hn Hm.
  destruct (itoa_eq buffer buffer 48 num base s) as (p & ds & m' & E & Hc & Hv & Hf & Hl & Hp & Hso & Hlead);
    [done|done|lia|lia| |].
  - by replace (buffer + 50 - buffer) with 50 by lia.
  - exists p, ds, m'. replace (buffer + 50 - buffer) with 50 in Hso by lia.
    do 5 (split; [done|]). split; [lia|done].
Qed.

Lemma itoa_roundtrip_witness :
  exists p ds m', itoa 64 255 16 (KState (zeros 64 50) ∅ []) = Ok p (KState m' ∅ []) /\
    cstr m' p (digit_byte <$> ds) /\ val_digits 16 ds = 255 /\
    Forall (fun d => 0 <= d < 16) ds /\ (head ds = Some 0 -> ds = [0]) /\ 64 <= p /\
    same_outside 64 50 (zeros 64 50) m'.
Proof.
  apply (itoa_roundtrip 64 255 16 (KState (zeros 64 50) ∅ [])); [lia|lia|].
  intros x Hx. apply zeros_mapped. lia.
Defined.

(** C23: [itoa] in base 2 overruns its buffer: a number of 50 or more bits is
    written starting below [buffer]. *)
Theorem itoa_binary_underrun buffer num s :
  2 ^ 49 <= num < 2 ^ 64 -> mapped (mem s) (buffer - 15) 65 ->
  exists p m', itoa buffer num 2 s = Ok p (with_mem s m') /\ p < buffer.
Proof.
  intros Hn Hm.
  destruct (itoa_eq buffer (buffer - 15) 63 num 2 s) as (p & ds & m' & E & Hc & Hv & Hf & Hl & Hp & Hso & Hlead);
    [lia|simpl; lia|lia|lia| |].
  - by replace (buffer + 50 - (buffer - 15)) with 65 by lia.
  - exists p, m'. split; [done|]. subst p.
    pose proof (val_digits_bound 2 ds ltac:(lia) Hf) as Hb. rewrite Hv in Hb.
    assert (49 < Z.of_nat (length ds)); [|lia].
    apply (Z.pow_lt_mono_r_iff 2); lia.
Qed.

Lemma itoa_binary_underrun_witness :
  exists p m', itoa 32 (2 ^ 63) 2 (KState (zeros 17 65) ∅ []) = Ok p (KState m' ∅ []) /\ p < 32.
Proof.
  apply (itoa_binary_underrun 32 (2 ^ 63) (KState (zeros 17 65) ∅ [])); [lia|].
  intros x Hx. apply zeros_mapped. lia.
Defined.
