(* ===== verification/Layout.v ===== *)
(** Structures in memory: consecutive fields of a packed structure, stored one by
    one, are one little-endian word; and equations for short runs of stores. *)
From S2P Require Import Prelude Machine.

Section fields.
Implicit Types (m : gmap Z byte) (a x y v : Z) (n k : nat).

Lemma Z_byte_mod v w : v mod 256 = w mod 256 -> Z_byte v = Z_byte w.
Proof. intros E. apply byte_Z_inj. by rewrite !byte_Z_Z_byte. Qed.

(** Two neighbouring fields are one. *)
Lemma wr_fields n k m a x y :
  0 <= x < 2 ^ (8 * Z.of_nat n) ->
  wr k (wr n m a x) (a + Z.of_nat n) y = wr (n + k) m a (x + 2 ^ (8 * Z.of_nat n) * y).
Proof.
  intros Hx. apply map_eq. intros b. set (P := 2 ^ (8 * Z.of_nat n)) in *. assert (HP : 0 < P) by (unfold P; lia).
  destruct (decide (a <= b < a + Z.of_nat n)) as [H1|H1]; [|destruct (decide (b < a + Z.of_nat (n + k) /\ a <= b)) as [H2|H2]].
  - rewrite lookup_wr_out, !lookup_wr_in by lia. f_equal. apply Z_byte_mod.
    set (e := 8 * (b - a)).
    assert (E : P = 2 ^ e * (256 * 2 ^ (8 * (Z.of_nat n - (b - a) - 1)))).
    { unfold P, e. change 256 with (2 ^ 8). rewrite <- !Z.pow_add_r by lia. f_equal. lia. }
    rewrite E. rewrite <- Z.mul_assoc, (Z.mul_comm (2 ^ e)), Z.div_add by (unfold e; lia).
    rewrite <- Z.mul_assoc, (Z.mul_comm 256), Z_mod_plus_full. done.
  - rewrite !lookup_wr_in by lia. do 2 f_equal.
    replace (8 * (b - a)) with (8 * Z.of_nat n + 8 * (b - (a + Z.of_nat n))) by lia.
    assert (0 < 2 ^ (8 * (b - (a + Z.of_nat n)))) by (apply Z.pow_pos_nonneg; lia).
    rewrite Z.pow_add_r by lia. fold P. rewrite <- Z.div_div by (done || lia).
    rewrite (Z.mul_comm P). rewrite Z.div_add by lia. by rewrite (Z.div_small x P) by lia.
  - by rewrite !lookup_wr_out by lia.
Qed.

(** The order of stores to different places does not matter. *)
Lemma wr_comm n k m a x b y :
  a + Z.of_nat n <= b \/ b + Z.of_nat k <= a -> wr n (wr k m b y) a x = wr k (wr n m a x) b y.
Proof.
  intros H. apply map_eq. intros c.
  destruct (decide (a <= c < a + Z.of_nat n)); destruct (decide (b <= c < b + Z.of_nat k)); try lia.
  - by rewrite lookup_wr_in, lookup_wr_out, lookup_wr_in by lia.
  - by rewrite lookup_wr_out, !lookup_wr_in by lia.
  - by rewrite !lookup_wr_out by lia.
Qed.

End fields.

(** A store that is followed by something. *)
Lemma st_then {A} n a v (c : K A) s :
  mapped (mem s) a (Z.of_nat n) -> (st n a v ;; c) s = c (with_mem s (wr n (mem s) a v)).
Proof. intros H. by rewrite (bind_Ok _ _ s tt (with_mem s (wr n (mem s) a v))) by (by apply st_ok). Qed.

Lemma ld_then {A} n a v (f : Z -> K A) s :
  rd n (mem s) a = Some v -> (ld n a ≫= f) s = f v s.
Proof. intros H. by rewrite (bind_Ok _ _ s v s) by (by apply ld_ok). Qed.

(** A total-correctness proof of a procedure, as an equation. *)
Lemma wp_proc (c : K unit) (Q : kstate -> Prop) s :
  wp c (fun _ => Q) s -> exists s', c s = Ok tt s' /\ Q s'.
Proof. intros H. apply wp_Ok in H as ([] & s' & E & HQ). by exists s'. Qed.
