(* ===== verification/Interfaces.v ===== *)
(** Interfaces between components.

    [FrameAllocator]: what the physical memory manager promises to the virtual
    memory manager.  The page-table code is written against its operation
    [frame_calloc] and proved against its laws; [Pmm.pmm_frames] is the instance
    whose operation is [pmm_calloc]. *)
From S2P Require Import Prelude Machine.

(** The address of frame [f] in the direct map. *)
Definition frame_va (HHDM_OFFSET f : Z) : Z := HHDM_OFFSET + 0x1000 * f.

Class FrameAllocator (HHDM_OFFSET : Z) := {
  (** [frame_calloc n]: the physical address of [n] zeroed frames, or 0. *)
  frame_calloc : Z -> K Z;
  (** [frame_alloc size]: zeroed frames for [size] bytes; halts without them. *)
  frame_alloc : Z -> K Z;

  (** The allocator's invariant, the frames it has handed out, and the number of
      frames it can still hand out one by one. *)
  fa_inv : kstate -> Prop;
  fa_owned : kstate -> Z -> Prop;
  fa_free : kstate -> nat;
  (** There is a run of so many free frames. *)
  fa_room : kstate -> nat -> Prop;
  (** The globals the allocator's state lives in. *)
  fa_global : gvar -> Prop;
  (** The bytes that are neither in a frame the allocator may hand out nor part of
      its own state, such as the static variables of the kernel. *)
  fa_static : kstate -> Z -> Prop;

  fa_alloc size s :
    0 < size <= 0x1000 ->
    frame_alloc size s = (ptr ← frame_calloc 1; kassert (negb (ptr =? 0)) ;; mret ptr) s;
  fa_foreign v : v ∈ [g_vmm_lock; g_kernel_pagemap; g_cr3] -> ~ fa_global v;

  fa_hhdm : forall s, fa_inv s -> 0 < HHDM_OFFSET;
  fa_owned_range s f :
    fa_inv s -> fa_owned s f -> 1 <= f < 2 ^ 40 /\ frame_va HHDM_OFFSET (f + 1) <= 2 ^ 64;
  fa_owned_mapped s f :
    fa_inv s -> fa_owned s f -> mapped (mem s) (frame_va HHDM_OFFSET f) 0x1000;
  fa_static_globals s s' x :
    (forall v, fa_global v -> gval s' v = gval s v) -> fa_static s x -> fa_static s' x;
  fa_static_apart s f x :
    fa_owned s f -> fa_static s x -> ~ (frame_va HHDM_OFFSET f <= x < frame_va HHDM_OFFSET (f + 1));

  (** A frame that was not handed out before, zeroed; every frame handed out
      before keeps its contents. *)
  fa_calloc s :
    fa_inv s -> (0 < fa_free s)%nat ->
    exists f s', frame_calloc 1 s = Ok (0x1000 * f) s' /\ fa_inv s' /\
      ~ fa_owned s f /\ (forall g, fa_owned s' g <-> fa_owned s g \/ g = f) /\
      fa_free s = S (fa_free s') /\ same_globals s s' /\ trace s' = trace s /\
      (forall x, frame_va HHDM_OFFSET f <= x < frame_va HHDM_OFFSET (f + 1) ->
         mem s' !! x = Some Byte.x00) /\
      (forall g x, fa_owned s g ->
         frame_va HHDM_OFFSET g <= x < frame_va HHDM_OFFSET (g + 1) -> mem s' !! x = mem s !! x) /\
      (forall x, fa_static s x -> mem s' !! x = mem s !! x) /\
      (forall k, fa_room s (S k) -> fa_room s' k);

  (** With no frame left the result is a null pointer, unless clearing the
      frame it does not have faults first. *)
  fa_calloc_full s :
    fa_inv s -> fa_free s = 0%nat ->
    frame_calloc 1 s = Fault \/ exists s', frame_calloc 1 s = Ok 0 s';

  (** The owner of a frame may write to it. *)
  fa_write s g m' :
    fa_inv s -> fa_owned s g -> same_outside (frame_va HHDM_OFFSET g) 0x1000 (mem s) m' ->
    fa_inv (with_mem s m') /\ fa_free (with_mem s m') = fa_free s /\
    forall h, fa_owned (with_mem s m') h <-> fa_owned s h;
  fa_write_room s g m' k :
    fa_inv s -> fa_owned s g -> same_outside (frame_va HHDM_OFFSET g) 0x1000 (mem s) m' ->
    fa_room s k -> fa_room (with_mem s m') k;

  (** The other components' globals do not concern the allocator. *)
  fa_glob s v x :
    fa_inv s -> ~ fa_global v ->
    fa_inv (with_glob s v x) /\ fa_free (with_glob s v x) = fa_free s /\
    forall h, fa_owned (with_glob s v x) h <-> fa_owned s h;
  fa_trace s t :
    fa_inv s -> fa_inv (KState (mem s) (glob s) t) /\
    fa_free (KState (mem s) (glob s) t) = fa_free s /\
    forall h, fa_owned (KState (mem s) (glob s) t) h <-> fa_owned s h;
  fa_glob_room s v x k : ~ fa_global v -> fa_room s k -> fa_room (with_glob s v x) k;
  fa_trace_room s t k : fa_room s k -> fa_room (KState (mem s) (glob s) t) k
}.

Definition static_kept `{FrameAllocator} (s s' : kstate) : Prop :=
  forall x, fa_static s x -> mem s' !! x = mem s !! x.

Section static.
Context `{FA : FrameAllocator}.

Lemma static_refl s : static_kept s s.
Proof. done. Qed.

Lemma static_trans s1 s2 s3 :
  same_globals s1 s2 -> static_kept s1 s2 -> static_kept s2 s3 -> static_kept s1 s3.
Proof.
  intros Hg H1 H2 x Hx. rewrite H2; [by apply H1|]. eapply fa_static_globals; [|exact Hx]. by intros v _; apply Hg.
Qed.

(** A store into a frame that somebody has. *)
Lemma static_wr s f (n : nat) a w :
  fa_owned s f -> frame_va HHDM_OFFSET f <= a -> a + Z.of_nat n <= frame_va HHDM_OFFSET (f + 1) ->
  static_kept s (with_mem s (wr n (mem s) a w)).
Proof.
  intros Hf H1 H2 x Hx. apply lookup_wr_out. intros Hin. apply (fa_static_apart s f x Hf Hx). lia.
Qed.

End static.

(** A run of free frames is shorter by at most the frames that were taken. *)
Definition room_kept `{FrameAllocator} (s s' : kstate) : Prop :=
  (fa_free s' <= fa_free s)%nat /\ forall k, fa_room s (fa_free s - fa_free s' + k)%nat -> fa_room s' k.

Section room.
Context `{FA : FrameAllocator}.

Lemma room_refl s s' : fa_free s' = fa_free s -> (forall k, fa_room s k -> fa_room s' k) -> room_kept s s'.
Proof. intros E H. split; [lia|]. intros k Hk. apply H. by replace k with (fa_free s - fa_free s' + k)%nat by lia. Qed.

Lemma room_trans s1 s2 s3 : room_kept s1 s2 -> room_kept s2 s3 -> room_kept s1 s3.
Proof.
  intros [F1 H1] [F2 H2]. split; [lia|]. intros k Hk. apply H2, H1.
  by replace (fa_free s1 - fa_free s2 + (fa_free s2 - fa_free s3 + k))%nat with (fa_free s1 - fa_free s3 + k)%nat by lia.
Qed.

End room.
