(* ===== verification/Pmm.v ===== *)
(** The physical frame allocator of [memory/pmm.c]: a bitmap in memory, one bit
    per 4 KiB frame, 1 for a frame in use.

    [bit], [used]: the abstract reading of the bitmap.  [first_fit], [no_fit]:
    what [pmm_malloc]'s single pass is to find.  [FrameSpec] is the abstract
    allocator, a set of frames in use with a brute-force search; the bitmap code
    refines it ([PmmSpec]). *)
From S2P Require Import Prelude Machine Lock Str Interfaces.
Import Lock.Seq.

Definition FRAME_SIZE : Z := 0x1000.

(** * The operations *)

Definition BIT_SET (bit : Z) : K unit :=
  bitmap ← gget g_bitmap;
  b ← ld 1 (bitmap + bit / 8);
  st 1 (bitmap + bit / 8) (Z.lor b (Z.shiftl 1 (bit mod 8))).
Definition BIT_CLEAR (bit : Z) : K unit :=
  bitmap ← gget g_bitmap;
  b ← ld 1 (bitmap + bit / 8);
  st 1 (bitmap + bit / 8) (Z.land b (Z.lnot (Z.shiftl 1 (bit mod 8)))).
Definition BIT_TEST (bit : Z) : K Z :=
  bitmap ← gget g_bitmap;
  b ← ld 1 (bitmap + bit / 8);
  mret (Z.land (Z.shiftr b (bit mod 8)) 1).

Definition pmm_free (ptr frames : Z) : K unit :=
  spinlock_acquire (LG g_pmm_lock) ;;
  let frame := ptr / FRAME_SIZE in
  kfor frame (u64 (frames + frame)) BIT_CLEAR ;;
  spinlock_release (LG g_pmm_lock).

(** The scan from [frame] with [n] frames to go; [Some frame'] is the first
    frame of the run it has taken. *)
Fixpoint pmm_scan (n : nat) (frame available_frames wanted_frames : Z) : K (option Z) :=
  match n with
  | O => mret None
  | S n' =>
      t ← BIT_TEST frame;
      let check (available_frames : Z) :=
        if available_frames =? wanted_frames then
          kfor 0 wanted_frames (fun i => BIT_SET (u64 (frame - i))) ;;
          mret (Some (u64 (frame - (wanted_frames - 1))))
        else pmm_scan n' (frame + 1) available_frames wanted_frames in
      if t =? 0 then check (u64 (available_frames + 1))
      else if negb (available_frames =? wanted_frames) then pmm_scan n' (frame + 1) 0 wanted_frames
      else check available_frames
  end.

Definition pmm_malloc (wanted_frames : Z) : K Z :=
  spinlock_acquire (LG g_pmm_lock) ;;
  limit ← gget g_limit;
  r ← pmm_scan (Z.to_nat (limit - 1)) 1 0 wanted_frames;
  spinlock_release (LG g_pmm_lock) ;;
  mret (match r with Some frame => u64 (FRAME_SIZE * frame) | None => NULL end).

(** The bootloader's memory map: an entry of [struct limine_memmap_entry]. *)
Record memmap_entry := MemmapEntry { mm_base : Z; mm_length : Z; mm_type : Z }.

#[export] Instance memmap_entry_eq_dec : EqDecision memmap_entry.
Proof. solve_decision. Defined.

Section pmm.
(** The offset of the higher-half direct map, from the bootloader. *)
Variable HHDM_OFFSET : Z.
(** The constant of [limine.h]. *)
Variable LIMINE_MEMMAP_USABLE : Z.

Definition pmm_calloc (frames : Z) : K Z :=
  ptr ← pmm_malloc frames;
  memset (u64 (ptr + HHDM_OFFSET)) 0 (u64 (frames * FRAME_SIZE)) ;;
  mret ptr.

Definition pmm_alloc (size : Z) : K Z :=
  let frames := u64 (size + (FRAME_SIZE - 1)) / FRAME_SIZE in
  ptr ← pmm_calloc frames;
  kassert (negb (ptr =? NULL)) ;;
  mret ptr.

(** [!mmaps[i]->type == LIMINE_MEMMAP_USABLE] *)
Definition skipped (e : memmap_entry) : bool :=
  (if mm_type e =? 0 then 1 else 0) =? LIMINE_MEMMAP_USABLE.

(** First loop: the totals and the highest usable address. *)
Fixpoint pmm_totals (i : Z) (mmaps : list memmap_entry) (usable available highest : Z)
    : K (Z * Z * Z) :=
  match mmaps with
  | [] => mret (usable, available, highest)
  | e :: rest =>
      let available := u64 (available + mm_length e) in
      printf "entry %d    base: %x    length: %x    type: %d    tail: %x\n"
        [i + 1; mm_base e; mm_length e; mm_type e; u64 (mm_base e + mm_length e)] ;;
      if skipped e then pmm_totals (i + 1) rest usable available highest
      else
        let usable := u64 (usable + mm_length e) in
        let top := u64 (mm_base e + mm_length e) in
        pmm_totals (i + 1) rest usable available (if highest <? top then top else highest)
  end.

(** Second loop: the first usable entry that can hold the bitmap gives up its
    first [bitmap_size] bytes. *)
Fixpoint pmm_place (mmaps : list memmap_entry) (bitmap_size available : Z)
    : K (list memmap_entry * Z) :=
  match mmaps with
  | [] => mret ([], available)
  | e :: rest =>
      if skipped e then
        '(rest', available') ← pmm_place rest bitmap_size available; mret (e :: rest', available')
      else if bitmap_size <=? mm_length e then
        gput g_bitmap (u64 (mm_base e + HHDM_OFFSET)) ;;
        memset (u64 (mm_base e + HHDM_OFFSET)) 0xff bitmap_size ;;
        mret (MemmapEntry (u64 (mm_base e + bitmap_size)) (mm_length e - bitmap_size) (mm_type e) :: rest,
              u64 (available - bitmap_size))
      else
        '(rest', available') ← pmm_place rest bitmap_size available; mret (e :: rest', available')
  end.

(** [for (t = 0; t < length; t += FRAME_SIZE) pmm_free(base + t, 1)]; the
    loop does not end when [t] can step over [length] and wrap around. *)
Definition pmm_release (e : memmap_entry) : K unit :=
  if 2 ^ 64 - FRAME_SIZE <? mm_length e then nofuel
  else kfor 0 ((mm_length e + (FRAME_SIZE - 1)) / FRAME_SIZE)
         (fun k => pmm_free (u64 (mm_base e + k * FRAME_SIZE)) 1).

Fixpoint pmm_release_all (mmaps : list memmap_entry) : K unit :=
  match mmaps with
  | [] => mret tt
  | e :: rest =>
      (if negb (mm_type e =? LIMINE_MEMMAP_USABLE) then mret tt else pmm_release e) ;;
      pmm_release_all rest
  end.

(** Returns the memory map as the function leaves it. *)
Definition pmm_init (mmaps : list memmap_entry) : K (list memmap_entry) :=
  printf "There are %d entries in the mmap.\n" [Z.of_nat (length mmaps)] ;;
  '(usable, available, highest) ← pmm_totals 0 mmaps 0 0 0;
  gput g_limit (highest / FRAME_SIZE) ;;
  let bitmap_size := ALIGN_UP (highest / FRAME_SIZE / 8) FRAME_SIZE in
  '(mmaps', available') ← pmm_place mmaps bitmap_size available;
  pmm_release_all mmaps' ;;
  printf "%dMiB/%dMiB of usable memmory\n" [usable / 1000 / 1000; available' / 1000 / 1000] ;;
  printf "PMM initialized.\n" [] ;;
  mret mmaps'.

End pmm.

(** * The bitmap as a set of frames *)

Definition bit (m : gmap Z byte) (p g : Z) : bool :=
  match m !! (p + g / 8) with
  | Some b => Z.testbit (byte_Z b) (g mod 8)
  | None => true
  end.

(** Frame [g] is in use. *)
Definition used (s : kstate) (g : Z) : bool := bit (mem s) (gval s g_bitmap) g.

(** Bytes of bitmap that the scan can touch. *)
Definition bitmap_bytes (s : kstate) : Z := (gval s g_limit + 7) / 8.

(** The bitmap covers the frames below the limit and is mapped; frame numbers
    are below [2^52], so that a frame's address is a 64-bit number. *)
Record bm_ok (s : kstate) : Prop := {
  bm_limit : 0 <= gval s g_limit < 2 ^ 52;
  bm_mapped : mapped (mem s) (gval s g_bitmap) (bitmap_bytes s)
}.
(** The allocator is ready: moreover its lock is free. *)
Record pmm_ok (s : kstate) : Prop := {
  pmm_lock_free : gval s g_pmm_lock = 0;
  pmm_bm : bm_ok s
}.

Definition free_run (s : kstate) (f n : Z) : Prop :=
  forall g, f <= g < f + n -> used s g = false.
Definition first_fit (s : kstate) (n f : Z) : Prop :=
  1 <= f /\ f + n <= gval s g_limit /\ free_run s f n /\
  forall g, 1 <= g < f -> ~ free_run s g n.
Definition no_fit (s : kstate) (n : Z) : Prop :=
  forall g, 1 <= g -> g + n <= gval s g_limit -> ~ free_run s g n.

(** [m'] is [m] with the bits of the frames [f .. f + n - 1] set to [v]. *)
Definition bits_set (m m' : gmap Z byte) (p len f n : Z) (v : bool) : Prop :=
  same_outside p len m m' /\
  forall g, 0 <= g -> bit m' p g = if bool_decide (f <= g < f + n) then v else bit m p g.

(** What an allocation or a free of frames does to the whole state. *)
Record frames_set (s s' : kstate) (f n : Z) (v : bool) : Prop := {
  fs_bits : bits_set (mem s) (mem s') (gval s g_bitmap) (bitmap_bytes s) f n v;
  fs_globals : same_globals s s';
  fs_trace : trace s' = trace s
}.

(** * The abstract allocator *)

Module FrameSpec.

(** The frames of [[f, f + n)]. *)
Definition frames (f n : Z) : gset Z := list_to_set (seqZ f n).
Definition fits (U : gset Z) (n f : Z) : Prop := frames f n ## U.

#[export] Instance fits_dec U n f : Decision (fits U n f).
Proof. unfold fits. apply _. Defined.

(** The lowest run of [n] frames of [[1, limit)] outside [U]. *)
Definition find (U : gset Z) (limit n : Z) : option Z :=
  snd <$> list_find (fits U n) (seqZ 1 (limit - n)).
Definition malloc (U : gset Z) (limit n : Z) : option Z * gset Z :=
  match find U limit n with
  | Some f => (Some f, frames f n ∪ U)
  | None => (None, U)
  end.
Definition free (U : gset Z) (f n : Z) : gset Z := U ∖ frames f n.

End FrameSpec.

(** The frames below the limit that the bitmap marks as in use. *)
Definition abs_frames (s : kstate) : gset Z :=
  list_to_set (filter (fun g => used s g = true) (seqZ 0 (gval s g_limit))).

(** * Frames and the direct map *)

Section direct_map.
Variable HHDM_OFFSET : Z.

(** Frame [g] does not overlap the bitmap. *)
Definition off_bitmap (s : kstate) (g : Z) : Prop :=
  frame_va HHDM_OFFSET (g + 1) <= gval s g_bitmap \/
  gval s g_bitmap + bitmap_bytes s <= frame_va HHDM_OFFSET g.

(** The allocator with its direct map: every frame it may hand out is mapped
    and does not hold the bitmap. *)
Record pmm_inv (s : kstate) : Prop := {
  pi_ok : pmm_ok s;
  pi_hhdm : 0 < HHDM_OFFSET;
  pi_limit : gval s g_limit <= 2 ^ 40;
  pi_top : frame_va HHDM_OFFSET (gval s g_limit) < 2 ^ 64;
  pi_free : forall g, 1 <= g < gval s g_limit -> used s g = false ->
    mapped (mem s) (frame_va HHDM_OFFSET g) FRAME_SIZE /\ off_bitmap s g
}.

Definition pmm_owned (s : kstate) (g : Z) : Prop :=
  1 <= g < gval s g_limit /\ used s g = true /\
  mapped (mem s) (frame_va HHDM_OFFSET g) FRAME_SIZE /\ off_bitmap s g.

(** The bytes outside the bitmap and the frames below the limit. *)
Definition pmm_static (s : kstate) (x : Z) : Prop :=
  ~ (frame_va HHDM_OFFSET 1 <= x < frame_va HHDM_OFFSET (gval s g_limit)) /\
  ~ (gval s g_bitmap <= x < gval s g_bitmap + bitmap_bytes s).

(** What [pmm_calloc] does when it hands out the frames [f .. f + n - 1]. *)
Record calloc_post (s s' : kstate) (f n : Z) : Prop := {
  cp_used : forall g, 0 <= g < gval s g_limit ->
    used s' g = if bool_decide (f <= g < f + n) then true else used s g;
  cp_zero : forall x, frame_va HHDM_OFFSET f <= x < frame_va HHDM_OFFSET (f + n) ->
    mem s' !! x = Some Byte.x00;
  cp_dom : forall x, is_Some (mem s' !! x) <-> is_Some (mem s !! x);
  cp_out : forall x,
    ~ (frame_va HHDM_OFFSET f <= x < frame_va HHDM_OFFSET (f + n)) ->
    ~ (gval s g_bitmap <= x < gval s g_bitmap + bitmap_bytes s) ->
    mem s' !! x = mem s !! x;
  cp_globals : same_globals s s';
  cp_trace : trace s' = trace s
}.

End direct_map.

Definition pmm_nfree (s : kstate) : nat :=
  length (filter (fun g => used s g = false) (seqZ 1 (gval s g_limit - 1))).

(** A run of [k] free frames. *)
Definition pmm_room (s : kstate) (k : nat) : Prop :=
  exists a, 1 <= a /\ a + Z.of_nat k <= gval s g_limit /\ free_run s a (Z.of_nat k).

Definition pmm_global (v : gvar) : Prop := v = g_bitmap \/ v = g_limit \/ v = g_pmm_lock.

(** * Bits *)

Section bits.
Implicit Types (m : gmap Z byte) (p f g : Z) (b : byte).

Lemma land_1_testbit x k : 0 <= k -> Z.land (Z.shiftr x k) 1 = Z.b2z (Z.testbit x k).
Proof.
  intros Hk. change 1 with (Z.ones 1) at 1. rewrite Z.land_ones by lia.
  rewrite Z.testbit_spec' by done. by rewrite Z.shiftr_div_pow2 by done.
Qed.

(** A byte update seen through [bit]: only the bits of that byte can change. *)
Lemma bit_insert m p f c g :
  0 <= f -> 0 <= g ->
  bit (<[p + f / 8 := Z_byte c]> m) p g =
    if bool_decide (g / 8 = f / 8) then Z.testbit c (g mod 8) else bit m p g.
Proof.
  intros Hf Hg. unfold bit. case_bool_decide as E.
  - rewrite E, lookup_insert_eq, byte_Z_Z_byte. change 256 with (2 ^ 8).
    apply Z.mod_pow2_bits_low. zlia.
  - by rewrite lookup_insert_ne by lia.
Qed.

Lemma div_mod_8_inj f g : f / 8 = g / 8 -> f mod 8 = g mod 8 -> f = g.
Proof. zlia. Qed.

Lemma bit_set_spec m p f b g :
  m !! (p + f / 8) = Some b -> 0 <= f -> 0 <= g ->
  bit (<[p + f / 8 := Z_byte (Z.lor (byte_Z b) (Z.shiftl 1 (f mod 8)))]> m) p g =
    if bool_decide (g = f) then true else bit m p g.
Proof.
  intros Hb Hf Hg. assert (0 <= f mod 8 < 8) by zlia. assert (0 <= g mod 8 < 8) by zlia.
  rewrite bit_insert by done. case_bool_decide as E.
  - rewrite Z.lor_spec, Z.shiftl_1_l, Z.pow2_bits_eqb by lia.
    case_bool_decide as E'; [subst; by rewrite Z.eqb_refl, orb_true_r|].
    destruct (Z.eqb_spec (f mod 8) (g mod 8)) as [E8|_];
      [by destruct E'; apply div_mod_8_inj|].
    rewrite orb_false_r. unfold bit. by rewrite E, Hb.
  - rewrite bool_decide_eq_false_2 by congruence. done.
Qed.

Lemma bit_clear_spec m p f b g :
  m !! (p + f / 8) = Some b -> 0 <= f -> 0 <= g ->
  bit (<[p + f / 8 := Z_byte (Z.land (byte_Z b) (Z.lnot (Z.shiftl 1 (f mod 8))))]> m) p g =
    if bool_decide (g = f) then false else bit m p g.
Proof.
  intros Hb Hf Hg. assert (0 <= f mod 8 < 8) by zlia. assert (0 <= g mod 8 < 8) by zlia.
  rewrite bit_insert by done. case_bool_decide as E.
  - rewrite Z.land_spec, Z.lnot_spec, Z.shiftl_1_l, Z.pow2_bits_eqb by lia.
    case_bool_decide as E'; [subst; by rewrite Z.eqb_refl, andb_false_r|].
    destruct (Z.eqb_spec (f mod 8) (g mod 8)) as [E8|_];
      [by destruct E'; apply div_mod_8_inj|].
    rewrite andb_true_r. unfold bit. by rewrite E, Hb.
  - rewrite bool_decide_eq_false_2 by congruence. done.
Qed.

(** A bitmap is determined by its bits. *)
Lemma bits_ext m m' p len :
  same_outside p len m m' -> (forall g, 0 <= g -> bit m' p g = bit m p g) -> m' = m.
Proof.
  intros [D E] H. apply map_eq. intros x.
  destruct (decide (p <= x < p + len)) as [Hx|Hx]; [|by apply E].
  specialize (D x). destruct (m' !! x) as [b'|] eqn:E', (m !! x) as [b|] eqn:Eb.
  - f_equal. apply byte_Z_inj, Z.bits_inj'. intros k Hk.
    destruct (decide (k < 8)).
    + specialize (H (8 * (x - p) + k) ltac:(lia)). unfold bit in H.
      replace (p + (8 * (x - p) + k) / 8) with x in H by zlia.
      replace ((8 * (x - p) + k) mod 8) with k in H by zlia. by rewrite E', Eb in H.
    + pose proof (byte_Z_range b). pose proof (byte_Z_range b').
      rewrite <- (Z.mod_small (byte_Z b) (2 ^ 8)), <- (Z.mod_small (byte_Z b') (2 ^ 8)) by lia.
      by rewrite !Z.mod_pow2_bits_high by lia.
  - exfalso. destruct D as [D _]. by destruct (D ltac:(eauto)).
  - exfalso. destruct D as [_ D]. by destruct (D ltac:(eauto)).
  - done.
Qed.

Lemma bits_set_refl m p len f v : bits_set m m p len f 0 v.
Proof. split; [done|]. intros g Hg. by rewrite bool_decide_eq_false_2 by lia. Qed.

End bits.

(** * One bit *)

Section bit_ops.
Implicit Types (s : kstate) (f : Z).

Lemma bitmap_byte s f :
  bm_ok s -> 0 <= f < gval s g_limit -> is_Some (mem s !! (gval s g_bitmap + f / 8)).
Proof.
  intros [_ Hm] Hf. apply Hm. unfold bitmap_bytes. zlia.
Qed.

Lemma BIT_TEST_eq s f :
  bm_ok s -> 0 <= f < gval s g_limit -> BIT_TEST f s = Ok (Z.b2z (used s f)) s.
Proof.
  intros Hok Hf. destruct (bitmap_byte s f Hok Hf) as [b Hb]. unfold BIT_TEST.
  rewrite (bind_Ok _ _ s (gval s g_bitmap) s) by done.
  rewrite (bind_Ok _ _ _ _ _ (ld_byte _ _ _ Hb)). unfold used, bit. rewrite Hb.
  unfold mret, K_ret. f_equal. apply land_1_testbit. zlia.
Qed.

(** Setting or clearing one bit. *)
Lemma bit_update_eq s f v :
  bm_ok s -> 0 <= f < gval s g_limit ->
  exists m', (if v : bool then BIT_SET f else BIT_CLEAR f) s = Ok tt (with_mem s m') /\
    bits_set (mem s) m' (gval s g_bitmap) (bitmap_bytes s) f 1 v.
Proof.
  intros Hok Hf. destruct (bitmap_byte s f Hok Hf) as [b Hb].
  assert (Hin : forall c, same_outside (gval s g_bitmap) (bitmap_bytes s) (mem s)
                  (<[gval s g_bitmap + f / 8 := Z_byte c]> (mem s))).
  { intros c. apply same_outside_insert; [done|by rewrite Hb|]. unfold bitmap_bytes. zlia. }
  destruct v; unfold BIT_SET, BIT_CLEAR; rewrite (bind_Ok _ _ s (gval s g_bitmap) s) by done;
    rewrite (bind_Ok _ _ _ _ _ (ld_byte _ _ _ Hb)); rewrite st_byte by (by rewrite Hb).
  all: eexists; split; [reflexivity|]; split; [apply Hin|]; intros g Hg.
  - rewrite bit_set_spec by (done || lia).
    by rewrite (bool_decide_ext (g = f) (f <= g < f + 1)) by lia.
  - rewrite bit_clear_spec by (done || lia).
    by rewrite (bool_decide_ext (g = f) (f <= g < f + 1)) by lia.
Qed.

Lemma bm_ok_mem s m' len p :
  bm_ok s -> same_outside p len (mem s) m' -> bm_ok (with_mem s m').
Proof.
  intros [H1 H2] Hso. split; [done|]. by eapply same_outside_mapped.
Qed.

End bit_ops.

(** * The loops *)

Section loops.
Implicit Types (s : kstate).

Lemma bits_set_trans m1 m2 m3 p len f n f' n' v a k :
  bits_set m1 m2 p len f n v -> bits_set m2 m3 p len f' n' v ->
  (forall g, a <= g < a + k <-> f <= g < f + n \/ f' <= g < f' + n') ->
  bits_set m1 m3 p len a k v.
Proof.
  intros [S1 B1] [S2 B2] H. split; [by eapply same_outside_trans|].
  intros g Hg. rewrite B2, B1 by done. specialize (H g).
  repeat case_bool_decide; try done; tauto.
Qed.

Lemma clear_loop s lo n :
  bm_ok s -> 0 <= lo -> 0 <= n -> lo + n <= gval s g_limit ->
  wp (kfor lo (lo + n) BIT_CLEAR)
    (fun _ s' => exists m', s' = with_mem s m' /\
       bits_set (mem s) m' (gval s g_bitmap) (bitmap_bytes s) lo n false) s.
Proof.
  intros Hok Hlo Hn Hlim.
  apply (wp_kfor (fun i s' => exists m', s' = with_mem s m' /\
    bits_set (mem s) m' (gval s g_bitmap) (bitmap_bytes s) lo (i - lo) false)); [lia| | |].
  - exists (mem s). split; [by destruct s|]. rewrite Z.sub_diag. apply bits_set_refl.
  - intros i s' Hi (m' & -> & Hb).
    destruct (bit_update_eq (with_mem s m') i false) as (m2 & E & Hb2).
    + destruct Hb. by eapply bm_ok_mem.
    + rewrite gval_with_mem. lia.
    + eapply wp_eq; [exact E|]. exists m2. split; [done|].
      eapply bits_set_trans; [exact Hb|exact Hb2|]. lia.
  - intros s' (m' & -> & Hb). exists m'. split; [done|]. by replace (lo + n - lo) with n in Hb by lia.
Qed.

Lemma set_loop s frame n :
  bm_ok s -> 0 <= n <= frame + 1 -> frame < gval s g_limit ->
  wp (kfor 0 n (fun i => BIT_SET (u64 (frame - i))))
    (fun _ s' => exists m', s' = with_mem s m' /\
       bits_set (mem s) m' (gval s g_bitmap) (bitmap_bytes s) (frame - n + 1) n true) s.
Proof.
  intros Hok Hn Hlim. pose proof (bm_limit _ Hok) as Hl.
  apply (wp_kfor (fun i s' => exists m', s' = with_mem s m' /\
    bits_set (mem s) m' (gval s g_bitmap) (bitmap_bytes s) (frame - i + 1) i true)); [lia| | |].
  - exists (mem s). split; [by destruct s|]. apply bits_set_refl.
  - intros i s' Hi (m' & -> & Hb). rewrite u64_small by lia.
    destruct (bit_update_eq (with_mem s m') (frame - i) true) as (m2 & E & Hb2).
    + destruct Hb. by eapply bm_ok_mem.
    + rewrite gval_with_mem. lia.
    + eapply wp_eq; [exact E|]. exists m2. split; [done|].
      eapply bits_set_trans; [exact Hb|exact Hb2|]. lia.
  - done.
Qed.

(** The state of the scan before it looks at [frame]: the last [avail] frames
    are free, and no run of [n] frames ends before [frame]. *)
Record scan_inv (s : kstate) (frame avail n : Z) : Prop := {
  si_avail : 0 <= avail < n;
  si_start : 1 <= frame - avail;
  si_free : free_run s (frame - avail) avail;
  si_max : frame - avail = 1 \/ used s (frame - avail - 1) = true;
  si_none : forall g, 1 <= g -> g + n <= frame -> ~ free_run s g n
}.

Lemma scan_inv_used s frame avail n :
  scan_inv s frame avail n -> 1 <= n -> used s frame = true -> scan_inv s (frame + 1) 0 n.
Proof.
  intros [H1 H2 H3 H4 H5] Hn Hu. split; [lia|lia|intros g; lia| |].
  - right. by replace (frame + 1 - 0 - 1) with frame by lia.
  - intros g Hg Hgn Hf. destruct (decide (g + n <= frame)); [by eapply H5|].
    rewrite Hf in Hu by lia. done.
Qed.

Lemma scan_inv_free s frame avail n :
  scan_inv s frame avail n -> used s frame = false -> avail + 1 <> n ->
  scan_inv s (frame + 1) (avail + 1) n.
Proof.
  intros [H1 H2 H3 H4 H5] Hu Hne. replace (frame + 1) with (frame - avail + (avail + 1)) by lia.
  split; rewrite ?Z.add_simpl_r; [lia|lia| |done|].
  - intros g Hg. destruct (decide (g = frame)) as [->|]; [done|]. apply H3. lia.
  - intros g Hg Hgn Hf. destruct (decide (g + n <= frame)); [by eapply H5|].
    destruct H4 as [|H4]; [lia|]. rewrite Hf in H4 by lia. done.
Qed.

Lemma scan_inv_found s frame avail n :
  scan_inv s frame avail n -> used s frame = false -> avail + 1 = n ->
  frame < gval s g_limit -> first_fit s n (frame - (n - 1)).
Proof.
  intros [H1 H2 H3 H4 H5] Hu Hn Hl. split; [lia|]. split; [lia|]. split.
  - intros g Hg. destruct (decide (g = frame)) as [->|]; [done|]. apply H3. lia.
  - intros g Hg Hf. apply (H5 g); [lia|lia|done].
Qed.

Lemma pmm_scan_eq s k frame avail n :
  bm_ok s -> 1 <= n < 2 ^ 64 -> scan_inv s frame avail n ->
  Z.of_nat k = Z.max 0 (gval s g_limit - frame) ->
  (exists f m', first_fit s n f /\ pmm_scan k frame avail n s = Ok (Some f) (with_mem s m') /\
     bits_set (mem s) m' (gval s g_bitmap) (bitmap_bytes s) f n true) \/
  (no_fit s n /\ pmm_scan k frame avail n s = Ok None s).
Proof.
  intros Hok Hn. pose proof (bm_limit _ Hok) as Hl. revert frame avail.
  induction k as [|k IH]; intros frame avail Hinv Hk.
  - right. split; [|done]. intros g Hg Hgn. apply (si_none _ _ _ _ Hinv); lia.
  - pose proof (si_avail _ _ _ _ Hinv). pose proof (si_start _ _ _ _ Hinv).
    simpl pmm_scan. rewrite (bind_Ok _ _ _ _ _ (BIT_TEST_eq s frame Hok ltac:(lia))).
    destruct (used s frame) eqn:Hu.
    + change (Z.b2z true =? 0) with false. cbv iota.
      destruct (Z.eqb_spec avail n) as [|_]; [lia|]. simpl negb. cbv iota.
      apply IH; [by eapply scan_inv_used; [|lia|]|lia].
    + change (Z.b2z false =? 0) with true. cbv iota. rewrite u64_small by lia.
      destruct (Z.eqb_spec (avail + 1) n) as [En|En].
      * left. destruct (proj1 (wp_Ok _ _ _) (set_loop s frame n Hok ltac:(lia) ltac:(lia)))
          as ([] & s' & E & m' & -> & Hb).
        exists (frame - (n - 1)), m'. split; [by eapply scan_inv_found; [|done|done|lia]|].
        rewrite (bind_Ok _ _ _ _ _ E), u64_small by lia. split; [done|].
        by replace (frame - (n - 1)) with (frame - n + 1) by lia.
      * apply IH; [by apply scan_inv_free|lia].
Qed.

End loops.

(** * The operations on the whole state *)

Section pmm_specs.
Implicit Types (s : kstate).

(** What the allocator reads of a state. *)
Definition pmm_view s s' : Prop :=
  mem s' = mem s /\ gval s' g_bitmap = gval s g_bitmap /\ gval s' g_limit = gval s g_limit.

Lemma pmm_view_first_fit s s' n f : pmm_view s s' -> first_fit s' n f -> first_fit s n f.
Proof. intros (E1 & E2 & E3). unfold first_fit, free_run, used. by rewrite E1, E2, E3. Qed.
Lemma pmm_view_no_fit s s' n : pmm_view s s' -> no_fit s' n -> no_fit s n.
Proof. intros (E1 & E2 & E3). unfold no_fit, free_run, used. by rewrite E1, E2, E3. Qed.
Lemma pmm_view_ok s s' : pmm_view s s' -> bm_ok s -> bm_ok s'.
Proof.
  intros (E1 & E2 & E3) [H1 H2]. split; [by rewrite E3|].
  unfold bitmap_bytes in *. by rewrite E1, E2, E3.
Qed.

(** The state inside the critical section. *)
Lemma locked_view s x : pmm_view s (with_glob s g_pmm_lock x).
Proof. split; [done|]. by rewrite !gval_with_glob_ne. Qed.

Lemma relock_globals s m x :
  gval s g_pmm_lock = 0 ->
  same_globals s (with_glob (with_mem (with_glob s g_pmm_lock x) m) g_pmm_lock 0).
Proof.
  intros H v. destruct (decide (v = g_pmm_lock)) as [->|]; [by rewrite gval_with_glob_eq|].
  rewrite gval_with_glob_ne, gval_with_mem by done. by rewrite gval_with_glob_ne.
Qed.

Lemma pmm_malloc_eq s n :
  pmm_ok s -> 1 <= n < 2 ^ 64 ->
  (exists f s', first_fit s n f /\ pmm_malloc n s = Ok (FRAME_SIZE * f) s' /\ frames_set s s' f n true) \/
  (no_fit s n /\ exists s', pmm_malloc n s = Ok NULL s' /\
     mem s' = mem s /\ same_globals s s' /\ trace s' = trace s).
Proof.
  intros [Hlock Hok] Hn. pose proof (bm_limit _ Hok) as Hl. unfold pmm_malloc.
  set (s1 := with_glob s g_pmm_lock 1).
  rewrite (bind_Ok _ _ s tt s1) by (apply acquire_free; simpl; by rewrite Hlock).
  assert (Hv : pmm_view s s1) by apply locked_view. destruct Hv as (Vm & Vb & Vl).
  rewrite (bind_Ok _ _ s1 (gval s g_limit) s1) by (unfold gget; by rewrite Vl).
  destruct (pmm_scan_eq s1 (Z.to_nat (gval s g_limit - 1)) 1 0 n) as [(f & m' & Hff & E & Hb)|(Hnf & E)].
  - by apply (pmm_view_ok s).
  - done.
  - split; [lia|lia|intros g; lia|by left|]. intros g ? ?. lia.
  - rewrite Vl. lia.
  - left. apply (pmm_view_first_fit s) in Hff; [|done]. destruct Hff as (Hf1 & Hf2 & Hf3) eqn:Eff.
    exists f, (with_glob (with_mem s1 m') g_pmm_lock 0). split; [done|].
    rewrite (bind_Ok _ _ _ _ _ E).
    rewrite (bind_Ok _ _ (with_mem s1 m') tt (with_glob (with_mem s1 m') g_pmm_lock 0))
      by (apply release_held; simpl; f_equal; rewrite gval_with_mem; apply gval_with_glob_eq).
    rewrite u64_small by (unfold FRAME_SIZE; lia). split; [done|].
    unfold bitmap_bytes in Hb. rewrite Vb, Vl in Hb.
    split; [exact Hb|by apply relock_globals|done].
  - right. split; [by apply (pmm_view_no_fit s s1)|].
    exists (with_glob s1 g_pmm_lock 0). rewrite (bind_Ok _ _ _ _ _ E).
    rewrite (bind_Ok _ _ s1 tt (with_glob s1 g_pmm_lock 0))
      by (apply release_held; simpl; f_equal; apply gval_with_glob_eq).
    split; [done|]. split; [done|]. split; [|done].
    apply (relock_globals s (mem s) 1 Hlock).
Qed.

Lemma pmm_free_eq s f n :
  pmm_ok s -> 0 <= f -> 0 <= n -> f + n <= gval s g_limit ->
  exists s', pmm_free (FRAME_SIZE * f) n s = Ok tt s' /\ frames_set s s' f n false.
Proof.
  intros [Hlock Hok] Hf Hn Hlim. pose proof (bm_limit _ Hok) as Hl. unfold pmm_free.
  set (s1 := with_glob s g_pmm_lock 1).
  rewrite (bind_Ok _ _ s tt s1) by (apply acquire_free; simpl; by rewrite Hlock).
  destruct (locked_view s 1) as (Vm & Vb & Vl). fold s1 in Vm, Vb, Vl.
  replace (FRAME_SIZE * f / FRAME_SIZE) with f by (unfold FRAME_SIZE; zlia).
  rewrite u64_small by lia. rewrite (Z.add_comm n f).
  destruct (proj1 (wp_Ok _ _ _) (clear_loop s1 f n (pmm_view_ok s s1 ltac:(done) Hok) Hf Hn ltac:(lia)))
    as ([] & s2 & E & m' & -> & Hb).
  rewrite (bind_Ok _ _ _ _ _ E).
  exists (with_glob (with_mem s1 m') g_pmm_lock 0). split.
  - apply release_held. simpl. f_equal. rewrite gval_with_mem. apply gval_with_glob_eq.
  - unfold bitmap_bytes in Hb. rewrite Vb, Vl in Hb.
    split; [exact Hb|by apply relock_globals|done].
Qed.

(** The allocator stays ready. *)
Lemma frames_set_ok s s' f n v : pmm_ok s -> frames_set s s' f n v -> pmm_ok s'.
Proof.
  intros [Hlock [H1 H2]] [[Hso _] Hg _]. split; [by rewrite Hg|]. split; [by rewrite Hg|].
  unfold bitmap_bytes. rewrite !Hg. by eapply same_outside_mapped.
Qed.

Lemma frames_set_used s s' f n v g :
  frames_set s s' f n v -> 0 <= g ->
  used s' g = if bool_decide (f <= g < f + n) then v else used s g.
Proof. intros [[_ Hb] Hg _] Hp. unfold used. rewrite Hg. by apply Hb. Qed.

End pmm_specs.

(** * [pmm_calloc] and the interface *)

Section calloc.
Context (HHDM_OFFSET : Z).
Implicit Types (s : kstate).
Local Abbreviation va := (frame_va HHDM_OFFSET).
Local Abbreviation inv := (pmm_inv HHDM_OFFSET).

Lemma va_add f n : va (f + n) = va f + FRAME_SIZE * n.
Proof. unfold frame_va, FRAME_SIZE. lia. Qed.

(** A run of free frames is mapped and off the bitmap. *)
Lemma run_mapped s f n :
  inv s -> 1 <= f -> f + n <= gval s g_limit -> free_run s f n ->
  mapped (mem s) (va f) (FRAME_SIZE * n).
Proof.
  intros Hi Hf Hl Hr x Hx. pose (g := f + (x - va f) / FRAME_SIZE).
  assert (Hg : f <= g < f + n /\ va g <= x < va g + FRAME_SIZE)
    by (unfold g, frame_va, FRAME_SIZE in *; zlia).
  destruct (pi_free _ _ Hi g) as [Hm _]; [lia|apply Hr; lia|]. apply Hm. lia.
Qed.

Lemma run_off_bitmap s f n x :
  inv s -> 1 <= f -> f + n <= gval s g_limit -> free_run s f n ->
  va f <= x < va (f + n) -> ~ (gval s g_bitmap <= x < gval s g_bitmap + bitmap_bytes s).
Proof.
  intros Hi Hf Hl Hr Hx Hb. pose (g := f + (x - va f) / FRAME_SIZE).
  assert (Hg : f <= g < f + n /\ va g <= x < va g + FRAME_SIZE)
    by (unfold g, frame_va, FRAME_SIZE in *; zlia).
  destruct (pi_free _ _ Hi g) as [_ Ho]; [lia|apply Hr; lia|].
  unfold off_bitmap in Ho. rewrite va_add in Ho. lia.
Qed.

(** Memory that agrees on the bitmap has the same bits. *)
Lemma used_agree s s' g :
  gval s' g_bitmap = gval s g_bitmap -> 0 <= g < gval s g_limit ->
  (forall x, gval s g_bitmap <= x < gval s g_bitmap + bitmap_bytes s -> mem s' !! x = mem s !! x) ->
  used s' g = used s g.
Proof.
  intros E Hg H. unfold used, bit. rewrite E, H; [done|]. unfold bitmap_bytes. zlia.
Qed.

Lemma pmm_calloc_eq s n :
  inv s -> 1 <= n < 2 ^ 64 ->
  (exists f s', first_fit s n f /\ pmm_calloc HHDM_OFFSET n s = Ok (FRAME_SIZE * f) s' /\
     calloc_post HHDM_OFFSET s s' f n) \/
  (no_fit s n /\ exists s1, mem s1 = mem s /\ same_globals s s1 /\ trace s1 = trace s /\
     pmm_calloc HHDM_OFFSET n s =
       (memset HHDM_OFFSET 0 (u64 (n * FRAME_SIZE)) ;; mret NULL) s1).
Proof.
  intros Hi Hn. pose proof (pi_hhdm _ _ Hi). pose proof (pi_top _ _ Hi) as Htop.
  pose proof (pi_limit _ _ Hi). unfold pmm_calloc.
  destruct (pmm_malloc_eq s n (pi_ok _ _ Hi) Hn) as [(f & s1 & Hff & E & Hfs)|(Hnf & s1 & E & Hm & Hg & Ht)].
  - left. rewrite (bind_Ok _ _ _ _ _ E). destruct Hff as (Hf1 & Hf2 & Hf3 & Hf4).
    destruct Hfs as [[Hso Hb] Hg Ht].
    unfold frame_va in Htop. rewrite (u64_small (FRAME_SIZE * f + HHDM_OFFSET)) by (unfold FRAME_SIZE; lia).
    rewrite (u64_small (n * FRAME_SIZE)) by (unfold FRAME_SIZE; lia).
    replace (FRAME_SIZE * f + HHDM_OFFSET) with (va f) by (unfold FRAME_SIZE, frame_va; lia).
    destruct (memset_eq s1 (va f) 0 (n * FRAME_SIZE)) as (m' & Em & Hfill).
    { unfold NULL, frame_va. lia. }
    { unfold FRAME_SIZE. lia. }
    { eapply same_outside_mapped; [exact Hso|]. rewrite Z.mul_comm. by apply run_mapped. }
    rewrite (bind_Ok _ _ _ _ _ Em). destruct Hfill as [Hso2 Hz]. change (Z_byte (u8 0)) with Byte.x00 in Hz.
    assert (Hrun : forall x, gval s g_bitmap <= x < gval s g_bitmap + bitmap_bytes s ->
                     ~ (va f <= x < va f + n * FRAME_SIZE)).
    { intros x Hx Hx'. eapply (run_off_bitmap s f n x); [done..| |exact Hx]. rewrite va_add. lia. }
    exists f, (with_mem s1 m'). split; [done|]. split; [done|]. split.
    + intros g Hgl. rewrite (used_agree s1); [|done|by rewrite Hg|].
      * unfold used. rewrite Hg. apply Hb. lia.
      * unfold bitmap_bytes. rewrite !Hg. intros x Hx. apply Hso2. by apply Hrun.
    + intros x Hx. replace x with (va f + (x - va f)) by lia. apply Hz. rewrite va_add in Hx. lia.
    + intros x. simpl. rewrite (proj1 Hso2). apply Hso.
    + intros x Hx1 Hx2. simpl. rewrite va_add in Hx1. rewrite (proj2 Hso2) by lia. by apply Hso.
    + done.
    + done.
  - right. split; [done|]. exists s1. split; [done|]. split; [done|]. split; [done|].
    rewrite (bind_Ok _ _ _ _ _ E). unfold NULL at 1. rewrite Z.add_0_l.
    unfold frame_va in Htop. destruct Hi as [[_ [? _]] _ _ _ _].
    by rewrite (u64_small HHDM_OFFSET) by lia.
Qed.

(** The invariant after frames were handed out. *)
Lemma calloc_post_inv s s' f n :
  inv s -> 1 <= f -> f + n <= gval s g_limit -> calloc_post HHDM_OFFSET s s' f n -> inv s'.
Proof.
  intros [[Hl [Hb1 Hb2]] H2 H3 H4 H5] Hf Hfn [Hu Hz Hd Ho Hg Ht].
  split; rewrite ?Hg; [|done|done|done|].
  - split; [by rewrite Hg|]. split; [by rewrite Hg|]. unfold bitmap_bytes. rewrite !Hg.
    intros x Hx. apply Hd. by apply Hb2.
  - intros g Hgl Hug. rewrite Hu in Hug by lia. case_bool_decide; [done|].
    destruct (H5 g) as [Hm Hof]; [done|done|]. split.
    + intros x Hx. apply Hd. by apply Hm.
    + unfold off_bitmap, bitmap_bytes in *. by rewrite !Hg.
Qed.

Lemma calloc_post_owned s s' f n g :
  inv s -> 1 <= f -> f + n <= gval s g_limit -> free_run s f n ->
  calloc_post HHDM_OFFSET s s' f n ->
  pmm_owned HHDM_OFFSET s' g <-> pmm_owned HHDM_OFFSET s g \/ f <= g < f + n.
Proof.
  intros Hi Hf Hfn Hr [Hu Hz Hd Ho Hg Ht]. unfold pmm_owned.
  assert (Hob : off_bitmap HHDM_OFFSET s' g <-> off_bitmap HHDM_OFFSET s g)
    by (unfold off_bitmap, bitmap_bytes; by rewrite !Hg).
  assert (Hmp : mapped (mem s') (va g) FRAME_SIZE <-> mapped (mem s) (va g) FRAME_SIZE)
    by (split; intros H x Hx; apply Hd, H, Hx).
  rewrite Hob, Hmp, !Hg. destruct (decide (f <= g < f + n)) as [Hin|Hout].
  - split; [by right|]. intros _. rewrite Hu by lia. rewrite bool_decide_eq_true_2 by done.
    destruct (pi_free _ _ Hi g) as [? ?]; [lia|by apply Hr|]. split; [lia|]. done.
  - split.
    + intros (H1 & H2 & H3). left. rewrite Hu, bool_decide_eq_false_2 in H2 by lia. done.
    + intros [(H1 & H2 & H3)|]; [|done]. split; [done|].
      by rewrite Hu, bool_decide_eq_false_2 by lia.
Qed.

Lemma calloc_post_nfree s s' f :
  1 <= f -> f + 1 <= gval s g_limit -> used s f = false ->
  calloc_post HHDM_OFFSET s s' f 1 -> pmm_nfree s = S (pmm_nfree s').
Proof.
  intros Hf Hl Hu [Hu' _ _ _ Hg _]. unfold pmm_nfree. rewrite Hg.
  apply (filter_length_take _ _ f).
  - apply NoDup_seqZ.
  - apply elem_of_seqZ. lia.
  - done.
  - rewrite Hu' by lia. by rewrite bool_decide_eq_true_2 by lia.
  - intros x Hx%elem_of_seqZ Hne. rewrite Hu' by lia. by rewrite bool_decide_eq_false_2 by lia.
Qed.

(** A free frame exists exactly when the count is positive. *)
Lemma nfree_fit s : (0 < pmm_nfree s)%nat -> ~ no_fit s 1.
Proof.
  unfold pmm_nfree. intros H Hno.
  destruct (filter (fun g => used s g = false) (seqZ 1 (gval s g_limit - 1))) as [|g l] eqn:E;
    [simpl in H; lia|].
  assert (Hg : g ∈ filter (fun g => used s g = false) (seqZ 1 (gval s g_limit - 1)))
    by (rewrite E; apply elem_of_cons; by left).
  apply list_elem_of_filter in Hg as [Hu Hr%elem_of_seqZ].
  apply (Hno g); [lia|lia|]. intros h Hh. by replace h with g by lia.
Qed.

Lemma nfree_zero s : pmm_nfree s = 0%nat -> forall f, ~ first_fit s 1 f.
Proof.
  unfold pmm_nfree. intros H f (Hf1 & Hf2 & Hf3 & _).
  apply length_zero_iff_nil in H.
  assert (Hg : f ∈ filter (fun g => used s g = false) (seqZ 1 (gval s g_limit - 1))).
  { apply list_elem_of_filter. split; [apply Hf3; lia|]. apply elem_of_seqZ. lia. }
  rewrite H in Hg. by apply not_elem_of_nil in Hg.
Qed.

(** The first fit takes at most the start of a longer run. *)
Lemma calloc_post_room hhdm s s' f n k :
  1 <= n -> first_fit s n f -> calloc_post hhdm s s' f n -> pmm_room s (Z.to_nat n + k) -> pmm_room s' k.
Proof.
  intros Hn (H1 & H2 & H3 & H4) P (a & A1 & A2 & A3). exists (a + n). rewrite (cp_globals _ _ _ _ _ P).
  split; [lia|]. split; [lia|]. intros g Hg. rewrite (cp_used _ _ _ _ _ P) by lia.
  destruct (decide (a < f)) as [Hlt|Hge].
  - exfalso. apply (H4 a); [lia|]. intros x Hx. apply A3. lia.
  - rewrite bool_decide_eq_false_2 by lia. apply A3. lia.
Qed.

(** A state that looks the same to the allocator. *)
Definition pmm_agree s s' : Prop :=
  (forall v, pmm_global v -> gval s' v = gval s v) /\
  (forall x, is_Some (mem s' !! x) <-> is_Some (mem s !! x)) /\
  (forall x, gval s g_bitmap <= x < gval s g_bitmap + bitmap_bytes s -> mem s' !! x = mem s !! x).

Lemma pmm_agree_room s s' k : pmm_agree s s' -> pmm_room s k -> pmm_room s' k.
Proof.
  intros (Hg & _ & Hb) (a & A1 & A2 & A3).
  assert (E1 : gval s' g_bitmap = gval s g_bitmap) by (apply Hg; by left).
  assert (E2 : gval s' g_limit = gval s g_limit) by (apply Hg; right; by left).
  exists a. rewrite E2. split; [done|]. split; [done|]. intros x Hx. rewrite (used_agree s) by (done || lia). by apply A3.
Qed.

Lemma pmm_agree_inv s s' :
  pmm_agree s s' -> inv s ->
  inv s' /\ pmm_nfree s' = pmm_nfree s /\
  forall h, pmm_owned HHDM_OFFSET s' h <-> pmm_owned HHDM_OFFSET s h.
Proof.
  intros (Hg & Hd & Hb) [[Hl [Hb1 Hb2]] H2 H3 H4 H5].
  assert (E1 : gval s' g_bitmap = gval s g_bitmap) by (apply Hg; by left).
  assert (E2 : gval s' g_limit = gval s g_limit) by (apply Hg; right; by left).
  assert (E3 : gval s' g_pmm_lock = gval s g_pmm_lock) by (apply Hg; right; by right).
  assert (Eu : forall h, 0 <= h < gval s g_limit -> used s' h = used s h)
    by (intros h Hh; by apply used_agree).
  assert (Em : forall a n, mapped (mem s') a n <-> mapped (mem s) a n)
    by (intros a n; split; intros H x Hx; apply Hd, H, Hx).
  assert (Eo : forall h, off_bitmap HHDM_OFFSET s' h <-> off_bitmap HHDM_OFFSET s h)
    by (intros h; unfold off_bitmap, bitmap_bytes; by rewrite E1, E2).
  split; [|split].
  - split; rewrite ?E2; [|done|done|done|].
    + split; [by rewrite E3|]. split; [by rewrite E2|].
      unfold bitmap_bytes. rewrite E1, E2. by apply Em.
    + intros g Hgl. rewrite Eu, Em, Eo by lia. by apply H5.
  - unfold pmm_nfree. rewrite E2. f_equal. apply filter_iff_elem.
    intros x Hx%elem_of_seqZ. by rewrite Eu by lia.
  - intros h. unfold pmm_owned. rewrite E2, Em, Eo. split; intros (Hh & Hu & ?).
    + by rewrite Eu in Hu by lia.
    + split; [done|]. by rewrite Eu by lia.
Qed.

Lemma pmm_agree_write s g m' :
  pmm_owned HHDM_OFFSET s g -> same_outside (va g) 0x1000 (mem s) m' -> pmm_agree s (with_mem s m').
Proof.
  intros (_ & _ & _ & Ho) [Hd He]. split; [done|]. split; [done|].
  intros x Hx. apply He. unfold off_bitmap in Ho. rewrite va_add in Ho. unfold FRAME_SIZE in Ho. lia.
Qed.

Lemma pmm_agree_glob s v x : ~ pmm_global v -> pmm_agree s (with_glob s v x).
Proof.
  intros Hv. split; [|done]. intros w Hw. apply gval_with_glob_ne. by intros ->.
Qed.

(** A byte loop that only stores either completes or faults. *)
Lemma memset_total s p c n :
  p <> NULL -> memset p c n s = Fault \/ exists m', memset p c n s = Ok tt (with_mem s m').
Proof.
  intros Hp. unfold memset. destruct (Z.eqb_spec p NULL) as [|_]; [done|].
  rewrite (bind_Ok _ _ s tt s) by done. unfold kfor.
  generalize (Z.to_nat (n - 0)). intros k. generalize 0. revert s.
  induction k as [|k IH]; intros s i; simpl; [right; exists (mem s); by destruct s|].
  destruct (rd 1 (mem s) (p + i)) as [w|] eqn:E0.
  2:{ left. unfold mbind, K_bind, st. by rewrite E0. }
  rewrite (bind_Ok _ _ s tt (with_mem s (wr 1 (mem s) (p + i) (u8 c)))).
  2:{ unfold st. by rewrite E0. }
  destruct (IH (with_mem s (wr 1 (mem s) (p + i) (u8 c))) (i + 1)) as [E|[m' E]].
  - left. exact E.
  - right. exists m'. exact E.
Qed.

#[export, program] Instance pmm_frames : FrameAllocator HHDM_OFFSET := {|
  frame_calloc := pmm_calloc HHDM_OFFSET;
  frame_alloc := pmm_alloc HHDM_OFFSET;
  fa_inv := pmm_inv HHDM_OFFSET;
  fa_owned := pmm_owned HHDM_OFFSET;
  fa_free := pmm_nfree;
  fa_global := pmm_global;
  fa_static := pmm_static HHDM_OFFSET;
  fa_room := pmm_room
|}.
Next Obligation.
  intros size s Hs. unfold pmm_alloc. rewrite u64_small by (unfold FRAME_SIZE; lia).
  by replace ((size + (FRAME_SIZE - 1)) / FRAME_SIZE) with 1 by (unfold FRAME_SIZE; zlia).
Qed.
Next Obligation.
  intros v Hv [->|[->| ->]]; revert Hv; by apply (bool_decide_unpack (_ ∉ _)).
Qed.
Next Obligation. intros s Hi. apply Hi. Qed.
Next Obligation.
  intros s f Hi (Hf & _). pose proof (pi_limit _ _ Hi). pose proof (pi_top _ _ Hi) as Htop.
  split; [lia|]. unfold frame_va in *. lia.
Qed.
Next Obligation. by intros s f _ (_ & _ & ? & _). Qed.
Next Obligation.
  intros s s' x Hg. unfold pmm_static, bitmap_bytes. by rewrite !Hg by (unfold pmm_global; auto).
Qed.
Next Obligation. intros s f x (Hf & _) [Hx _]. unfold frame_va in *. lia. Qed.
Next Obligation.
  intros s Hi Hn.
  destruct (pmm_calloc_eq s 1 Hi ltac:(lia)) as [(f & s' & Hff & E & Hp)|[Hnf _]];
    [|by apply nfree_fit in Hn].
  pose proof Hff as (Hf1 & Hf2 & Hf3 & _). assert (Hu : used s f = false) by (apply Hf3; lia).
  exists f, s'. split; [exact E|]. split; [by eapply calloc_post_inv|].
  split; [intros (_ & Hu' & _); congruence|]. split.
  { intros g. rewrite (calloc_post_owned s s' f 1 g) by done.
    split; (intros [?|?]; [by left|right; lia]). }
  split; [by eapply calloc_post_nfree|]. split; [apply Hp|]. split; [apply Hp|]. split; [apply Hp|].
  split.
  - intros g x (Hg1 & Hg2 & _ & Hg3) Hx. apply (cp_out _ _ _ _ _ Hp).
    + intros Hx'. assert (g = f) as ->; [|congruence]. unfold frame_va in *. lia.
    + unfold off_bitmap in Hg3. lia.
  - split.
    + intros x [Hx1 Hx2]. apply (cp_out _ _ _ _ _ Hp); [|done]. unfold frame_va in *. lia.
    + intros k Hk. by apply (calloc_post_room HHDM_OFFSET s s' f 1 k).
Qed.
Next Obligation.
  intros s Hi Hn. destruct (pmm_calloc_eq s 1 Hi ltac:(lia)) as [(f & s' & Hff & _)|(_ & s1 & _ & _ & _ & ->)].
  - by destruct (nfree_zero s Hn f).
  - pose proof (pi_hhdm _ _ Hi). unfold mbind, K_bind.
    destruct (memset_total s1 HHDM_OFFSET 0 (u64 (1 * FRAME_SIZE))) as [->|[m' ->]];
      [unfold NULL; lia|by left|right; by eexists].
Qed.
Next Obligation.
  intros s g m' Hi Ho Hso. apply pmm_agree_inv; [|done]. by eapply pmm_agree_write.
Qed.
Next Obligation. intros s g m' k Hi Ho Hso. apply pmm_agree_room. by eapply pmm_agree_write. Qed.
Next Obligation. intros s v x Hi Hv. apply pmm_agree_inv; [|done]. by apply pmm_agree_glob. Qed.
Next Obligation. intros s t Hi. by apply pmm_agree_inv. Qed.
Next Obligation.
  intros s v x k Hv (a & H1 & H2 & H3). exists a.
  assert (E : forall w, pmm_global w -> gval (with_glob s v x) w = gval s w).
  { intros w Hw. apply gval_with_glob_ne. intros ->. done. }
  unfold free_run, used in *. rewrite !E by (unfold pmm_global; auto). done.
Qed.
Next Obligation. done. Qed.

End calloc.
