(* ===== verification/PmmSpec.v ===== *)
(** What [memory/pmm.c] promises: the bitmap refines the abstract allocator
    [FrameSpec], the blocks that are live after any sequence of allocations and
    frees are disjoint ([History]), and the frames of [pmm_alloc] are zeroed. *)
From S2P Require Import Prelude Machine Lock Str Interfaces Pmm.
Import Lock.Seq.

(** * The bitmap and the set of frames *)

Section refinement.
Implicit Types (s : kstate) (U : gset Z) (f g n : Z).

Lemma elem_of_frames g f n : g ∈ FrameSpec.frames f n <-> f <= g < f + n.
Proof. unfold FrameSpec.frames. by rewrite elem_of_list_to_set, elem_of_seqZ. Qed.

Lemma elem_of_abs_frames s g :
  g ∈ abs_frames s <-> 0 <= g < gval s g_limit /\ used s g = true.
Proof.
  unfold abs_frames. rewrite elem_of_list_to_set, list_elem_of_filter, elem_of_seqZ. 
  split; intros [? ?]; (split; [|done || lia]); [lia|done].
Qed.

Lemma fits_free_run s f n :
  0 <= f -> f + n <= gval s g_limit ->
  FrameSpec.fits (abs_frames s) n f <-> free_run s f n.
Proof.
  intros Hf Hl. unfold FrameSpec.fits, free_run. split.
  - intros H g Hg. destruct (used s g) eqn:E; [|done]. exfalso.
    apply (H g); [by apply elem_of_frames|]. apply elem_of_abs_frames. split; [lia|done].
  - intros H g Hg%elem_of_frames Ha%elem_of_abs_frames. rewrite H in Ha by done. by destruct Ha.
Qed.

(** The brute-force search finds the first fit. *)
Lemma find_first_fit s n f :
  0 <= n -> first_fit s n f -> FrameSpec.find (abs_frames s) (gval s g_limit) n = Some f.
Proof.
  intros Hn (Hf1 & Hf2 & Hf3 & Hf4). unfold FrameSpec.find.
  rewrite (proj2 (list_find_Some _ _ (Z.to_nat (f - 1)) f)); [done|].
  rewrite lookup_seqZ. split; [lia|]. split; [by apply fits_free_run; [lia|..]|].
  intros j y [-> Hj]%lookup_seqZ Hlt Hfit. apply fits_free_run in Hfit; [|lia|lia].
  apply Hf4 in Hfit; [done|lia].
Qed.

Lemma find_no_fit s n :
  no_fit s n -> FrameSpec.find (abs_frames s) (gval s g_limit) n = None.
Proof.
  intros H. unfold FrameSpec.find. rewrite (proj2 (list_find_None _ _)); [done|].
  apply list.Forall_forall. intros f Hf%elem_of_seqZ Hfit%fits_free_run; [|lia|lia].
  apply (H f); [lia|lia|done].
Qed.

Lemma frames_set_true s s' f n :
  0 <= f -> f + n <= gval s g_limit -> frames_set s s' f n true ->
  abs_frames s' = FrameSpec.frames f n ∪ abs_frames s.
Proof.
  intros Hf Hl Hfs. apply set_eq. intros g.
  rewrite elem_of_union, elem_of_frames, !elem_of_abs_frames, (fs_globals _ _ _ _ _ Hfs).
  destruct (decide (0 <= g)) as [Hg|]; [|split; [lia|]; intros [?|[? _]]; lia].
  rewrite (frames_set_used _ _ _ _ _ g Hfs) by done. case_bool_decide.
  - split; [by left|]. intros _. split; [lia|done].
  - split; [by right|]. by intros [?|?].
Qed.

Lemma frames_set_false s s' f n :
  frames_set s s' f n false -> abs_frames s' = FrameSpec.free (abs_frames s) f n.
Proof.
  intros Hfs. apply set_eq. intros g. unfold FrameSpec.free.
  rewrite elem_of_difference, elem_of_frames, !elem_of_abs_frames, (fs_globals _ _ _ _ _ Hfs).
  destruct (decide (0 <= g)) as [Hg|]; [|split; [lia|]; intros [[? _] _]; lia].
  rewrite (frames_set_used _ _ _ _ _ g Hfs) by done. case_bool_decide.
  - split; [by intros [_ ?]|]. by intros [_ ?].
  - split; [by intros [? ?]|]. by intros [[? ?] _].
Qed.

Lemma abs_frames_eq s s' :
  mem s' = mem s -> same_globals s s' -> abs_frames s' = abs_frames s.
Proof.
  intros Em Hg. apply set_eq. intros g. rewrite !elem_of_abs_frames, Hg.
  unfold used. by rewrite Em, Hg.
Qed.

Lemma pmm_ok_eq s s' : mem s' = mem s -> same_globals s s' -> pmm_ok s -> pmm_ok s'.
Proof.
  intros Em Hg [H1 [H2 H3]]. split; [by rewrite Hg|]. split; [by rewrite Hg|].
  unfold bitmap_bytes. by rewrite Em, !Hg.
Qed.

(** C2: the bitmap allocator refines the abstract one: [pmm_malloc] returns the
    lowest run of [n] frames that the set of used frames leaves free, marks
    exactly these, and returns a null pointer and changes nothing when there is
    no such run; it always returns, ready for the next call, with its lock free. *)
Theorem pmm_malloc_refines s n :
  pmm_ok s -> 1 <= n < 2 ^ 64 ->
  let '(r, U') := FrameSpec.malloc (abs_frames s) (gval s g_limit) n in
  exists s', pmm_malloc n s = Ok (match r with Some f => FRAME_SIZE * f | None => NULL end) s' /\
    abs_frames s' = U' /\ pmm_ok s' /\ same_globals s s'.
Proof.
  intros Hok Hn. unfold FrameSpec.malloc.
  destruct (pmm_malloc_eq s n Hok Hn) as [(f & s' & Hff & E & Hfs)|(Hnf & s' & E & Em & Hg & _)].
  - rewrite (find_first_fit s n f) by (done || lia). destruct Hff as (? & ? & _).
    exists s'. split; [done|]. split; [apply frames_set_true; (done || lia)|].
    split; [by eapply frames_set_ok|]. by destruct Hfs.
  - rewrite find_no_fit by done. exists s'. split; [done|]. split; [by apply abs_frames_eq|].
    split; [by eapply pmm_ok_eq|done].
Qed.

(** [pmm_free] returns the frames of the block, and no others, to the free
    set of the abstract allocator. *)
Theorem pmm_free_refines s f n :
  pmm_ok s -> 0 <= f -> 0 <= n -> f + n <= gval s g_limit ->
  exists s', pmm_free (FRAME_SIZE * f) n s = Ok tt s' /\
    abs_frames s' = FrameSpec.free (abs_frames s) f n /\ pmm_ok s' /\ same_globals s s'.
Proof.
  intros Hok Hf Hn Hl. destruct (pmm_free_eq s f n Hok Hf Hn Hl) as (s' & E & Hfs).
  exists s'. split; [done|]. split; [by eapply frames_set_false|].
  split; [by eapply frames_set_ok|]. by destruct Hfs.
Qed.

(** freeing what was just allocated restores the memory byte for byte: the
    allocator has no other state than the bits it sets and clears. *)
Theorem pmm_malloc_free_roundtrip s n ptr s' :
  pmm_ok s -> 1 <= n < 2 ^ 64 -> pmm_malloc n s = Ok ptr s' -> ptr <> NULL ->
  exists s'', pmm_free ptr n s' = Ok tt s'' /\ mem s'' = mem s /\ same_globals s s''.
Proof.
  intros Hok Hn E Hp.
  destruct (pmm_malloc_eq s n Hok Hn) as [(f & s1 & Hff & E' & Hfs)|(_ & s1 & E' & _)];
    rewrite E in E'; simplify_eq.
  destruct Hff as (Hf1 & Hf2 & Hf3 & _). pose proof (fs_globals _ _ _ _ _ Hfs) as Hg1.
  destruct (pmm_free_eq s1 f n) as (s2 & E2 & [[Hso2 Hb2] Hg2 _]);
    [by eapply frames_set_ok|lia|lia|by rewrite Hg1|].
  exists s2. split; [done|]. split; [|by etrans].
  unfold bitmap_bytes in Hso2. rewrite !Hg1 in Hso2.
  destruct (fs_bits _ _ _ _ _ Hfs) as [Hso1 Hb1].
  apply (bits_ext _ _ (gval s g_bitmap) (bitmap_bytes s)); [by eapply same_outside_trans|].
  intros g Hg. rewrite Hg1 in Hb2. rewrite Hb2, Hb1 by done.
  repeat case_bool_decide; try done. symmetry. by apply Hf3.
Qed.

End refinement.

(** * A small machine *)

(** Six frames behind a direct map at [0x10000], the bitmap in frame 0 and every
    other frame free. *)
Definition small_pmm : kstate :=
  KState (zeros 0x10000 (Z.to_nat 0x6000)) {[ g_bitmap := 0x10000; g_limit := 6 ]} [].

Lemma small_pmm_ok : pmm_ok small_pmm.
Proof.
  split; [done|]. split; [done|]. intros x Hx. apply zeros_mapped.
  change (gval small_pmm g_bitmap) with 0x10000 in Hx. change (bitmap_bytes small_pmm) with 1 in Hx. lia.
Qed.

Lemma small_pmm_inv : pmm_inv 0x10000 small_pmm.
Proof.
  split; [apply small_pmm_ok|lia|done|done|]. intros g Hg _. change (gval small_pmm g_limit) with 6 in Hg. split.
  - intros x Hx. apply zeros_mapped. unfold frame_va, FRAME_SIZE in Hx. lia.
  - right. change (gval small_pmm g_bitmap) with 0x10000. change (bitmap_bytes small_pmm) with 1.
    unfold frame_va. lia.
Qed.

Lemma pmm_malloc_refines_witness :
  let '(r, U') := FrameSpec.malloc (abs_frames small_pmm) (gval small_pmm g_limit) 3 in
  exists s', pmm_malloc 3 small_pmm = Ok (match r with Some f => FRAME_SIZE * f | None => NULL end) s' /\
    abs_frames s' = U' /\ pmm_ok s' /\ same_globals small_pmm s'.
Proof. apply (pmm_malloc_refines small_pmm 3); [apply small_pmm_ok|lia]. Defined.

Lemma pmm_free_refines_witness :
  exists s', pmm_free (FRAME_SIZE * 2) 3 small_pmm = Ok tt s' /\
    abs_frames s' = FrameSpec.free (abs_frames small_pmm) 2 3 /\ pmm_ok s' /\ same_globals small_pmm s'.
Proof.
  apply (pmm_free_refines small_pmm 2 3); [apply small_pmm_ok|lia|lia|].
  change (gval small_pmm g_limit) with 6. lia.
Defined.

(** The allocator's answer on the small machine. *)
Definition ok_value {A} (r : outcome A) : option A := match r with Ok a _ => Some a | _ => None end.
Definition ok_state {A} (r : outcome A) (d : kstate) : kstate := match r with Ok _ s => s | _ => d end.

Lemma ok_split {A} (r : outcome A) a d : ok_value r = Some a -> r = Ok a (ok_state r d).
Proof. destruct r; simpl; intros H; by simplify_eq. Qed.

Lemma small_malloc :
  pmm_malloc 2 small_pmm = Ok (FRAME_SIZE * 1) (ok_state (pmm_malloc 2 small_pmm) small_pmm).
Proof. apply ok_split. vm_compute. reflexivity. Qed.

Lemma pmm_malloc_free_roundtrip_witness :
  exists s'', pmm_free (FRAME_SIZE * 1) 2 (ok_state (pmm_malloc 2 small_pmm) small_pmm) = Ok tt s'' /\
    mem s'' = mem small_pmm /\ same_globals small_pmm s''.
Proof.
  apply (pmm_malloc_free_roundtrip small_pmm 2 (FRAME_SIZE * 1));
    [apply small_pmm_ok|lia|apply small_malloc|done].
Defined.

(** * Sequences of operations *)

Module History.

(** The kernel state and the blocks (address, frames) that callers hold. *)
Record world := World { w_state : kstate; w_live : list (Z * Z) }.

(** A caller may allocate, free a block it holds, or run code that leaves the
    allocator's globals and its bitmap alone. *)
Inductive step : world -> world -> Prop :=
  | step_malloc s live n ptr s' :
      1 <= n < 2 ^ 64 -> pmm_malloc n s = Ok ptr s' -> ptr <> NULL ->
      step (World s live) (World s' ((ptr, n) :: live))
  | step_malloc_fails s live n s' :
      1 <= n < 2 ^ 64 -> pmm_malloc n s = Ok NULL s' ->
      step (World s live) (World s' live)
  | step_free s l1 ptr n l2 s' :
      pmm_free ptr n s = Ok tt s' ->
      step (World s (l1 ++ (ptr, n) :: l2)) (World s' (l1 ++ l2))
  | step_other s live s' :
      pmm_agree s s' -> step (World s live) (World s' live).

Definition block_frames (b : Z * Z) : list Z := seqZ (fst b / FRAME_SIZE) (snd b).
Definition live_frames (live : list (Z * Z)) : list Z := live ≫= block_frames.

(** What holds of a reachable world, relative to the boot state [s0]. *)
Record inv (s0 : kstate) (w : world) : Prop := {
  h_ok : pmm_ok (w_state w);
  h_bitmap : gval (w_state w) g_bitmap = gval s0 g_bitmap;
  h_limit : gval (w_state w) g_limit = gval s0 g_limit;
  h_aligned : forall b, b ∈ w_live w -> exists f, fst b = FRAME_SIZE * f /\ 1 <= f /\ 1 <= snd b;
  h_nodup : NoDup (live_frames (w_live w));
  h_fresh : forall g, g ∈ live_frames (w_live w) -> 1 <= g < gval s0 g_limit /\ g ∉ abs_frames s0;
  h_used : forall g, g ∈ abs_frames (w_state w) <-> g ∈ abs_frames s0 \/ g ∈ live_frames (w_live w)
}.

Section history.
Context (s0 : kstate).

Lemma inv_init : pmm_ok s0 -> inv s0 (World s0 []).
Proof.
  intros H. split; simpl; [done|done|done| | | |].
  - by intros b Hb%elem_of_nil.
  - constructor.
  - by intros g Hg%elem_of_nil.
  - intros g. split; [by left|]. by intros [?|?%elem_of_nil].
Qed.

Lemma elem_of_block g f n : g ∈ block_frames (FRAME_SIZE * f, n) <-> f <= g < f + n.
Proof.
  unfold block_frames. simpl. replace (FRAME_SIZE * f / FRAME_SIZE) with f by (unfold FRAME_SIZE; zlia).
  apply elem_of_seqZ.
Qed.

Lemma inv_malloc s live n ptr s' :
  inv s0 (World s live) -> 1 <= n < 2 ^ 64 -> pmm_malloc n s = Ok ptr s' -> ptr <> NULL ->
  inv s0 (World s' ((ptr, n) :: live)).
Proof.
  intros [Hok Hb Hl Ha Hn Hf Hu] Hn1 E Hp. simpl in *.
  destruct (pmm_malloc_eq s n Hok Hn1) as [(f & s1 & Hff & E' & Hfs)|(_ & s1 & E' & _)];
    rewrite E in E'; simplify_eq.
  destruct Hff as (Hf1 & Hf2 & Hf3 & _). pose proof (fs_globals _ _ _ _ _ Hfs) as Hg.
  assert (Hnew : forall g, g ∈ block_frames (FRAME_SIZE * f, n) -> g ∉ abs_frames s).
  { intros g Hgb%elem_of_block [_ Hus]%elem_of_abs_frames. rewrite Hf3 in Hus; done. }
  split; simpl.
  - by eapply frames_set_ok.
  - by rewrite Hg.
  - by rewrite Hg.
  - intros b [->|Hin]%elem_of_cons; [|by apply Ha]. exists f. simpl. lia.
  - apply list.NoDup_app. split; [apply NoDup_seqZ|]. split; [|done].
    intros g Hgb Hgl. apply (Hnew g Hgb). apply Hu. by right.
  - intros g [Hgb|Hgl]%elem_of_app; [|by apply Hf]. split.
    + apply elem_of_block in Hgb. lia.
    + intros Hg0. apply (Hnew g Hgb), Hu. by left.
  - intros g. rewrite (frames_set_true s s1 f n) by (done || lia).
    rewrite elem_of_union, elem_of_frames, <- elem_of_block, elem_of_app, Hu. tauto.
Qed.

Lemma inv_free s l1 ptr n l2 s' :
  inv s0 (World s (l1 ++ (ptr, n) :: l2)) -> pmm_free ptr n s = Ok tt s' ->
  inv s0 (World s' (l1 ++ l2)).
Proof.
  intros [Hok Hb Hl Ha Hn Hf Hu] E. simpl in *.
  destruct (Ha (ptr, n)) as (f & Hptr & Hf1 & Hn1);
    [apply elem_of_app; right; apply elem_of_cons; by left|]. simpl in *. subst ptr.
  unfold live_frames in *. rewrite bind_app, bind_cons in Hn, Hf, Hu.
  apply list.NoDup_app in Hn as (Hn1' & Hd1 & (Hnb & Hd2 & Hn2)%list.NoDup_app).
  assert (Hlim : f + n <= gval s g_limit).
  { destruct (Hf (f + n - 1)) as [? _]; [|lia].
    apply elem_of_app. right. apply elem_of_app. left. apply elem_of_block. lia. }
  destruct (pmm_free_eq s f n Hok ltac:(lia) ltac:(lia) Hlim) as (s1 & E' & Hfs).
  rewrite E in E'. simplify_eq. pose proof (fs_globals _ _ _ _ _ Hfs) as Hg.
  split; simpl.
  - by eapply frames_set_ok.
  - by rewrite Hg.
  - by rewrite Hg.
  - intros b [Hin|Hin]%elem_of_app; apply Ha, elem_of_app; [by left|].
    right. apply elem_of_cons. by right.
  - unfold live_frames. rewrite bind_app. apply list.NoDup_app. split; [done|]. split; [|done].
    intros g Hg1 Hg2. apply (Hd1 g Hg1). apply elem_of_app. by right.
  - intros g Hgl. apply Hf. unfold live_frames in Hgl. rewrite bind_app in Hgl.
    rewrite !elem_of_app in *. tauto.
  - intros g. rewrite (frames_set_false _ _ _ _ Hfs). unfold FrameSpec.free, live_frames.
    rewrite elem_of_difference, elem_of_frames, <- elem_of_block, Hu, bind_app, !elem_of_app.
    specialize (Hf g). rewrite !elem_of_app in Hf. specialize (Hd1 g). rewrite elem_of_app in Hd1.
    specialize (Hd2 g). tauto.
Qed.

Lemma abs_frames_agree s s' : pmm_agree s s' -> abs_frames s' = abs_frames s.
Proof.
  intros (Hg & Hd & Hb). apply set_eq. intros g. rewrite !elem_of_abs_frames.
  rewrite (Hg g_limit) by (right; by left).
  destruct (decide (0 <= g < gval s g_limit)); [|tauto].
  rewrite (used_agree s s'); [done|apply Hg; by left|done|done].
Qed.

Lemma inv_other s live s' : inv s0 (World s live) -> pmm_agree s s' -> inv s0 (World s' live).
Proof.
  intros [Hok Hb Hl Ha Hn Hf Hu] Hag. pose proof Hag as (Hg & Hd & _). simpl in *.
  split; simpl; [|rewrite Hg; [done|by left]|rewrite Hg; [done|right; by left]|done|done|done|].
  - destruct Hok as [H1 [H2 H3]]. split; [rewrite Hg; [done|right; by right]|].
    split; [rewrite Hg; [done|right; by left]|]. intros x Hx. apply Hd, H3.
    unfold bitmap_bytes in *. rewrite !Hg in Hx; [done|right; by left|by left].
  - intros g. rewrite (abs_frames_agree s s' Hag). apply Hu.
Qed.

Lemma inv_step w w' : step w w' -> inv s0 w -> inv s0 w'.
Proof.
  intros [s live n ptr s' Hn E Hp|s live n s' Hn E|s l1 ptr n l2 s' E|s live s' Ha] Hi.
  - by apply (inv_malloc s live n ptr s').
  - apply (inv_other s); [done|].
    destruct (pmm_malloc_eq s n (h_ok _ _ Hi) Hn) as [(f & s1 & (? & _) & E' & _)|(_ & s1 & E' & Em & Hg & _)];
      rewrite E in E'; simplify_eq; [unfold FRAME_SIZE, NULL in *; lia|].
    split; [by intros v _; apply Hg|]. by rewrite Em.
  - by eapply inv_free.
  - by eapply inv_other.
Qed.

End history.

(** C3: no frame is ever handed out twice.  After any sequence of allocations,
    frees of held blocks and other kernel activity, the blocks that callers
    hold are pairwise disjoint and disjoint from what was in use at boot; the
    bitmap marks exactly the boot frames and the live blocks, so that nothing
    leaks either. *)
Theorem live_blocks_disjoint s0 w :
  pmm_ok s0 -> rtc step (World s0 []) w ->
  NoDup (live_frames (w_live w)) /\
  (forall g, g ∈ live_frames (w_live w) -> 1 <= g < gval s0 g_limit /\ g ∉ abs_frames s0) /\
  (forall g, g ∈ abs_frames (w_state w) <-> g ∈ abs_frames s0 \/ g ∈ live_frames (w_live w)).
Proof.
  intros Hok Hr.
  assert (Hi : inv s0 w).
  { eapply (rtc_ind_r (fun w => inv s0 w)); [by apply inv_init| |exact Hr].
    intros w1 w2 _ Hs IH. by eapply inv_step. }
  by destruct Hi.
Qed.

Lemma live_blocks_disjoint_witness :
  let w := World (ok_state (pmm_malloc 2 small_pmm) small_pmm) [(FRAME_SIZE * 1, 2)] in
  NoDup (live_frames (w_live w)) /\
  (forall g, g ∈ live_frames (w_live w) -> 1 <= g < gval small_pmm g_limit /\ g ∉ abs_frames small_pmm) /\
  (forall g, g ∈ abs_frames (w_state w) <-> g ∈ abs_frames small_pmm \/ g ∈ live_frames (w_live w)).
Proof.
  intros w. apply (live_blocks_disjoint small_pmm w small_pmm_ok).
  apply rtc_once. apply step_malloc; [lia|apply small_malloc|done].
Defined.

End History.

(** * Zeroed allocations *)

Section zeroed.
Context (HHDM_OFFSET : Z).
Implicit Types (s : kstate).

(** [pmm_alloc] returns zeroed frames that cover the requested size: when a
    run of [ceil(size / 4096)] free frames exists it hands out the first one,
    with every byte of it 0, and touches no other byte of memory but the
    bitmap. *)
Theorem pmm_alloc_covers s size :
  pmm_inv HHDM_OFFSET s -> 1 <= size -> size + (FRAME_SIZE - 1) < 2 ^ 64 ->
  ~ no_fit s ((size + (FRAME_SIZE - 1)) / FRAME_SIZE) ->
  exists f n s', pmm_alloc HHDM_OFFSET size s = Ok (FRAME_SIZE * f) s' /\
    FRAME_SIZE * (n - 1) < size <= FRAME_SIZE * n /\
    first_fit s n f /\ calloc_post HHDM_OFFSET s s' f n /\ pmm_inv HHDM_OFFSET s'.
Proof.
  intros Hi Hs Hb Hfit. unfold pmm_alloc. rewrite u64_small by (unfold FRAME_SIZE in *; lia).
  set (n := (size + (FRAME_SIZE - 1)) / FRAME_SIZE) in *.
  assert (Hn : FRAME_SIZE * (n - 1) < size <= FRAME_SIZE * n) by (unfold n, FRAME_SIZE in *; zlia).
  destruct (pmm_calloc_eq HHDM_OFFSET s n Hi) as [(f & s' & Hff & E & Hp)|[Hnf _]];
    [unfold FRAME_SIZE in *; lia| |done].
  exists f, n, s'. destruct (Hff) as (Hf1 & Hf2 & _). split.
  - rewrite (bind_Ok _ _ _ _ _ E). unfold FRAME_SIZE, NULL. by destruct (Z.eqb_spec (0x1000 * f) 0); [lia|].
  - split; [done|]. split; [done|]. split; [done|]. by eapply calloc_post_inv.
Qed.

(** When no run of frames is left, [pmm_calloc] still clears memory: it
    returns a null pointer after setting the first [n] frames of physical
    memory to 0, whoever owns them. *)
Theorem pmm_calloc_exhausted s n :
  pmm_inv HHDM_OFFSET s -> 1 <= n -> n * FRAME_SIZE < 2 ^ 64 -> no_fit s n ->
  mapped (mem s) HHDM_OFFSET (n * FRAME_SIZE) ->
  exists s', pmm_calloc HHDM_OFFSET n s = Ok NULL s' /\
    forall x, HHDM_OFFSET <= x < HHDM_OFFSET + n * FRAME_SIZE -> mem s' !! x = Some Byte.x00.
Proof.
  intros Hi Hn Hb Hnf Hm. pose proof (pi_hhdm _ _ Hi).
  destruct (pmm_calloc_eq HHDM_OFFSET s n Hi) as [(f & s' & (Hf1 & Hf2 & Hf3 & _) & _)|(_ & s1 & Em & _ & _ & ->)].
  - unfold FRAME_SIZE in *. lia.
  - by destruct (Hnf f Hf1 Hf2).
  - rewrite u64_small by (unfold FRAME_SIZE in *; lia).
    destruct (memset_eq s1 HHDM_OFFSET 0 (n * FRAME_SIZE)) as (m' & E & [_ Hz]).
    + unfold NULL. lia.
    + unfold FRAME_SIZE in *. lia.
    + by rewrite Em.
    + exists (with_mem s1 m'). split; [by rewrite (bind_Ok _ _ _ _ _ E)|].
      intros x Hx. replace x with (HHDM_OFFSET + (x - HHDM_OFFSET)) by lia. apply Hz. lia.
Qed.

End zeroed.

Lemma pmm_alloc_covers_witness :
  exists f n s', pmm_alloc 0x10000 5000 small_pmm = Ok (FRAME_SIZE * f) s' /\
    FRAME_SIZE * (n - 1) < 5000 <= FRAME_SIZE * n /\
    first_fit small_pmm n f /\ calloc_post 0x10000 small_pmm s' f n /\ pmm_inv 0x10000 s'.
Proof.
  apply (pmm_alloc_covers 0x10000 small_pmm 5000);
    [apply small_pmm_inv|lia|unfold FRAME_SIZE; lia|].
  change ((5000 + (FRAME_SIZE - 1)) / FRAME_SIZE) with 2. intros H.
  apply (H 1); [lia|change (gval small_pmm g_limit) with 6; lia|].
  intros g Hg. assert (g = 1 \/ g = 2) as [-> | ->] by lia; vm_compute; reflexivity.
Defined.

Lemma pmm_calloc_exhausted_witness :
  exists s', pmm_calloc 0x10000 6 small_pmm = Ok NULL s' /\
    forall x, 0x10000 <= x < 0x10000 + 6 * FRAME_SIZE -> mem s' !! x = Some Byte.x00.
Proof.
  apply (pmm_calloc_exhausted 0x10000 small_pmm 6); [apply small_pmm_inv|lia|unfold FRAME_SIZE; lia| |].
  - intros g Hg Hl. change (gval small_pmm g_limit) with 6 in Hl. lia.
  - intros x Hx. apply zeros_mapped. unfold FRAME_SIZE in Hx. lia.
Defined.
