(* ===== verification/PmmInit.v ===== *)
(** [pmm_init] of [memory/pmm.c]: from the bootloader's memory map to a working
    allocator.  [boot_ok] is what the protocol of the bootloader promises;
    [covered] says which frames a memory map gives to the allocator. *)
From S2P Require Import Prelude Machine Lock Str Interfaces Pmm PmmSpec.
Import Lock.Seq.

(** The frames of the usable entries of a memory map. *)
Definition entry_frames (e : memmap_entry) (g : Z) : bool :=
  (mm_base e / FRAME_SIZE <=? g) && (g <? (mm_base e + mm_length e) / FRAME_SIZE).
Definition covered (mmaps : list memmap_entry) (g : Z) : bool :=
  existsb (fun e => (mm_type e =? 0) && entry_frames e g) mmaps.
(** The end of the highest usable entry. *)
Definition mm_highest (mmaps : list memmap_entry) : Z :=
  foldr (fun e h => if mm_type e =? 0 then Z.max (mm_base e + mm_length e) h else h) 0 mmaps.

(** A usable entry: page aligned, inside the 52-bit physical address space. *)
Definition entry_ok (e : memmap_entry) : Prop :=
  0 <= mm_base e /\ 0 <= mm_length e /\ mm_base e mod FRAME_SIZE = 0 /\
  mm_length e mod FRAME_SIZE = 0 /\ mm_base e + mm_length e <= 2 ^ 52.

(** [s'] is [s] with the frames that [c] selects marked free. *)
Record frames_freed (s s' : kstate) (c : Z -> bool) : Prop := {
  ff_mem : same_outside (gval s g_bitmap) (bitmap_bytes s) (mem s) (mem s');
  ff_used : forall g, 0 <= g -> used s' g = if c g then false else used s g;
  ff_globals : same_globals s s';
  ff_trace : trace s' = trace s
}.

Section init.
Context (HHDM_OFFSET : Z).
Implicit Types (s : kstate) (e : memmap_entry) (mmaps : list memmap_entry).

Lemma frames_freed_trans s1 s2 s3 c d :
  frames_freed s1 s2 c -> frames_freed s2 s3 d -> frames_freed s1 s3 (fun g => c g || d g).
Proof.
  intros [M1 U1 G1 T1] [M2 U2 G2 T2]. unfold bitmap_bytes in *. rewrite !G1 in M2. split.
  - by eapply same_outside_trans.
  - intros g Hg. rewrite U2, U1 by done. by destruct (c g), (d g).
  - by etrans.
  - by etrans.
Qed.

Lemma frames_freed_ext s s' c d :
  (forall g, 0 <= g -> c g = d g) -> frames_freed s s' c -> frames_freed s s' d.
Proof. intros H [M U G T]. split; [done| |done|done]. intros g Hg. by rewrite <- H, U. Qed.

Lemma frames_set_freed s s' f n :
  frames_set s s' f n false -> frames_freed s s' (fun g => bool_decide (f <= g < f + n)).
Proof.
  intros H. pose proof H as [[Hso _] Hg Ht]. split; [done| |done|done].
  intros g Hp. rewrite (frames_set_used _ _ _ _ _ _ H) by done. by case_bool_decide.
Qed.

Lemma frames_freed_ok s s' c : frames_freed s s' c -> pmm_ok s -> pmm_ok s'.
Proof.
  intros [M U G T] [H1 [H2 H3]]. split; [by rewrite G|]. split; [by rewrite G|].
  unfold bitmap_bytes. rewrite !G. by eapply same_outside_mapped.
Qed.

(** One usable entry: the loop frees its frames, one [pmm_free] each. *)
Lemma pmm_release_eq s e :
  pmm_ok s -> entry_ok e -> (mm_base e + mm_length e) / FRAME_SIZE <= gval s g_limit ->
  exists s', pmm_release e s = Ok tt s' /\ frames_freed s s' (entry_frames e).
Proof.
  intros Hok (Hb & Hl & Hab & Hal & Htop) Hlim. unfold pmm_release.
  destruct (Z.ltb_spec (2 ^ 64 - FRAME_SIZE) (mm_length e)) as [|_]; [unfold FRAME_SIZE in *; lia|].
  set (f := mm_base e / FRAME_SIZE). set (n := (mm_length e + (FRAME_SIZE - 1)) / FRAME_SIZE).
  assert (Hf : mm_base e = FRAME_SIZE * f /\ mm_length e = FRAME_SIZE * n /\
               (mm_base e + mm_length e) / FRAME_SIZE = f + n) by (unfold f, n, FRAME_SIZE in *; zlia).
  destruct Hf as (Ef & En & Et).
  assert (H : wp (kfor 0 n (fun k => pmm_free (u64 (mm_base e + k * FRAME_SIZE)) 1))
    (fun _ s' => frames_freed s s' (fun g => bool_decide (f <= g < f + n))) s).
  { apply (wp_kfor (fun k s' => frames_freed s s' (fun g => bool_decide (f <= g < f + k))));
      [unfold FRAME_SIZE in *; lia| | |done].
    - split; [done| |done|done]. intros g _. by rewrite bool_decide_eq_false_2 by lia.
    - intros k s' Hk Hfr. pose proof (ff_globals _ _ _ Hfr) as G.
      rewrite u64_small by (unfold FRAME_SIZE in *; lia).
      replace (mm_base e + k * FRAME_SIZE) with (FRAME_SIZE * (f + k)) by lia.
      destruct (pmm_free_eq s' (f + k) 1) as (s'' & E & Hs);
        [by eapply frames_freed_ok|unfold FRAME_SIZE in *; lia|lia|rewrite G; lia|].
      eapply wp_eq; [exact E|]. eapply frames_freed_ext;
        [|eapply frames_freed_trans; [exact Hfr|by apply frames_set_freed]].
      intros g _. simpl. repeat case_bool_decide; try done; lia. }
  apply wp_Ok in H as ([] & s' & E & H). exists s'. split; [exact E|].
  eapply frames_freed_ext; [|exact H]. intros g _. unfold entry_frames. fold f. rewrite Et.
  case_bool_decide; destruct (Z.leb_spec f g), (Z.ltb_spec g (f + n)); try done; lia.
Qed.

Lemma pmm_release_all_eq mmaps s :
  pmm_ok s ->
  (forall e, e ∈ mmaps -> mm_type e = 0 ->
     entry_ok e /\ (mm_base e + mm_length e) / FRAME_SIZE <= gval s g_limit) ->
  exists s', pmm_release_all 0 mmaps s = Ok tt s' /\ frames_freed s s' (covered mmaps).
Proof.
  revert s. induction mmaps as [|e rest IH]; intros s Hok He.
  { exists s. split; [done|]. by split. }
  assert (Hrest : forall e, e ∈ rest -> mm_type e = 0 ->
            entry_ok e /\ (mm_base e + mm_length e) / FRAME_SIZE <= gval s g_limit)
    by (intros e' H'; apply He, elem_of_cons; by right).
  simpl. destruct (Z.eqb_spec (mm_type e) 0) as [Ht|Ht]; cbv [negb].
  - destruct (He e) as [He1 He2]; [apply elem_of_cons; by left|done|].
    destruct (pmm_release_eq s e Hok He1 He2) as (s1 & E1 & H1).
    rewrite (bind_Ok _ _ _ _ _ E1). pose proof (ff_globals _ _ _ H1) as G.
    destruct (IH s1) as (s2 & E2 & H2).
    + by eapply frames_freed_ok.
    + intros e' H' Ht'. rewrite G. by apply Hrest.
    + exists s2. split; [exact E2|]. eapply frames_freed_ext;
        [|exact (frames_freed_trans _ _ _ _ _ H1 H2)]. intros g _. simpl. by rewrite Ht.
  - rewrite (bind_Ok _ _ s tt s) by done. destruct (IH s Hok Hrest) as (s1 & E & H).
    exists s1. split; [done|]. eapply frames_freed_ext; [|exact H]. intros g _. simpl.
    by destruct (Z.eqb_spec (mm_type e) 0).
Qed.

Lemma skipped_0 e : skipped 0 e = negb (mm_type e =? 0).
Proof. unfold skipped. by destruct (mm_type e =? 0). Qed.

Lemma mm_highest_nonneg mmaps : 0 <= mm_highest mmaps.
Proof. induction mmaps as [|e l IH]; simpl; [lia|]. destruct (mm_type e =? 0); lia. Qed.

(** The first loop computes the end of usable memory; it only prints. *)
Lemma pmm_totals_eq mmaps i u a h s :
  (forall e, e ∈ mmaps -> mm_type e = 0 -> entry_ok e) -> 0 <= h ->
  exists u' a' t, pmm_totals 0 i mmaps u a h s =
    Ok (u', a', Z.max h (mm_highest mmaps)) (KState (mem s) (glob s) t).
Proof.
  revert i u a h s. induction mmaps as [|e rest IH]; intros i u a h s He Hh.
  { exists u, a, (trace s). simpl. rewrite Z.max_l by lia. by destruct s. }
  assert (Hrest : forall e, e ∈ rest -> mm_type e = 0 -> entry_ok e)
    by (intros e' H'; apply He, elem_of_cons; by right).
  simpl pmm_totals. unfold printf at 1, emit. unfold mbind at 1, K_bind at 1. cbv beta iota zeta.
  rewrite skipped_0. simpl mm_highest. destruct (Z.eqb_spec (mm_type e) 0) as [Ht|Ht]; cbv [negb].
  - destruct (He e) as (Hb & Hl & _ & _ & Htop); [apply elem_of_cons; by left|done|].
    pose proof (mm_highest_nonneg rest). rewrite (u64_small (mm_base e + mm_length e)) by lia.
    match goal with |- context [pmm_totals 0 (i + 1) rest ?u1 ?a1 ?h1 ?s1] =>
      destruct (IH (i + 1) u1 a1 h1 s1) as (u' & a' & t & E); [done|zcase; lia|] end.
    exists u', a', t. rewrite E. do 2 f_equal. zcase; lia.
  - match goal with |- context [pmm_totals 0 (i + 1) rest ?u1 ?a1 ?h1 ?s1] =>
      destruct (IH (i + 1) u1 a1 h1 s1) as (u' & a' & t & E); [done|lia|] end.
    exists u', a', t. by rewrite E.
Qed.

(** The second loop gives the first entry that is large enough to the bitmap. *)
Definition passed_over (size : Z) (e : memmap_entry) : Prop :=
  mm_type e <> 0 \/ mm_length e < size.
Definition carve (size : Z) (e : memmap_entry) : memmap_entry :=
  MemmapEntry (mm_base e + size) (mm_length e - size) (mm_type e).

Lemma pmm_place_eq l1 e l2 size a s :
  Forall (passed_over size) l1 -> mm_type e = 0 -> entry_ok e -> 0 <= size <= mm_length e ->
  0 < HHDM_OFFSET -> HHDM_OFFSET + mm_base e < 2 ^ 64 ->
  mapped (mem s) (HHDM_OFFSET + mm_base e) size ->
  exists a' m', pmm_place HHDM_OFFSET 0 (l1 ++ e :: l2) size a s =
      Ok (l1 ++ carve size e :: l2, a') (with_mem (with_glob s g_bitmap (HHDM_OFFSET + mm_base e)) m') /\
    filled (mem s) m' (HHDM_OFFSET + mm_base e) size Byte.xff.
Proof.
  intros Hl1 Ht (Hb & Hl & _ & _ & Htop) Hs Hh Hw Hm.
  induction Hl1 as [|e1 l1 H1 Hl1 IH]; simpl; rewrite skipped_0.
  - rewrite Ht. simpl. destruct (Z.leb_spec size (mm_length e)) as [_|]; [|lia].
    rewrite (u64_small (mm_base e + HHDM_OFFSET)), (Z.add_comm (mm_base e) HHDM_OFFSET) by lia.
    set (s1 := with_glob s g_bitmap (HHDM_OFFSET + mm_base e)).
    rewrite (bind_Ok _ _ s tt s1) by done.
    destruct (memset_eq s1 (HHDM_OFFSET + mm_base e) 0xff size) as (m' & E & Hf);
      [unfold NULL; lia|lia|done|].
    rewrite (bind_Ok _ _ _ _ _ E), (u64_small (mm_base e + size)) by lia.
    eexists _, m'. split; [unfold carve; rewrite Ht; reflexivity|exact Hf].
  - destruct IH as (a' & m' & E & Hf). exists a', m'. split; [|done].
    assert (E' : forall k : K (list memmap_entry * Z), k = (pmm_place HHDM_OFFSET 0 (l1 ++ e :: l2) size a ≫=
      (fun '(rest', available') => mret (e1 :: rest', available'))) ->
      k s = Ok (e1 :: l1 ++ carve size e :: l2, a') (with_mem (with_glob s g_bitmap (HHDM_OFFSET + mm_base e)) m')).
    { intros k ->. by rewrite (bind_Ok _ _ _ _ _ E). }
    destruct (Z.eqb_spec (mm_type e1) 0) as [Ht1|Ht1]; cbv [negb]; [|by apply E'].
    destruct H1 as [|H1]; [done|]. destruct (Z.leb_spec size (mm_length e1)); [lia|]. by apply E'.
Qed.

(** The size [pmm_init] chooses for the bitmap. *)
Definition bitmap_size mmaps : Z := ALIGN_UP (mm_highest mmaps / FRAME_SIZE / 8) FRAME_SIZE.

(** A memory map that can be booted from: the usable entries are page aligned
    and direct mapped, [e] is the first that has room for the bitmap, the other
    usable entries do not overlap it, and the bitmap is long enough. *)
Record boot_ok s l1 e l2 : Prop := {
  bo_hhdm : 0 < HHDM_OFFSET;
  bo_top : HHDM_OFFSET + mm_highest (l1 ++ e :: l2) < 2 ^ 64;
  bo_lock : gval s g_pmm_lock = 0;
  bo_entries : forall d, d ∈ l1 ++ e :: l2 -> mm_type d = 0 ->
    entry_ok d /\ mapped (mem s) (HHDM_OFFSET + mm_base d) (mm_length d);
  bo_passed : Forall (passed_over (bitmap_size (l1 ++ e :: l2))) l1;
  bo_usable : mm_type e = 0;
  bo_room : bitmap_size (l1 ++ e :: l2) <= mm_length e;
  bo_disjoint : forall d, d ∈ l1 ++ l2 -> mm_type d = 0 ->
    mm_base d + mm_length d <= mm_base e \/ mm_base e + mm_length e <= mm_base d;
  bo_long : (mm_highest (l1 ++ e :: l2) / FRAME_SIZE + 7) / 8 <= bitmap_size (l1 ++ e :: l2)
}.

Lemma mm_highest_bound mmaps d :
  d ∈ mmaps -> mm_type d = 0 -> mm_base d + mm_length d <= mm_highest mmaps.
Proof.
  induction mmaps as [|e l IH]; simpl; [by intros ?%elem_of_nil|].
  intros [->|Hd]%elem_of_cons Ht; [rewrite Ht; simpl; lia|].
  specialize (IH Hd Ht). destruct (mm_type e =? 0); lia.
Qed.

Lemma mm_highest_le mmaps b :
  0 <= b -> (forall d, d ∈ mmaps -> mm_type d = 0 -> mm_base d + mm_length d <= b) -> mm_highest mmaps <= b.
Proof.
  induction mmaps as [|e l IH]; simpl; intros Hb H; [done|].
  assert (mm_highest l <= b) by (apply IH; [done|]; intros d Hd; apply H, elem_of_cons; by right).
  destruct (Z.eqb_spec (mm_type e) 0) as [Ht|]; [|done].
  pose proof (H e ltac:(apply elem_of_cons; by left) Ht). lia.
Qed.

Lemma bitmap_size_spec mmaps :
  mm_highest mmaps <= 2 ^ 52 ->
  0 <= bitmap_size mmaps < 2 ^ 52 /\ bitmap_size mmaps mod FRAME_SIZE = 0.
Proof.
  intros H. pose proof (mm_highest_nonneg mmaps). unfold bitmap_size, FRAME_SIZE.
  rewrite (ALIGN_UP_page (mm_highest mmaps / 0x1000 / 8)) by zlia. zlia.
Qed.

(** The frames of the memory map that is left are free to hand out: mapped, and
    not where the bitmap is. *)
Lemma covered_free s l1 e l2 g :
  boot_ok s l1 e l2 -> mm_highest (l1 ++ e :: l2) <= 2 ^ 52 ->
  covered (l1 ++ carve (bitmap_size (l1 ++ e :: l2)) e :: l2) g = true ->
  mapped (mem s) (frame_va HHDM_OFFSET g) FRAME_SIZE /\
  (frame_va HHDM_OFFSET (g + 1) <= HHDM_OFFSET + mm_base e \/
   HHDM_OFFSET + mm_base e + bitmap_size (l1 ++ e :: l2) <= frame_va HHDM_OFFSET g).
Proof.
  intros Hb Hh. destruct (bitmap_size_spec (l1 ++ e :: l2) Hh) as [Hs1 Hs2].
  set (size := bitmap_size (l1 ++ e :: l2)) in *. intros Hc.
  apply existsb_exists in Hc as (d & Hd%list_elem_of_In & [Ht Hf]%andb_true_iff).
  apply Z.eqb_eq in Ht. unfold entry_frames in Hf.
  apply andb_true_iff in Hf as [Hf1%Z.leb_le Hf2%Z.ltb_lt].
  apply elem_of_app in Hd. rewrite elem_of_cons in Hd.
  destruct (decide (d ∈ l1 ++ l2)) as [Hin|Hnin].
  - destruct (bo_entries _ _ _ _ Hb d) as [(? & ? & Hab & Hal & ?) Hm]; [|done|].
    { apply elem_of_app in Hin. rewrite elem_of_app, elem_of_cons. tauto. }
    pose proof (bo_disjoint _ _ _ _ Hb d Hin Ht) as Hdis. pose proof (bo_room _ _ _ _ Hb) as Hroom.
    destruct (bo_entries _ _ _ _ Hb e) as [(? & ? & Hae & _) _];
      [rewrite elem_of_app, elem_of_cons; tauto|by destruct Hb|].
    fold size in Hroom. split; [intros x Hx; apply Hm|]; unfold frame_va, FRAME_SIZE in *; zlia.
  - rewrite elem_of_app in Hnin. destruct Hd as [?|[->|?]]; [tauto| |tauto].
    destruct (bo_entries _ _ _ _ Hb e) as [(? & ? & Hab & Hal & ?) Hm];
      [rewrite elem_of_app, elem_of_cons; tauto|by destruct Hb|].
    unfold carve in Hf1, Hf2. simpl in Hf1, Hf2.
    split; [intros x Hx; apply Hm|]; unfold frame_va, FRAME_SIZE in *; zlia.
Qed.

Lemma carved_entries s l1 e l2 d :
  boot_ok s l1 e l2 -> d ∈ l1 ++ carve (bitmap_size (l1 ++ e :: l2)) e :: l2 -> mm_type d = 0 ->
  entry_ok d /\ (mm_base d + mm_length d) / FRAME_SIZE <= mm_highest (l1 ++ e :: l2) / FRAME_SIZE.
Proof.
  intros Hb Hd Ht.
  assert (Hin : forall d, d ∈ l1 ++ e :: l2 -> mm_type d = 0 ->
    entry_ok d /\ (mm_base d + mm_length d) / FRAME_SIZE <= mm_highest (l1 ++ e :: l2) / FRAME_SIZE).
  { intros d' Hd' Ht'. split; [by apply (bo_entries _ _ _ _ Hb)|].
    pose proof (mm_highest_bound _ _ Hd' Ht'). apply Z.div_le_mono; [done|lia]. }
  rewrite elem_of_app, elem_of_cons in Hd. destruct Hd as [Hd|[->|Hd]];
    [apply Hin; [rewrite elem_of_app; by left|done]| |
     apply Hin; [rewrite elem_of_app, elem_of_cons; tauto|done]].
  destruct (Hin e) as [(He1 & He2 & He3 & He4 & He5) He6];
    [rewrite elem_of_app, elem_of_cons; tauto|apply Hb|].
  pose proof (bo_room _ _ _ _ Hb). destruct (bitmap_size_spec (l1 ++ e :: l2)) as [? ?].
  { apply mm_highest_le; [lia|]. intros d Hd Hd'. by apply (Hin d Hd Hd'). }
  unfold carve. simpl. split; [|by replace (mm_base e + _ + _) with (mm_base e + mm_length e) by lia].
  unfold entry_ok, FRAME_SIZE in *. simpl. zlia.
Qed.

(** After the bitmap was placed every frame is in use. *)
Lemma placed_used s p size m0 :
  gval s g_bitmap = p -> (gval s g_limit + 7) / 8 <= size -> filled m0 (mem s) p size Byte.xff ->
  forall g, 0 <= g < gval s g_limit -> used s g = true.
Proof.
  intros Hp Hl [_ Hf] g Hg. unfold used, bit. rewrite Hp, Hf by zlia.
  change (byte_Z Byte.xff) with (Z.ones 8). apply Z.ones_spec_low. zlia.
Qed.

(** The state in which the frames are about to be released. *)
Record placed (s s' : kstate) l1 e l2 : Prop := {
  pl_ok : pmm_ok s';
  pl_limit : gval s' g_limit = mm_highest (l1 ++ e :: l2) / FRAME_SIZE;
  pl_bitmap : gval s' g_bitmap = HHDM_OFFSET + mm_base e;
  pl_used : forall g, 0 <= g < gval s' g_limit -> used s' g = true;
  pl_dom : forall x, is_Some (mem s' !! x) <-> is_Some (mem s !! x);
  pl_globals : forall v, v <> g_bitmap -> v <> g_limit -> gval s' v = gval s v;
  pl_kept : forall x, ~ (HHDM_OFFSET + mm_base e <= x < HHDM_OFFSET + mm_base e + bitmap_size (l1 ++ e :: l2)) ->
    mem s' !! x = mem s !! x
}.

Lemma boot_highest s l1 e l2 : boot_ok s l1 e l2 -> 0 <= mm_highest (l1 ++ e :: l2) <= 2 ^ 52.
Proof.
  intros Hb. split; [apply mm_highest_nonneg|]. apply mm_highest_le; [lia|].
  intros d Hd Ht. destruct (bo_entries _ _ _ _ Hb d Hd Ht) as [(_ & _ & _ & _ & ?) _]. done.
Qed.

(** The first two loops of [pmm_init]. *)
Lemma pmm_init_places s l1 e l2 :
  boot_ok s l1 e l2 ->
  exists a u s', placed s s' l1 e l2 /\
    pmm_init HHDM_OFFSET 0 (l1 ++ e :: l2) s =
      (pmm_release_all 0 (l1 ++ carve (bitmap_size (l1 ++ e :: l2)) e :: l2) ;;
       printf "%dMiB/%dMiB of usable memmory\n" [u; a] ;;
       printf "PMM initialized.\n" [] ;;
       mret (l1 ++ carve (bitmap_size (l1 ++ e :: l2)) e :: l2)) s'.
Proof.
  intros Hb. set (mmaps := l1 ++ e :: l2). pose proof (boot_highest _ _ _ _ Hb) as Hh. fold mmaps in Hh.
  destruct (bitmap_size_spec mmaps) as [Hs1 Hs2]; [lia|]. set (size := bitmap_size mmaps) in *.
  assert (He : e ∈ mmaps) by (apply elem_of_app; right; apply elem_of_cons; by left).
  destruct (bo_entries _ _ _ _ Hb e He (bo_usable _ _ _ _ Hb)) as [Heok Hem].
  pose proof (mm_highest_bound mmaps e He (bo_usable _ _ _ _ Hb)) as Hhe.
  pose proof (bo_top _ _ _ _ Hb) as Htop. pose proof (bo_room _ _ _ _ Hb) as Hroom.
  pose proof (bo_long _ _ _ _ Hb) as Hlong. fold mmaps in Htop, Hroom, Hlong. fold size in Hroom, Hlong.
  pose proof Heok as (He1 & He2 & _). unfold pmm_init. rewrite printf_then.
  match goal with |- context [KState ?m ?g ?t] =>
    destruct (pmm_totals_eq mmaps 0 0 0 0 (KState m g t)) as (u' & a' & t' & E) end.
  { intros d Hd Ht. by apply (bo_entries _ _ _ _ Hb). }
  { lia. }
  rewrite (bind_Ok _ _ _ _ _ E), Z.max_r by lia. clear E.
  set (lim := mm_highest mmaps / FRAME_SIZE) in *. set (sB := with_glob (KState (mem s) (glob s) t') g_limit lim).
  rewrite (bind_Ok _ _ _ tt sB) by done. fold (bitmap_size mmaps).
  destruct (pmm_place_eq l1 e l2 size a' sB) as (a'' & m' & E & Hfill);
    [apply Hb|apply Hb|done|lia|apply Hb|lia|eapply mapped_sub; [exact Hem|lia|lia]|].
  set (sC := with_mem (with_glob sB g_bitmap (HHDM_OFFSET + mm_base e)) m') in *.
  assert (HCl : gval sC g_limit = lim).
  { unfold sC. rewrite gval_with_mem, gval_with_glob_ne by done. apply gval_with_glob_eq. }
  assert (HCb : gval sC g_bitmap = HHDM_OFFSET + mm_base e).
  { unfold sC. rewrite gval_with_mem. apply gval_with_glob_eq. }
  exists (a'' / 1000 / 1000), (u' / 1000 / 1000), sC. split.
  2:{ unfold size, bitmap_size in E. unfold lim. rewrite (bind_Ok _ _ _ _ _ E). reflexivity. }
  split; [|done|done| |apply Hfill| |].
  - split; [unfold sC, sB; rewrite gval_with_mem, !gval_with_glob_ne by done; apply Hb|].
    split; [rewrite HCl; unfold lim, FRAME_SIZE; zlia|]. unfold bitmap_bytes. rewrite HCb, HCl.
    eapply same_outside_mapped; [apply Hfill|]. eapply mapped_sub; [exact Hem|lia|lia].
  - by eapply placed_used; [exact HCb|rewrite HCl|exact Hfill].
  - intros v Hv1 Hv2. unfold sC, sB. by rewrite gval_with_mem, !gval_with_glob_ne.
  - intros x Hx. apply (proj2 (proj1 Hfill)). exact Hx.
Qed.

(** What [pmm_init] leaves: an allocator in which a frame is free exactly when a usable
    entry of the map [mmaps], from which the bitmap was carved, covers it. *)
Record pmm_built (s s' : kstate) l1 e l2 : Prop := {
  pb_inv : pmm_inv HHDM_OFFSET s';
  pb_limit : gval s' g_limit = mm_highest (l1 ++ e :: l2) / FRAME_SIZE;
  pb_bitmap : gval s' g_bitmap = HHDM_OFFSET + mm_base e;
  pb_used : forall g, 0 <= g < gval s' g_limit ->
    used s' g = negb (covered (l1 ++ carve (bitmap_size (l1 ++ e :: l2)) e :: l2) g);
  pb_globals : forall v, v <> g_bitmap -> v <> g_limit -> gval s' v = gval s v;
  pb_kept : forall x, ~ (HHDM_OFFSET + mm_base e <= x < HHDM_OFFSET + mm_base e + bitmap_size (l1 ++ e :: l2)) ->
    mem s' !! x = mem s !! x
}.

Lemma pmm_init_eq s l1 e l2 :
  boot_ok s l1 e l2 ->
  exists s', pmm_init HHDM_OFFSET 0 (l1 ++ e :: l2) s =
      Ok (l1 ++ carve (bitmap_size (l1 ++ e :: l2)) e :: l2) s' /\ pmm_built s s' l1 e l2.
Proof.
  intros Hb. pose proof (boot_highest _ _ _ _ Hb) as Hh.
  destruct (pmm_init_places s l1 e l2 Hb) as (a & u & s1 & [Hok Hl Hbm Hu Hd Hgl Hkp] & ->).
  destruct (pmm_release_all_eq (l1 ++ carve (bitmap_size (l1 ++ e :: l2)) e :: l2) s1 Hok) as (s2 & E & Hfr).
  { rewrite Hl. intros d Hdin Ht. by eapply carved_entries. }
  rewrite (bind_Ok _ _ _ _ _ E). eexists. split; [reflexivity|].
  pose proof (ff_globals _ _ _ Hfr) as G. pose proof (frames_freed_ok _ _ _ Hfr Hok) as Hok2.
  assert (Hu2 : forall g, 0 <= g < gval s2 g_limit ->
    used s2 g = negb (covered (l1 ++ carve (bitmap_size (l1 ++ e :: l2)) e :: l2) g)).
  { intros g Hg. rewrite G in Hg. rewrite (ff_used _ _ _ Hfr), Hu by lia. by destruct (covered _ g). }
  split; [|by rewrite <- Hl, <- G|by rewrite <- Hbm, <- G|exact Hu2|intros v Hv1 Hv2; rewrite <- Hgl by done; apply G|].
  2:{ intros x Hx. rewrite <- Hkp by done. apply (proj2 (ff_mem _ _ _ Hfr)). unfold bitmap_bytes.
      rewrite Hl, Hbm. pose proof (bo_long _ _ _ _ Hb). lia. }
  pose proof (bo_top _ _ _ _ Hb). pose proof (bo_long _ _ _ _ Hb).
  split; [by destruct Hok2 as [? [? ?]]; split; [|split]|apply Hb| | |].
  - change (gval s2 g_limit <= 2 ^ 40). rewrite G, Hl. unfold FRAME_SIZE. zlia.
  - change (frame_va HHDM_OFFSET (gval s2 g_limit) < 2 ^ 64). rewrite G, Hl. unfold frame_va, FRAME_SIZE. zlia.
  - intros g Hg Hf. change (used s2 g = false) in Hf. change (1 <= g < gval s2 g_limit) in Hg.
    rewrite Hu2 in Hf by lia. apply negb_false_iff in Hf.
    destruct (covered_free s l1 e l2 g Hb ltac:(lia) Hf) as [Hm Ho]. split.
    + intros x Hx. apply (proj1 (ff_mem _ _ _ Hfr)), Hd, Hm, Hx.
    + unfold off_bitmap. change (frame_va HHDM_OFFSET (g + 1) <= gval s2 g_bitmap \/
        gval s2 g_bitmap + bitmap_bytes s2 <= frame_va HHDM_OFFSET g).
      unfold bitmap_bytes. rewrite !G, Hl, Hbm. lia.
Qed.

(** [pmm_init] builds a working allocator: from a bootable memory map it
    returns normally, reserves the bitmap at the start of the first usable
    entry with room for it, and leaves a frame free exactly when it belongs to
    a usable entry of what remains; every free frame is mapped and none of them
    holds the bitmap.  (The constant [LIMINE_MEMMAP_USABLE] is 0 in the boot
    protocol.) *)
Theorem pmm_init_builds s l1 e l2 :
  boot_ok s l1 e l2 ->
  exists s', pmm_init HHDM_OFFSET 0 (l1 ++ e :: l2) s =
      Ok (l1 ++ carve (bitmap_size (l1 ++ e :: l2)) e :: l2) s' /\
    pmm_inv HHDM_OFFSET s' /\
    gval s' g_limit = mm_highest (l1 ++ e :: l2) / FRAME_SIZE /\
    gval s' g_bitmap = HHDM_OFFSET + mm_base e /\
    forall g, 0 <= g < gval s' g_limit ->
      used s' g = negb (covered (l1 ++ carve (bitmap_size (l1 ++ e :: l2)) e :: l2) g).
Proof.
  intros Hb. destruct (pmm_init_eq s l1 e l2 Hb) as (s' & E & [H1 H2 H3 H4 _ _]). by exists s'.
Qed.

End init.

(** * Concrete boots *)

(** A reserved entry, then nine usable frames behind a direct map at [0x10000]. *)
Definition small_map1 : memmap_entry := MemmapEntry 0 0x1000 1.
Definition small_map2 : memmap_entry := MemmapEntry 0x1000 0x9000 0.
Definition small_boot : kstate := KState (zeros 0x10000 (Z.to_nat 0xa000)) ∅ [].

Lemma small_boot_ok : boot_ok 0x10000 small_boot [small_map1] small_map2 [].
Proof.
  assert (Hb : bitmap_size ([small_map1] ++ [small_map2]) = 0x1000) by reflexivity.
  split; rewrite ?Hb; [lia|by apply Z.ltb_lt|reflexivity| | |reflexivity|by apply Z.leb_le| |].
  - intros d Hd Ht. assert (d = small_map2) as ->.
    { rewrite elem_of_app, !list_elem_of_singleton in Hd. destruct Hd as [->| ->]; [done|done]. }
    split; [by repeat split|]. intros x Hx. apply zeros_mapped. simpl in Hx. lia.
  - apply Forall_singleton. by left.
  - intros d Hd Ht. rewrite app_nil_r, list_elem_of_singleton in Hd. by subst.
  - by apply Z.leb_le.
Qed.

Lemma pmm_init_builds_witness :
  let mmaps := [small_map1] ++ [small_map2] in
  exists s', pmm_init 0x10000 0 mmaps small_boot =
      Ok ([small_map1] ++ [carve (bitmap_size mmaps) small_map2]) s' /\
    pmm_inv 0x10000 s' /\
    gval s' g_limit = mm_highest mmaps / FRAME_SIZE /\
    gval s' g_bitmap = 0x10000 + mm_base small_map2 /\
    forall g, 0 <= g < gval s' g_limit ->
      used s' g = negb (covered ([small_map1] ++ [carve (bitmap_size mmaps) small_map2]) g).
Proof. apply (pmm_init_builds 0x10000 small_boot [small_map1] small_map2 [] small_boot_ok). Defined.

(** [highest / FRAME_SIZE / 8] rounds down before it is aligned, so that the
    bitmap can be too short by a byte.  On a machine whose only usable entry is
    the four frames at [0x1000] the bitmap gets no room at all: [pmm_init]
    leaves it in frame 1 and marks frame 1 as free, and the next [pmm_malloc]
    hands out the frame that holds the bitmap. *)
Theorem pmm_init_short_bitmap :
  exists mmaps s1 s2,
    pmm_init 0x10000 0 [MemmapEntry 0x1000 0x4000 0] small_boot = Ok mmaps s1 /\
    gval s1 g_bitmap = frame_va 0x10000 1 /\
    pmm_malloc 1 s1 = Ok (FRAME_SIZE * 1) s2.
Proof.
  set (r := pmm_init 0x10000 0 [MemmapEntry 0x1000 0x4000 0] small_boot).
  exists [MemmapEntry 0x1000 0x4000 0], (ok_state r small_boot),
    (ok_state (pmm_malloc 1 (ok_state r small_boot)) small_boot).
  split; [apply ok_split; vm_compute; reflexivity|].
  split; [vm_compute; reflexivity|]. apply ok_split. vm_compute. reflexivity.
Qed.
