(* ===== verification/PageTable.v ===== *)
(** Four-level page tables as trees, apart from memory.

    A table memory is a function [E]: [E f i] is entry [i] of the table in frame
    [f].  [walk] follows a path of indices from a root; [pte] is the last-level
    entry of a virtual address (0 when a table on the way is absent) and
    [translate] the walk that the processor performs.  [tree] is the invariant of
    [memory/vmm.c]: every table is a frame that the allocator handed out, and no
    table is reached by two paths.  The two ways in which the code changes a
    tree, a new table ([grow_*]) and a new last-level entry ([leaf_*]), are
    studied here. *)
From S2P Require Import Prelude.

(** [memory/vmm.h] *)
Definition PTE_ADDR_MASK : Z := 0x000ffffffffff000.
Definition PTE_PRESENT : Z := Z.shiftl 1 0.
Definition PTE_WRITABLE : Z := Z.shiftl 1 1.
Definition PTE_USER : Z := Z.shiftl 1 2.

(** The four table indices of a virtual address. *)
Definition pml4_index (v : Z) : Z := Z.shiftr (Z.land v (Z.shiftl 0x1ff 39)) 39.
Definition pml3_index (v : Z) : Z := Z.shiftr (Z.land v (Z.shiftl 0x1ff 30)) 30.
Definition pml2_index (v : Z) : Z := Z.shiftr (Z.land v (Z.shiftl 0x1ff 21)) 21.
Definition pml1_index (v : Z) : Z := Z.shiftr (Z.land v (Z.shiftl 0x1ff 12)) 12.

(** * Trees of tables *)

Definition tables := Z -> Z -> Z.

Definition child (E : tables) (f i : Z) : option Z :=
  if Z.land (E f i) 1 =? 0 then None else Some (Z.land (E f i) PTE_ADDR_MASK / 0x1000).

Fixpoint walk (E : tables) (f : Z) (q : list Z) : option Z :=
  match q with
  | [] => Some f
  | i :: q' => match child E f i with Some g => walk E g q' | None => None end
  end.

(** The path to the last-level table of [v], and the paths to all its tables. *)
Definition dir (v : Z) : list Z := [pml4_index v; pml3_index v; pml2_index v].
Definition dirs (v : Z) : list (list Z) :=
  [[pml4_index v]; [pml4_index v; pml3_index v]; dir v].

Definition pte (E : tables) (root v : Z) : Z :=
  match walk E root (dir v) with Some f => E f (pml1_index v) | None => 0 end.

(** The processor's translation of [v]. *)
Definition translate (E : tables) (root v : Z) : option Z :=
  match walk E root (dir v ++ [pml1_index v]) with
  | Some f => Some (0x1000 * f + v mod 0x1000)
  | None => None
  end.

(** Virtual page numbers; the processor ignores the sign extension. *)
Definition page (v : Z) : Z := (v / 0x1000) mod 2 ^ 36.

Definition index (i : Z) : Prop := 0 <= i < 512.
Definition path (n : nat) (q : list Z) : Prop := (length q <= n)%nat /\ Forall index q.

Record tree (owned : Z -> Prop) (E : tables) (root : Z) : Prop := {
  tree_owned : forall q f, path 3 q -> walk E root q = Some f -> owned f;
  tree_inj : forall q q' f, path 3 q -> path 3 q' ->
    walk E root q = Some f -> walk E root q' = Some f -> q = q'
}.

(** The tables that are missing on the paths [qs]: what it costs to add them. *)
Definition missing (E : tables) (root : Z) (qs : list (list Z)) : gset (list Z) :=
  filter (fun q => walk E root q = None) (list_to_set qs).

(** * Indices *)

Section indices.
Implicit Types (v : Z).

Lemma pml4_index_spec v : pml4_index v = (v / 2 ^ 39) mod 512.
Proof. apply (bitfield_spec v 9 39); lia. Qed.
Lemma pml3_index_spec v : pml3_index v = (v / 2 ^ 30) mod 512.
Proof. apply (bitfield_spec v 9 30); lia. Qed.
Lemma pml2_index_spec v : pml2_index v = (v / 2 ^ 21) mod 512.
Proof. apply (bitfield_spec v 9 21); lia. Qed.
Lemma pml1_index_spec v : pml1_index v = (v / 2 ^ 12) mod 512.
Proof. apply (bitfield_spec v 9 12); lia. Qed.

Lemma pml1_index_ok v : index (pml1_index v).
Proof. rewrite pml1_index_spec. unfold index. zlia. Qed.

Lemma pml4_index_ok v : index (pml4_index v).
Proof. rewrite pml4_index_spec. unfold index. zlia. Qed.
Lemma pml3_index_ok v : index (pml3_index v).
Proof. rewrite pml3_index_spec. unfold index. zlia. Qed.
Lemma pml2_index_ok v : index (pml2_index v).
Proof. rewrite pml2_index_spec. unfold index. zlia. Qed.

Lemma dir_indices v : Forall index (dir v).
Proof.
  unfold dir. rewrite !list.Forall_cons. split; [apply pml4_index_ok|].
  split; [apply pml3_index_ok|]. split; [apply pml2_index_ok|done].
Qed.

Lemma dir_path v : path 3 (dir v).
Proof. split; [done|apply dir_indices]. Qed.

(** The four indices determine the page, and conversely. *)
Lemma page_digits v :
  page v = 2 ^ 27 * pml4_index v + 2 ^ 18 * pml3_index v + 2 ^ 9 * pml2_index v + pml1_index v.
Proof.
  rewrite pml4_index_spec, pml3_index_spec, pml2_index_spec, pml1_index_spec. unfold page. zlia.
Qed.

Lemma same_page v v' : page v' = page v <-> dir v' = dir v /\ pml1_index v' = pml1_index v.
Proof.
  split.
  - rewrite !page_digits. unfold dir.
    pose proof (pml4_index_ok v). pose proof (pml3_index_ok v). pose proof (pml2_index_ok v).
    pose proof (pml1_index_ok v). pose proof (pml4_index_ok v'). pose proof (pml3_index_ok v').
    pose proof (pml2_index_ok v'). pose proof (pml1_index_ok v'). unfold index in *.
    intros E. assert (pml4_index v' = pml4_index v) as -> by lia.
    assert (pml3_index v' = pml3_index v) as -> by lia.
    assert (pml2_index v' = pml2_index v) as -> by lia. split; [done|lia].
  - unfold dir. rewrite !page_digits. by intros [[= -> -> ->] ->].
Qed.

Lemma same_page_dirs v v' : page v' = page v -> dirs v' = dirs v.
Proof. intros [Hd _]%same_page. unfold dirs. rewrite Hd. unfold dir in Hd. by injection Hd as -> -> _. Qed.

End indices.
#[export] Hint Resolve dir_path dir_indices pml1_index_ok pml2_index_ok pml3_index_ok pml4_index_ok : kernel.

(** The address field of an entry. *)
Lemma addr_mask f k : 0 <= f < 2 ^ 40 -> 0 <= k < 0x1000 -> Z.land (0x1000 * f + k) PTE_ADDR_MASK = 0x1000 * f.
Proof.
  intros Hf Hk. replace (0x1000 * f) with (Z.shiftl ((0x1000 * f + k) / 2 ^ 12 mod 2 ^ 40) 12) at 2.
  - change PTE_ADDR_MASK with (Z.shiftl (Z.ones 40) 12). apply Z.bits_inj'. intros i Hi.
    rewrite Z.land_spec, !Z.shiftl_spec by lia. destruct (decide (i < 12)).
    + rewrite !(Z.testbit_neg_r _ (i - 12)) by lia. apply andb_false_r.
    + rewrite <- Z.land_ones, Z.land_spec, Z.div_pow2_bits by lia. do 2 f_equal. lia.
  - rewrite Z.shiftl_mul_pow2 by lia. zlia.
Qed.

Lemma addr_mask_aligned p k :
  0 <= p < 2 ^ 52 -> p mod 0x1000 = 0 -> Z.land k PTE_ADDR_MASK = 0 ->
  Z.land (Z.lor p k) PTE_ADDR_MASK = p.
Proof.
  intros Hp Ha Hk. rewrite Z.land_lor_distr_l, Hk, Z.lor_0_r.
  replace p with (0x1000 * (p / 0x1000) + 0) at 1 by zlia. rewrite addr_mask by zlia. zlia.
Qed.

(** * Walks *)

Section walks.
Implicit Types (E : tables) (q p : list Z) (f g h root i j : Z) (owned : Z -> Prop).

Lemma walk_app E f p q : walk E f (p ++ q) = walk E f p ≫= (fun g => walk E g q).
Proof.
  revert f. induction p as [|i p IH]; intros f; [done|]. simpl. by destruct (child E f i).
Qed.

Lemma walk_snoc E f q i : walk E f (q ++ [i]) = walk E f q ≫= (fun g => child E g i).
Proof.
  rewrite walk_app. destruct (walk E f q) as [g|]; [|done]. simpl. by destruct (child E g i).
Qed.

Lemma walk_snoc_Some E f q i h :
  walk E f (q ++ [i]) = Some h <-> exists g, walk E f q = Some g /\ child E g i = Some h.
Proof. rewrite walk_snoc. apply bind_Some. Qed.

Lemma path_snoc n q i : path (S n) (q ++ [i]) <-> path n q /\ index i.
Proof.
  unfold path. rewrite length_app, Forall_app, Forall_singleton. simpl.
  split; [intros [? [? ?]]|intros [[? ?] ?]]; [split; [split; [lia|done]|done]|split; [lia|done]].
Qed.

Lemma path_nil n : path n [].
Proof. split; [simpl; lia|done]. Qed.

Lemma path_cons n q i : path (S n) (i :: q) <-> index i /\ path n q.
Proof.
  unfold path. rewrite list.Forall_cons. simpl.
  split; [intros [? [? ?]]|intros [? [? ?]]]; [split; [done|split; [lia|done]]|split; [lia|done]].
Qed.

Lemma path_weaken n k q : path n q -> (n <= k)%nat -> path k q.
Proof. intros [? ?] ?. split; [lia|done]. Qed.

Lemma path_2_3 q : path 2 q -> path 3 q.
Proof. intros H. apply (path_weaken 2); [done|lia]. Qed.

Lemma dirs_paths v : Forall (path 3) (dirs v).
Proof.
  unfold dirs, dir. rewrite !list.Forall_cons, !path_cons.
  split_and!; auto using path_nil with kernel.
Qed.

(** Walks only read the tables on their way. *)
Lemma walk_ext E E' root n q :
  path n q ->
  (forall p h j, path n (p ++ [j]) -> walk E root p = Some h -> E' h j = E h j) ->
  walk E' root q = walk E root q.
Proof.
  induction q as [|j q IH] using rev_ind; intros Hq H; [done|]. rewrite !walk_snoc.
  destruct n as [|n].
  { exfalso. destruct Hq as [Hl _]. rewrite length_app in Hl. simpl in Hl. lia. }
  apply path_snoc in Hq as [Hq Hj].
  rewrite IH; [|apply (path_weaken n); [done|lia]|done].
  destruct (walk E root q) as [h|] eqn:Ew; [|done]. simpl. unfold child.
  rewrite (H q h j); [done|by apply path_snoc|done].
Qed.

(** A new, empty table [g] at index [i] of table [f]. *)
Record grown (owned : Z -> Prop) (E E' : tables) (f i g : Z) : Prop := {
  gr_fresh : ~ owned g;
  gr_empty : forall j, index j -> E' g j = 0;
  gr_link : child E' f i = Some g;
  gr_rest : forall h j, owned h -> index j -> (h, j) <> (f, i) -> E' h j = E h j
}.

Section grow.
Context (owned : Z -> Prop) (E E' : tables) (root f i g : Z) (p : list Z).
Context (Ht : tree owned E root) (Hg : grown owned E E' f i g).
Context (Hp : path 2 p) (Hi : index i) (Hw : walk E root p = Some f) (Hc : child E f i = None).

Lemma grow_owned_root q h : path 2 q -> walk E root q = Some h -> owned h.
Proof. intros Hq. apply (tree_owned _ _ _ Ht). by apply path_2_3. Qed.

Lemma grow_child q h j k :
  path 2 q -> index j -> walk E root q = Some h ->
  child E' h j = Some k <-> child E h j = Some k \/ (q = p /\ j = i /\ k = g).
Proof.
  intros Hq Hj Hh. destruct (decide ((h, j) = (f, i))) as [[= -> ->]|Hne].
  - rewrite (gr_link _ _ _ _ _ _ Hg), Hc.
    assert (q = p) as -> by (apply (tree_inj _ _ _ Ht q p f); try done; by apply path_2_3).
    split; [intros [= <-]; by right|]. by intros [|(_ & _ & ->)].
  - unfold child. rewrite (gr_rest _ _ _ _ _ _ Hg h j) by (try done; by eapply grow_owned_root).
    split; [by left|]. intros [|(-> & -> & _)]; [done|]. destruct Hne. congruence.
Qed.

Lemma grow_walk q h :
  path 3 q -> walk E' root q = Some h <-> walk E root q = Some h \/ (q = p ++ [i] /\ h = g).
Proof.
  revert h. induction q as [|j q IH] using rev_ind; intros h Hq.
  { simpl. split; [by left|]. intros [?|[H _]]; [done|]. by destruct p. }
  apply path_snoc in Hq as [Hq Hj]. rewrite !walk_snoc_Some.
  assert (Hq3 : path 3 q) by (by apply path_2_3). split.
  - intros (k & Hk & Hch). apply IH in Hk as [Hk|[-> ->]]; [| |done].
    + apply (grow_child q k j h Hq Hj Hk) in Hch as [Hch|(-> & -> & ->)]; [|by right].
      left. by exists k.
    + unfold child in Hch. by rewrite (gr_empty _ _ _ _ _ _ Hg j Hj) in Hch.
  - intros [(k & Hk & Hch)|[[-> [= ->]]%app_inj_2 ->]]; [| |done].
    + exists k. split; [apply IH; [done|by left]|]. apply (grow_child q k j h Hq Hj Hk). by left.
    + exists f. split; [apply IH; [done|by left]|]. apply Hg.
Qed.

Lemma grow_tree owned' : (forall h, owned' h <-> owned h \/ h = g) -> tree owned' E' root.
Proof.
  intros Ho. split.
  - intros q h Hq [Hh|[_ ->]]%grow_walk; [| |done]; apply Ho; [left|by right].
    by eapply (tree_owned _ _ _ Ht).
  - intros q q' h Hq Hq' H1 H2. apply grow_walk in H1, H2; [|done..].
    destruct H1 as [H1|[-> ->]], H2 as [H2|[-> E2]]; subst; try done.
    + by apply (tree_inj _ _ _ Ht q q' h).
    + destruct (gr_fresh _ _ _ _ _ _ Hg). by apply (tree_owned _ _ _ Ht q).
    + destruct (gr_fresh _ _ _ _ _ _ Hg). by apply (tree_owned _ _ _ Ht q').
Qed.

(** A new table changes no last-level entry. *)
Lemma grow_pte v : pte E' root v = pte E root v.
Proof.
  unfold pte. destruct (walk E' root (dir v)) as [h|] eqn:E1.
  - apply grow_walk in E1 as [E1|[E1 ->]]; [| |apply dir_path].
    + rewrite E1. apply (gr_rest _ _ _ _ _ _ Hg);
        [by apply (tree_owned _ _ _ Ht (dir v)); auto with kernel|auto with kernel|].
      intros [= -> _]. destruct Hp as [Hl _].
      assert (H : dir v = p) by (apply (tree_inj _ _ _ Ht _ _ f); auto with kernel; by apply path_2_3).
      rewrite <- H in Hl. simpl in Hl. lia.
    + rewrite (gr_empty _ _ _ _ _ _ Hg) by auto with kernel.
      by rewrite E1, walk_snoc, Hw; simpl; rewrite Hc.
  - destruct (walk E root (dir v)) as [h|] eqn:E2; [|done].
    assert (H : walk E' root (dir v) = Some h) by (apply grow_walk; [apply dir_path|by left]). congruence.
Qed.

End grow.

(** A new entry [w] at index [i] of the last-level table [f]. *)
Section leaf.
Context (owned : Z -> Prop) (E E' : tables) (root f w v : Z).
Context (Ht : tree owned E root) (Hw : walk E root (dir v) = Some f).
Context (Hset : E' f (pml1_index v) = w).
Context (Hrest : forall h j, owned h -> index j -> (h, j) <> (f, pml1_index v) -> E' h j = E h j).

Lemma leaf_walk q : path 3 q -> walk E' root q = walk E root q.
Proof.
  intros Hq. eapply walk_ext; [done|]. intros p h j [Hp Hj]%path_snoc Hh.
  assert (Hp3 : path 3 p) by (by apply path_2_3).
  apply Hrest; [by apply (tree_owned _ _ _ Ht p)|done|]. intros [= -> _].
  assert (H : dir v = p) by (apply (tree_inj _ _ _ Ht _ _ f); auto with kernel).
  destruct Hp as [Hl _]. rewrite <- H in Hl. simpl in Hl. lia.
Qed.

Lemma leaf_tree : tree owned E' root.
Proof.
  split.
  - intros q h Hq. rewrite leaf_walk by done. by apply (tree_owned _ _ _ Ht).
  - intros q q' h Hq Hq'. rewrite !leaf_walk by done. by apply (tree_inj _ _ _ Ht).
Qed.

Lemma leaf_pte v' : pte E' root v' = if decide (page v' = page v) then w else pte E root v'.
Proof.
  unfold pte. rewrite leaf_walk by auto with kernel. case_decide as Hpg.
  - apply same_page in Hpg as [-> ->]. by rewrite Hw.
  - destruct (walk E root (dir v')) as [h|] eqn:Eh; [|done].
    apply Hrest; [by apply (tree_owned _ _ _ Ht (dir v')); auto with kernel|auto with kernel|].
    intros [= -> Hi]. apply Hpg, same_page. split; [|done].
    apply (tree_inj _ _ _ Ht _ _ f); auto with kernel.
Qed.

End leaf.

(** * The cost of new tables *)

Lemma elem_of_missing E root qs q :
  q ∈ missing E root qs <-> walk E root q = None /\ q ∈ qs.
Proof. unfold missing. by rewrite elem_of_filter, elem_of_list_to_set. Qed.

Lemma missing_mono E root qs qs' :
  (forall q, q ∈ qs -> q ∈ qs') -> (size (missing E root qs) <= size (missing E root qs'))%nat.
Proof.
  intros H. apply subseteq_size. intros q. rewrite !elem_of_missing. intros [? ?]. by auto.
Qed.

(** Adding the table at [q0] pays for its path once and for all. *)
Lemma missing_add E E' root q0 qs :
  walk E root q0 = None ->
  (forall q h, q ∈ q0 :: qs -> walk E root q = Some h -> walk E' root q = Some h) ->
  is_Some (walk E' root q0) ->
  (S (size (missing E' root qs)) <= size (missing E root (q0 :: qs)))%nat.
Proof.
  intros H0 Hm [g Hg].
  assert (Hs : {[q0]} ∪ missing E' root qs ⊆ missing E root (q0 :: qs)).
  { intros q. rewrite elem_of_union, elem_of_singleton, !elem_of_missing, elem_of_cons.
    intros [->|[Hq Hin]]; [by auto|]. split; [|by right].
    destruct (walk E root q) as [h|] eqn:Eq; [|done]. rewrite (Hm q h) in Hq; [done|apply elem_of_cons; by right|done]. }
  apply subseteq_size in Hs. rewrite size_union, size_singleton in Hs; [lia|].
  intros q Hq%elem_of_singleton Hq'%elem_of_missing. subst. destruct Hq'. congruence.
Qed.

(** The processor reads the last-level entry. *)
Lemma translate_pte E root v :
  translate E root v =
    if Z.land (pte E root v) 1 =? 0 then None
    else Some (0x1000 * (Z.land (pte E root v) PTE_ADDR_MASK / 0x1000) + v mod 0x1000).
Proof.
  unfold translate, pte. rewrite walk_snoc. destruct (walk E root (dir v)) as [f|]; [|done].
  simpl. unfold child. by destruct (Z.land (E f (pml1_index v)) 1 =? 0).
Qed.

End walks.
