(* ===== verification/Vmm.v ===== *)
(** The page tables of [memory/vmm.c], over the frame allocator interface.

    The operations run in the kernel monad on tables that live in memory, in
    frames of the direct map.  [entries] reads these frames as a [tables]
    function; [evolves] is what every operation guarantees about the tree of a
    pagemap and about the frames that are no tables of it. *)
From S2P Require Import Prelude Machine Lock Str Interfaces PageTable.
Import Lock.Seq.

(** * The operations *)

Section vmm.
Context (HHDM_OFFSET : Z) `{FA : !FrameAllocator HHDM_OFFSET}.

Definition get_next_level (current_level index : Z) : K Z :=
  e ← ld 8 (current_level + 8 * index);
  if negb (Z.land e 1 =? 0) then mret (u64 (Z.land e PTE_ADDR_MASK + HHDM_OFFSET))
  else
    next ← frame_calloc 1;
    kassert (negb (next =? NULL)) ;;
    st 8 (current_level + 8 * index) (Z.lor (Z.lor (Z.lor next PTE_PRESENT) PTE_WRITABLE) PTE_USER) ;;
    mret (u64 (next + HHDM_OFFSET)).

(** The lines that [vmm_map_page], [vmm_unmap_page] and [virt_to_pte] share: the
    last-level table of a virtual address, made if it is not there.  A
    [pagemap_t] is one word, its [top]. *)
Definition get_pml1 (pagemap virtual_address : Z) : K Z :=
  top ← ld 8 pagemap;
  pml3 ← get_next_level top (pml4_index virtual_address);
  kassert (negb (pml3 =? NULL)) ;;
  pml2 ← get_next_level pml3 (pml3_index virtual_address);
  kassert (negb (pml2 =? NULL)) ;;
  pml1 ← get_next_level pml2 (pml2_index virtual_address);
  kassert (negb (pml1 =? NULL)) ;;
  mret pml1.

Definition vmm_unmap_page (pagemap virtual_address : Z) : K unit :=
  spinlock_acquire (LG g_vmm_lock) ;;
  pml1 ← get_pml1 pagemap virtual_address;
  st 8 (pml1 + 8 * pml1_index virtual_address) 0 ;;
  asm "invlpg" virtual_address ;;
  spinlock_release (LG g_vmm_lock).

Definition vmm_map_page (pagemap physical_address virtual_address flags : Z) : K unit :=
  spinlock_acquire (LG g_vmm_lock) ;;
  pml1 ← get_pml1 pagemap virtual_address;
  st 8 (pml1 + 8 * pml1_index virtual_address) (Z.lor physical_address flags) ;;
  spinlock_release (LG g_vmm_lock).

Definition vmm_map_pages (pagemap physical_address virtual_address flags pages : Z) : K unit :=
  kfor 0 pages (fun i =>
    vmm_map_page pagemap (u64 (physical_address + i * 0x1000)) (u64 (virtual_address + i * 0x1000)) flags).

Definition vmm_switch_pagemap (pagemap : Z) : K unit :=
  top ← ld 8 pagemap;
  gput g_cr3 (u64 (top - HHDM_OFFSET)).

Definition vmm_new_pagemap : K Z :=
  p ← frame_alloc 8;
  let pagemap := u64 (p + HHDM_OFFSET) in
  kassert (negb (pagemap =? NULL)) ;;
  top0 ← frame_calloc 1;
  st 8 pagemap top0 ;;
  top1 ← ld 8 pagemap;
  kassert (negb (top1 =? NULL)) ;;
  st 8 pagemap (u64 (top1 + HHDM_OFFSET)) ;;
  kfor 256 512 (fun i =>
    kernel_pagemap ← gget g_kernel_pagemap;
    ktop ← ld 8 kernel_pagemap;
    e ← ld 8 (ktop + 8 * i);
    top ← ld 8 pagemap;
    st 8 (top + 8 * i) e) ;;
  mret pagemap.

Definition virt_to_pte (pagemap virtual_address : Z) : K Z :=
  pml1 ← get_pml1 pagemap virtual_address;
  mret (pml1 + 8 * pml1_index virtual_address).

Definition virt_to_phys (pagemap virtual_address : Z) : K Z :=
  p ← virt_to_pte pagemap virtual_address;
  e ← ld 8 p;
  mret (Z.land e PTE_ADDR_MASK).

(** The bootloader's answer and the linker symbol that [vmm_init] reads. *)
Variables (physical_base virtual_base kernel_end_addr : Z).

(** [for (i = 0; i < length; i += FRAME_SIZE)]; the loop does not end when [i]
    can step over [length] and wrap around. *)
Definition vmm_init_kernel (kernel_pagemap : Z) : K unit :=
  let length := u64 (ALIGN_UP kernel_end_addr 0x1000 - virtual_base) in
  if 2 ^ 64 - 0x1000 <? length then nofuel
  else kfor 0 ((length + 0xfff) / 0x1000) (fun k =>
    vmm_map_page kernel_pagemap (u64 (physical_base + k * 0x1000)) (u64 (virtual_base + k * 0x1000))
      (Z.lor PTE_PRESENT PTE_WRITABLE)).

(** The identity map and the direct map of the first 4 GiB. *)
Definition vmm_init_direct (kernel_pagemap : Z) : K unit :=
  kfor 1 0x100000 (fun k =>
    vmm_map_page kernel_pagemap (k * 0x1000) (k * 0x1000) (Z.lor PTE_PRESENT PTE_WRITABLE) ;;
    vmm_map_page kernel_pagemap (k * 0x1000) (u64 (k * 0x1000 + HHDM_OFFSET)) (Z.lor PTE_PRESENT PTE_WRITABLE)).

Definition vmm_init : K unit :=
  printf "Our kernel's physical base: %x\n" [physical_base] ;;
  printf "Our kernel's virtual base: %x\n" [virtual_base] ;;
  printf "Our HHDM offset is %x\n" [HHDM_OFFSET] ;;
  p ← frame_alloc 8;
  gput g_kernel_pagemap (u64 (p + HHDM_OFFSET)) ;;
  kernel_pagemap ← gget g_kernel_pagemap;
  top0 ← frame_calloc 1;
  st 8 kernel_pagemap top0 ;;
  top1 ← ld 8 kernel_pagemap;
  kassert (negb (top1 =? NULL)) ;;
  st 8 kernel_pagemap (u64 (top1 + HHDM_OFFSET)) ;;
  vmm_init_kernel kernel_pagemap ;;
  vmm_init_direct kernel_pagemap ;;
  vmm_switch_pagemap kernel_pagemap ;;
  printf "VMM intilasized.\n" [].

(** * The tables in memory *)

Local Abbreviation va := (frame_va HHDM_OFFSET).

Definition entries (s : kstate) : tables := fun f i => default 0 (rd 8 (mem s) (va f + 8 * i)).

(** Frame [h] belongs to somebody, but is no table of the pagemap at [root]. *)
Definition outside (s : kstate) (root h : Z) : Prop :=
  fa_owned s h /\ forall q, path 3 q -> walk (entries s) root q <> Some h.

(** The pagemap structure at [pm] holds the root table [root]. *)
Definition pagemap_ok (s : kstate) (pm root : Z) : Prop :=
  rd 8 (mem s) pm = Some (va root) /\
  exists h, outside s root h /\ va h <= pm /\ pm + 8 <= va (h + 1).

Definition vm_ok (s : kstate) (root : Z) : Prop :=
  fa_inv s /\ tree (fa_owned s) (entries s) root.

(** What every operation on the tree at [root] guarantees. *)
Record evolves (s s' : kstate) (root : Z) : Prop := {
  ev_ok : vm_ok s' root;
  ev_outside : forall h, outside s root h -> outside s' root h /\
    forall x, va h <= x < va (h + 1) -> mem s' !! x = mem s !! x;
  ev_walk : forall q h, path 3 q -> walk (entries s) root q = Some h -> walk (entries s') root q = Some h;
  ev_globals : same_globals s s';
  ev_static : static_kept s s';
  ev_room : room_kept s s'
}.

Definition pte_of (s : kstate) (root v : Z) : Z := pte (entries s) root v.
Definition translate_of (s : kstate) (root v : Z) : option Z := translate (entries s) root v.
Definition cost (s : kstate) (root : Z) (qs : list (list Z)) : nat := size (missing (entries s) root qs).

End vmm.

(** * Tables and memory *)

Section proofs.
Context (HHDM_OFFSET : Z) `{FA : !FrameAllocator HHDM_OFFSET}.
Implicit Types (s : kstate) (f g h i j root v pm : Z) (q : list Z) (qs : list (list Z)).
Local Abbreviation va := (frame_va HHDM_OFFSET).
Local Abbreviation entries := (entries HHDM_OFFSET).
Local Abbreviation outside := (outside HHDM_OFFSET).
Local Abbreviation vm_ok := (vm_ok HHDM_OFFSET).
Local Abbreviation evolves := (evolves HHDM_OFFSET).
Local Abbreviation pagemap_ok := (pagemap_ok HHDM_OFFSET).
Local Abbreviation cost := (cost HHDM_OFFSET).
Local Abbreviation pte_of := (pte_of HHDM_OFFSET).

Lemma entries_ext s s' h j :
  index j -> (forall x, va h <= x < va (h + 1) -> mem s' !! x = mem s !! x) ->
  entries s' h j = entries s h j.
Proof.
  intros Hj H. unfold Vmm.entries. rewrite (rd_ext 8 (mem s)); [done|].
  intros x Hx. apply H. unfold index, frame_va in *. lia.
Qed.

Lemma entries_wr s f i w h j :
  index i -> index j ->
  entries (with_mem s (wr 8 (mem s) (va f + 8 * i) w)) h j =
    if decide ((h, j) = (f, i)) then u64 w else entries s h j.
Proof.
  intros Hi Hj. unfold Vmm.entries. simpl. case_decide as E.
  - injection E as -> ->. by rewrite rd_wr_same.
  - assert (h <> f \/ j <> i) by (destruct (decide (h = f)), (decide (j = i)); subst; tauto).
    by rewrite rd_wr_ne by (unfold frame_va, index in *; lia).
Qed.

Lemma owned_word s f i :
  fa_inv s -> fa_owned s f -> index i -> rd 8 (mem s) (va f + 8 * i) = Some (entries s f i).
Proof.
  intros Hi Hf Hx. destruct (rd_Some 8 (mem s) (va f + 8 * i)) as [w Hw].
  { eapply mapped_sub; [by eapply fa_owned_mapped|..]; unfold index in Hx; lia. }
  unfold Vmm.entries. by rewrite Hw.
Qed.

Lemma same_outside_word s f i w :
  fa_inv s -> fa_owned s f -> index i ->
  same_outside (va f) 0x1000 (mem s) (wr 8 (mem s) (va f + 8 * i) w).
Proof.
  intros Hi Hf Hx. unfold index in Hx. eapply same_outside_weaken; [apply same_outside_wr|lia|lia].
  eapply mapped_sub; [by eapply fa_owned_mapped|lia|lia].
Qed.

(** Writing a word of a table is a legal use of the frame. *)
Lemma write_entry s f i w :
  fa_inv s -> fa_owned s f -> index i ->
  let s' := with_mem s (wr 8 (mem s) (va f + 8 * i) w) in
  fa_inv s' /\ fa_free s' = fa_free s /\ (forall h, fa_owned s' h <-> fa_owned s h) /\
  st 8 (va f + 8 * i) w s = Ok tt s'.
Proof.
  intros Hi Hf Hx s'. destruct (fa_write s f (mem s') Hi Hf) as (H1 & H2 & H3);
    [by apply same_outside_word|].
  repeat (split; [done|]). unfold st. by rewrite owned_word.
Qed.

Lemma frame_disjoint h f x : va h <= x < va (h + 1) -> va f <= x < va (f + 1) -> h = f.
Proof. unfold frame_va. lia. Qed.

(** The entry of a new table: its address and flags. *)
Lemma table_entry g :
  0 <= g < 2 ^ 40 ->
  let e := Z.lor (Z.lor (Z.lor (0x1000 * g) PTE_PRESENT) PTE_WRITABLE) PTE_USER in
  e = 0x1000 * g + 7 /\ Z.land e 1 = 1 /\ Z.land e PTE_ADDR_MASK = 0x1000 * g.
Proof.
  intros Hg e.
  assert (E : e = 0x1000 * g + 7).
  { unfold e. rewrite <- !Z.lor_assoc. apply (lor_add_disjoint g 7 12); lia. }
  split; [done|]. rewrite E. split.
  - change 1 with (Z.ones 1) at 1. rewrite Z.land_ones by lia. zlia.
  - apply (addr_mask g 7); lia.
Qed.

(** * Evolution of a tree *)

Lemma evolves_refl s root : vm_ok s root -> evolves s s root.
Proof. intros H. split; try done. by apply room_refl. Qed.

Lemma evolves_trans s1 s2 s3 root : evolves s1 s2 root -> evolves s2 s3 root -> evolves s1 s3 root.
Proof.
  intros [H1 H2 H3 H4 H5 H6] [H1' H2' H3' H4' H5' H6'].
  split; [done| |by auto|by etrans|by eapply static_trans|by eapply room_trans].
  intros h Hh. destruct (H2 h Hh) as [Ho E]. destruct (H2' h Ho) as [Ho' E'].
  split; [done|]. intros x Hx. by rewrite E', E.
Qed.

(** A pagemap structure outside its own tables stays what it is. *)
Lemma evolves_pagemap s s' root pm : evolves s s' root -> pagemap_ok s pm root -> pagemap_ok s' pm root.
Proof.
  intros Hev [Hpm (h & Ho & H1 & H2)]. destruct (ev_outside _ _ _ _ Hev h Ho) as [Ho' E].
  split; [|by exists h]. rewrite (rd_ext 8 (mem s)); [done|]. intros x Hx. apply E. lia.
Qed.

(** Changing only tables of the tree, and nothing the rest of the kernel owns. *)
Lemma evolves_intro s s' root :
  vm_ok s root -> vm_ok s' root ->
  (forall h, fa_owned s h -> fa_owned s' h) ->
  (forall h x, outside s root h -> va h <= x < va (h + 1) -> mem s' !! x = mem s !! x) ->
  (forall q h, path 3 q -> walk (entries s') root q = Some h -> fa_owned s h -> walk (entries s) root q = Some h) ->
  (forall q h, path 3 q -> walk (entries s) root q = Some h -> walk (entries s') root q = Some h) ->
  same_globals s s' -> static_kept s s' -> room_kept s s' -> evolves s s' root.
Proof.
  intros Hok Hok' Ho Hm Hw Hw' Hg Hst Hrm. split; [done| |done|done|done|done].
  intros h [Hh Hn]. split; [|by intros x; apply Hm]. split; [by apply Ho|].
  intros q Hq E. by apply (Hn q), Hw.
Qed.

(** * One level *)

Lemma child_present s f i g :
  fa_inv s -> fa_owned s f -> index i -> fa_owned s g -> child (entries s) f i = Some g ->
  get_next_level HHDM_OFFSET (va f) i s = Ok (va g) s.
Proof.
  intros Hi Hf Hx Hg Hc. unfold get_next_level.
  rewrite (bind_Ok _ _ s (entries s f i) s) by (unfold ld; by rewrite owned_word).
  unfold child in Hc. destruct (Z.land (entries s f i) 1 =? 0); [done|]. simpl. unfold mret, K_ret.
  destruct (fa_owned_range s g Hi Hg) as [Hr1 Hr2]. pose proof (fa_hhdm s Hi).
  injection Hc as Hc. f_equal. unfold frame_va in *.
  assert (Hm : Z.land (entries s f i) PTE_ADDR_MASK mod 0x1000 = 0).
  { change 0x1000 with (2 ^ 12) at 1. rewrite <- Z.land_ones, <- Z.land_assoc by lia. 
    change (Z.land PTE_ADDR_MASK (Z.ones 12)) with 0. apply Z.land_0_r. }
  rewrite u64_small by zlia. zlia.
Qed.

(** The level is there: nothing happens. *)
Lemma next_level_present s root p f i g qs :
  vm_ok s root -> path 2 p -> index i -> walk (entries s) root p = Some f -> child (entries s) f i = Some g ->
  get_next_level HHDM_OFFSET (va f) i s = Ok (va g) s /\ walk (entries s) root (p ++ [i]) = Some g /\
  (cost s root qs <= cost s root ((p ++ [i]) :: qs))%nat.
Proof.
  intros [Hi Ht] Hp Hx Hw Hc.
  assert (Hw' : walk (entries s) root (p ++ [i]) = Some g) by (apply walk_snoc_Some; by exists f).
  split; [|split; [done|apply missing_mono; intros q Hq; apply elem_of_cons; by right]].
  apply child_present; [done| |done| |done].
  - eapply (tree_owned _ _ _ Ht p); [by apply path_2_3|done].
  - by eapply (tree_owned _ _ _ Ht (p ++ [i])); [apply path_snoc|].
Qed.

(** A level that is missing: a zeroed frame becomes its table. *)
Record table_added s s' f i g : Prop := {
  ta_inv : fa_inv s';
  ta_owned : forall h, fa_owned s' h <-> fa_owned s h \/ h = g;
  ta_free : fa_free s = S (fa_free s');
  ta_grown : grown (fa_owned s) (entries s) (entries s') f i g;
  ta_mem : forall h x, fa_owned s h -> h <> f -> va h <= x < va (h + 1) -> mem s' !! x = mem s !! x;
  ta_globals : same_globals s s';
  ta_trace : trace s' = trace s;
  ta_static : static_kept s s';
  ta_room : room_kept s s'
}.

Lemma add_table s f i :
  fa_inv s -> fa_owned s f -> index i -> child (entries s) f i = None -> (0 < fa_free s)%nat ->
  exists g s', get_next_level HHDM_OFFSET (va f) i s = Ok (va g) s' /\ table_added s s' f i g.
Proof.
  intros Hi Hf Hx Hc Hfree.
  destruct (fa_calloc s Hi Hfree) as (g & s1 & E1 & Hi1 & Hng & Ho1 & Hfr & Hg1 & Ht1 & Hz & Hk & Hst & Hrm).
  assert (Hf1 : fa_owned s1 f) by (apply Ho1; by left).
  assert (Hgo : fa_owned s1 g) by (apply Ho1; by right).
  destruct (fa_owned_range s1 g Hi1 Hgo) as [Hgr Hgr']. pose proof (fa_hhdm s1 Hi1).
  destruct (table_entry g ltac:(lia)) as (Ee & Ep & Ea).
  set (e := Z.lor (Z.lor (Z.lor (0x1000 * g) PTE_PRESENT) PTE_WRITABLE) PTE_USER) in *.
  destruct (write_entry s1 f i e Hi1 Hf1 Hx) as (Hi2 & Hfr2 & Ho2 & E2).
  set (s2 := with_mem s1 (wr 8 (mem s1) (va f + 8 * i) e)) in *.
  exists g, s2. split.
  - unfold get_next_level. rewrite (bind_Ok _ _ s (entries s f i) s) by (unfold ld; by rewrite owned_word).
    unfold child in Hc. destruct (Z.land (entries s f i) 1 =? 0); [|done]. simpl.
    rewrite (bind_Ok _ _ _ _ _ E1). destruct (Z.eqb_spec (0x1000 * g) NULL) as [E|_]; [unfold NULL in E; lia|].
    simpl. rewrite (bind_Ok _ _ s1 tt s1) by done. rewrite (bind_Ok _ _ _ _ _ E2). unfold mret, K_ret, frame_va in *.
    f_equal. rewrite u64_small by lia. lia.
  - split; [done|by intros h; rewrite Ho2, Ho1|by rewrite Hfr2| | |done|done| |].
    4: { apply (room_trans s s1 s2).
         - split; [lia|]. intros k Hk'. apply Hrm. by replace (S k) with (fa_free s - fa_free s1 + k)%nat by lia.
         - apply room_refl; [done|]. intros k. apply (fa_write_room s1 f); [done|done|by apply same_outside_word]. }
    3: { eapply static_trans; [exact Hg1|exact Hst|]. eapply static_wr; [exact Hf1|..]; unfold index, frame_va in *; lia. }
    + split; [done| | |].
      * intros j Hj. unfold s2. rewrite entries_wr by done. rewrite decide_False by congruence.
        unfold Vmm.entries. by rewrite (rd_zero 8) by (intros x Hxx; apply Hz; unfold index, frame_va in *; lia).
      * unfold child, s2. rewrite entries_wr, decide_True by done. rewrite u64_small by (rewrite Ee; lia).
        rewrite Ep, Ea. change (1 =? 0) with false. cbv iota. f_equal. zlia.
      * intros h j Hh Hj Hne. unfold s2. rewrite entries_wr, decide_False by done.
        apply entries_ext; [done|]. intros x Hxx. by apply (Hk h).
    + intros h x Hh Hne Hxx. simpl. rewrite lookup_wr_out; [by apply (Hk h)|].
      intros Hin. apply Hne. apply (frame_disjoint h f x); [done|]. unfold index, frame_va in *. lia.
Qed.

Lemma cost_absent s root q qs :
  walk (entries s) root q = None -> (0 < cost s root (q :: qs))%nat.
Proof.
  intros H. apply Nat.neq_0_lt_0. intros H0. apply size_empty_inv in H0.
  apply (not_elem_of_empty (C := gset (list Z)) q), H0, elem_of_missing.
  split; [done|apply elem_of_cons; by left].
Qed.

Lemma next_level_absent s root p f i qs (reserve : nat) :
  vm_ok s root -> path 2 p -> index i -> Forall (path 3) qs ->
  walk (entries s) root p = Some f -> child (entries s) f i = None ->
  (reserve + cost s root ((p ++ [i]) :: qs) <= fa_free s)%nat ->
  exists g s', get_next_level HHDM_OFFSET (va f) i s = Ok (va g) s' /\
    walk (entries s') root (p ++ [i]) = Some g /\ evolves s s' root /\
    (forall v, pte_of s' root v = pte_of s root v) /\ (reserve + cost s' root qs <= fa_free s')%nat /\ trace s' = trace s.
Proof.
  intros [Hi Ht] Hp Hx Hqs Hw Hc Hcost.
  assert (Hf : fa_owned s f) by (eapply (tree_owned _ _ _ Ht p); [by apply path_2_3|done]).
  assert (Hw0 : walk (entries s) root (p ++ [i]) = None) by (rewrite walk_snoc, Hw; done).
  pose proof (cost_absent s root (p ++ [i]) qs Hw0).
  destruct (add_table s f i Hi Hf Hx Hc ltac:(lia)) as (g & s2 & E & [Hi2 Ho2 Hfr Hgr Hm Hg Htr Hst Hrm]).
  assert (Hwalk : forall q h, path 3 q -> walk (entries s2) root q = Some h <->
                    walk (entries s) root q = Some h \/ (q = p ++ [i] /\ h = g))
    by (intros q h Hq; by eapply grow_walk).
  assert (Hq0 : path 3 (p ++ [i])) by (by apply path_snoc).
  exists g, s2. split; [done|]. split; [by apply Hwalk; [|right]|]. split; [|split; [|split]].
  - apply evolves_intro; [done|split; [done|by eapply grow_tree]|by intros h Hh; apply Ho2; left| | | |done|done|done].
    + intros h x [Hh Hn] Hxx. apply (Hm h); [done| |done]. intros ->. by apply (Hn p); [apply path_2_3|].
    + intros q h Hq [?|[_ ->]]%Hwalk Hh; [done| |done]. by destruct (gr_fresh _ _ _ _ _ _ Hgr).
    + intros q h Hq Hh. apply Hwalk; [done|by left].
  - intros v. by eapply grow_pte.
  - enough (S (cost s2 root qs) <= cost s root ((p ++ [i]) :: qs))%nat by lia.
    apply missing_add; [done| |exists g; by apply Hwalk; [|right]].
    intros q h Hq Hh. apply Hwalk; [|by left]. apply elem_of_cons in Hq as [->|Hq]; [done|].
    by apply (proj1 (list.Forall_forall _ _) Hqs).
  - done.
Qed.

Lemma next_level s root p f i qs (reserve : nat) :
  vm_ok s root -> path 2 p -> index i -> Forall (path 3) qs -> walk (entries s) root p = Some f ->
  (reserve + cost s root ((p ++ [i]) :: qs) <= fa_free s)%nat ->
  exists g s', get_next_level HHDM_OFFSET (va f) i s = Ok (va g) s' /\
    walk (entries s') root (p ++ [i]) = Some g /\ evolves s s' root /\
    (forall v, pte_of s' root v = pte_of s root v) /\ (reserve + cost s' root qs <= fa_free s')%nat /\ trace s' = trace s.
Proof.
  intros Hok Hp Hx Hqs Hw Hcost. destruct (child (entries s) f i) as [g|] eqn:Hc.
  - destruct (next_level_present s root p f i g qs Hok Hp Hx Hw Hc) as (E & Hw' & Hle).
    exists g, s. split; [done|]. split; [done|]. split; [by apply evolves_refl|].
    split; [done|]. split; [lia|done].
  - by apply next_level_absent.
Qed.

Lemma va_not_null s f : fa_inv s -> fa_owned s f -> negb (va f =? NULL) = true.
Proof.
  intros Hi Hf. pose proof (fa_hhdm s Hi). pose proof (fa_owned_range s f Hi Hf).
  unfold frame_va, NULL. destruct (Z.eqb_spec (HHDM_OFFSET + 0x1000 * f) 0); [lia|done].
Qed.

(** A level and the assertion on its result. *)
Lemma next_level_assert s root p f i qs (reserve : nat) :
  vm_ok s root -> path 2 p -> index i -> Forall (path 3) qs -> walk (entries s) root p = Some f ->
  (reserve + cost s root ((p ++ [i]) :: qs) <= fa_free s)%nat ->
  exists g s',
    (forall A (k : Z -> K A),
       (pml ← get_next_level HHDM_OFFSET (va f) i; kassert (negb (pml =? NULL)) ;; k pml) s = k (va g) s') /\
    walk (entries s') root (p ++ [i]) = Some g /\ evolves s s' root /\
    (forall v, pte_of s' root v = pte_of s root v) /\ (reserve + cost s' root qs <= fa_free s')%nat /\ trace s' = trace s.
Proof.
  intros Hok Hp Hx Hqs Hw Hcost.
  destruct (next_level s root p f i qs reserve Hok Hp Hx Hqs Hw Hcost) as (g & s' & E & Hw' & Hev & Hrest).
  exists g, s'. split; [|done]. intros A k. rewrite (bind_Ok _ _ _ _ _ E).
  destruct (ev_ok _ _ _ _ Hev) as [Hi' Ht'].
  rewrite (va_not_null s' g) by (done || by apply (tree_owned _ _ _ Ht' (p ++ [i])); [apply path_snoc|]).
  done.
Qed.

Lemma get_pml1_eq s pm root v qs (reserve : nat) :
  vm_ok s root -> pagemap_ok s pm root -> Forall (path 3) qs ->
  (reserve + cost s root (dirs v ++ qs) <= fa_free s)%nat ->
  exists f s', get_pml1 HHDM_OFFSET pm v s = Ok (va f) s' /\
    walk (entries s') root (dir v) = Some f /\ evolves s s' root /\
    (forall v', pte_of s' root v' = pte_of s root v') /\ (reserve + cost s' root qs <= fa_free s')%nat /\ trace s' = trace s.
Proof.
  intros Hok [Hpm _] Hqs Hcost. unfold get_pml1.
  rewrite (bind_Ok _ _ s (va root) s) by (unfold ld; by rewrite Hpm).
  pose proof (dirs_paths v) as Hd. unfold dirs in Hd. rewrite !list.Forall_cons in Hd.
  destruct Hd as (Hd1 & Hd2 & Hd3 & _).
  edestruct (next_level_assert s root [] root (pml4_index v)) as (f3 & s3 & E3 & W3 & V3 & P3 & C3 & T3);
    [done|apply path_nil|auto with kernel| |done|exact Hcost|].
  { change (Forall (path 3) ([[pml4_index v; pml3_index v]; dir v] ++ qs)). rewrite Forall_app.
    split; [by rewrite !list.Forall_cons|done]. }
  rewrite E3. clear E3.
  edestruct (next_level_assert s3 root [pml4_index v] f3 (pml3_index v)) as (f2 & s2 & E2 & W2 & V2 & P2 & C2 & T2);
    [apply V3|split; [simpl; lia|apply Hd1]|auto with kernel| |exact W3|exact C3|].
  { change (Forall (path 3) (dir v :: qs)). by constructor. }
  rewrite E2. clear E2.
  edestruct (next_level_assert s2 root [pml4_index v; pml3_index v] f2 (pml2_index v)) as (f1 & s1 & E1 & W1 & V1 & P1 & C1 & T1);
    [apply V2|split; [simpl; lia|apply Hd2]|auto with kernel|exact Hqs|exact W2|exact C2|].
  rewrite E1. exists f1, s1. split; [done|]. split; [done|].
  split; [by eapply evolves_trans, evolves_trans|]. split; [by intros v'; rewrite P1, P2, P3|].
  split; [done|]. by rewrite T1, T2, T3.
Qed.

(** * The last level *)

Lemma leaf_write s root v f w :
  vm_ok s root -> walk (entries s) root (dir v) = Some f ->
  exists s', st 8 (va f + 8 * pml1_index v) w s = Ok tt s' /\ evolves s s' root /\
    (forall v', pte_of s' root v' = if decide (page v' = page v) then u64 w else pte_of s root v') /\
    (forall qs, Forall (path 3) qs -> cost s' root qs = cost s root qs) /\
    fa_free s' = fa_free s /\ trace s' = trace s.
Proof.
  intros [Hi Ht] Hw. assert (Hf : fa_owned s f) by (by apply (tree_owned _ _ _ Ht (dir v)); auto with kernel).
  pose proof (pml1_index_ok v) as Hx.
  destruct (write_entry s f (pml1_index v) w Hi Hf Hx) as (Hi' & Hfr & Ho & E).
  set (s' := with_mem s (wr 8 (mem s) (va f + 8 * pml1_index v) w)) in *.
  assert (Hset : entries s' f (pml1_index v) = u64 w).
  { unfold s'. rewrite entries_wr by done. by rewrite decide_True. }
  assert (Hrest : forall h j, fa_owned s h -> index j -> (h, j) <> (f, pml1_index v) -> entries s' h j = entries s h j).
  { intros h j _ Hj Hne. unfold s'. rewrite entries_wr by done. by rewrite decide_False. }
  assert (Hwk : forall q, path 3 q -> walk (entries s') root q = walk (entries s) root q)
    by (intros q Hq; by eapply leaf_walk).
  exists s'. split; [done|]. split; [|split; [|split; [|done]]].
  - apply evolves_intro; [done| |by intros h; rewrite Ho| | | |done| |].
    6: { apply room_refl; [done|]. intros k. apply (fa_write_room s f); [done|done|by apply same_outside_word]. }
    5: { eapply static_wr; [exact Hf|..]; unfold index, frame_va in *; lia. }
    + split; [done|]. destruct (leaf_tree _ _ _ _ _ _ Ht Hw Hrest) as [H1 H2].
      split; [intros q h Hq Hh; apply Ho; by eapply H1|done].
    + intros h x [Hh Hn] Hxx. simpl. apply lookup_wr_out. intros Hin.
      apply (Hn (dir v)); [auto with kernel|]. rewrite Hw. f_equal. symmetry.
      apply (frame_disjoint h f x); [done|]. unfold index, frame_va in *. lia.
    + intros q h Hq. by rewrite Hwk.
    + intros q h Hq. by rewrite Hwk.
  - intros v'. by eapply leaf_pte.
  - intros qs Hqs. unfold Vmm.cost. f_equal. apply set_eq. intros q. rewrite !elem_of_missing.
    split; intros [Hn Hin]; (split; [|done]); rewrite Hwk in * || rewrite <- Hwk; try done;
      by apply (proj1 (list.Forall_forall _ _) Hqs).
Qed.

(** * The operations *)

Lemma vmm_foreign : ~ fa_global g_vmm_lock.
Proof. apply fa_foreign. apply elem_of_cons. by left. Qed.

Lemma vm_ok_glob s root (y : gvar) x : ~ fa_global y -> vm_ok s root -> vm_ok (with_glob s y x) root.
Proof.
  intros Hv [Hi Ht]. destruct (fa_glob s y x Hi Hv) as (Hi' & _ & Ho). split; [done|].
  destruct Ht as [H1 H2]. split; [intros q f Hq Hf; apply Ho; by eapply H1|done].
Qed.

Lemma outside_glob s root (y : gvar) x h : fa_inv s -> ~ fa_global y -> outside (with_glob s y x) root h <-> outside s root h.
Proof.
  intros Hi Hv. destruct (fa_glob s y x Hi Hv) as (_ & _ & Ho). unfold Vmm.outside. by rewrite Ho.
Qed.

Lemma pagemap_ok_glob s root (y : gvar) x pm :
  fa_inv s -> ~ fa_global y -> pagemap_ok s pm root -> pagemap_ok (with_glob s y x) pm root.
Proof.
  intros Hi Hv [Hpm (h & Ho & Hb)]. split; [done|]. exists h. split; [by apply outside_glob|done].
Qed.

(** What happens between the acquire and the release of [vmm_lock]. *)
Lemma evolves_locked s s2 root :
  vm_ok s root -> gval s g_vmm_lock = 0 -> evolves (with_glob s g_vmm_lock 1) s2 root ->
  spinlock_release (LG g_vmm_lock) s2 = Ok tt (with_glob s2 g_vmm_lock 0) /\
  evolves s (with_glob s2 g_vmm_lock 0) root.
Proof.
  intros Hok Hl [H1 H2 H3 H4 H5 H6]. pose proof vmm_foreign as Hv. split.
  - apply release_held. simpl. by rewrite H4, gval_with_glob_eq.
  - split; [by apply vm_ok_glob| |done| | |].
    4: { apply (room_trans s (with_glob s g_vmm_lock 1)); [|apply (room_trans _ s2); [done|]];
           (apply room_refl; [apply fa_glob; [|done]; by (apply Hok || apply H1)|intros k; by apply fa_glob_room]). }
    3: { intros x Hx. apply H5. eapply fa_static_globals; [|exact Hx]. intros w Hw.
         apply gval_with_glob_ne. intros E. apply Hv. by rewrite <- E || by rewrite E. }
    + intros h Hh. destruct (H2 h) as [Ho E]; [by apply outside_glob; [apply Hok|..]|].
      split; [by apply outside_glob; [apply H1|..]|done].
    + intros w. destruct (decide (w = g_vmm_lock)) as [->|Hne]; [by rewrite gval_with_glob_eq|].
      rewrite gval_with_glob_ne, H4 by done. by rewrite gval_with_glob_ne.
Qed.

Lemma free_glob s (y : gvar) x : fa_inv s -> ~ fa_global y -> fa_free (with_glob s y x) = fa_free s.
Proof. intros Hi Hv. by destruct (fa_glob s y x Hi Hv) as (_ & ? & _). Qed.

(** The critical section of [vmm_map_page] and [vmm_unmap_page] up to the store. *)
Lemma locked_store s pm root v w qs (reserve : nat) :
  vm_ok s root -> pagemap_ok s pm root -> gval s g_vmm_lock = 0 -> Forall (path 3) qs ->
  (reserve + cost s root (dirs v ++ qs) <= fa_free s)%nat ->
  exists f s1 s2, spinlock_acquire (LG g_vmm_lock) s = Ok tt (with_glob s g_vmm_lock 1) /\
    get_pml1 HHDM_OFFSET pm v (with_glob s g_vmm_lock 1) = Ok (va f) s1 /\
    st 8 (va f + 8 * pml1_index v) w s1 = Ok tt s2 /\
    evolves (with_glob s g_vmm_lock 1) s2 root /\
    (forall v', pte_of s2 root v' = if decide (page v' = page v) then u64 w else pte_of s root v') /\
    (reserve + cost s2 root qs <= fa_free s2)%nat /\ trace s2 = trace s.
Proof.
  intros Hok Hpm Hl Hqs Hcost. pose proof vmm_foreign as Hv. set (s0 := with_glob s g_vmm_lock 1).
  assert (Hok0 : vm_ok s0 root) by (by apply vm_ok_glob).
  destruct (get_pml1_eq s0 pm root v qs reserve) as (f & s1 & E1 & W1 & V1 & P1 & C1 & T1);
    [done|by apply pagemap_ok_glob; [apply Hok|..]|done|by unfold s0; rewrite free_glob by (done || apply Hok)|].
  destruct (leaf_write s1 root v f w) as (s2 & E2 & V2 & P2 & C2 & F2 & T2); [apply V1|done|].
  exists f, s1, s2. split; [apply acquire_free; simpl; by rewrite Hl|]. split; [done|]. split; [done|].
  split; [by eapply evolves_trans|]. split; [|split; [by rewrite C2, F2|by rewrite T2]].
  intros v'. rewrite P2, P1. done.
Qed.

Lemma cost_glob s (y : gvar) x root qs : cost (with_glob s y x) root qs = cost s root qs.
Proof. done. Qed.

Lemma map_page_eq s pm root phys v flags qs (reserve : nat) :
  vm_ok s root -> pagemap_ok s pm root -> gval s g_vmm_lock = 0 -> Forall (path 3) qs ->
  (reserve + cost s root (dirs v ++ qs) <= fa_free s)%nat ->
  exists s', vmm_map_page HHDM_OFFSET pm phys v flags s = Ok tt s' /\ evolves s s' root /\
    (forall v', pte_of s' root v' = if decide (page v' = page v) then u64 (Z.lor phys flags) else pte_of s root v') /\
    (reserve + cost s' root qs <= fa_free s')%nat /\ trace s' = trace s.
Proof.
  intros Hok Hpm Hl Hqs Hcost.
  destruct (locked_store s pm root v (Z.lor phys flags) qs reserve Hok Hpm Hl Hqs Hcost)
    as (f & s1 & s2 & E0 & E1 & E2 & V & P & C & T).
  destruct (evolves_locked s s2 root Hok Hl V) as [E3 V3].
  exists (with_glob s2 g_vmm_lock 0). split; [|split; [done|split; [done|split; [|done]]]].
  - unfold vmm_map_page. rewrite (bind_Ok _ _ _ _ _ E0), (bind_Ok _ _ _ _ _ E1), (bind_Ok _ _ _ _ _ E2). done.
  - rewrite cost_glob, free_glob by (apply V || apply vmm_foreign). done.
Qed.

Lemma evolves_trace s s' root e : evolves s s' root -> evolves s (KState (mem s') (glob s') e) root.
Proof.
  intros [[Hi Ht] H2 H3 H4 H5 H6]. destruct (fa_trace s' e Hi) as (Hi' & F & Ho). split; [| |done|done|done|].
  3: { apply (room_trans s s'); [done|]. apply room_refl; [done|]. intros k. apply fa_trace_room. }
  - split; [done|]. destruct Ht as [T1 T2]. split; [intros q f Hq Hf; apply Ho; by eapply T1|done].
  - intros h Hh. destruct (H2 h Hh) as [[Hoh Hn] E]. split; [split; [by apply Ho|done]|done].
Qed.

Lemma unmap_page_eq s pm root v qs (reserve : nat) :
  vm_ok s root -> pagemap_ok s pm root -> gval s g_vmm_lock = 0 -> Forall (path 3) qs ->
  (reserve + cost s root (dirs v ++ qs) <= fa_free s)%nat ->
  exists s', vmm_unmap_page HHDM_OFFSET pm v s = Ok tt s' /\ evolves s s' root /\
    (forall v', pte_of s' root v' = if decide (page v' = page v) then 0 else pte_of s root v') /\
    (reserve + cost s' root qs <= fa_free s')%nat /\ trace s' = trace s ++ [EvAsm "invlpg" v].
Proof.
  intros Hok Hpm Hl Hqs Hcost.
  destruct (locked_store s pm root v 0 qs reserve Hok Hpm Hl Hqs Hcost) as (f & s1 & s2 & E0 & E1 & E2 & V & P & C & T).
  set (s3 := KState (mem s2) (glob s2) (trace s2 ++ [EvAsm "invlpg" v])).
  assert (V3 : evolves (with_glob s g_vmm_lock 1) s3 root) by (by apply evolves_trace).
  destruct (evolves_locked s s3 root Hok Hl V3) as [E3 V4].
  exists (with_glob s3 g_vmm_lock 0). split; [|split; [done|split; [done|split]]].
  - unfold vmm_unmap_page. rewrite (bind_Ok _ _ _ _ _ E0), (bind_Ok _ _ _ _ _ E1), (bind_Ok _ _ _ _ _ E2).
    by rewrite (bind_Ok _ _ s2 tt s3).
  - rewrite cost_glob, free_glob by (apply V3 || apply vmm_foreign).
    destruct (fa_trace s2 (trace s2 ++ [EvAsm "invlpg" v])) as (_ & Hfr & _); [apply V|].
    fold s3 in Hfr. by rewrite Hfr.
  - simpl. by rewrite T.
Qed.

End proofs.
