(* ===== verification/VmmSpec.v ===== *)
(** What [memory/vmm.c] promises, in terms of the processor's translation: each
    operation changes the translation of the pages it names and of no other
    page, and keeps the tables well formed. *)
From S2P Require Import Prelude Machine Lock Str Interfaces Pmm PmmSpec PageTable Vmm.
Import Lock.Seq.

(** Flags of a present last-level entry: no bit of the address field. *)
Definition leaf_flags (flags : Z) : Prop :=
  0 <= flags < 2 ^ 64 /\ Z.land flags PTE_ADDR_MASK = 0 /\ Z.land flags 1 = 1.
Definition page_aligned (phys : Z) : Prop := 0 <= phys < 2 ^ 52 /\ phys mod 0x1000 = 0.

Section translation.
Context (HHDM_OFFSET : Z) `{FA : !FrameAllocator HHDM_OFFSET}.
Implicit Types (s : kstate) (root v pm phys flags : Z).
Local Abbreviation va := (frame_va HHDM_OFFSET).
Local Abbreviation vm_ok := (vm_ok HHDM_OFFSET).
Local Abbreviation evolves := (evolves HHDM_OFFSET).
Local Abbreviation pagemap_ok := (pagemap_ok HHDM_OFFSET).
Local Abbreviation cost := (cost HHDM_OFFSET).
Local Abbreviation pte_of := (pte_of HHDM_OFFSET).
Local Abbreviation translate_of := (translate_of HHDM_OFFSET).

(** How the processor reads an entry. *)
Definition leaf_translation (e v : Z) : option Z :=
  if Z.land e 1 =? 0 then None else Some (0x1000 * (Z.land e PTE_ADDR_MASK / 0x1000) + v mod 0x1000).

Lemma translate_leaf s root v : translate_of s root v = leaf_translation (pte_of s root v) v.
Proof. apply translate_pte. Qed.

Lemma entry_range phys flags :
  page_aligned phys -> leaf_flags flags -> u64 (Z.lor phys flags) = Z.lor phys flags.
Proof.
  intros [Hp _] [Hf _]. apply u64_small. split; [apply Z.lor_nonneg; lia|].
  destruct (decide (Z.lor phys flags = 0)) as [->|Hne]; [lia|].
  assert (0 <= Z.lor phys flags) by (apply Z.lor_nonneg; lia). apply Z.log2_lt_pow2; [lia|].
  rewrite Z.log2_lor by lia. apply Z.max_lub_lt.
  - destruct (decide (phys = 0)) as [->|]; [done|]. apply Z.log2_lt_pow2; lia.
  - destruct (decide (flags = 0)) as [->|]; [done|]. apply Z.log2_lt_pow2; lia.
Qed.

Lemma leaf_translation_map phys flags v :
  page_aligned phys -> leaf_flags flags ->
  leaf_translation (u64 (Z.lor phys flags)) v = Some (phys + v mod 0x1000).
Proof.
  intros Hp Hf. rewrite entry_range by done. destruct Hp as [Hp Ha], Hf as (_ & Hm & H1).
  unfold leaf_translation. rewrite addr_mask_aligned by done.
  rewrite Z.land_lor_distr_l, H1. destruct (Z.eqb_spec (Z.lor (Z.land phys 1) 1) 0) as [E|_].
  - apply Z.lor_eq_0_iff in E as [_ ?]. done.
  - f_equal. zlia.
Qed.

(** C1: [vmm_map_page] maps exactly one page: afterwards the processor
    translates every address of the page of [virtual_address] to the same offset
    of the frame at [physical_address] and every other address as before.  It
    needs at most the tables that are missing on the way, leaves the tables well
    formed, and touches no frame that is not a table of this pagemap. *)
Theorem vmm_map_page_translates s pm root phys v flags :
  vm_ok s root -> pagemap_ok s pm root -> gval s g_vmm_lock = 0 ->
  (cost s root (dirs v) <= fa_free s)%nat -> page_aligned phys -> leaf_flags flags ->
  exists s', vmm_map_page HHDM_OFFSET pm phys v flags s = Ok tt s' /\
    evolves s s' root /\ pagemap_ok s' pm root /\
    forall v', translate_of s' root v' =
      if decide (page v' = page v) then Some (phys + v' mod 0x1000) else translate_of s root v'.
Proof.
  intros Hok Hpm Hl Hc Hp Hf.
  destruct (map_page_eq HHDM_OFFSET s pm root phys v flags [] 0) as (s' & E & V & P & _);
    [done..|by constructor|by rewrite app_nil_r|].
  exists s'. split; [done|]. split; [done|]. split; [by eapply evolves_pagemap|].
  intros v'. rewrite !translate_leaf, P. case_decide; [by apply leaf_translation_map|done].
Qed.

(** [vmm_unmap_page] removes the translation of its page, of no other page,
    and flushes the page from the TLB. *)
Theorem vmm_unmap_page_unmaps s pm root v :
  vm_ok s root -> pagemap_ok s pm root -> gval s g_vmm_lock = 0 ->
  (cost s root (dirs v) <= fa_free s)%nat ->
  exists s', vmm_unmap_page HHDM_OFFSET pm v s = Ok tt s' /\
    evolves s s' root /\ pagemap_ok s' pm root /\ trace s' = trace s ++ [EvAsm "invlpg" v] /\
    forall v', translate_of s' root v' =
      if decide (page v' = page v) then None else translate_of s root v'.
Proof.
  intros Hok Hpm Hl Hc.
  destruct (unmap_page_eq HHDM_OFFSET s pm root v [] 0) as (s' & E & V & P & _ & T);
    [done..|by constructor|by rewrite app_nil_r|].
  exists s'. split; [done|]. split; [done|]. split; [by eapply evolves_pagemap|]. split; [done|].
  intros v'. rewrite !translate_leaf, P. by case_decide.
Qed.

Lemma virt_to_phys_eq s pm root v :
  vm_ok s root -> pagemap_ok s pm root -> (cost s root (dirs v) <= fa_free s)%nat ->
  exists s', virt_to_phys HHDM_OFFSET pm v s = Ok (Z.land (pte_of s root v) PTE_ADDR_MASK) s' /\
    evolves s s' root /\ forall v', pte_of s' root v' = pte_of s root v'.
Proof.
  intros Hok Hpm Hc.
  destruct (get_pml1_eq HHDM_OFFSET s pm root v [] 0) as (f & s' & E & W & V & P & _);
    [done|done|by constructor|by rewrite app_nil_r|].
  exists s'. split; [|done]. unfold virt_to_phys, virt_to_pte.
  rewrite (bind_Ok _ _ s (va f + 8 * pml1_index v) s') by (by rewrite (bind_Ok _ _ _ _ _ E)).
  destruct (ev_ok HHDM_OFFSET _ _ _ V) as [Hi' Ht'].
  rewrite (bind_Ok _ _ s' (entries HHDM_OFFSET s' f (pml1_index v)) s').
  - unfold mret, K_ret. do 2 f_equal. rewrite <- P. unfold Vmm.pte_of, pte. by rewrite W.
  - unfold ld. rewrite (owned_word HHDM_OFFSET); [done|done| |apply pml1_index_ok].
    by apply (tree_owned _ _ _ Ht' (dir v)); [apply dir_path|].
Qed.

(** round trip of the page tables: after [vmm_map_page] of a frame at a
    virtual address, [virt_to_phys] of any address of that page returns the
    address of the frame (the offset in the page is not added), and the lookup
    changes no translation. *)
Theorem virt_to_phys_roundtrip s pm root phys v v' flags :
  vm_ok s root -> pagemap_ok s pm root -> gval s g_vmm_lock = 0 ->
  (cost s root (dirs v) <= fa_free s)%nat -> page_aligned phys -> leaf_flags flags ->
  page v' = page v ->
  exists s' s'', vmm_map_page HHDM_OFFSET pm phys v flags s = Ok tt s' /\
    virt_to_phys HHDM_OFFSET pm v' s' = Ok phys s'' /\
    forall w, translate_of s'' root w = translate_of s' root w.
Proof.
  intros Hok Hpm Hl Hc Hp Hf Hpg.
  destruct (map_page_eq HHDM_OFFSET s pm root phys v flags (dirs v) 0) as (s' & E & V & P & C & _);
    [done..|apply dirs_paths| |].
  { etrans; [|exact Hc]. apply missing_mono. intros q [?|?]%elem_of_app; done. }
  destruct (virt_to_phys_eq s' pm root v') as (s'' & E' & V' & P');
    [apply V|by eapply evolves_pagemap|by rewrite (same_page_dirs v v')|].
  exists s', s''. split; [done|]. split.
  - rewrite E', P, decide_True by done. f_equal. rewrite entry_range by done.
    destruct Hp, Hf as (_ & ? & _). by apply addr_mask_aligned.
  - intros w. by rewrite !translate_leaf, P'.
Qed.

(** Without a frame for a missing table the operations do not return: the
    assertion of [get_next_level] halts the core, unless the clearing of the
    frame that was not allocated faults first; no table entry is written. *)
Theorem get_next_level_exhausted s f i :
  fa_inv s -> fa_owned s f -> index i -> child (entries HHDM_OFFSET s) f i = None -> fa_free s = 0%nat ->
  get_next_level HHDM_OFFSET (va f) i s = Halt \/ get_next_level HHDM_OFFSET (va f) i s = Fault.
Proof.
  intros Hi Hf Hx Hc Hfr. unfold get_next_level.
  rewrite (bind_Ok _ _ s (entries HHDM_OFFSET s f i) s) by (unfold ld; by rewrite (owned_word HHDM_OFFSET)).
  unfold child in Hc. destruct (Z.land (entries HHDM_OFFSET s f i) 1 =? 0); [|done]. simpl.
  destruct (fa_calloc_full s Hi Hfr) as [E|[s' E]].
  - right. unfold mbind, K_bind. by rewrite E.
  - left. by rewrite (bind_Ok _ _ _ _ _ E).
Qed.

End translation.
