(* ===== verification/VmmInit.v ===== *)
(** Ranges of pages and whole address spaces of [memory/vmm.c]:
    [vmm_map_pages], [vmm_new_pagemap] and [vmm_init]. *)
From S2P Require Import Prelude Machine Lock Str Interfaces Pmm PmmSpec PageTable Vmm VmmSpec.
Import Lock.Seq.

(** The distance of two pages, modulo the size of the address space. *)
Definition page_off (v v' : Z) : Z := (page v' - page v) mod 2 ^ 36.

(** The tables of the pages [i .. i + n - 1] counted from [v]. *)
Definition page_dirs (v i n : Z) : list (list Z) :=
  seqZ i n ≫= (fun k => dirs (u64 (v + k * 0x1000))).

Section ranges.
Implicit Types (v k n : Z).

Lemma page_step v k : page (u64 (v + k * 0x1000)) = (page v + k) mod 2 ^ 36.
Proof. unfold page, u64. zlia. Qed.

Lemma page_off_range v v' : 0 <= page_off v v' < 2 ^ 36.
Proof. unfold page_off. zlia. Qed.

Lemma page_range v : 0 <= page v < 2 ^ 36.
Proof. unfold page. zlia. Qed.

Lemma page_off_step v v' k :
  0 <= k < 2 ^ 36 -> page v' = page (u64 (v + k * 0x1000)) <-> page_off v v' = k.
Proof.
  intros Hk. rewrite page_step. pose proof (page_range v). pose proof (page_range v').
  unfold page_off. zlia.
Qed.

Lemma page_dirs_cons v i n :
  0 < n -> page_dirs v i n = dirs (u64 (v + i * 0x1000)) ++ page_dirs v (i + 1) (n - 1).
Proof. intros H. unfold page_dirs. rewrite seqZ_cons by lia. rewrite bind_cons. by rewrite <- Z.add_1_r, <- Z.sub_1_r. Qed.

Lemma page_dirs_paths v i n : Forall (path 3) (page_dirs v i n).
Proof.
  apply list.Forall_forall. intros q (k & Hq & _)%list_elem_of_bind.
  by apply (proj1 (list.Forall_forall _ _) (dirs_paths _)) in Hq.
Qed.

End ranges.

Section ranges_proofs.
Context (HHDM_OFFSET : Z) `{FA : !FrameAllocator HHDM_OFFSET}.
Implicit Types (s : kstate) (root v pm phys flags : Z) (qs : list (list Z)).
Local Abbreviation va := (frame_va HHDM_OFFSET).
Local Abbreviation entries := (entries HHDM_OFFSET).
Local Abbreviation outside := (outside HHDM_OFFSET).
Local Abbreviation vm_ok := (vm_ok HHDM_OFFSET).
Local Abbreviation evolves := (evolves HHDM_OFFSET).
Local Abbreviation pagemap_ok := (pagemap_ok HHDM_OFFSET).
Local Abbreviation cost := (cost HHDM_OFFSET).
Local Abbreviation pte_of := (pte_of HHDM_OFFSET).
Local Abbreviation translate_of := (translate_of HHDM_OFFSET).

(** A pagemap whose tables are consistent and whose lock is free. *)
Record space_ok s pm root : Prop := {
  sp_vm : vm_ok s root;
  sp_pm : pagemap_ok s pm root;
  sp_lock : gval s g_vmm_lock = 0
}.

Lemma evolves_space s s' pm root : space_ok s pm root -> evolves s s' root -> space_ok s' pm root.
Proof.
  intros [H1 H2 H3] V. split; [apply V|by eapply evolves_pagemap|].
  by rewrite (ev_globals HHDM_OFFSET _ _ _ V).
Qed.

Lemma map_range s pm root phys v flags n qs (reserve : nat) :
  space_ok s pm root -> Forall (path 3) qs -> 0 <= n <= 2 ^ 36 ->
  (reserve + cost s root (page_dirs v 0 n ++ qs) <= fa_free s)%nat ->
  exists s', kfor 0 n (fun i => vmm_map_page HHDM_OFFSET pm
      (u64 (phys + i * 0x1000)) (u64 (v + i * 0x1000)) flags) s = Ok tt s' /\
    evolves s s' root /\
    (forall v', pte_of s' root v' =
       if decide (page_off v v' < n) then u64 (Z.lor (u64 (phys + page_off v v' * 0x1000)) flags)
       else pte_of s root v') /\
    (reserve + cost s' root qs <= fa_free s')%nat /\ trace s' = trace s.
Proof.
  intros Hs Hqs Hn Hc.
  assert (H : wp (kfor 0 n (fun i => vmm_map_page HHDM_OFFSET pm
      (u64 (phys + i * 0x1000)) (u64 (v + i * 0x1000)) flags))
    (fun _ s' => evolves s s' root /\
      (forall v', pte_of s' root v' =
         if decide (page_off v v' < n) then u64 (Z.lor (u64 (phys + page_off v v' * 0x1000)) flags)
         else pte_of s root v') /\
      (reserve + cost s' root (page_dirs v n (n - n) ++ qs) <= fa_free s')%nat /\ trace s' = trace s) s).
  { apply (wp_kfor (fun i s' => evolves s s' root /\
      (forall v', pte_of s' root v' =
         if decide (page_off v v' < i) then u64 (Z.lor (u64 (phys + page_off v v' * 0x1000)) flags)
         else pte_of s root v') /\
      (reserve + cost s' root (page_dirs v i (n - i) ++ qs) <= fa_free s')%nat /\ trace s' = trace s)); [lia| | |done].
    - split; [apply evolves_refl, Hs|]. split; [|by rewrite Z.sub_0_r].
      intros v'. pose proof (page_off_range v v'). by rewrite decide_False by lia.
    - intros i s1 Hi (V & P & C & T). rewrite page_dirs_cons, <- app_assoc in C by lia.
      destruct (evolves_space _ _ _ _ Hs V) as [S1 S2 S3].
      destruct (map_page_eq HHDM_OFFSET s1 pm root (u64 (phys + i * 0x1000)) (u64 (v + i * 0x1000)) flags
        (page_dirs v (i + 1) (n - i - 1) ++ qs) reserve) as (s2 & E & V2 & P2 & C2 & T2);
        [done..|rewrite Forall_app; split; [apply page_dirs_paths|done]|exact C|].
      eapply wp_eq; [exact E|]. split; [by eapply evolves_trans|].
      replace (n - (i + 1)) with (n - i - 1) by lia. split; [|by rewrite T2].
      intros v'. rewrite P2, P. pose proof (page_off_step v v' i ltac:(lia)).
      repeat case_decide; try done; try lia; try tauto. do 4 f_equal. lia. }
  apply wp_Ok in H as ([] & s' & E & V & P & C & T). exists s'. split; [done|].
  split; [done|]. split; [done|]. by rewrite Z.sub_diag in C.
Qed.

(** [vmm_map_pages] maps a range: the [n] pages from [virtual_address] on
    translate to the [n] frames from [physical_address] on, in order, and every
    other page translates as before; a range that passes the top of the address
    space wraps around, as the 64-bit additions do. *)
Theorem vmm_map_pages_translates s pm root phys v flags n :
  space_ok s pm root -> page_aligned phys -> leaf_flags flags ->
  0 <= n <= 2 ^ 36 -> phys + n * 0x1000 <= 2 ^ 52 ->
  (cost s root (page_dirs v 0 n) <= fa_free s)%nat ->
  exists s', vmm_map_pages HHDM_OFFSET pm phys v flags n s = Ok tt s' /\ space_ok s' pm root /\
    forall v', translate_of s' root v' =
      if decide (page_off v v' < n) then Some (phys + page_off v v' * 0x1000 + v' mod 0x1000)
      else translate_of s root v'.
Proof.
  intros Hs [Hp Ha] Hf Hn Hb Hc.
  destruct (map_range s pm root phys v flags n [] 0) as (s' & E & V & P & _);
    [done|by constructor|done|by rewrite app_nil_r|].
  exists s'. split; [exact E|]. split; [by eapply evolves_space|].
  intros v'. rewrite !translate_leaf, P. case_decide; [|done].
  pose proof (page_off_range v v'). rewrite (u64_small (phys + _)) by lia.
  apply leaf_translation_map; [|done]. unfold page_aligned. split; [lia|zlia].
Qed.

(** * New pagemaps *)

(** [s'] is [s] with one more frame [f] handed out, zeroed. *)
Record fresh_frame s s' (f : Z) : Prop := {
  ff_inv : fa_inv s';
  ff_fresh : ~ fa_owned s f;
  ff_owned : forall g, fa_owned s' g <-> fa_owned s g \/ g = f;
  ff_free : fa_free s = S (fa_free s');
  ff_globals : same_globals s s';
  ff_trace : trace s' = trace s;
  ff_zero : forall x, va f <= x < va (f + 1) -> mem s' !! x = Some Byte.x00;
  ff_kept : forall g x, fa_owned s g -> va g <= x < va (g + 1) -> mem s' !! x = mem s !! x;
  ff_static : static_kept s s'
}.

Lemma frame_calloc_fresh s :
  fa_inv s -> (0 < fa_free s)%nat ->
  exists f s', frame_calloc 1 s = Ok (0x1000 * f) s' /\ fresh_frame s s' f /\ 0x1000 * f <> NULL /\
    u64 (0x1000 * f + HHDM_OFFSET) = va f /\ va f <> NULL.
Proof.
  intros Hi Hf. destruct (fa_calloc s Hi Hf) as (f & s' & E & H1 & H2 & H3 & H4 & H5 & H6 & H7 & H8 & H9 & _).
  exists f, s'. split; [done|]. split; [by split|].
  destruct (fa_owned_range s' f H1) as [? ?]; [apply H3; by right|]. pose proof (fa_hhdm s Hi).
  unfold NULL, frame_va in *. rewrite u64_small by lia. lia.
Qed.

Lemma frame_alloc_fresh s :
  fa_inv s -> (0 < fa_free s)%nat ->
  exists f s', frame_alloc 8 s = Ok (0x1000 * f) s' /\ fresh_frame s s' f /\
    u64 (0x1000 * f + HHDM_OFFSET) = va f /\ va f <> NULL.
Proof.
  intros Hi Hf. destruct (frame_calloc_fresh s Hi Hf) as (f & s' & E & H1 & H2 & H3 & H4).
  exists f, s'. split; [|done]. rewrite fa_alloc by lia. rewrite (bind_Ok _ _ _ _ _ E).
  by destruct (Z.eqb_spec (0x1000 * f) 0).
Qed.

(** Writing the first word of a frame. *)
Lemma write_word s h w :
  fa_inv s -> fa_owned s h ->
  let s' := with_mem s (wr 8 (mem s) (va h) w) in
  fa_inv s' /\ fa_free s' = fa_free s /\ (forall g, fa_owned s' g <-> fa_owned s g) /\
  st 8 (va h) w s = Ok tt s'.
Proof.
  intros Hi Hh. pose proof (write_entry HHDM_OFFSET s h 0 w Hi Hh ltac:(unfold index; lia)) as W.
  by rewrite Z.mul_0_r, Z.add_0_r in W.
Qed.

(** What the code after the allocation of a [pagemap_t] does to the state: an
    empty root table [r], recorded in the structure at the start of frame [h]. *)
Record root_made s s' (h r : Z) : Prop := {
  rm_inv : fa_inv s';
  rm_fresh : ~ fa_owned s r;
  rm_owned : forall g, fa_owned s' g <-> fa_owned s g \/ g = r;
  rm_free : fa_free s = S (fa_free s');
  rm_globals : same_globals s s';
  rm_trace : trace s' = trace s;
  rm_top : rd 8 (mem s') (va h) = Some (va r);
  rm_empty : forall j, index j -> entries s' r j = 0;
  rm_kept : forall g x, fa_owned s g -> g <> h -> va g <= x < va (g + 1) -> mem s' !! x = mem s !! x;
  rm_static : static_kept s s'
}.

Definition make_root {A} (pagemap : Z) (k : K A) : K A :=
  top0 ← frame_calloc 1;
  st 8 pagemap top0 ;;
  top1 ← ld 8 pagemap;
  kassert (negb (top1 =? NULL)) ;;
  st 8 pagemap (u64 (top1 + HHDM_OFFSET)) ;; k.

Lemma make_root_eq s h :
  fa_inv s -> fa_owned s h -> (0 < fa_free s)%nat ->
  exists r s', (forall A (k : K A), make_root (va h) k s = k s') /\ root_made s s' h r.
Proof.
  intros Hi Hh Hf. destruct (frame_calloc_fresh s Hi Hf) as (r & s1 & E1 & H1 & Hr & Er & _).
  pose proof H1 as [Hi1 Hfr Ho Hfree Hg Ht Hz Hk Hst].
  assert (Hh1 : fa_owned s1 h) by (apply Ho; by left).
  assert (Hr1 : fa_owned s1 r) by (apply Ho; by right).
  destruct (fa_owned_range s1 r Hi1 Hr1) as [Rr Rr']. pose proof (fa_hhdm s1 Hi1).
  destruct (write_word s1 h (0x1000 * r) Hi1 Hh1) as (Hi2 & F2 & Ho2 & E2).
  set (s2 := with_mem s1 _) in *.
  destruct (write_word s2 h (va r) Hi2 (proj2 (Ho2 h) Hh1)) as (Hi3 & F3 & Ho3 & E3).
  set (s3 := with_mem s2 _) in *.
  exists r, s3. split.
  - intros A k. unfold make_root. rewrite (bind_Ok _ _ _ _ _ E1), (bind_Ok _ _ _ _ _ E2).
    rewrite (bind_Ok _ _ s2 (0x1000 * r) s2).
    2:{ unfold ld, s2. simpl. rewrite rd_wr_same. rewrite Z.mod_small by (simpl; lia). done. }
    destruct (Z.eqb_spec (0x1000 * r) NULL); [done|]. simpl negb. rewrite (bind_Ok _ _ s2 tt s2) by done.
    by rewrite Er, (bind_Ok _ _ _ _ _ E3).
  - assert (Hkept : forall g x, g <> h -> va g <= x < va (g + 1) -> mem s3 !! x = mem s1 !! x).
    { intros g x Hne Hx. simpl. rewrite !lookup_wr_out; [done|..]; intros Hin;
        apply Hne, (frame_disjoint HHDM_OFFSET g h x); try done; unfold frame_va in *; lia. }
    assert (Hrh : r <> h) by congruence. split; [done|done| |by rewrite F3, F2|done|done| | | |].
    5: { eapply static_trans; [exact Hg|exact Hst|]. eapply (static_trans _ s2); [done|..].
         - apply (static_wr s1 h); [done|unfold frame_va; lia..].
         - apply (static_wr s2 h); [by apply Ho2|unfold frame_va; lia..]. }
    + intros g. by rewrite Ho3, Ho2, Ho.
    + simpl. rewrite rd_wr_same. f_equal. apply Z.mod_small. unfold frame_va in *. simpl. lia.
    + intros j Hj. unfold Vmm.entries. rewrite (rd_zero 8); [done|]. intros x Hx.
      assert (Hx' : va r <= x < va (r + 1)) by (unfold index, frame_va in *; lia).
      rewrite (Hkept r) by done. by apply Hz.
    + intros g x Hgo Hne Hx. rewrite (Hkept g) by done. by apply (Hk g).
Qed.

(** An empty table is a tree of its own. *)
Lemma empty_tree (owned : Z -> Prop) (E : tables) r :
  owned r -> (forall j, index j -> E r j = 0) -> tree owned E r /\ forall q h, path 3 q -> walk E r q = Some h -> q = [].
Proof.
  intros Ho Hz.
  assert (Hw : forall q h, path 3 q -> walk E r q = Some h -> q = [] /\ h = r).
  { intros [|j q] h Hq; simpl; [by intros [= <-]|]. apply path_cons in Hq as [Hj _].
    unfold child. by rewrite Hz by done. }
  split; [split|by intros q h Hq Hh; apply (Hw q h)].
  - intros q h Hq Hh. by destruct (Hw q h Hq Hh) as [_ ->].
  - intros q q' h Hq Hq' H1 H2. destruct (Hw q h Hq H1) as [-> _]. by destruct (Hw q' h Hq' H2) as [-> _].
Qed.

Lemma root_made_space s s' h r :
  fa_owned s h -> root_made s s' h r ->
  vm_ok s' r /\ pagemap_ok s' (va h) r /\ forall v, pte_of s' r v = 0.
Proof.
  intros Hh [Hi Hfr Ho Hfree Hg Ht Htop Hz Hk _].
  destruct (empty_tree (fa_owned s') (entries s') r) as [Htree Hw]; [apply Ho; by right|done|].
  split; [done|]. split.
  - split; [done|]. exists h. split; [|unfold frame_va; lia]. split; [apply Ho; by left|].
    intros q Hq E. assert (q = []) as -> by (by eapply Hw). injection E as ->. done.
  - intros v. unfold Vmm.pte_of, pte. destruct (walk (entries s') r (dir v)) as [f|] eqn:E; [|done].
    by apply Hw in E; [|apply dir_path].
Qed.

(** * Sharing the kernel half *)

(** Frames that were handed out before keep their contents: no tree changes. *)
Lemma walk_kept s s' root :
  vm_ok s root -> (forall h x, fa_owned s h -> va h <= x < va (h + 1) -> mem s' !! x = mem s !! x) ->
  forall q, path 3 q -> walk (entries s') root q = walk (entries s) root q.
Proof.
  intros [_ Ht] Hm q Hq. eapply walk_ext; [done|]. intros p h j [Hp Hj]%path_snoc Hh.
  apply entries_ext; [done|]. intros x Hx. apply (Hm h); [|done].
  eapply (tree_owned _ _ _ Ht p); [by apply path_2_3|done].
Qed.

Lemma vm_ok_kept s s' root :
  vm_ok s root -> fa_inv s' -> (forall h, fa_owned s h -> fa_owned s' h) ->
  (forall h x, fa_owned s h -> va h <= x < va (h + 1) -> mem s' !! x = mem s !! x) ->
  vm_ok s' root /\ forall v, pte_of s' root v = pte_of s root v.
Proof.
  intros Hok Hi' Ho Hm. pose proof (walk_kept s s' root Hok Hm) as Hw. destruct Hok as [Hi Ht].
  assert (He : forall h j, fa_owned s h -> index j -> entries s' h j = entries s h j).
  { intros h j Hh Hj. apply entries_ext; [done|]. intros x Hx. by apply (Hm h). }
  split.
  - split; [done|]. destruct Ht as [T1 T2]. split.
    + intros q h Hq. rewrite Hw by done. intros Hh. by eapply Ho, T1.
    + intros q q' h Hq Hq'. rewrite !Hw by done. by apply T2.
  - intros v. unfold Vmm.pte_of, pte. rewrite Hw by auto with kernel.
    destruct (walk (entries s) root (dir v)) as [f|] eqn:E; [|done].
    apply He; [|auto with kernel]. by apply (tree_owned _ _ _ Ht (dir v)); auto with kernel.
Qed.

Lemma evolves_kept s s' root :
  vm_ok s root -> fa_inv s' -> (forall h, fa_owned s h -> fa_owned s' h) ->
  (forall h x, fa_owned s h -> va h <= x < va (h + 1) -> mem s' !! x = mem s !! x) ->
  same_globals s s' -> static_kept s s' -> room_kept s s' -> evolves s s' root /\ forall v, pte_of s' root v = pte_of s root v.
Proof.
  intros Hok Hi' Ho Hm Hg Hst Hrm. pose proof (walk_kept s s' root Hok Hm) as Hw.
  destruct (vm_ok_kept s s' root Hok Hi' Ho Hm) as [Hok' Hp]. split; [|done].
  apply evolves_intro; try done.
  - intros h x [Hh _]. by apply Hm.
  - intros q h Hq. by rewrite Hw.
  - intros q h Hq. by rewrite Hw.
Qed.

(** An address space in a state that has more frames, and statics of its own. *)
Lemma space_kept s s' pm root :
  space_ok s pm root -> fa_inv s' -> (forall h, fa_owned s h -> fa_owned s' h) ->
  (forall h x, fa_owned s h -> va h <= x < va (h + 1) -> mem s' !! x = mem s !! x) ->
  same_globals s s' -> space_ok s' pm root /\ forall v, pte_of s' root v = pte_of s root v.
Proof.
  intros [Hok [Hr (h & [Hh Hn] & H1 & H2)] Hl] Hi' Ho Hm Hg. pose proof (walk_kept s s' root Hok Hm) as Hw.
  destruct (vm_ok_kept s s' root Hok Hi' Ho Hm) as [Hok' Hp]. split; [|done]. split; [done| |by rewrite Hg].
  split; [rewrite (rd_ext 8 (mem s)); [done|]; intros x Hx; apply (Hm h); [done|lia]|].
  exists h. split; [|done]. split; [by apply Ho|]. intros q Hq. rewrite Hw by done. by apply Hn.
Qed.

(** A root that takes its upper half from another tree. *)
Section share.
Context (owned owned' : Z -> Prop) (E E' : tables) (kroot r : Z).
Context (Ht : tree owned E kroot) (Hr : ~ owned r).
Context (Ho : forall h, owned h \/ h = r -> owned' h).
Context (Hroot : forall j, index j -> E' r j = if decide (256 <= j) then E kroot j else 0).
Context (Hkept : forall h j, owned h -> index j -> E' h j = E h j).

Lemma share_walk j q :
  path 3 (j :: q) -> walk E' r (j :: q) = if decide (256 <= j) then walk E kroot (j :: q) else None.
Proof using Ht Hroot Hkept.
  intros Hq. pose proof Hq as [Hj Hq']%path_cons. simpl. unfold child at 1. rewrite Hroot by done.
  case_decide as Hd; [|done]. unfold child. destruct (Z.land (E kroot j) 1 =? 0) eqn:Ep; [done|].
  set (g := Z.land (E kroot j) PTE_ADDR_MASK / 0x1000). eapply walk_ext; [exact Hq'|].
  intros p h i Hp Hh. pose proof Hp as [Hp1 Hi]%path_snoc. apply Hkept; [|done].
  apply (tree_owned _ _ _ Ht (j :: p)); [apply path_cons; split; [done|]|].
  - apply (path_weaken 1); [done|lia].
  - simpl. unfold child. by rewrite Ep.
Qed.

Lemma share_tree : tree owned' E' r.
Proof using Ht Hr Ho Hroot Hkept.
  assert (Hin : forall j q h, path 3 (j :: q) -> walk E' r (j :: q) = Some h ->
            256 <= j /\ walk E kroot (j :: q) = Some h /\ owned h).
  { intros j q h Hq. rewrite share_walk by done. case_decide; [|done]. intros Hh.
    split; [done|]. split; [done|]. by eapply (tree_owned _ _ _ Ht). }
  split.
  - intros [|j q] h Hq Hh; apply Ho; [right; by injection Hh|left; by apply (Hin j q h)].
  - intros [|j q] [|j' q'] h Hq Hq' H1 H2; [done| | |].
    + injection H1 as ->. by destruct (Hin j' q' h Hq' H2) as (_ & _ & ?).
    + injection H2 as ->. by destruct (Hin j q h Hq H1) as (_ & _ & ?).
    + destruct (Hin j q h Hq H1) as (_ & W1 & _), (Hin j' q' h Hq' H2) as (_ & W2 & _).
      by apply (tree_inj _ _ _ Ht _ _ h).
Qed.

Lemma share_pte v : pte E' r v = if decide (256 <= pml4_index v) then pte E kroot v else 0.
Proof using Ht Hroot Hkept.
  unfold pte at 1. unfold dir. rewrite share_walk by (apply (dir_path v)). case_decide; [|done].
  unfold pte. destruct (walk E kroot (dir v)) as [f|] eqn:Ew; unfold dir in Ew; rewrite Ew; [|done].
  apply Hkept; [|auto with kernel]. by apply (tree_owned _ _ _ Ht (dir v)); auto with kernel.
Qed.

End share.

(** The copy loop, from state [s] on, has reached index [i]. *)
Record copied_half s s' (kroot r i : Z) : Prop := {
  ch_inv : fa_inv s';
  ch_owned : forall g, fa_owned s' g <-> fa_owned s g;
  ch_free : fa_free s' = fa_free s;
  ch_globals : same_globals s s';
  ch_root : forall j, index j -> entries s' r j = if decide (256 <= j < i) then entries s kroot j else entries s r j;
  ch_kept : forall g x, g <> r -> va g <= x < va (g + 1) -> mem s' !! x = mem s !! x;
  ch_static : static_kept s s'
}.

Lemma copy_half_eq s pm kpm h kh kroot r :
  fa_inv s -> gval s g_kernel_pagemap = kpm ->
  rd 8 (mem s) kpm = Some (va kroot) -> va kh <= kpm -> kpm + 8 <= va (kh + 1) -> kh <> r ->
  rd 8 (mem s) pm = Some (va r) -> pm = va h -> h <> r ->
  fa_owned s kroot -> fa_owned s r -> kroot <> r ->
  exists s', kfor 256 512 (fun i =>
      kernel_pagemap ← gget g_kernel_pagemap;
      ktop ← ld 8 kernel_pagemap;
      e ← ld 8 (ktop + 8 * i);
      top ← ld 8 pm;
      st 8 (top + 8 * i) e) s = Ok tt s' /\ copied_half s s' kroot r 512.
Proof.
  intros Hi Hk Hkpm Hk1 Hk2 Hkr Hpm -> Hhr Hko Hro Hne.
  assert (H : wp (kfor 256 512 (fun i =>
      kernel_pagemap ← gget g_kernel_pagemap;
      ktop ← ld 8 kernel_pagemap;
      e ← ld 8 (ktop + 8 * i);
      top ← ld 8 (va h);
      st 8 (top + 8 * i) e)) (fun _ s' => copied_half s s' kroot r 512) s).
  { apply (wp_kfor (fun i s' => copied_half s s' kroot r i)); [lia| | |done].
    - split; try done. intros j _. by rewrite decide_False by lia.
    - intros i s1 Hx [Hi1 Ho1 F1 G1 R1 K1 St1]. assert (Ix : index i) by (unfold index; lia).
      assert (Hro1 : fa_owned s1 r) by (by apply Ho1).
      repeat wstep; rewrite ?G1, ?Hk.
      + rewrite (rd_ext 8 (mem s)); [exact Hkpm|]. intros x Hxx. apply (K1 kh); [done|lia].
      + by apply (owned_word HHDM_OFFSET); [|apply Ho1|].
      + rewrite (rd_ext 8 (mem s)); [exact Hpm|]. intros x Hxx. apply (K1 h); [done|]. unfold frame_va in *. lia.
      + eapply mapped_sub; [by eapply fa_owned_mapped|..]; unfold index in Ix; lia.
      + destruct (write_entry HHDM_OFFSET s1 r i (entries s1 kroot i) Hi1 Hro1 Ix) as (Hi2 & F2 & Ho2 & _).
        assert (Ek : entries s1 kroot i = entries s kroot i).
        { apply entries_ext; [done|]. intros x Hxx. by apply (K1 kroot). }
        split; [done|by intros g; rewrite Ho2|by rewrite F2|done| | |].
        3: { eapply static_trans; [exact G1|exact St1|]. eapply static_wr; [exact Hro1|..]; unfold index, frame_va in *; lia. }
        * intros j Hj. rewrite entries_wr by done. case_decide as Hd.
          -- injection Hd as ->. rewrite decide_True by lia. rewrite Ek. apply u64_small.
             assert (Hw : rd 8 (mem s) (va kroot + 8 * i) = Some (entries s kroot i)) by (by apply (owned_word HHDM_OFFSET)).
             by apply rd_range in Hw.
          -- assert (j <> i) by congruence. rewrite R1 by done. repeat case_decide; try done; lia.
        * intros g x Hg Hxx. simpl. rewrite lookup_wr_out; [by apply (K1 g)|]. intros Hin.
          apply Hg, (frame_disjoint HHDM_OFFSET g r x); [done|]. unfold index, frame_va in *. lia. }
  apply wp_Ok in H as ([] & s' & E & H). by exists s'.
Qed.

(** The state that [vmm_new_pagemap] leaves: the structure in frame [h], the
    root table in frame [r], and everything else as it was. *)
Record new_space s s' (kroot h r : Z) : Prop := {
  ns_inv : fa_inv s';
  ns_fresh : ~ fa_owned s h /\ ~ fa_owned s r /\ h <> r;
  ns_owned : forall g, fa_owned s g \/ g = h \/ g = r -> fa_owned s' g;
  ns_kept : forall g x, fa_owned s g -> va g <= x < va (g + 1) -> mem s' !! x = mem s !! x;
  ns_root : forall j, index j -> entries s' r j = if decide (256 <= j) then entries s kroot j else 0;
  ns_top : rd 8 (mem s') (va h) = Some (va r);
  ns_globals : same_globals s s';
  ns_static : static_kept s s'
}.

Lemma new_pagemap_eq s kpm kroot :
  vm_ok s kroot -> pagemap_ok s kpm kroot -> gval s g_kernel_pagemap = kpm -> (2 <= fa_free s)%nat ->
  exists h r s', vmm_new_pagemap HHDM_OFFSET s = Ok (va h) s' /\ new_space s s' kroot h r.
Proof.
  intros [Hi Ht] (Hktop & kh & [Hkh Hkn] & Hk1 & Hk2) Hk Hf.
  assert (Hkr : fa_owned s kroot) by (apply (tree_owned _ _ _ Ht []); [apply path_nil|done]).
  destruct (frame_alloc_fresh s Hi ltac:(lia)) as (h & s1 & E1 & [Hi1 Hh1 Ho1 F1 G1 T1 Z1 K1 St1] & Eh & Hhn).
  assert (Hho : fa_owned s1 h) by (apply Ho1; by right).
  destruct (make_root_eq s1 h Hi1 Hho ltac:(lia)) as (r & s2 & E2 & [Hi2 Hr2 Ho2 F2 G2 T2 Top2 Z2 K2 St2]).
  assert (Hrs : ~ fa_owned s r) by (intros H; apply Hr2, Ho1; by left).
  assert (Hhr : h <> r) by (by intros ->).
  assert (Hne : forall g, fa_owned s g -> g <> h /\ g <> r) by (intros g Hg; split; by intros ->).
  assert (K12 : forall g x, fa_owned s g -> va g <= x < va (g + 1) -> mem s2 !! x = mem s !! x).
  { intros g x Hg Hx. rewrite (K2 g); [by apply (K1 g)|apply Ho1; by left|by apply Hne|done]. }
  destruct (copy_half_eq s2 (va h) kpm h kh kroot r) as (s3 & E3 & [Hi3 Ho3 F3 G3 R3 K3 St3]); try done.
  { by rewrite G2, G1. }
  { rewrite (rd_ext 8 (mem s)); [done|]. intros x Hx. apply (K12 kh); [done|lia]. }
  { by apply Hne. }
  { apply Ho2. left. apply Ho1. by left. }
  { apply Ho2. by right. }
  { by apply Hne. }
  exists h, r, s3. split.
  - unfold vmm_new_pagemap. rewrite (bind_Ok _ _ _ _ _ E1). rewrite Eh.
    destruct (Z.eqb_spec (va h) NULL); [done|]. simpl negb. rewrite (bind_Ok _ _ s1 tt s1) by done.
    etrans; [apply (E2 Z)|]. by rewrite (bind_Ok _ _ _ _ _ E3).
  - split; [done|done| | | | | |].
    6: { by eapply static_trans, static_trans. }
    + intros g Hg. apply Ho3, Ho2. rewrite Ho1. tauto.
    + intros g x Hg Hx. rewrite (K3 g); [by apply (K12 g)|by apply Hne|done].
    + intros j Hj. rewrite R3, Z2 by done. unfold index in Hj. repeat case_decide; try lia.
      apply entries_ext; [done|]. intros x Hx. by apply (K12 kroot).
    + rewrite (rd_ext 8 (mem s2)); [exact Top2|]. intros x Hx. apply (K3 h); [done|]. unfold frame_va in *. lia.
    + intros w. by rewrite G3, G2, G1.
Qed.

(** C25: a new pagemap shares the kernel's half of the address space and maps
    nothing else: addresses whose top-level index is 256 or more translate as
    in the kernel's pagemap, all others do not translate; the kernel's own
    pagemap is untouched. *)
Theorem vmm_new_pagemap_shares s kpm kroot :
  space_ok s kpm kroot -> gval s g_kernel_pagemap = kpm -> (2 <= fa_free s)%nat ->
  exists pm root s', vmm_new_pagemap HHDM_OFFSET s = Ok pm s' /\
    space_ok s' pm root /\ space_ok s' kpm kroot /\
    (forall v, translate_of s' kroot v = translate_of s kroot v) /\
    (forall v, translate_of s' root v =
       if decide (256 <= pml4_index v) then translate_of s kroot v else None).
Proof.
  intros [Hok Hpm Hl] Hk Hf. pose proof Hok as [_ Ht].
  destruct (new_pagemap_eq s kpm kroot Hok Hpm Hk Hf)
    as (h & r & s' & E & [Hi' (Hh & Hr & Hhr) Ho K Hroot Htop G St]).
  destruct (space_kept s s' (gval s g_kernel_pagemap) kroot) as [V P]; [by rewrite Hk|done|by auto|done|done|].
  assert (He : forall g j, fa_owned s g -> index j -> entries s' g j = entries s g j).
  { intros g j Hg Hj. apply entries_ext; [done|]. intros x Hx. by apply (K g). }
  exists (va h), r, s'. split; [done|]. split; [|split; [by rewrite <- Hk|split]].
  - split; [split; [done|]| |by rewrite G].
    + eapply share_tree; try done. intros g [?|?]; apply Ho; tauto.
    + split; [done|]. exists h. split; [|unfold frame_va; lia]. split; [apply Ho; tauto|].
      intros [|j q] Hq Hw; [by injection Hw as ->|]. revert Hw.
      rewrite (share_walk (fa_owned s) (entries s) (entries s') kroot r) by done. case_decide; [|done].
      intros Hw. apply Hh. by eapply (tree_owned _ _ _ Ht).
  - intros v. by rewrite !translate_leaf, P.
  - intros v. rewrite !translate_leaf. unfold Vmm.pte_of.
    rewrite (share_pte (fa_owned s) (entries s) (entries s') kroot r) by done. by case_decide.
Qed.

(** * The kernel's address space *)

Definition direct_dirs (i n : Z) : list (list Z) :=
  seqZ i n ≫= (fun k => dirs (k * 0x1000) ++ dirs (u64 (k * 0x1000 + HHDM_OFFSET))).

Lemma direct_dirs_cons i n :
  0 < n -> direct_dirs i n =
    dirs (i * 0x1000) ++ dirs (u64 (i * 0x1000 + HHDM_OFFSET)) ++ direct_dirs (i + 1) (n - 1).
Proof.
  intros H. unfold direct_dirs. rewrite seqZ_cons by lia. rewrite bind_cons, <- app_assoc.
  by rewrite <- Z.add_1_r, <- Z.sub_1_r.
Qed.

Lemma direct_dirs_paths i n : Forall (path 3) (direct_dirs i n).
Proof.
  apply list.Forall_forall. intros q (k & Hq & _)%list_elem_of_bind.
  apply elem_of_app in Hq as [Hq|Hq]; by apply (proj1 (list.Forall_forall _ _) (dirs_paths _)) in Hq.
Qed.

(** The entry that [vmm_init] gives to the first 4 GiB of physical memory. *)
Definition direct_entry (k : Z) : Z := u64 (Z.lor (k * 0x1000) (Z.lor PTE_PRESENT PTE_WRITABLE)).

(** Identity map below [n] pages, direct map, and [f] elsewhere. *)
Definition direct_pte (n : Z) (f : Z -> Z) (v : Z) : Z :=
  if decide (1 <= page v < n) then direct_entry (page v)
  else if decide (1 <= page_off HHDM_OFFSET v < n) then direct_entry (page_off HHDM_OFFSET v)
  else f v.

Lemma page_identity k v : 0 <= k < 2 ^ 36 -> page v = page (k * 0x1000) <-> page v = k.
Proof. intros Hk. replace (page (k * 0x1000)) with k; [done|]. unfold page. zlia. Qed.

Lemma direct_map_eq s pm root (reserve : nat) :
  space_ok s pm root -> 2 ^ 20 <= page HHDM_OFFSET <= 2 ^ 36 - 2 ^ 20 ->
  (reserve + cost s root (direct_dirs 1 0xfffff) <= fa_free s)%nat ->
  exists s', vmm_init_direct HHDM_OFFSET pm s = Ok tt s' /\ evolves s s' root /\
    (forall v, pte_of s' root v = direct_pte 0x100000 (pte_of s root) v) /\ (reserve <= fa_free s')%nat /\ trace s' = trace s.
Proof.
  intros Hs Hh Hc.
  assert (H : wp (vmm_init_direct HHDM_OFFSET pm)
    (fun _ s' => evolves s s' root /\ (forall v, pte_of s' root v = direct_pte 0x100000 (pte_of s root) v) /\
       (reserve + cost s' root (direct_dirs 0x100000 (0x100000 - 0x100000)) <= fa_free s')%nat /\ trace s' = trace s) s).
  { unfold vmm_init_direct.
    apply (wp_kfor (fun i s' => evolves s s' root /\ (forall v, pte_of s' root v = direct_pte i (pte_of s root) v) /\
       (reserve + cost s' root (direct_dirs i (0x100000 - i)) <= fa_free s')%nat /\ trace s' = trace s)); [lia| | |done].
    - split; [apply evolves_refl, Hs|]. split; [|done]. intros v. unfold direct_pte.
      by rewrite !decide_False by lia.
    - intros i s1 Hi (V & P & C & T). rewrite direct_dirs_cons in C by lia.
      destruct (evolves_space _ _ _ _ Hs V) as [S1 S2 S3]. set (fl := Z.lor PTE_PRESENT PTE_WRITABLE).
      assert (Q2 : Forall (path 3) (direct_dirs (i + 1) (0x100000 - i - 1))) by apply direct_dirs_paths.
      destruct (map_page_eq HHDM_OFFSET s1 pm root (i * 0x1000) (i * 0x1000) fl
        (dirs (u64 (i * 0x1000 + HHDM_OFFSET)) ++ direct_dirs (i + 1) (0x100000 - i - 1)) reserve)
        as (s2 & E2 & V2 & P2 & C2 & T2); [done..|rewrite Forall_app; split; [apply dirs_paths|done]|exact C|].
      assert (V12 : evolves s s2 root) by (by eapply evolves_trans).
      destruct (evolves_space _ _ _ _ Hs V12) as [S4 S5 S6].
      destruct (map_page_eq HHDM_OFFSET s2 pm root (i * 0x1000) (u64 (i * 0x1000 + HHDM_OFFSET)) fl
        (direct_dirs (i + 1) (0x100000 - i - 1)) reserve) as (s3 & E3 & V3 & P3 & C3 & T3); [done..|].
      apply wp_bind. eapply wp_eq; [exact E2|]. eapply wp_eq; [exact E3|].
      split; [by eapply evolves_trans|]. replace (0x100000 - (i + 1)) with (0x100000 - i - 1) by lia.
      split; [|by rewrite T3, T2]. intros v. rewrite P3, P2, P. unfold direct_pte. rewrite (Z.add_comm (i * 0x1000)).
      pose proof (page_off_step HHDM_OFFSET v i ltac:(lia)) as H1. pose proof (page_identity i v ltac:(lia)) as H2.
      pose proof (page_range v). pose proof (page_range HHDM_OFFSET).
      assert (H3 : ~ (0 <= page v < 2 ^ 20 /\ page_off HHDM_OFFSET v < 2 ^ 20)) by (unfold page_off; zlia).
      unfold direct_entry. repeat case_decide; try done; try lia; try tauto.
      + do 3 f_equal. lia.
      + do 3 f_equal. lia. }
  apply wp_Ok in H as ([] & s' & E & V & P & C & T). exists s'. repeat (split; [done|]). split; [lia|done].
Qed.

Lemma space_ok_trace s pm root e : space_ok s pm root -> space_ok (KState (mem s) (glob s) e) pm root.
Proof.
  intros [H1 H2 H3]. pose proof (evolves_trace HHDM_OFFSET s s root e (evolves_refl _ _ _ H1)) as V.
  by apply (evolves_space s).
Qed.

Lemma space_ok_glob s pm root (y : gvar) x :
  ~ fa_global y -> y <> g_vmm_lock -> space_ok s pm root -> space_ok (with_glob s y x) pm root.
Proof.
  intros Hy Hne [H1 H2 H3]. split; [by apply vm_ok_glob|apply pagemap_ok_glob; [apply H1|done|done]|].
  by rewrite gval_with_glob_ne.
Qed.

Lemma cost_le_paths s root qs : (cost s root qs <= size (list_to_set qs : gset (list Z)))%nat.
Proof. unfold Vmm.cost, missing. apply subseteq_size. intros q [_ Hq]%elem_of_filter. done. Qed.

(** The number of pages of the kernel image. *)
Definition kernel_pages (virtual_base kernel_end_addr : Z) : Z :=
  (u64 (ALIGN_UP kernel_end_addr 0x1000 - virtual_base) + 0xfff) / 0x1000.

(** The boot tables: all the paths that [vmm_init] needs. *)
Definition boot_dirs (virtual_base kernel_end_addr : Z) : list (list Z) :=
  page_dirs virtual_base 0 (kernel_pages virtual_base kernel_end_addr) ++ direct_dirs 1 0xfffff.

(** The kernel pagemap up to the loops of [vmm_init]. *)
Lemma vmm_init_root s pb vb ke :
  fa_inv s -> gval s g_vmm_lock = 0 -> (2 <= fa_free s)%nat ->
  exists h r s', vmm_init HHDM_OFFSET pb vb ke s =
      (vmm_init_kernel HHDM_OFFSET pb vb ke (va h) ;; vmm_init_direct HHDM_OFFSET (va h) ;;
       vmm_switch_pagemap HHDM_OFFSET (va h) ;; printf "VMM intilasized.\n" []) s' /\
    space_ok s' (va h) r /\ gval s' g_kernel_pagemap = va h /\
    (forall v, pte_of s' r v = 0) /\ fa_free s = S (S (fa_free s')) /\ static_kept s s' /\
    forall y : gvar, y <> g_kernel_pagemap -> gval s' y = gval s y.
Proof.
  intros Hi Hl Hf. unfold vmm_init. rewrite !printf_then.
  match goal with |- context [KState (mem s) (glob s) ?t] => set (s0 := KState (mem s) (glob s) t) end.
  match goal with |- context [KState ?m ?g ?t] => change (KState m g t) with (KState (mem s) (glob s) t) end.
  match goal with |- context [KState (mem s) (glob s) ?t] =>
    destruct (fa_trace s t Hi) as (Hi0 & F0 & O0); set (s1 := KState (mem s) (glob s) t) in * end.
  destruct (frame_alloc_fresh s1 Hi0 ltac:(lia)) as (h & s2 & E2 & [Hi2 Hh2 Ho2 F2 G2 T2 Z2 K2 St2] & Eh & Hhn).
  assert (Hfk : ~ fa_global g_kernel_pagemap) by (apply fa_foreign, elem_of_cons; right; apply elem_of_cons; by left).
  destruct (fa_glob s2 g_kernel_pagemap (va h) Hi2 Hfk) as (Hi3 & F3 & Ho3).
  set (s3 := with_glob s2 g_kernel_pagemap (va h)) in *.
  assert (Hho : fa_owned s3 h) by (apply Ho3, Ho2; by right).
  destruct (make_root_eq s3 h Hi3 Hho ltac:(lia)) as (r & s4 & E4 & Hrm).
  destruct (root_made_space s3 s4 h r Hho Hrm) as (Hvm & Hpm & Hp). destruct Hrm as [_ _ _ F4 G4 _ _ _ _ St4].
  exists h, r, s4. split; [|split; [split; [done|done|]|split; [|split; [done|split; [lia|split]]]]].
  - rewrite (bind_Ok _ _ _ _ _ E2), Eh. rewrite (bind_Ok _ _ s2 tt s3) by done.
    rewrite (bind_Ok _ _ s3 (va h) s3); [by apply (E4 unit)|].
    unfold gget. unfold s3. by rewrite gval_with_glob_eq.
  - rewrite G4. unfold s3. rewrite gval_with_glob_ne, G2 by done. exact Hl.
  - rewrite G4. apply gval_with_glob_eq.
  - assert (St3 : static_kept s2 s4).
    { intros x Hx. apply St4. eapply fa_static_globals; [|exact Hx]. intros y Hy. apply gval_with_glob_ne.
      intros E. apply Hfk. by rewrite <- E || by rewrite E. }
    intros x Hx. apply (static_trans s1 s2 s4 G2 St2 St3). by apply (fa_static_globals s s1).
  - intros y Hy. rewrite G4. unfold s3. rewrite gval_with_glob_ne by done. apply G2.
Qed.

Lemma direct_translation (f : Z -> Z) v :
  leaf_translation (direct_pte 0x100000 f v) v =
    if decide (1 <= page v < 2 ^ 20) then Some (0x1000 * page v + v mod 0x1000)
    else if decide (1 <= page_off HHDM_OFFSET v < 2 ^ 20) then
      Some (0x1000 * page_off HHDM_OFFSET v + v mod 0x1000)
    else leaf_translation (f v) v.
Proof.
  assert (Hd : forall k, 0 <= k < 2 ^ 40 -> leaf_translation (direct_entry k) v = Some (0x1000 * k + v mod 0x1000)).
  { intros k Hk. unfold direct_entry. rewrite leaf_translation_map; [f_equal; lia| |done].
    unfold page_aligned. split; [lia|zlia]. }
  unfold direct_pte. change 0x100000 with (2 ^ 20). do 2 (case_decide; [by rewrite Hd by lia|]). done.
Qed.

(** [vmm_init] builds the kernel's address space and installs it.  Given a
    frame for each table it returns with [cr3] on a root whose tables translate
    exactly three regions: pages 1 to [2^20 - 1] (the first 4 GiB but page 0) to
    themselves, the same pages above [HHDM_OFFSET] to these frames, and the
    kernel image at its virtual base to its physical base; every other address,
    address 0 included, does not translate. *)
Theorem vmm_init_maps s pb vb ke (reserve : nat) :
  let n := kernel_pages vb ke in
  fa_inv s -> gval s g_vmm_lock = 0 -> 2 ^ 20 <= page HHDM_OFFSET <= 2 ^ 36 - 2 ^ 20 ->
  page_aligned pb -> u64 (ALIGN_UP ke 0x1000 - vb) <= 2 ^ 48 -> pb + n * 0x1000 <= 2 ^ 52 ->
  (2 + (reserve + size (list_to_set (boot_dirs vb ke) : gset (list Z))) <= fa_free s)%nat ->
  exists root s', vmm_init HHDM_OFFSET pb vb ke s = Ok tt s' /\
    space_ok s' (gval s' g_kernel_pagemap) root /\ gval s' g_cr3 = 0x1000 * root /\
    (reserve <= fa_free s')%nat /\ (static_kept s s' /\ forall y : gvar, y <> g_kernel_pagemap -> y <> g_cr3 -> gval s' y = gval s y) /\
    forall v, translate_of s' root v =
      if decide (1 <= page v < 2 ^ 20) then Some (0x1000 * page v + v mod 0x1000)
      else if decide (1 <= page_off HHDM_OFFSET v < 2 ^ 20) then
        Some (0x1000 * page_off HHDM_OFFSET v + v mod 0x1000)
      else if decide (page_off vb v < n) then Some (pb + page_off vb v * 0x1000 + v mod 0x1000)
      else None.
Proof.
  intros n Hi Hl Hh Hpb Hlen Hpn Hf.
  destruct (vmm_init_root s pb vb ke Hi Hl ltac:(lia)) as (h & r & s1 & -> & S1 & K1 & P1 & F1 & St1 & G1).
  pose proof (u64_range (ALIGN_UP ke 0x1000 - vb)). assert (Hn : 0 <= n <= 2 ^ 36) by (unfold n, kernel_pages; zlia).
  destruct (map_range s1 (va h) r pb vb (Z.lor PTE_PRESENT PTE_WRITABLE) n (direct_dirs 1 0xfffff) reserve)
    as (s2 & E2 & V2 & P2 & C2 & T2); [done|apply direct_dirs_paths|done| |].
  { pose proof (cost_le_paths s1 r (boot_dirs vb ke)) as Hcost. unfold boot_dirs in Hcost, Hf.
    fold n in Hcost, Hf. lia. }
  pose proof (evolves_space _ _ _ _ S1 V2) as S2.
  destruct (direct_map_eq s2 (va h) r reserve S2 Hh C2) as (s3 & E3 & V3 & P3 & C3 & T3).
  pose proof (evolves_space _ _ _ _ S2 V3) as S3. pose proof S3 as [_ [Htop _] _].
  assert (Hg3 : forall y : gvar, y <> g_kernel_pagemap -> gval s3 y = gval s y).
  { intros y Hy. by rewrite (ev_globals HHDM_OFFSET _ _ _ V3), (ev_globals HHDM_OFFSET _ _ _ V2), G1. }
  assert (St3 : static_kept s s3).
  { intros x Hx. rewrite (static_trans s1 s2 s3 (ev_globals HHDM_OFFSET _ _ _ V2) (ev_static HHDM_OFFSET _ _ _ V2)
      (ev_static HHDM_OFFSET _ _ _ V3)); [by apply St1|].
    eapply fa_static_globals; [|exact Hx]. intros y Hy. apply G1. intros ->. revert Hy.
    apply fa_foreign, elem_of_cons; right; apply elem_of_cons; by left. }
  exists r. eexists. split; [|split; [|split; [|split; [|split; [split|]]]]].
  - rewrite (bind_Ok _ _ s1 tt s2).
    2:{ unfold vmm_init_kernel. destruct (Z.ltb_spec (2 ^ 64 - 0x1000) (u64 (ALIGN_UP ke 0x1000 - vb))); [lia|exact E2]. }
    rewrite (bind_Ok _ _ _ _ _ E3). unfold vmm_switch_pagemap.
    rewrite (bind_Ok _ _ s3 tt (with_glob s3 g_cr3 (0x1000 * r))); [reflexivity|].
    rewrite (bind_Ok _ _ s3 (va r) s3) by (unfold ld; by rewrite Htop).
    unfold gput. do 2 f_equal. destruct S3 as [[Hi3 Ht3] _ _].
    assert (Hr : fa_owned s3 r) by (apply (tree_owned _ _ _ Ht3 []); [apply path_nil|done]).
    destruct (fa_owned_range s3 r Hi3 Hr). unfold frame_va. rewrite u64_small by lia. lia.
  - apply space_ok_trace.
    assert (Hg : gval (with_glob s3 g_cr3 (0x1000 * r)) g_kernel_pagemap = va h).
    { rewrite gval_with_glob_ne by done.
      by rewrite (ev_globals HHDM_OFFSET _ _ _ V3), (ev_globals HHDM_OFFSET _ _ _ V2). }
    match goal with |- space_ok _ ?g _ => change g with (gval (with_glob s3 g_cr3 (0x1000 * r)) g_kernel_pagemap) end.
    rewrite Hg. apply space_ok_glob; [|done|done].
    apply fa_foreign. apply elem_of_cons; right; apply elem_of_cons; right. by apply list_elem_of_singleton.
  - apply (gval_with_glob_eq s3 g_cr3).
  - match goal with |- (_ <= fa_free (KState _ _ ?t))%nat =>
      destruct (fa_trace (with_glob s3 g_cr3 (0x1000 * r)) t) as (_ & F & _) end.
    + apply fa_glob; [apply S3|]. apply fa_foreign, elem_of_cons; right; apply elem_of_cons; right. by apply list_elem_of_singleton.
    + etrans; [exact C3|]. apply Nat.eq_le_incl. etrans; [|symmetry; exact F]. symmetry. apply fa_glob; [apply S3|].
      apply fa_foreign, elem_of_cons; right; apply elem_of_cons; right. by apply list_elem_of_singleton.
  - exact St3.
  - intros y H1 H2. etrans; [by apply (gval_with_glob_ne s3 g_cr3 y)|by apply Hg3].
  - intros v. rewrite translate_leaf.
    match goal with |- context [pte_of ?st r v] => change (pte_of st r v) with (pte_of s3 r v) end.
    rewrite P3, direct_translation. do 2 (case_decide; [done|]).
    rewrite P2. case_decide; [|by rewrite P1].
    pose proof (page_off_range vb v). destruct Hpb as [Hpb Hpa].
    rewrite (u64_small (pb + _)) by lia. apply leaf_translation_map; [|done].
    unfold page_aligned. split; [lia|zlia].
Qed.

End ranges_proofs.
