(* ===== verification/VmmWitness.v ===== *)
(** Concrete address spaces, on which the theorems about [memory/vmm.c] are
    applied with the bitmap allocator as the frame allocator. *)
From S2P Require Import Prelude Machine Lock Str Interfaces Pmm PmmSpec PageTable Vmm VmmSpec VmmInit.

(** Six frames behind a direct map at [0x10000]: the bitmap in frame 0, an empty
    root table in frame 1, its [pagemap_t] in frame 2, three free frames. *)
Definition small_space : kstate :=
  KState (wr 8 (wr 1 (zeros 0x10000 (Z.to_nat 0x6000)) 0x10000 6) 0x12000 0x11000)
    {[ g_bitmap := 0x10000; g_limit := 6; g_kernel_pagemap := 0x12000 ]} [].

Lemma small_space_globals :
  gval small_space g_bitmap = 0x10000 /\ gval small_space g_limit = 6 /\ bitmap_bytes small_space = 1 /\
  gval small_space g_pmm_lock = 0 /\ gval small_space g_vmm_lock = 0.
Proof. by repeat split. Qed.

Lemma small_space_mapped a n : 0x10000 <= a -> a + n <= 0x16000 -> mapped (mem small_space) a n.
Proof. intros H1 H2. unfold small_space. cbn [mem]. apply mapped_wr, mapped_wr. intros x Hx. apply zeros_mapped. lia. Qed.

Lemma small_space_inv : pmm_inv 0x10000 small_space.
Proof.
  destruct small_space_globals as (Hb & Hl & Hbb & Hp & Hv).
  split; [split; [done|split; [by rewrite Hl|]]|lia|by rewrite Hl|by rewrite Hl|].
  - rewrite Hb, Hbb. by apply small_space_mapped.
  - intros g Hg _. rewrite Hl in Hg. split.
    + apply small_space_mapped; unfold frame_va, FRAME_SIZE; lia.
    + right. rewrite Hb, Hbb. unfold frame_va. lia.
Qed.

Lemma small_space_owned g : g = 1 \/ g = 2 -> pmm_owned 0x10000 small_space g.
Proof.
  destruct small_space_globals as (Hb & Hl & Hbb & _). intros Hg. split; [rewrite Hl; lia|]. split.
  - destruct Hg as [-> | ->]; vm_compute; reflexivity.
  - split; [apply small_space_mapped; unfold frame_va, FRAME_SIZE; lia|].
    right. rewrite Hb, Hbb. unfold frame_va. lia.
Qed.

Lemma small_space_root j : index j -> entries 0x10000 small_space 1 j = 0.
Proof.
  intros Hj. unfold entries, small_space. cbn [mem]. rewrite (rd_zero 8); [done|].
  unfold index, frame_va in *. intros x Hx. rewrite !lookup_wr_out by lia. apply zeros_byte. lia.
Qed.

Lemma small_space_tree :
  tree (pmm_owned 0x10000 small_space) (entries 0x10000 small_space) 1 /\
  forall q h, path 3 q -> walk (entries 0x10000 small_space) 1 q = Some h -> q = [].
Proof. apply empty_tree; [apply small_space_owned; by left|apply small_space_root]. Qed.

Lemma small_space_ok : space_ok 0x10000 small_space 0x12000 1.
Proof.
  destruct small_space_tree as [Ht Hw]. split; [split; [apply small_space_inv|exact Ht]| |done].
  split; [unfold small_space; cbn [mem]; apply rd_wr_same|].
  exists 2. split; [|unfold frame_va; lia]. split; [apply small_space_owned; by right|].
  intros q Hq E. pose proof (Hw q _ Hq E) as ->. discriminate E.
Qed.

Lemma small_space_free : pmm_nfree small_space = 3%nat.
Proof. vm_compute. reflexivity. Qed.

(** The tables of one page always fit. *)
Lemma small_space_cost v : (cost 0x10000 small_space 1 (dirs v) <= pmm_nfree small_space)%nat.
Proof.
  rewrite small_space_free. etrans; [apply cost_le_paths|]. etrans; [apply size_list_to_set_le|]. done.
Qed.

Lemma small_page_aligned : page_aligned 0x200000.
Proof. by unfold page_aligned. Qed.
Lemma small_flags : leaf_flags 3.
Proof. by unfold leaf_flags. Qed.

Lemma vmm_map_page_translates_witness :
  exists s', vmm_map_page 0x10000 0x12000 0x200000 0x400000 3 small_space = Ok tt s' /\
    evolves 0x10000 small_space s' 1 /\ pagemap_ok 0x10000 s' 0x12000 1 /\
    forall v', translate_of 0x10000 s' 1 v' =
      if decide (page v' = page 0x400000) then Some (0x200000 + v' mod 0x1000)
      else translate_of 0x10000 small_space 1 v'.
Proof.
  apply (vmm_map_page_translates 0x10000 small_space 0x12000 1 0x200000 0x400000 3);
    [apply small_space_ok|apply small_space_ok|apply small_space_ok|apply small_space_cost|
     apply small_page_aligned|apply small_flags].
Defined.

Lemma vmm_unmap_page_unmaps_witness :
  exists s', vmm_unmap_page 0x10000 0x12000 0x400000 small_space = Ok tt s' /\
    evolves 0x10000 small_space s' 1 /\ pagemap_ok 0x10000 s' 0x12000 1 /\
    trace s' = trace small_space ++ [EvAsm "invlpg" 0x400000] /\
    forall v', translate_of 0x10000 s' 1 v' =
      if decide (page v' = page 0x400000) then None else translate_of 0x10000 small_space 1 v'.
Proof.
  apply (vmm_unmap_page_unmaps 0x10000 small_space 0x12000 1 0x400000);
    [apply small_space_ok|apply small_space_ok|apply small_space_ok|apply small_space_cost].
Defined.

Lemma virt_to_phys_roundtrip_witness :
  exists s' s'', vmm_map_page 0x10000 0x12000 0x200000 0x400000 3 small_space = Ok tt s' /\
    virt_to_phys 0x10000 0x12000 0x400123 s' = Ok 0x200000 s'' /\
    forall w, translate_of 0x10000 s'' 1 w = translate_of 0x10000 s' 1 w.
Proof.
  apply (virt_to_phys_roundtrip 0x10000 small_space 0x12000 1 0x200000 0x400000 0x400123 3);
    [apply small_space_ok|apply small_space_ok|apply small_space_ok|apply small_space_cost|
     apply small_page_aligned|apply small_flags|reflexivity].
Defined.

Lemma vmm_map_pages_translates_witness :
  exists s', vmm_map_pages 0x10000 0x12000 0x200000 0x400000 3 2 small_space = Ok tt s' /\
    space_ok 0x10000 s' 0x12000 1 /\
    forall v', translate_of 0x10000 s' 1 v' =
      if decide (page_off 0x400000 v' < 2) then Some (0x200000 + page_off 0x400000 v' * 0x1000 + v' mod 0x1000)
      else translate_of 0x10000 small_space 1 v'.
Proof.
  apply (vmm_map_pages_translates 0x10000 small_space 0x12000 1 0x200000 0x400000 3 2);
    [apply small_space_ok|apply small_page_aligned|apply small_flags|lia|lia|].
  change (cost 0x10000 small_space 1 (page_dirs 0x400000 0 2) <= pmm_nfree small_space)%nat.
  rewrite small_space_free. etrans; [apply cost_le_paths|]. apply Nat.leb_le. vm_compute. reflexivity.
Defined.

Lemma vmm_new_pagemap_shares_witness :
  exists pm root s', vmm_new_pagemap 0x10000 small_space = Ok pm s' /\
    space_ok 0x10000 s' pm root /\ space_ok 0x10000 s' 0x12000 1 /\
    (forall v, translate_of 0x10000 s' 1 v = translate_of 0x10000 small_space 1 v) /\
    (forall v, translate_of 0x10000 s' root v =
       if decide (256 <= pml4_index v) then translate_of 0x10000 small_space 1 v else None).
Proof.
  apply (vmm_new_pagemap_shares 0x10000 small_space 0x12000 1); [apply small_space_ok|reflexivity|].
  change (2 <= pmm_nfree small_space)%nat. rewrite small_space_free. lia.
Defined.

(** The small machine with every frame in use. *)
Definition small_full : kstate :=
  KState (wr 1 (zeros 0x10000 (Z.to_nat 0x6000)) 0x10000 0xff) {[ g_bitmap := 0x10000; g_limit := 6 ]} [].

Lemma small_full_mapped a n : 0x10000 <= a -> a + n <= 0x16000 -> mapped (mem small_full) a n.
Proof. intros H1 H2. unfold small_full. cbn [mem]. apply mapped_wr. intros x Hx. apply zeros_mapped. lia. Qed.

Lemma small_full_inv : pmm_inv 0x10000 small_full /\ pmm_owned 0x10000 small_full 1 /\ pmm_nfree small_full = 0%nat.
Proof.
  assert (Hb : gval small_full g_bitmap = 0x10000) by reflexivity.
  assert (Hl : gval small_full g_limit = 6) by reflexivity.
  assert (Hbb : bitmap_bytes small_full = 1) by reflexivity.
  assert (Hm : forall g, 1 <= g < 6 -> mapped (mem small_full) (frame_va 0x10000 g) FRAME_SIZE /\ off_bitmap 0x10000 small_full g).
  { intros g Hg. split; [apply small_full_mapped; unfold frame_va, FRAME_SIZE; lia|].
    right. rewrite Hb, Hbb. unfold frame_va. lia. }
  split; [|split; [|vm_compute; reflexivity]].
  - split; [split; [done|split; [by rewrite Hl|rewrite Hb, Hbb; by apply small_full_mapped]]|
            lia|by rewrite Hl|by rewrite Hl|].
    intros g Hg _. rewrite Hl in Hg. by apply Hm.
  - split; [rewrite Hl; lia|]. split; [vm_compute; reflexivity|]. apply Hm. lia.
Qed.

Lemma get_next_level_exhausted_witness :
  get_next_level 0x10000 (frame_va 0x10000 1) 5 small_full = Halt \/
  get_next_level 0x10000 (frame_va 0x10000 1) 5 small_full = Fault.
Proof.
  apply (get_next_level_exhausted 0x10000 small_full 1 5);
    [apply small_full_inv|apply small_full_inv|unfold index; lia|vm_compute; reflexivity|apply small_full_inv].
Defined.
