(* ===== verification/Kheap.v ===== *)
(** The kernel heap of [memory/kheap.c]: a circular doubly linked list of free
    blocks that lives in the blocks themselves.

    A block at address [b] is an [alloc_node_t]: [next] at [b], [prev] at
    [b + 8], [size] at [b + 16], and the bytes for the caller from [b + 24] on
    (the field [cBlock]).  [free_list] is the address of the list head, a static
    variable of two words. *)
From S2P Require Import Prelude Machine Lock Str Interfaces Pmm.
Import Lock.Seq.

Definition HEADER_SIZE : Z := 24.
Definition sizeof_alloc_node : Z := 32.

(** * The operations *)

Section kheap.
Variables (HHDM_OFFSET free_list : Z).

Definition dll_list_add (n prev next : Z) : K unit :=
  st 8 (next + 8) n ;;
  st 8 n next ;;
  st 8 (n + 8) prev ;;
  st 8 prev n.

Definition add_block (addr size : Z) : K unit :=
  st 8 (addr + 16) (u64 (size - HEADER_SIZE)) ;;
  prev ← ld 8 (free_list + 8);
  dll_list_add addr prev free_list.

(** [block->node.next->prev = block->node.prev;
     block->node.prev->next = block->node.next;] *)
Definition unlink (block : Z) : K unit :=
  next ← ld 8 block;
  prev ← ld 8 (block + 8);
  st 8 (next + 8) prev ;;
  prev' ← ld 8 (block + 8);
  next' ← ld 8 block;
  st 8 prev' next'.

(** The test for adjacency: [prevBlock] is an [alloc_node_t *], so that the sum
    counts in units of [sizeof(alloc_node_t)]. *)
Definition coalesces (prevBlock block : Z) : K bool :=
  if prevBlock =? NULL then mret false
  else
    size ← ld 8 (prevBlock + 16);
    mret (u64 (prevBlock + sizeof_alloc_node * (size + HEADER_SIZE)) =? block).

(** One round of the loop of [coalesce_dll]; the loop variables are [prevBlock]
    and [block]. *)
Definition coalesce_body (x : Z * Z) : K ((Z * Z) + unit) :=
  let '(prevBlock, block) := x in
  if block =? free_list then mret (inr tt)
  else
    merge ← coalesces prevBlock block;
    if merge : bool then
      psize ← ld 8 (prevBlock + 16);
      bsize ← ld 8 (block + 16);
      st 8 (prevBlock + 16) (u64 (psize + (bsize + HEADER_SIZE))) ;;
      unlink block ;;
      next ← ld 8 block;
      mret (inl (prevBlock, next))
    else
      next ← ld 8 block;
      mret (inl (block, next)).
Definition coalesce_dll : K unit :=
  first ← ld 8 free_list;
  kloop coalesce_body (NULL, first).

(** First fit: the block, or [None] when the loop comes back to the head. *)
Definition find_body (size block : Z) : K (Z + option Z) :=
  if block =? free_list then mret (inr None)
  else
    bsize ← ld 8 (block + 16);
    if size <=? bsize then mret (inr (Some block))
    else next ← ld 8 block; mret (inl next).
Definition kheap_find (size : Z) : K (option Z) :=
  first ← ld 8 free_list;
  kloop (find_body size) first.

(** The block is split when a header fits into what is left. *)
Definition kheap_split (block size : Z) : K unit :=
  bsize ← ld 8 (block + 16);
  if HEADER_SIZE <=? u64 (bsize - size) then
    let new_block := u64 (block + 24 + size) in
    st 8 (new_block + 16) (u64 (bsize - size - HEADER_SIZE)) ;;
    st 8 (block + 16) size ;;
    next ← ld 8 block;
    dll_list_add new_block block next
  else mret tt.

(** More frames from the frame allocator become one block. *)
Definition kheap_grow (size : Z) : K unit :=
  let frames := ALIGN_UP (u64 (size + HEADER_SIZE)) FRAME_SIZE / FRAME_SIZE in
  p ← pmm_malloc frames;
  add_block (u64 (p + HHDM_OFFSET)) (u64 (frames * FRAME_SIZE)) ;;
  coalesce_dll.

(** One call of [kheap_alloc]; [inl] is its call of itself. *)
Definition kheap_alloc_body (size : Z) (_ : unit) : K (unit + Z) :=
  spinlock_acquire (LG g_kheap_lock) ;;
  r ← kheap_find size;
  match r with
  | None =>
      kheap_grow size ;;
      spinlock_release (LG g_kheap_lock) ;;
      mret (inl tt)
  | Some block =>
      kheap_split block size ;;
      unlink block ;;
      spinlock_release (LG g_kheap_lock) ;;
      mret (inr (block + 24))
  end.
Definition kheap_alloc (size : Z) : K Z := kloop (kheap_alloc_body size) tt.

Definition kheap_calloc (size : Z) : K Z :=
  ptr ← kheap_alloc size;
  if negb (ptr =? NULL) then memset ptr 0 size ;; mret ptr else mret NULL.

(** The search of [kheap_free]: the first free block above [block], or the head. *)
Definition above_body (block free_block : Z) : K (Z + (Z * bool)) :=
  if free_block =? free_list then mret (inr (free_block, false))
  else if block <? free_block then mret (inr (free_block, true))
  else next ← ld 8 free_block; mret (inl next).

(** The block goes before the first one above it; without one, behind the head. *)
Definition free_link (block : Z) : K unit :=
  first ← ld 8 free_list;
  '(free_block, above) ← kloop (above_body block) first;
  if above : bool then
    prev ← ld 8 (free_block + 8);
    dll_list_add block prev free_block
  else
    next ← ld 8 free_block;
    dll_list_add block free_block next.

Definition kheap_free (ptr : Z) : K unit :=
  spinlock_acquire (LG g_kheap_lock) ;;
  let block := u64 (ptr - 24) in
  size ← ld 8 (block + 16);
  if (FRAME_SIZE <=? u64 (size + sizeof_alloc_node)) && (u64 (block - 24) mod FRAME_SIZE =? 0) then
    size' ← ld 8 (block + 16);
    (* a subtraction of pointers to [alloc_node_t]; the lock is kept *)
    pmm_free (u64 (block - 24 - sizeof_alloc_node * HHDM_OFFSET))
      (u64 (size' + sizeof_alloc_node) / FRAME_SIZE)
  else
    free_link block ;;
    coalesce_dll ;;
    spinlock_release (LG g_kheap_lock).

Definition kheap_realloc (ptr new_size : Z) : K Z :=
  if (ptr =? NULL) && (new_size =? 0) then mret NULL
  else if new_size =? 0 then kheap_free ptr ;; mret NULL
  else if ptr =? NULL then kheap_alloc new_size
  else
    old_size ← ld 8 (u64 (ptr - 24) + 16);
    ret ← kheap_alloc new_size;
    if ret =? NULL then mret NULL
    else memcpy ret ptr old_size ;; mret ret.

Definition kheap_init : K unit :=
  p ← pmm_malloc 1;
  add_block (u64 (p + HHDM_OFFSET)) FRAME_SIZE ;;
  printf "Kernel heap initialized.\n" [].

End kheap.
