(* ===== verification/KheapSpec.v ===== *)
(** The kernel heap: the free list as a list of blocks, and what the operations
    of [memory/kheap.c] do to it. *)
From S2P Require Import Prelude Machine Lock Str Interfaces Pmm PmmSpec Kheap.
Import Lock.Seq.

(** * The free list in memory *)

(** The consecutive nodes of the chain from [x] through [l] to [z]. *)
Fixpoint pairs (x : Z) (l : list Z) (z : Z) : list (Z * Z) :=
  match l with
  | [] => [(x, z)]
  | y :: l' => (x, y) :: pairs y l' z
  end.

(** [next] of the first node is the second, [prev] of the second the first. *)
Definition linked (m : gmap Z byte) (xy : Z * Z) : Prop :=
  rd 8 m (fst xy) = Some (snd xy) /\ rd 8 m (snd xy + 8) = Some (fst xy).

(** Memory regions (address, length) that do not overlap. *)
Definition apart (r r' : Z * Z) : Prop := fst r + snd r <= fst r' \/ fst r' + snd r' <= fst r.
Fixpoint seps (rs : list (Z * Z)) : Prop :=
  match rs with
  | [] => True
  | r :: rs' => (forall r', r' ∈ rs' -> apart r r') /\ seps rs'
  end.

(** A block with its header. *)
Definition region (blk : Z * Z) : Z * Z := (fst blk, HEADER_SIZE + snd blk).

Section heap.
Context (free_list : Z).

Definition regions (bs live : list (Z * Z)) : list (Z * Z) :=
  (free_list, 16) :: (region <$> bs) ++ (region <$> live).

(** The heap with the free blocks [bs] (address and size, in list order) and the
    blocks [live] that callers hold. *)
Record heap_ok (m : gmap Z byte) (bs live : list (Z * Z)) : Prop := {
  hp_links : Forall (linked m) (pairs free_list (fst <$> bs) free_list);
  hp_sizes : forall blk, blk ∈ bs ++ live -> rd 8 m (fst blk + 16) = Some (snd blk);
  hp_range : forall r, r ∈ regions bs live -> 0 < fst r /\ 0 <= snd r /\ fst r + snd r < 2 ^ 64;
  hp_mapped : forall r, r ∈ regions bs live -> mapped m (fst r) (snd r);
  hp_seps : seps (regions bs live)
}.

End heap.

(** * Regions *)

Section regions.
Implicit Types (r : Z * Z) (rs : list (Z * Z)).

Lemma apart_sym r r' : apart r r' -> apart r' r.
Proof. unfold apart. tauto. Qed.

Lemma seps_app rs1 rs2 :
  seps (rs1 ++ rs2) <-> seps rs1 /\ seps rs2 /\ (forall r r', r ∈ rs1 -> r' ∈ rs2 -> apart r r').
Proof.
  induction rs1 as [|r rs1 IH]; simpl.
  - split; [|tauto]. intros H. split; [done|]. split; [done|]. by intros r r' ?%elem_of_nil.
  - rewrite IH. split.
    + intros (H1 & H2 & H3 & H4). split; [split; [|done]|split; [done|]].
      * intros r' Hr'. apply H1, elem_of_app. by left.
      * intros a a' [->|Ha]%elem_of_cons Ha'; [apply H1, elem_of_app; by right|by apply H4].
    + intros ((H1 & H2) & H3 & H4). split.
      * intros r' [Hr'|Hr']%elem_of_app; [by apply H1|]. apply H4; [apply elem_of_cons; by left|done].
      * split; [done|]. split; [done|]. intros a a' Ha. apply H4, elem_of_cons. by right.
Qed.

Lemma seps_perm rs rs' : rs ≡ₚ rs' -> seps rs -> seps rs'.
Proof.
  induction 1 as [|r rs rs' Hp IH|r1 r2 rs|rs1 rs2 rs3 H1 IH1 H2 IH2]; simpl; [done| | |by auto].
  - intros [H Hs]. split; [|by auto]. intros r' Hr'. apply H. by rewrite Hp.
  - intros (H1 & H2 & H3). split; [|split; [|done]].
    + intros r' [->|Hr']%elem_of_cons; [|by apply H2]. apply apart_sym, H1, elem_of_cons. by left.
    + intros r' Hr'. apply H1, elem_of_cons. by right.
Qed.

(** A region may shrink, or be cut in two. *)
Lemma seps_cut r rs rs' :
  seps (r :: rs) -> seps rs' ->
  (forall r', r' ∈ rs' -> fst r <= fst r' /\ fst r' + snd r' <= fst r + snd r) -> seps (rs' ++ rs).
Proof.
  intros [H1 H2] H3 H4. apply seps_app. split; [done|]. split; [done|].
  intros a a' Ha Ha'. specialize (H1 a' Ha'). specialize (H4 a Ha). unfold apart in *. lia.
Qed.

End regions.

(** * Chains *)

Section chains.
Implicit Types (x y z p q : Z) (l : list Z) (m : gmap Z byte) (prs : list (Z * Z)).

Lemma pairs_app x l1 y l2 z : pairs x (l1 ++ y :: l2) z = pairs x l1 y ++ pairs y l2 z.
Proof. revert x. induction l1 as [|a l1 IH]; intros x; simpl; [done|]. by rewrite IH. Qed.

Lemma pairs_fst x l z : (pairs x l z).*1 = x :: l.
Proof. revert x. induction l as [|y l IH]; intros x; simpl; [done|]. by rewrite IH. Qed.
Lemma pairs_snd x l z : (pairs x l z).*2 = l ++ [z].
Proof. revert x. induction l as [|y l IH]; intros x; simpl; [done|]. by rewrite IH. Qed.

(** The nodes around a position of the chain. *)
Definition before x l : Z := default x (list.last l).
Definition after l z : Z := default z (head l).

Lemma pairs_split x l1 l2 z :
  let p := before x l1 in let q := after l2 z in
  exists L R, pairs x (l1 ++ l2) z = L ++ (p, q) :: R /\
    (forall c, pairs x (l1 ++ c :: l2) z = L ++ (p, c) :: (c, q) :: R) /\
    L.*1 ++ [p] = x :: l1 /\ L.*2 = l1 /\ R.*1 = l2 /\ q :: R.*2 = l2 ++ [z].
Proof.
  revert x. induction l1 as [|y l1 IH]; intros x p q.
  - destruct l2 as [|y l2]; [by exists [], []|]. exists [], (pairs y l2 z).
    by rewrite pairs_fst, pairs_snd.
  - destruct (IH y) as (L & R & H1 & H2 & H3 & H4 & H5 & H6). exists ((x, y) :: L), R.
    assert (Hp : before x (y :: l1) = before y l1).
    { unfold before. rewrite list.last_cons. by destruct (list.last l1). }
    unfold p. rewrite Hp. split; [simpl; by rewrite H1|]. split; [intros c; simpl; by rewrite H2|].
    split; [change (x :: (L.*1 ++ [before y l1]) = x :: y :: l1); by rewrite H3|].
    split; [change (y :: L.*2 = y :: l1); by rewrite H4|done].
Qed.

(** Nodes of 16 bytes each. *)
Definition nodes_apart (ns : list Z) : Prop :=
  forall x y, x ∈ ns -> y ∈ ns -> x <> y -> x + 16 <= y \/ y + 16 <= x.

Lemma linked_wr_next m ns p v prs :
  nodes_apart ns -> p ∈ ns -> (forall x, x ∈ prs.*1 -> x ∈ ns) -> (forall y, y ∈ prs.*2 -> y ∈ ns) ->
  p ∉ prs.*1 -> Forall (linked m) prs -> Forall (linked (wr 8 m p v)) prs.
Proof.
  intros Hn Hp H1 H2 Hnp Hf. apply list.Forall_forall. intros [x y] Hxy.
  destruct (proj1 (list.Forall_forall _ _) Hf _ Hxy) as [Hx Hy]. simpl in *.
  assert (Ix : x ∈ prs.*1) by (by apply list_elem_of_fmap; exists (x, y)).
  assert (Iy : y ∈ prs.*2) by (by apply list_elem_of_fmap; exists (x, y)).
  assert (x <> p) by congruence. specialize (H1 x Ix). specialize (H2 y Iy).
  split; simpl; rewrite rd_wr_ne; try done.
  - pose proof (Hn x p). intuition lia.
  - destruct (decide (y = p)) as [->|Hne]; [lia|]. pose proof (Hn y p). intuition lia.
Qed.

Lemma linked_wr_prev m ns q v prs :
  nodes_apart ns -> q ∈ ns -> (forall x, x ∈ prs.*1 -> x ∈ ns) -> (forall y, y ∈ prs.*2 -> y ∈ ns) ->
  q ∉ prs.*2 -> Forall (linked m) prs -> Forall (linked (wr 8 m (q + 8) v)) prs.
Proof.
  intros Hn Hp H1 H2 Hnp Hf. apply list.Forall_forall. intros [x y] Hxy.
  destruct (proj1 (list.Forall_forall _ _) Hf _ Hxy) as [Hx Hy]. simpl in *.
  assert (Ix : x ∈ prs.*1) by (by apply list_elem_of_fmap; exists (x, y)).
  assert (Iy : y ∈ prs.*2) by (by apply list_elem_of_fmap; exists (x, y)).
  assert (y <> q) by congruence. specialize (H1 x Ix). specialize (H2 y Iy).
  split; simpl; rewrite rd_wr_ne; try done.
  - destruct (decide (x = q)) as [->|Hne]; [lia|]. pose proof (Hn x q). intuition lia.
  - pose proof (Hn y q). intuition lia.
Qed.

(** A write outside all nodes. *)
Lemma linked_wr_out m n a v prs :
  (forall x, x ∈ prs.*1 ++ prs.*2 -> x + 16 <= a \/ a + Z.of_nat n <= x) ->
  Forall (linked m) prs -> Forall (linked (wr n m a v)) prs.
Proof.
  intros H Hf. apply list.Forall_forall. intros [x y] Hxy.
  destruct (proj1 (list.Forall_forall _ _) Hf _ Hxy) as [Hx Hy]. simpl in *.
  assert (Ix : x ∈ prs.*1 ++ prs.*2) by (apply elem_of_app; left; by apply list_elem_of_fmap; exists (x, y)).
  assert (Iy : y ∈ prs.*1 ++ prs.*2) by (apply elem_of_app; right; by apply list_elem_of_fmap; exists (x, y)).
  apply H in Ix, Iy. split; simpl; rewrite rd_wr_ne; try done; lia.
Qed.

Definition in_nodes (ns : list Z) prs : Prop :=
  (forall x, x ∈ prs.*1 -> x ∈ ns) /\ (forall y, y ∈ prs.*2 -> y ∈ ns).

(** The memory after [dll_list_add n p q] and after [unlink]. *)
Definition mem_add m n p q : gmap Z byte :=
  wr 8 (wr 8 (wr 8 (wr 8 m (q + 8) n) n q) (n + 8) p) p n.
Definition mem_unlink m p q : gmap Z byte := wr 8 (wr 8 m (q + 8) p) p q.

Lemma add_links m ns n p q prs :
  nodes_apart ns -> n ∈ ns -> p ∈ ns -> q ∈ ns -> n <> p -> n <> q -> in_nodes ns prs ->
  p ∉ prs.*1 -> n ∉ prs.*1 -> q ∉ prs.*2 -> n ∉ prs.*2 -> 0 <= n < 2 ^ 64 -> 0 <= p < 2 ^ 64 -> 0 <= q < 2 ^ 64 ->
  Forall (linked m) prs -> Forall (linked (mem_add m n p q)) ((p, n) :: (n, q) :: prs).
Proof.
  intros Hns Hn Hp Hq Hnp Hnq [H1 H2] P1 N1 Q2 N2 Rn Rp Rq Hf. unfold mem_add.
  assert (Anp : n + 16 <= p \/ p + 16 <= n) by (by apply Hns).
  assert (Anq : n + 16 <= q \/ q + 16 <= n) by (by apply Hns).
  assert (Apq : p = q \/ p + 16 <= q \/ q + 16 <= p) by (destruct (decide (p = q)); [by left|right; by apply Hns]).
  rewrite !list.Forall_cons. split; [|split].
  - split; simpl.
    + rewrite rd_wr_same. f_equal. by apply Z.mod_small.
    + rewrite rd_wr_ne by lia. rewrite rd_wr_same. f_equal. by apply Z.mod_small.
  - split; simpl.
    + rewrite rd_wr_ne, rd_wr_ne by lia. rewrite rd_wr_same. f_equal. by apply Z.mod_small.
    + rewrite rd_wr_ne, rd_wr_ne, rd_wr_ne by lia. rewrite rd_wr_same. f_equal. by apply Z.mod_small.
  - apply (linked_wr_next _ ns); [done..|]. apply (linked_wr_prev _ ns); [done..|].
    apply (linked_wr_next _ ns); [done..|]. by apply (linked_wr_prev _ ns).
Qed.

Lemma unlink_links m ns p q prs :
  nodes_apart ns -> p ∈ ns -> q ∈ ns -> in_nodes ns prs ->
  p ∉ prs.*1 -> q ∉ prs.*2 -> 0 <= p < 2 ^ 64 -> 0 <= q < 2 ^ 64 ->
  Forall (linked m) prs -> Forall (linked (mem_unlink m p q)) ((p, q) :: prs).
Proof.
  intros Hns Hp Hq [H1 H2] P1 Q2 Rp Rq Hf. unfold mem_unlink.
  assert (Apq : p = q \/ p + 16 <= q \/ q + 16 <= p) by (destruct (decide (p = q)); [by left|right; by apply Hns]).
  rewrite list.Forall_cons. split.
  - split; simpl.
    + rewrite rd_wr_same. f_equal. by apply Z.mod_small.
    + rewrite rd_wr_ne by lia. rewrite rd_wr_same. f_equal. by apply Z.mod_small.
  - apply (linked_wr_next _ ns); [done..|]. by apply (linked_wr_prev _ ns).
Qed.

End chains.

(** * The list operations *)

Section list_ops.
Implicit Types (s : kstate) (n p q b : Z).

Lemma dll_list_add_eq s n p q :
  mapped (mem s) n 16 -> mapped (mem s) p 8 -> mapped (mem s) (q + 8) 8 ->
  dll_list_add n p q s = Ok tt (with_mem s (mem_add (mem s) n p q)).
Proof.
  intros Hn Hp Hq. unfold dll_list_add, mem_add.
  assert (Hn0 : mapped (mem s) n 8) by (eapply mapped_sub; [exact Hn|lia|lia]).
  assert (Hn8 : mapped (mem s) (n + 8) 8) by (eapply mapped_sub; [exact Hn|lia|lia]).
  erewrite bind_Ok by (by apply st_ok). erewrite bind_Ok by (apply st_ok; by apply mapped_wr).
  erewrite bind_Ok by (apply st_ok; by do 2 apply mapped_wr). rewrite st_ok; [done|by do 3 apply mapped_wr].
Qed.

Lemma unlink_eq s b p q :
  rd 8 (mem s) b = Some q -> rd 8 (mem s) (b + 8) = Some p ->
  mapped (mem s) p 8 -> mapped (mem s) (q + 8) 8 -> b + 16 <= q \/ q + 16 <= b ->
  unlink b s = Ok tt (with_mem s (mem_unlink (mem s) p q)).
Proof.
  intros Hb Hb8 Hp Hq Hne. unfold unlink, mem_unlink.
  erewrite bind_Ok by (by apply ld_ok). erewrite bind_Ok by (by apply ld_ok).
  erewrite bind_Ok by (by apply st_ok). erewrite bind_Ok by (apply ld_ok; simpl; by rewrite rd_wr_ne by lia).
  erewrite bind_Ok by (apply ld_ok; simpl; by rewrite rd_wr_ne by lia).
  rewrite st_ok; [done|by apply mapped_wr].
Qed.

End list_ops.

(** * Heaps *)

Section heaps.
Context (free_list : Z).
Implicit Types (m : gmap Z byte) (bs live : list (Z * Z)) (blk : Z * Z) (b c k n : Z).
Local Abbreviation heap_ok := (heap_ok free_list).
Local Abbreviation regions := (regions free_list).

Definition nodes bs : list Z := free_list :: bs.*1.

Lemma seps_elem rs r r' : seps rs -> r ∈ rs -> r' ∈ rs -> fst r <> fst r' -> apart r r'.
Proof.
  induction rs as [|a rs IH]; simpl; [by intros _ ?%elem_of_nil|].
  intros [Ha Hs] [->|Hr]%elem_of_cons [->|Hr']%elem_of_cons Hne; [done|by apply Ha| |by apply IH].
  apply apart_sym. by apply Ha.
Qed.

Lemma seps_nodup rs : seps rs -> (forall r, r ∈ rs -> 0 < snd r) -> NoDup rs.*1.
Proof.
  induction rs as [|a rs IH]; simpl; [constructor|]. intros [Ha Hs] Hpos. apply list.NoDup_cons. split.
  - intros (r & Er & Hr)%list_elem_of_fmap. specialize (Ha r Hr). unfold apart in Ha.
    pose proof (Hpos a ltac:(apply elem_of_cons; by left)). pose proof (Hpos r ltac:(apply elem_of_cons; by right)). lia.
  - apply IH; [done|]. intros r Hr. apply Hpos, elem_of_cons. by right.
Qed.

Lemma elem_of_regions r bs live :
  r ∈ regions bs live <-> r = (free_list, 16) \/ exists blk, (blk ∈ bs \/ blk ∈ live) /\ r = region blk.
Proof.
  unfold KheapSpec.regions. rewrite elem_of_cons, elem_of_app, !list_elem_of_fmap. split.
  - intros [?|[(blk & -> & ?)|(blk & -> & ?)]]; [by left|right; exists blk; tauto..].
  - intros [?|(blk & [?|?] & ->)]; [by left|right; left; by exists blk|right; right; by exists blk].
Qed.

Lemma heap_size_range m bs live blk :
  heap_ok m bs live -> blk ∈ bs \/ blk ∈ live -> 0 <= snd blk < 2 ^ 64.
Proof.
  intros Hh Hb. assert (Hr : rd 8 m (fst blk + 16) = Some (snd blk)) by (apply (hp_sizes _ _ _ _ Hh), elem_of_app; done).
  by apply rd_range in Hr.
Qed.

(** A node is the start of a region of at least 16 bytes. *)
Lemma node_region m bs live x :
  heap_ok m bs live -> x ∈ nodes bs -> exists len, (x, len) ∈ regions bs live /\ 16 <= len.
Proof.
  intros Hh [->|(blk & -> & Hb)%list_elem_of_fmap]%elem_of_cons.
  - exists 16. split; [apply elem_of_regions; by left|lia].
  - exists (24 + snd blk). pose proof (heap_size_range _ _ _ blk Hh ltac:(by left)).
    split; [|lia]. apply elem_of_regions. right. exists blk. split; [by left|done].
Qed.

Lemma heap_nodes_apart m bs live : heap_ok m bs live -> nodes_apart (nodes bs).
Proof.
  intros Hh x y Hx Hy Hne. destruct (node_region _ _ _ _ Hh Hx) as (lx & Rx & Hlx).
  destruct (node_region _ _ _ _ Hh Hy) as (ly & Ry & Hly).
  pose proof (seps_elem _ _ _ (hp_seps _ _ _ _ Hh) Rx Ry Hne) as H. unfold apart in H. simpl in H. lia.
Qed.

Lemma heap_nodes_range m bs live x : heap_ok m bs live -> x ∈ nodes bs -> 0 < x /\ x + 16 < 2 ^ 64 /\ mapped m x 16.
Proof.
  intros Hh Hx. destruct (node_region _ _ _ _ Hh Hx) as (lx & Rx & Hlx).
  pose proof (hp_range _ _ _ _ Hh _ Rx) as H. simpl in H. split; [lia|]. split; [lia|].
  eapply mapped_sub; [exact (hp_mapped _ _ _ _ Hh _ Rx)|simpl; lia|simpl; lia].
Qed.

Lemma heap_nodup m bs live : heap_ok m bs live -> NoDup (nodes bs).
Proof.
  intros Hh. pose proof (hp_seps _ _ _ _ Hh) as Hs. unfold KheapSpec.regions in Hs.
  change (seps (((free_list, 16) :: (region <$> bs)) ++ (region <$> live))) in Hs.
  apply seps_app in Hs as [Hs _]. apply seps_nodup in Hs.
  - simpl in Hs. by rewrite <- list_fmap_compose in Hs.
  - intros r [->|(blk & -> & Hb)%list_elem_of_fmap]%elem_of_cons; [simpl; lia|].
    pose proof (heap_size_range _ _ _ blk Hh ltac:(by left)). unfold region, HEADER_SIZE. simpl. lia.
Qed.

Lemma mem_add_out m n p q x :
  ~ (n <= x < n + 16) -> ~ (p <= x < p + 16) -> ~ (q <= x < q + 16) -> mem_add m n p q !! x = m !! x.
Proof. intros. unfold mem_add. by rewrite !lookup_wr_out by lia. Qed.

Lemma mem_unlink_out m p q x :
  ~ (p <= x < p + 16) -> ~ (q <= x < q + 16) -> mem_unlink m p q !! x = m !! x.
Proof. intros. unfold mem_unlink. by rewrite !lookup_wr_out by lia. Qed.

(** [m'] maps the addresses that [m] maps. *)
Definition same_dom m m' : Prop := forall x, is_Some (m' !! x) <-> is_Some (m !! x).

Lemma same_dom_wr m m' (n : nat) a v :
  same_dom m m' -> mapped m a (Z.of_nat n) -> same_dom m (wr n m' a v).
Proof.
  intros Hd Hm x. rewrite <- (Hd x). apply (same_outside_wr n m' a v).
  intros y Hy. by apply Hd, Hm.
Qed.

Lemma mem_add_dom m n p q :
  mapped m n 16 -> mapped m p 8 -> mapped m (q + 8) 8 -> same_dom m (mem_add m n p q).
Proof.
  intros Hn Hp Hq. unfold mem_add.
  repeat (apply same_dom_wr; [|done || (eapply mapped_sub; [exact Hn|lia|lia])]). done.
Qed.

Lemma mem_unlink_dom m p q : mapped m p 8 -> mapped m (q + 8) 8 -> same_dom m (mem_unlink m p q).
Proof. intros Hp Hq. unfold mem_unlink. by repeat (apply same_dom_wr; [|done]). Qed.

Lemma same_dom_trans m1 m2 m3 : same_dom m1 m2 -> same_dom m2 m3 -> same_dom m1 m3.
Proof. intros H1 H2 x. by rewrite (H2 x), (H1 x). Qed.

(** The size and the payload of a block are not part of any node. *)
Lemma heap_payload m bs live blk n x :
  heap_ok m bs live -> blk ∈ bs \/ blk ∈ live -> n ∈ nodes bs ->
  fst blk + 16 <= x < fst blk + 24 + snd blk -> ~ (n <= x < n + 16).
Proof.
  intros Hh Hb Hn Hx. destruct (decide (n = fst blk)) as [->|Hne]; [lia|].
  destruct (node_region _ _ _ _ Hh Hn) as (len & Hr & Hlen).
  assert (Hr' : region blk ∈ regions bs live) by (apply elem_of_regions; right; by exists blk).
  pose proof (seps_elem _ _ _ (hp_seps _ _ _ _ Hh) Hr Hr' Hne) as H.
  unfold apart, region, HEADER_SIZE in H. simpl in H. lia.
Qed.

Lemma before_node l1 l2 : before free_list l1.*1 ∈ nodes (l1 ++ l2).
Proof.
  unfold before, nodes. destruct (list.last l1.*1) as [p|] eqn:E; simpl; [|apply elem_of_cons; by left].
  apply elem_of_cons. right. rewrite fmap_app. apply elem_of_app. left. by apply last_Some_elem_of.
Qed.

Lemma after_node l1 l2 : after l2.*1 free_list ∈ nodes (l1 ++ l2).
Proof.
  unfold after, nodes. destruct l2 as [|[b k] l2]; simpl; [apply elem_of_cons; by left|].
  apply elem_of_cons. right. rewrite fmap_app. apply elem_of_app. right. apply elem_of_cons. by left.
Qed.

Lemma nodes_insert l1 c k l2 x : x ∈ nodes (l1 ++ l2) -> x ∈ nodes (l1 ++ (c, k) :: l2).
Proof.
  unfold nodes. rewrite !elem_of_cons, !fmap_app, !elem_of_app. simpl. rewrite elem_of_cons. tauto.
Qed.

(** Where the chain is cut: the links on both sides mention [p] and [q] once. *)
Lemma chain_cut ns x l1 l2 z (L R : list (Z * Z)) p q :
  L.*1 ++ [p] = x :: l1 -> L.*2 = l1 -> R.*1 = l2 -> q :: R.*2 = l2 ++ [z] ->
  x = z -> NoDup (x :: l1 ++ l2) -> (forall y, y ∈ (x :: l1 ++ l2) -> y ∈ ns) ->
  in_nodes ns (L ++ R) /\ (p ∉ (L ++ R).*1) /\ (q ∉ (L ++ R).*2).
Proof.
  intros H1 H2 H3 H4 -> Hnd Hns. unfold in_nodes. rewrite !fmap_app, H2, H3.
  assert (Hn1 : NoDup (L.*1 ++ p :: l2)) by (rewrite cons_middle, app_assoc, H1; done).
  assert (Hn2 : NoDup (q :: l1 ++ R.*2)).
  { rewrite Permutation_middle, H4, app_assoc, Permutation_app_comm. done. }
  assert (Hsub1 : forall y, y ∈ L.*1 -> y ∈ z :: l1) by (intros y Hy; rewrite <- H1; apply elem_of_app; by left).
  assert (Hsub2 : forall y, y ∈ R.*2 -> y ∈ l2 ++ [z]) by (intros y Hy; rewrite <- H4; apply elem_of_cons; by right).
  split; [split|split].
  - intros y [Hy|Hy]%elem_of_app; apply Hns.
    + apply Hsub1, elem_of_cons in Hy. rewrite elem_of_cons, elem_of_app. tauto.
    + rewrite elem_of_cons, elem_of_app. tauto.
  - intros y [Hy|Hy]%elem_of_app; apply Hns.
    + rewrite elem_of_cons, elem_of_app. tauto.
    + apply Hsub2 in Hy. rewrite elem_of_app, list_elem_of_singleton in Hy. rewrite elem_of_cons, elem_of_app. tauto.
  - apply list.NoDup_app in Hn1 as (_ & Hd & [Hp _]%list.NoDup_cons). intros [Hy|Hy]%elem_of_app; [|done].
    apply (Hd p Hy), elem_of_cons. by left.
  - by apply list.NoDup_cons in Hn2 as [Hq _].
Qed.

Lemma heap_cut ns l1 l2 :
  let p := before free_list l1.*1 in let q := after l2.*1 free_list in
  NoDup (nodes (l1 ++ l2)) -> (forall y, y ∈ nodes (l1 ++ l2) -> y ∈ ns) ->
  exists L R, pairs free_list (l1 ++ l2).*1 free_list = L ++ (p, q) :: R /\
    (forall c k, pairs free_list (l1 ++ (c, k) :: l2).*1 free_list = L ++ (p, c) :: (c, q) :: R) /\
    in_nodes ns (L ++ R) /\ (p ∉ (L ++ R).*1) /\ (q ∉ (L ++ R).*2).
Proof.
  intros p q. unfold nodes. rewrite !fmap_app. intros Hnd Hns.
  destruct (pairs_split free_list l1.*1 l2.*1 free_list) as (L & R & H1 & H2 & H3 & H4 & H5 & H6).
  exists L, R. split; [done|]. split; [intros c k; rewrite fmap_app; apply H2|].
  by apply (chain_cut ns free_list l1.*1 l2.*1 free_list L R).
Qed.

(** A block in the list: its address occurs nowhere else. *)
Lemma heap_nodup_cut m l1 b k l2 live :
  heap_ok m (l1 ++ (b, k) :: l2) live -> NoDup (nodes (l1 ++ l2)) /\ b ∉ nodes (l1 ++ l2).
Proof.
  intros Hh. pose proof (heap_nodup _ _ _ Hh) as Hnd. unfold nodes in *. rewrite fmap_app in *.
  change (((b, k) :: l2).*1) with (b :: l2.*1) in Hnd.
  rewrite <- Permutation_middle, Permutation_swap in Hnd. apply list.NoDup_cons in Hnd. tauto.
Qed.

Lemma regions_insert l1 c k l2 live :
  regions (l1 ++ (c, k) :: l2) live ≡ₚ (region (c, k) :: regions (l1 ++ l2) live).
Proof.
  unfold KheapSpec.regions. rewrite !fmap_app, fmap_cons, <- !app_assoc, <- app_comm_cons.
  rewrite <- Permutation_middle. by rewrite Permutation_swap.
Qed.

(** Rebuilding the invariant when only nodes changed. *)
Lemma heap_rebuild m m' bs live bs' live' :
  heap_ok m bs live ->
  Forall (linked m') (pairs free_list bs'.*1 free_list) ->
  (forall blk, blk ∈ bs' ++ live' -> rd 8 m' (fst blk + 16) = Some (snd blk)) ->
  (forall r, r ∈ regions bs' live' -> 0 < fst r /\ 0 <= snd r /\ fst r + snd r < 2 ^ 64 /\ mapped m (fst r) (snd r)) ->
  (forall a k, mapped m a k -> mapped m' a k) -> seps (regions bs' live') ->
  heap_ok m' bs' live'.
Proof.
  intros Hh Hl Hs Hr Hm Hsep. split; [done|done| | |done].
  - intros r H. destruct (Hr r H) as (? & ? & ? & _). done.
  - intros r H. destruct (Hr r H) as (_ & _ & _ & ?). by apply Hm.
Qed.

(** A block that leaves the list. *)
Lemma heap_unlink m l1 b k l2 live :
  heap_ok m (l1 ++ (b, k) :: l2) live ->
  let p := before free_list l1.*1 in let q := after l2.*1 free_list in
  rd 8 m b = Some q /\ rd 8 m (b + 8) = Some p /\ (b + 16 <= q \/ q + 16 <= b) /\
  mapped m p 8 /\ mapped m (q + 8) 8 /\ heap_ok (mem_unlink m p q) (l1 ++ l2) ((b, k) :: live).
Proof.
  intros Hh p q. destruct (heap_nodup_cut _ _ _ _ _ _ Hh) as [Hnd Hbn].
  pose proof (heap_nodes_apart _ _ _ Hh) as Hna. pose proof (nodes_insert l1 b k l2) as Hins.
  assert (Hpn : p ∈ nodes (l1 ++ l2)) by apply before_node.
  assert (Hqn : q ∈ nodes (l1 ++ l2)) by apply after_node.
  assert (Hp : p ∈ nodes (l1 ++ (b, k) :: l2)) by (by apply Hins).
  assert (Hq : q ∈ nodes (l1 ++ (b, k) :: l2)) by (by apply Hins).
  destruct (heap_nodes_range _ _ _ _ Hh Hp) as (Rp & Rp' & Mp). destruct (heap_nodes_range _ _ _ _ Hh Hq) as (Rq & Rq' & Mq).
  destruct (heap_cut (nodes (l1 ++ (b, k) :: l2)) l1 l2 Hnd Hins) as (L & R & H1 & H2 & Hin & HpL & HqR).
  pose proof (hp_links _ _ _ _ Hh) as Hl. rewrite (H2 b k) in Hl. apply Forall_app in Hl as [HL Hl].
  rewrite !list.Forall_cons in Hl. destruct Hl as ([_ Lpb] & [Lbq _] & HR). simpl in Lpb, Lbq.
  assert (Hbq : b + 16 <= q \/ q + 16 <= b).
  { apply Hna; [|done|by intros ->]. unfold nodes. rewrite fmap_app, elem_of_cons, elem_of_app.
    right. right. apply elem_of_cons. by left. }
  split; [done|]. split; [done|]. split; [done|]. split; [eapply mapped_sub; [exact Mp|lia|lia]|].
  split; [eapply mapped_sub; [exact Mq|lia|lia]|].
  assert (Hperm : regions (l1 ++ l2) ((b, k) :: live) ≡ₚ regions (l1 ++ (b, k) :: l2) live).
  { rewrite regions_insert. unfold KheapSpec.regions. rewrite fmap_cons, <- Permutation_middle. by rewrite Permutation_swap. }
  apply (heap_rebuild m _ _ _ _ _ Hh).
  - rewrite H1, <- Permutation_middle. apply (unlink_links m (nodes (l1 ++ (b, k) :: l2))); [done..|lia|lia|].
    by apply Forall_app.
  - intros blk Hblk. rewrite (rd_ext 8 m).
    + apply (hp_sizes _ _ _ _ Hh). rewrite !elem_of_app, !elem_of_cons in *. tauto.
    + assert (Hblk' : blk ∈ l1 ++ (b, k) :: l2 \/ blk ∈ live) by (rewrite !elem_of_app, !elem_of_cons in *; tauto).
      pose proof (heap_size_range _ _ _ _ Hh Hblk'). intros x Hx.
      apply mem_unlink_out; eapply heap_payload; try done; lia.
  - intros r Hr. rewrite Hperm in Hr. destruct (hp_range _ _ _ _ Hh r Hr) as (? & ? & ?).
    split; [done|]. split; [done|]. split; [done|]. by apply (hp_mapped _ _ _ _ Hh).
  - intros a n Ha. by do 2 apply mapped_wr.
  - eapply seps_perm; [symmetry; exact Hperm|]. apply Hh.
Qed.

(** A block that enters the list between [l1] and [l2]. *)
Lemma heap_insert m l1 l2 live c k :
  heap_ok m (l1 ++ l2) live -> seps (region (c, k) :: regions (l1 ++ l2) live) ->
  0 < c -> 0 <= k -> c + (24 + k) < 2 ^ 64 -> mapped m c (24 + k) -> rd 8 m (c + 16) = Some k ->
  let p := before free_list l1.*1 in let q := after l2.*1 free_list in
  rd 8 m p = Some q /\ rd 8 m (q + 8) = Some p /\ mapped m p 8 /\ mapped m (q + 8) 8 /\
  heap_ok (mem_add m c p q) (l1 ++ (c, k) :: l2) live.
Proof.
  intros Hh Hsep Hc Hk Hck Hm Hsz p q. pose proof (heap_nodup _ _ _ Hh) as Hnd.
  assert (Hpn : p ∈ nodes (l1 ++ l2)) by apply before_node.
  assert (Hqn : q ∈ nodes (l1 ++ l2)) by apply after_node.
  destruct (heap_nodes_range _ _ _ _ Hh Hpn) as (Rp & Rp' & Mp). destruct (heap_nodes_range _ _ _ _ Hh Hqn) as (Rq & Rq' & Mq).
  assert (Hca : forall y, y ∈ nodes (l1 ++ l2) -> c + 24 + k <= y \/ y + 16 <= c).
  { intros y Hy. destruct (node_region _ _ _ _ Hh Hy) as (len & Hr & Hlen).
    pose proof (proj1 Hsep _ Hr) as Ha. unfold apart, region, HEADER_SIZE in Ha. simpl in Ha. lia. }
  assert (Hcn : c ∉ nodes (l1 ++ l2)) by (intros Hcc; specialize (Hca c Hcc); lia).
  assert (Hna : nodes_apart (c :: nodes (l1 ++ l2))).
  { intros x y [->|Hx]%elem_of_cons [->|Hy]%elem_of_cons Hne; [done| | |by apply (heap_nodes_apart _ _ _ Hh)].
    - specialize (Hca y Hy). lia.
    - specialize (Hca x Hx). lia. }
  destruct (heap_cut (nodes (l1 ++ l2)) l1 l2 Hnd ltac:(done)) as (L & R & H1 & H2 & [Hi1 Hi2] & HpL & HqR).
  pose proof (hp_links _ _ _ _ Hh) as Hl. rewrite H1, <- Permutation_middle in Hl.
  apply list.Forall_cons in Hl as [[Lp Lq] Hl].
  split; [done|]. split; [done|]. split; [eapply mapped_sub; [exact Mp|lia|lia]|].
  split; [eapply mapped_sub; [exact Mq|lia|lia]|]. apply (heap_rebuild m _ _ _ _ _ Hh).
  - rewrite H2, <- !Permutation_middle. apply (add_links m (c :: nodes (l1 ++ l2))); try done; try lia.
    + apply elem_of_cons. by left.
    + apply elem_of_cons. by right.
    + apply elem_of_cons. by right.
    + intros E0. by rewrite E0 in Hcn.
    + intros E0. by rewrite E0 in Hcn.
    + split; intros y Hy; apply elem_of_cons; right; by auto.
    + intros Hcc. by apply Hcn, Hi1.
    + intros Hcc. by apply Hcn, Hi2.
  - intros blk Hblk. assert (Hcase : blk = (c, k) \/ blk ∈ l1 ++ l2 \/ blk ∈ live)
      by (rewrite !elem_of_app, !elem_of_cons in *; tauto).
    rewrite (rd_ext 8 m).
    + destruct Hcase as [->|Hold]; [done|]. apply (hp_sizes _ _ _ _ Hh), elem_of_app, Hold.
    + intros x Hx. destruct Hcase as [->|Hold].
      * simpl in Hx. pose proof (Hca p Hpn). pose proof (Hca q Hqn). apply mem_add_out; lia.
      * pose proof (heap_size_range _ _ _ _ Hh Hold).
        assert (Hr : region blk ∈ regions (l1 ++ l2) live) by (apply elem_of_regions; right; by exists blk).
        pose proof (proj1 Hsep _ Hr) as Ha. unfold apart, region, HEADER_SIZE in Ha. simpl in Ha.
        apply mem_add_out; [lia|eapply heap_payload; try done; lia..].
  - intros r Hr. rewrite regions_insert in Hr. apply elem_of_cons in Hr as [->|Hr].
    + unfold region, HEADER_SIZE. simpl. split; [done|]. split; [lia|]. split; [lia|done].
    + destruct (hp_range _ _ _ _ Hh r Hr) as (? & ? & ?).
      split; [done|]. split; [done|]. split; [done|]. by apply (hp_mapped _ _ _ _ Hh).
  - intros a n Ha. by do 4 apply mapped_wr.
  - eapply seps_perm; [symmetry; apply regions_insert|done].
Qed.

(** * Searching *)

(** The first block of at least [n] bytes. *)
Fixpoint first_block (n : Z) (bs : list (Z * Z)) : option Z :=
  match bs with
  | [] => None
  | (b, k) :: bs' => if n <=? k then Some b else first_block n bs'
  end.

Lemma heap_length m bs live : heap_ok m bs live -> Z.of_nat (length bs) + 1 <= 2 ^ 64.
Proof.
  intros Hh. pose proof (heap_nodup _ _ _ Hh) as Hnd.
  assert (Hs : nodes bs ⊆+ seqZ 0 (2 ^ 64)).
  { apply NoDup_submseteq; [done|]. intros x Hx. apply elem_of_seqZ.
    destruct (heap_nodes_range _ _ _ _ Hh Hx) as (? & ? & _). lia. }
  apply submseteq_length in Hs. rewrite length_seqZ in Hs. unfold nodes in Hs. simpl in Hs.
  rewrite length_fmap in Hs. lia.
Qed.

Lemma find_runs n s bs x :
  Forall (linked (mem s)) (pairs x bs.*1 free_list) -> free_list ∉ bs.*1 ->
  (forall blk, blk ∈ bs -> rd 8 (mem s) (fst blk + 16) = Some (snd blk)) ->
  exists j, (j <= S (length bs))%nat /\
    runs (find_body free_list n) j (after bs.*1 free_list) s (first_block n bs) s.
Proof.
  revert x. induction bs as [|[b k] bs IH]; intros x Hl Hfl Hs.
  - exists 1%nat. split; [simpl; lia|]. apply runs_exit. unfold find_body, after. simpl. by rewrite Z.eqb_refl.
  - change (((b, k) :: bs).*1) with (b :: bs.*1) in *. simpl pairs in Hl. apply list.Forall_cons in Hl as [_ Hl].
    apply not_elem_of_cons in Hfl as [Hne Hfl].
    assert (Hsz : rd 8 (mem s) (b + 16) = Some k) by (apply (Hs (b, k)), elem_of_cons; by left).
    assert (Hnx : rd 8 (mem s) b = Some (after bs.*1 free_list)).
    { destruct bs as [|[c j] bs]; apply list.Forall_cons in Hl as [[H _] _]; exact H. }
    assert (Hb : find_body free_list n b s =
      if n <=? k then Ok (inr (Some b)) s else Ok (inl (after bs.*1 free_list)) s).
    { unfold find_body. destruct (Z.eqb_spec b free_list); [congruence|].
      rewrite (bind_Ok _ _ s k s) by (by apply ld_ok). destruct (n <=? k); [done|].
      by rewrite (bind_Ok _ _ s (after bs.*1 free_list) s) by (by apply ld_ok). }
    simpl first_block. change (after (b :: bs.*1) free_list) with b. destruct (n <=? k).
    + exists 1%nat. split; [lia|]. by apply runs_exit.
    + destruct (IH b Hl Hfl) as (j & Hj & Hr); [intros blk Hblk; apply Hs, elem_of_cons; by right|].
      exists (S j). split; [simpl; lia|]. by eapply runs_next.
Qed.

Lemma heap_first m bs live : heap_ok m bs live -> rd 8 m free_list = Some (after bs.*1 free_list).
Proof.
  intros Hh. pose proof (hp_links _ _ _ _ Hh) as Hl.
  destruct bs as [|[b k] bs]; apply list.Forall_cons in Hl as [[H _] _]; exact H.
Qed.

Lemma heap_fl_fresh m bs live : heap_ok m bs live -> free_list ∉ bs.*1.
Proof. intros Hh. pose proof (heap_nodup _ _ _ Hh) as Hnd. by apply list.NoDup_cons in Hnd as [? _]. Qed.

Lemma kheap_find_eq n s bs live :
  heap_ok (mem s) bs live -> kheap_find free_list n s = Ok (first_block n bs) s.
Proof.
  intros Hh. unfold kheap_find. rewrite (bind_Ok _ _ s (after bs.*1 free_list) s) by (by apply ld_ok, (heap_first _ _ live)).
  destruct (find_runs n s bs free_list) as (j & Hj & Hr);
    [apply Hh|by eapply heap_fl_fresh|intros blk Hb; apply (hp_sizes _ _ _ _ Hh), elem_of_app; by left|].
  apply (kloop_runs _ j); [done|]. pose proof (heap_length _ _ _ Hh). lia.
Qed.

(** * Splitting *)

(** What is left of a block of [k] bytes at [b] after [n] of them are taken. *)
Definition remainder (b k n : Z) : list (Z * Z) :=
  if HEADER_SIZE <=? k - n then [(b + 24 + n, k - n - HEADER_SIZE)] else [].
Definition taken (b k n : Z) : Z * Z := (b, if HEADER_SIZE <=? k - n then n else k).

(** Writing behind the links of a block. *)
Lemma heap_links_block m' m live l1 b k l2 (n : nat) a v :
  heap_ok m (l1 ++ (b, k) :: l2) live -> b + 16 <= a -> a + Z.of_nat n <= b + 24 + k ->
  Forall (linked m') (pairs free_list (l1 ++ (b, k) :: l2).*1 free_list) ->
  Forall (linked (wr n m' a v)) (pairs free_list (l1 ++ (b, k) :: l2).*1 free_list).
Proof.
  intros Hh Ha1 Ha2. apply linked_wr_out. intros x Hx.
  assert (Hn : x ∈ nodes (l1 ++ (b, k) :: l2)).
  { revert Hx. rewrite pairs_fst, pairs_snd. unfold nodes.
    rewrite elem_of_app, !elem_of_cons, elem_of_app, list_elem_of_singleton. tauto. }
  destruct (decide (x = b)) as [->|Hne]; [lia|].
  destruct (node_region _ _ _ _ Hh Hn) as (len & Hr & Hlen).
  assert (Hbr : region (b, k) ∈ regions (l1 ++ (b, k) :: l2) live).
  { rewrite regions_insert. apply elem_of_cons. by left. }
  pose proof (seps_elem _ _ _ (hp_seps _ _ _ _ Hh) Hr Hbr Hne) as Ha.
  unfold apart, region, HEADER_SIZE in Ha. simpl in Ha. lia.
Qed.

(** The block shrinks in place. *)
Lemma heap_shrink m l1 b k l2 live n j v :
  heap_ok m (l1 ++ (b, k) :: l2) live -> 0 <= n -> n + 24 + j = k -> 0 <= j ->
  let m' := wr 8 (wr 8 m (b + 24 + n + 16) v) (b + 16) n in
  heap_ok m' (l1 ++ (b, n) :: l2) live /\
  seps (region (b + 24 + n, j) :: regions (l1 ++ (b, n) :: l2) live) /\
  (forall x, ~ (b + 16 <= x < b + 24 + k) -> m' !! x = m !! x).
Proof.
  intros Hh Hn Hj Hj0 m'.
  assert (Hbr : (b, 24 + k) ∈ regions (l1 ++ (b, k) :: l2) live).
  { apply elem_of_regions. right. exists (b, k). split; [left; apply elem_of_app; right; apply elem_of_cons; by left|done]. }
  pose proof (hp_seps _ _ _ _ Hh) as Hsep. eapply seps_perm in Hsep; [|apply regions_insert].
  destruct (hp_range _ _ _ _ Hh _ Hbr) as (Rb & _ & Rb'). simpl in Rb, Rb'.
  assert (Hout : forall x, ~ (b + 16 <= x < b + 24 + k) -> m' !! x = m !! x).
  { intros x Hx. unfold m'. by rewrite !lookup_wr_out by lia. }
  assert (Hcut : seps ([region (b + 24 + n, j); region (b, n)] ++ regions (l1 ++ l2) live)).
  { apply (seps_cut (region (b, k))); [done| |].
    - split; [|split; [by intros r' ?%elem_of_nil|done]]. intros r' ->%list_elem_of_singleton.
      unfold apart, region, HEADER_SIZE. simpl. lia.
    - intros r' [-> | ->%list_elem_of_singleton]%elem_of_cons; unfold region, HEADER_SIZE; simpl; lia. }
  split; [|split; [|done]].
  2:{ eapply seps_perm; [|exact Hcut]. simpl. by rewrite regions_insert. }
  destruct (heap_nodup_cut _ _ _ _ _ _ Hh) as [_ Hbn].
  apply (heap_rebuild m _ _ _ _ _ Hh).
  - rewrite !fmap_app. change (((b, n) :: l2).*1) with (((b, k) :: l2).*1). rewrite <- fmap_app.
    unfold m'. apply (heap_links_block _ m live); [done|lia|lia|].
    apply (heap_links_block _ m live); [done|lia|lia|]. apply Hh.
  - intros blk Hblk. assert (Hcase : blk = (b, n) \/ blk ∈ l1 ++ l2 \/ blk ∈ live)
      by (rewrite !elem_of_app, !elem_of_cons in *; tauto).
    destruct Hcase as [->|Hold]; simpl.
    + unfold m'. rewrite rd_wr_same. f_equal. apply Z.mod_small. simpl. lia.
    + assert (Hold' : blk ∈ l1 ++ (b, k) :: l2 \/ blk ∈ live) by (rewrite !elem_of_app, !elem_of_cons in *; tauto).
      rewrite (rd_ext 8 m); [apply (hp_sizes _ _ _ _ Hh), elem_of_app, Hold'|].
      intros x Hx. apply Hout. pose proof (heap_size_range _ _ _ _ Hh Hold').
      assert (Hr : region blk ∈ regions (l1 ++ l2) live) by (apply elem_of_regions; right; by exists blk).
      pose proof (proj1 Hsep _ Hr) as Ha. unfold apart, region, HEADER_SIZE in Ha. simpl in Ha. lia.
  - intros r Hr. rewrite regions_insert in Hr. apply elem_of_cons in Hr as [->|Hr].
    + unfold region, HEADER_SIZE. simpl. split; [done|]. split; [lia|]. split; [lia|].
      eapply mapped_sub; [exact (hp_mapped _ _ _ _ Hh _ Hbr)|simpl; lia|simpl; lia].
    + assert (Hr' : r ∈ regions (l1 ++ (b, k) :: l2) live) by (rewrite regions_insert; apply elem_of_cons; by right).
      destruct (hp_range _ _ _ _ Hh r Hr') as (? & ? & ?).
      split; [done|]. split; [done|]. split; [done|]. by apply (hp_mapped _ _ _ _ Hh).
  - intros a len Ha. by do 2 apply mapped_wr.
  - eapply seps_perm; [symmetry; apply regions_insert|]. simpl in Hcut. apply Hcut.
Qed.

(** * Taking a block *)

Lemma before_app l1 b k : before free_list (l1 ++ [(b, k)]).*1 = b.
Proof. unfold before. rewrite fmap_app. simpl. by rewrite list.last_snoc. Qed.

Lemma kheap_split_eq s l1 b k l2 live n :
  heap_ok (mem s) (l1 ++ (b, k) :: l2) live -> 0 <= n <= k ->
  exists m', kheap_split b n s = Ok tt (with_mem s m') /\
    heap_ok m' (l1 ++ taken b k n :: remainder b k n ++ l2) live /\ same_dom (mem s) m' /\
    (forall x, (forall nd, nd ∈ nodes (l1 ++ (b, k) :: l2) -> ~ (nd <= x < nd + 16)) ->
       ~ (b <= x < b + 24 + k) -> m' !! x = mem s !! x).
Proof.
  intros Hh Hn. unfold kheap_split, taken, remainder.
  assert (Hbk : (b, k) ∈ l1 ++ (b, k) :: l2) by (apply elem_of_app; right; apply elem_of_cons; by left).
  pose proof (heap_size_range _ _ _ _ Hh (or_introl Hbk)) as Hk. simpl in Hk.
  assert (Hr : region (b, k) ∈ regions (l1 ++ (b, k) :: l2) live) by (rewrite regions_insert; apply elem_of_cons; by left).
  destruct (hp_range _ _ _ _ Hh _ Hr) as (Rb & _ & Rb'). pose proof (hp_mapped _ _ _ _ Hh _ Hr) as Mb.
  unfold region, HEADER_SIZE in Rb, Rb', Mb. simpl in Rb, Rb', Mb.
  rewrite (bind_Ok _ _ s k s) by (apply ld_ok, (hp_sizes _ _ _ _ Hh (b, k)), elem_of_app; by left).
  rewrite u64_small by lia. destruct (Z.leb_spec HEADER_SIZE (k - n)) as [Hsp|Hsp]; unfold HEADER_SIZE in *.
  2:{ exists (mem s). split; [by destruct s|]. by split. }
  rewrite (u64_small (b + 24 + n)), (u64_small (k - n - 24)) by lia. set (c := b + 24 + n). set (j := k - n - 24).
  destruct (heap_shrink (mem s) l1 b k l2 live n j j Hh) as (Hh1 & Hsep1 & Hout1); [lia..|].
  set (m1 := wr 8 (wr 8 (mem s) (c + 16) j) (b + 16) n). fold c in Hh1, Hsep1, Hout1. fold m1 in Hh1, Hout1.
  assert (Hmap : forall a len, mapped (mem s) a len -> mapped m1 a len) by (intros; by do 2 apply mapped_wr).
  replace (l1 ++ (b, n) :: l2) with ((l1 ++ [(b, n)]) ++ l2) in Hh1, Hsep1 by (by rewrite <- app_assoc).
  destruct (heap_insert m1 (l1 ++ [(b, n)]) l2 live c j Hh1 Hsep1) as (Lp & Lq & Mp & Mq & Hh2); [lia..| | |].
  { apply Hmap. eapply mapped_sub; [exact Mb|lia|lia]. }
  { unfold m1. rewrite rd_wr_ne, rd_wr_same by lia. f_equal. apply Z.mod_small. simpl. lia. }
  rewrite before_app in *. set (q := after l2.*1 free_list) in *. exists (mem_add m1 c b q). split; [|split; [|split]].
  - erewrite bind_Ok by (apply st_ok; eapply mapped_sub; [exact Mb|lia|lia]).
    erewrite bind_Ok by (apply st_ok; apply mapped_wr; eapply mapped_sub; [exact Mb|lia|lia]).
    rewrite (bind_Ok _ _ (with_mem s m1) q (with_mem s m1)) by (by apply ld_ok).
    rewrite dll_list_add_eq; [done| |done|done]. apply Hmap. eapply mapped_sub; [exact Mb|lia|lia].
  - by rewrite <- app_assoc in Hh2.
  - apply (same_dom_trans _ m1).
    + unfold m1. do 2 (apply same_dom_wr; [|eapply mapped_sub; [exact Mb|lia|lia]]). done.
    + apply mem_add_dom; [|done|done]. apply Hmap. eapply mapped_sub; [exact Mb|lia|lia].
  - intros x Hx Hb. rewrite mem_add_out; [apply Hout1; lia|lia|lia|]. apply Hx. unfold q.
    apply nodes_insert, after_node.
Qed.

Lemma kheap_take_eq s l1 b k l2 live n :
  heap_ok (mem s) (l1 ++ (b, k) :: l2) live -> 0 <= n <= k ->
  exists m', (kheap_split b n ;; unlink b) s = Ok tt (with_mem s m') /\
    heap_ok m' (l1 ++ remainder b k n ++ l2) (taken b k n :: live) /\ same_dom (mem s) m' /\
    (forall x, (forall nd, nd ∈ nodes (l1 ++ (b, k) :: l2) -> ~ (nd <= x < nd + 16)) ->
       ~ (b <= x < b + 24 + k) -> m' !! x = mem s !! x).
Proof.
  intros Hh Hn. destruct (kheap_split_eq s l1 b k l2 live n Hh Hn) as (m1 & E1 & Hh1 & Hd1 & Hout1).
  rewrite (bind_Ok _ _ _ _ _ E1). unfold taken in Hh1. set (kb := if HEADER_SIZE <=? k - n then n else k) in Hh1.
  destruct (heap_unlink m1 l1 b kb (remainder b k n ++ l2) live Hh1) as (Lb & Lb8 & Hbq & Mp & Mq & Hh2).
  eexists. split; [by apply (unlink_eq (with_mem s m1))|]. split; [done|].
  split; [eapply same_dom_trans; [exact Hd1|by apply mem_unlink_dom]|].
  intros x Hx Hb. simpl. rewrite mem_unlink_out; [by apply Hout1| |].
  - apply Hx. apply nodes_insert, before_node.
  - unfold remainder. destruct (Z.leb_spec HEADER_SIZE (k - n)) as [Hsp|].
    + unfold HEADER_SIZE in *. change (~ (b + 24 + n <= x < b + 24 + n + 16)). lia.
    + apply Hx. apply nodes_insert, after_node.
Qed.

(** The blocks after an allocation lie inside the blocks before it. *)
Lemma taken_regions l1 b k l2 live n r :
  0 <= n <= k -> r ∈ regions (l1 ++ remainder b k n ++ l2) (taken b k n :: live) ->
  exists r', r' ∈ regions (l1 ++ (b, k) :: l2) live /\ fst r' <= fst r /\ fst r + snd r <= fst r' + snd r'.
Proof.
  intros Hn [->|(blk & Hb & ->)]%elem_of_regions.
  { exists (free_list, 16). split; [apply elem_of_regions; by left|lia]. }
  assert (Hcase : blk ∈ l1 ++ l2 \/ blk ∈ live \/ blk ∈ remainder b k n ++ [taken b k n])
    by (rewrite !elem_of_app, !elem_of_cons in *; tauto).
  destruct Hcase as [Ho|[Ho|Hnew]].
  - exists (region blk). split; [|lia]. apply elem_of_regions. right. exists blk. split; [|done].
    left. rewrite !elem_of_app, elem_of_cons in *. tauto.
  - exists (region blk). split; [|lia]. apply elem_of_regions. right. exists blk. by split; [right|].
  - exists (region (b, k)). split; [rewrite regions_insert; apply elem_of_cons; by left|].
    unfold remainder, taken in Hnew. unfold region, HEADER_SIZE in *.
    destruct (Z.leb_spec 24 (k - n)); rewrite elem_of_app, ?list_elem_of_singleton in Hnew;
      (destruct Hnew as [Hnew|Hnew]; [|subst; simpl; lia]); [subst; simpl; lia|by apply elem_of_nil in Hnew].
Qed.

(** A heap does not depend on the memory outside its regions. *)
Lemma heap_ext m m' bs live :
  heap_ok m bs live ->
  (forall r x, r ∈ regions bs live -> fst r <= x < fst r + snd r -> m' !! x = m !! x) -> heap_ok m' bs live.
Proof.
  intros Hh He.
  assert (Hnode : forall y, y ∈ nodes bs -> rd 8 m' y = rd 8 m y /\ rd 8 m' (y + 8) = rd 8 m (y + 8)).
  { intros y Hy. destruct (node_region _ _ _ _ Hh Hy) as (len & Hr & Hlen).
    split; apply rd_ext; intros x Hx; apply (He (y, len)); simpl; (done || lia). }
  split.
  - pose proof (hp_links _ _ _ _ Hh) as Hl. apply list.Forall_forall. intros [x y] Hxy.
    destruct (proj1 (list.Forall_forall _ _) Hl _ Hxy) as [H1 H2].
    assert (Hx : x ∈ (pairs free_list bs.*1 free_list).*1) by (apply list_elem_of_fmap; by exists (x, y)).
    assert (Hy : y ∈ (pairs free_list bs.*1 free_list).*2) by (apply list_elem_of_fmap; by exists (x, y)).
    rewrite pairs_fst in Hx. rewrite pairs_snd, elem_of_app, list_elem_of_singleton in Hy.
    assert (Hy' : y ∈ nodes bs) by (apply elem_of_cons; tauto).
    destruct (Hnode x Hx) as [E1 _], (Hnode y Hy') as [_ E2]. split; simpl in *; by rewrite ?E1, ?E2.
  - intros blk Hb. rewrite <- (hp_sizes _ _ _ _ Hh blk Hb). apply rd_ext. intros x Hx.
    apply elem_of_app in Hb. pose proof (heap_size_range _ _ _ _ Hh Hb).
    apply (He (region blk)); [apply elem_of_regions; right; by exists blk|]. unfold region, HEADER_SIZE. simpl. lia.
  - apply Hh.
  - intros r Hr x Hx. rewrite (He r x Hr Hx). by apply (hp_mapped _ _ _ _ Hh r Hr).
  - apply Hh.
Qed.

(** * Coalescing *)

(** No block is where the (wrongly scaled) end of its predecessor is. *)
Fixpoint quiet (bs : list (Z * Z)) : Prop :=
  match bs with
  | (b, k) :: ((c, _) :: _) as bs' => u64 (b + sizeof_alloc_node * (k + HEADER_SIZE)) <> c /\ quiet bs'
  | _ => True
  end.

Lemma coalesce_runs s bs x prev kp :
  Forall (linked (mem s)) (pairs x bs.*1 free_list) -> free_list ∉ bs.*1 ->
  (forall blk, blk ∈ bs -> rd 8 (mem s) (fst blk + 16) = Some (snd blk)) ->
  prev = NULL \/ (rd 8 (mem s) (prev + 16) = Some kp /\ quiet ((prev, kp) :: bs)) ->
  quiet bs -> NULL ∉ bs.*1 ->
  runs (coalesce_body free_list) (S (length bs)) (prev, after bs.*1 free_list) s tt s.
Proof.
  revert x prev kp. induction bs as [|[b k] bs IH]; intros x prev kp Hl Hfl Hs Hp Hq H0.
  - apply runs_exit. unfold coalesce_body, after. simpl. by rewrite Z.eqb_refl.
  - change (((b, k) :: bs).*1) with (b :: bs.*1) in *. simpl pairs in Hl. apply list.Forall_cons in Hl as [_ Hl].
    apply not_elem_of_cons in Hfl as [Hne Hfl]. apply not_elem_of_cons in H0 as [Hb0 H0].
    assert (Hsz : rd 8 (mem s) (b + 16) = Some k) by (apply (Hs (b, k)), elem_of_cons; by left).
    assert (Hnx : rd 8 (mem s) b = Some (after bs.*1 free_list)).
    { destruct bs as [|[c j] bs]; apply list.Forall_cons in Hl as [[H _] _]; exact H. }
    apply (runs_next _ _ _ _ (b, after bs.*1 free_list) s).
    + change (after (b :: bs.*1) free_list) with b. unfold coalesce_body.
      destruct (Z.eqb_spec b free_list); [congruence|].
      rewrite (bind_Ok _ _ s false s).
      * rewrite (bind_Ok _ _ s (after bs.*1 free_list) s) by (by apply ld_ok). done.
      * unfold coalesces. destruct Hp as [->|[Hps [Hpq _]]]; [done|].
        destruct (Z.eqb_spec prev NULL); [done|]. rewrite (bind_Ok _ _ s kp s) by (by apply ld_ok).
        by destruct (Z.eqb_spec (u64 (prev + sizeof_alloc_node * (kp + HEADER_SIZE))) b).
    + apply (IH b b k); [done|done| |by right|by destruct bs as [|[c j] bs]; [|destruct Hq]|done].
      intros blk Hblk. apply Hs, elem_of_cons. by right.
Qed.

Lemma coalesce_quiet s bs live :
  heap_ok (mem s) bs live -> quiet bs -> coalesce_dll free_list s = Ok tt s.
Proof.
  intros Hh Hq. unfold coalesce_dll.
  rewrite (bind_Ok _ _ s (after bs.*1 free_list) s) by (by apply ld_ok, (heap_first _ _ live)).
  pose proof (heap_length _ _ _ Hh). apply (kloop_runs _ (S (length bs))); [|lia].
  apply (coalesce_runs s bs free_list NULL 0); [apply Hh|by eapply heap_fl_fresh| |by left|done|].
  - intros blk Hb. apply (hp_sizes _ _ _ _ Hh), elem_of_app. by left.
  - intros H0. destruct (heap_nodes_range _ _ _ NULL Hh) as (? & _); [apply elem_of_cons; by right|].
    unfold NULL in *. lia.
Qed.

End heaps.
