(* ===== verification/KheapProps.v ===== *)
(** What the kernel heap promises: [kheap_alloc] hands out memory that overlaps
    neither the free blocks nor any block in use, from the free list or from new
    frames; and three ways in which [memory/kheap.c] breaks this. *)
From S2P Require Import Prelude Machine Lock Str Interfaces Pmm PmmSpec Kheap KheapSpec.
Import Lock.Seq.

Section alloc.
Context (HHDM_OFFSET free_list : Z).
Implicit Types (s : kstate) (bs live : list (Z * Z)) (b k n f : Z).
Local Abbreviation heap_ok := (heap_ok free_list).
Local Abbreviation regions := (regions free_list).
Local Abbreviation va := (frame_va HHDM_OFFSET).

(** The heap and the frame allocator it draws on: no region of the heap is in a
    free frame or in the bitmap. *)
Record kheap_inv s bs live : Prop := {
  ki_heap : heap_ok (mem s) bs live;
  ki_lock : gval s g_kheap_lock = 0;
  ki_pmm : pmm_inv HHDM_OFFSET s;
  ki_bitmap : forall r, r ∈ regions bs live -> apart r (gval s g_bitmap, bitmap_bytes s);
  ki_frames : forall r g, r ∈ regions bs live -> 1 <= g < gval s g_limit -> used s g = false ->
    apart r (va g, FRAME_SIZE)
}.

(** The bytes that belong to the callers. *)
Definition live_kept s s' live : Prop :=
  forall blk x, blk ∈ live -> fst blk + 16 <= x < fst blk + 24 + snd blk -> mem s' !! x = mem s !! x.

(** Memory that is not the heap's: neither in a region of the heap, nor in the
    bitmap, nor in a free frame. *)
Definition foreign s bs live x : Prop :=
  (forall r, r ∈ regions bs live -> ~ (fst r <= x < fst r + snd r)) /\
  ~ (gval s g_bitmap <= x < gval s g_bitmap + bitmap_bytes s) /\
  (forall g, 1 <= g < gval s g_limit -> used s g = false -> ~ (va g <= x < va g + FRAME_SIZE)).
Definition foreign_kept s s' bs live : Prop := forall x, foreign s bs live x -> mem s' !! x = mem s !! x.

Lemma kheap_body_fit s l1 b k l2 live n :
  heap_ok (mem s) (l1 ++ (b, k) :: l2) live -> gval s g_kheap_lock = 0 ->
  Forall (fun blk => snd blk < n) l1 -> 0 <= n <= k ->
  exists s', kheap_alloc_body HHDM_OFFSET free_list n tt s = Ok (inr (b + 24)) s' /\
    heap_ok (mem s') (l1 ++ remainder b k n ++ l2) (taken b k n :: live) /\
    same_globals s s' /\ trace s' = trace s /\
    (forall x, (forall nd, nd ∈ nodes free_list (l1 ++ (b, k) :: l2) -> ~ (nd <= x < nd + 16)) ->
       ~ (b <= x < b + 24 + k) -> mem s' !! x = mem s !! x) /\
    same_dom (mem s) (mem s').
Proof.
  intros Hh Hl Hsm Hn. set (s0 := with_glob s g_kheap_lock 1).
  destruct (kheap_take_eq free_list s0 l1 b k l2 live n Hh Hn) as (m' & E & Hh' & Hd & Hout).
  exists (with_glob (with_mem s0 m') g_kheap_lock 0). split; [|split; [done|split; [|split; [done|split; [done|]]]]].
  - unfold kheap_alloc_body. rewrite (bind_Ok _ _ s tt s0) by (apply acquire_free; simpl; by rewrite Hl).
    rewrite (bind_Ok _ _ s0 (first_block n (l1 ++ (b, k) :: l2)) s0) by (by eapply kheap_find_eq).
    assert (Hf : first_block n (l1 ++ (b, k) :: l2) = Some b).
    { clear - Hsm Hn. induction Hsm as [|[c j] l1 Hc Hsm IH]; simpl in *.
      - by destruct (Z.leb_spec n k); [|lia].
      - by destruct (Z.leb_spec n j); [lia|]. }
    rewrite Hf, (bind_assoc_Ok _ _ _ _ _ _ E).
    rewrite (bind_Ok _ _ _ tt (with_glob (with_mem s0 m') g_kheap_lock 0)); [done|].
    apply release_held. simpl. f_equal. apply gval_with_glob_eq.
  - intros v. destruct (decide (v = g_kheap_lock)) as [->|]; [by rewrite gval_with_glob_eq|].
    rewrite gval_with_glob_ne, gval_with_mem by done. unfold s0. by rewrite gval_with_glob_ne.
  - done.
Qed.

(** The invariant after a change inside the regions of the heap. *)
Lemma kheap_inv_step s s' bs live bs' live' :
  kheap_inv s bs live -> heap_ok (mem s') bs' live' ->
  same_globals s s' -> same_dom (mem s) (mem s') ->
  (forall x, (forall r, r ∈ regions bs live -> ~ (fst r <= x < fst r + snd r)) -> mem s' !! x = mem s !! x) ->
  (forall r, r ∈ regions bs' live' ->
     exists r', r' ∈ regions bs live /\ fst r' <= fst r /\ fst r + snd r <= fst r' + snd r') ->
  kheap_inv s' bs' live'.
Proof.
  intros [H1 H2 H3 H4 H5] Hh' Hg Hd Hout Hsub.
  assert (Hag : pmm_agree s s').
  { split; [by intros v _|]. split; [done|]. intros x Hx. apply Hout. intros r Hr Hin.
    specialize (H4 r Hr). unfold apart in H4. simpl in H4. lia. }
  destruct (pmm_agree_inv HHDM_OFFSET s s' Hag H3) as (Hp & _ & _).
  split; [done|by rewrite Hg|done| |].
  - intros r Hr. destruct (Hsub r Hr) as (r' & Hr' & ? & ?). specialize (H4 r' Hr').
    unfold bitmap_bytes in *. rewrite !Hg. unfold apart in *. simpl in *. lia.
  - intros r g Hr Hgl Hu. rewrite Hg in Hgl. destruct (Hsub r Hr) as (r' & Hr' & ? & ?).
    destruct Hag as (_ & _ & Hb). rewrite (used_agree s s' g) in Hu by (done || lia || apply Hg).
    specialize (H5 r' g Hr' Hgl Hu). unfold apart in *. lia.
Qed.

(** What is foreign stays foreign. *)
Lemma foreign_step s s' bs live bs' live' x :
  kheap_inv s bs live -> same_globals s s' ->
  (forall y, (forall r, r ∈ regions bs live -> ~ (fst r <= y < fst r + snd r)) -> mem s' !! y = mem s !! y) ->
  (forall r, r ∈ regions bs' live' ->
     exists r', r' ∈ regions bs live /\ fst r' <= fst r /\ fst r + snd r <= fst r' + snd r') ->
  foreign s bs live x -> foreign s' bs' live' x.
Proof.
  intros Hk Hg Hout Hsub (X1 & X2 & X3). split; [|split].
  - intros r Hr Hin. destruct (Hsub r Hr) as (r' & Hr' & ? & ?). apply (X1 r' Hr'). lia.
  - unfold bitmap_bytes in *. by rewrite !Hg.
  - intros g Hgl Hu. rewrite Hg in Hgl. apply X3; [done|]. rewrite <- Hu. symmetry.
    apply used_agree; [apply Hg|lia|]. intros y Hy. apply Hout. intros r Hr Hin.
    pose proof (ki_bitmap _ _ _ Hk r Hr) as Hb. unfold apart in Hb. simpl in Hb. lia.
Qed.

(** What the callers see of an allocation. *)
Lemma alloc_outside bs live (l : list (Z * Z)) m b k x :
  heap_ok m bs live -> (b, k) ∈ bs ->
  (forall r, r ∈ regions bs l -> ~ (fst r <= x < fst r + snd r)) ->
  (forall nd, nd ∈ nodes free_list bs -> ~ (nd <= x < nd + 16)) /\ ~ (b <= x < b + 24 + k).
Proof.
  intros Hh Hbk Hx. split.
  - intros nd [->|(blk & -> & Hb)%list_elem_of_fmap]%elem_of_cons Hin.
    + apply (Hx (free_list, 16)); [apply elem_of_regions; by left|done].
    + pose proof (heap_size_range _ _ _ _ _ Hh (or_introl Hb)). apply (Hx (region blk)).
      * apply elem_of_regions. right. exists blk. by split; [left|].
      * unfold region, HEADER_SIZE. simpl. lia.
  - intros Hin. apply (Hx (region (b, k))).
    + apply elem_of_regions. right. exists (b, k). by split; [left|].
    + unfold region, HEADER_SIZE. simpl. lia.
Qed.

Lemma fit_kept s s' l1 b k l2 live :
  heap_ok (mem s) (l1 ++ (b, k) :: l2) live ->
  (forall x, (forall nd, nd ∈ nodes free_list (l1 ++ (b, k) :: l2) -> ~ (nd <= x < nd + 16)) ->
     ~ (b <= x < b + 24 + k) -> mem s' !! x = mem s !! x) ->
  live_kept s s' live.
Proof.
  intros Hh Hout blk x Hb Hx. apply Hout.
  - intros nd Hnd. eapply heap_payload; [done|by right|done|done].
  - intros Hin. pose proof (heap_size_range _ _ _ _ _ Hh (or_intror Hb)).
    pose proof (hp_seps _ _ _ _ Hh) as Hs. unfold KheapSpec.regions in Hs.
    change (seps (((free_list, 16) :: (region <$> l1 ++ (b, k) :: l2)) ++ (region <$> live))) in Hs.
    apply seps_app in Hs as (_ & _ & Hs).
    assert (Ha : apart (region (b, k)) (region blk)).
    { apply Hs; [apply elem_of_cons; right|]; apply list_elem_of_fmap; [exists (b, k)|by exists blk].
      split; [done|]. apply elem_of_app. right. apply elem_of_cons. by left. }
    unfold apart, region, HEADER_SIZE in Ha. simpl in Ha. lia.
Qed.

Lemma kheap_alloc_fit s l1 b k l2 live n :
  kheap_inv s (l1 ++ (b, k) :: l2) live -> Forall (fun blk => snd blk < n) l1 -> 0 <= n <= k ->
  exists s', kheap_alloc HHDM_OFFSET free_list n s = Ok (b + 24) s' /\
    kheap_inv s' (l1 ++ remainder b k n ++ l2) (taken b k n :: live) /\
    same_globals s s' /\ live_kept s s' live /\ foreign_kept s s' (l1 ++ (b, k) :: l2) live /\
    (forall x, foreign s (l1 ++ (b, k) :: l2) live x ->
       foreign s' (l1 ++ remainder b k n ++ l2) (taken b k n :: live) x).
Proof.
  intros Hk Hsm Hn. pose proof (ki_heap _ _ _ Hk) as Hh.
  destruct (kheap_body_fit s l1 b k l2 live n) as (s' & E & Hh' & Hg & _ & Hout & Hd); [done|apply Hk|done|done|].
  assert (Ho : forall x, (forall r, r ∈ regions (l1 ++ (b, k) :: l2) live -> ~ (fst r <= x < fst r + snd r)) ->
            mem s' !! x = mem s !! x).
  { intros x Hx. destruct (alloc_outside (l1 ++ (b, k) :: l2) live live (mem s) b k x) as [H1 H2];
      [done|apply elem_of_app; right; apply elem_of_cons; by left|done|by apply Hout]. }
  exists s'. split; [|split; [|split; [done|split; [by eapply fit_kept|split]]]].
  - apply (kloop_runs _ 1); [by apply runs_exit|lia].
  - eapply (kheap_inv_step s); [exact Hk|done|done|done|exact Ho|by intros r; apply taken_regions].
  - intros x (Hx & _ & _). by apply Ho.
  - intros x. apply foreign_step; [done|done|exact Ho|by intros r; apply taken_regions].
Qed.

(** C6: [kheap_alloc] is first fit and never hands out memory twice: it takes
    the first free block of at least [n] bytes, splits off what is left when a
    header fits into it, and returns the bytes behind the header.  The free list
    stays a well-formed circular list, the new block is disjoint from every free
    block and from every block that callers hold, and their bytes are not
    touched. *)
Theorem kheap_alloc_first_fit s l1 b k l2 live n :
  kheap_inv s (l1 ++ (b, k) :: l2) live -> Forall (fun blk => snd blk < n) l1 -> 0 <= n <= k ->
  exists s', kheap_alloc HHDM_OFFSET free_list n s = Ok (b + 24) s' /\
    kheap_inv s' (l1 ++ remainder b k n ++ l2) (taken b k n :: live) /\
    same_globals s s' /\ live_kept s s' live.
Proof.
  intros Hk Hsm Hn. destruct (kheap_alloc_fit s l1 b k l2 live n Hk Hsm Hn) as (s' & E & Hk' & Hg & Hl & _).
  by exists s'.
Qed.

(** * Growing the heap *)

Lemma first_fit_unique s n f g : first_fit s n f -> first_fit s n g -> f = g.
Proof.
  intros (F1 & F2 & F3 & F4) (G1 & G2 & G3 & G4).
  destruct (Z.lt_trichotomy f g) as [H|[H|H]]; [|done|].
  - by destruct (G4 f ltac:(lia)).
  - by destruct (F4 g ltac:(lia)).
Qed.

(** The frame allocator after it handed out a run. *)
Lemma frames_set_inv s s' f n :
  pmm_inv HHDM_OFFSET s -> frames_set s s' f n true -> pmm_inv HHDM_OFFSET s'.
Proof.
  intros [H1 H2 H3 H4 H5] Hfs. pose proof (fs_globals _ _ _ _ _ Hfs) as Hg.
  split; [by eapply frames_set_ok|done|by rewrite Hg|by rewrite Hg|].
  intros g Hgl Hu. rewrite Hg in Hgl. rewrite (frames_set_used _ _ _ _ _ _ Hfs) in Hu by lia.
  case_bool_decide; [done|]. destruct (H5 g Hgl Hu) as [Hm Ho]. split.
  - eapply same_outside_mapped; [apply Hfs|done].
  - unfold off_bitmap, bitmap_bytes in *. by rewrite !Hg.
Qed.

(** A region that misses every frame of a run misses the run. *)
Lemma apart_run (r : Z * Z) f n :
  0 < snd r -> (forall g, f <= g < f + n -> apart r (va g, FRAME_SIZE)) -> 0 < n ->
  apart r (va f, FRAME_SIZE * n).
Proof.
  intros Hr Hg Hn. unfold apart. simpl.
  destruct (decide (fst r + snd r <= va f \/ va f + FRAME_SIZE * n <= fst r)) as [|Hno]; [done|]. exfalso.
  pose (x := Z.max (fst r) (va f)). pose (g := f + (x - va f) / FRAME_SIZE).
  assert (Hx : 0 <= x - va f < FRAME_SIZE * n /\ fst r <= x < fst r + snd r) by (unfold x, FRAME_SIZE in *; lia).
  clearbody x. assert (Hxg : f <= g < f + n /\ va g <= x < va g + FRAME_SIZE)
    by (unfold g, frame_va, FRAME_SIZE in *; zlia).
  specialize (Hg g ltac:(lia)). unfold apart in Hg. simpl in Hg. lia.
Qed.

Lemma regions_pos m bs live r : heap_ok m bs live -> r ∈ regions bs live -> 0 < snd r.
Proof.
  intros Hh [->|(blk & Hb & ->)]%elem_of_regions; [simpl; lia|].
  pose proof (heap_size_range _ _ _ _ _ Hh Hb). unfold region, HEADER_SIZE. simpl. lia.
Qed.

(** [add_block] of memory that is not part of the heap yet. *)
Lemma add_block_eq s bs live c k :
  heap_ok (mem s) bs live -> 0 < c -> 0 <= k -> c + (24 + k) < 2 ^ 64 -> mapped (mem s) c (24 + k) ->
  (forall r, r ∈ regions bs live -> apart r (c, 24 + k)) ->
  exists m', add_block free_list c (24 + k) s = Ok tt (with_mem s m') /\
    heap_ok m' (bs ++ [(c, k)]) live /\ same_dom (mem s) m' /\
    (forall x, (forall nd, nd ∈ nodes free_list bs -> ~ (nd <= x < nd + 16)) ->
       ~ (c <= x < c + 24 + k) -> m' !! x = mem s !! x).
Proof.
  intros Hh Hc Hk Hck Hm Hap. unfold add_block, HEADER_SIZE.
  replace (u64 (24 + k - 24)) with k by (rewrite u64_small; lia).
  assert (Hm16 : mapped (mem s) (c + 16) 8) by (eapply mapped_sub; [exact Hm|lia|lia]).
  rewrite (bind_Ok _ _ s tt (with_mem s (wr 8 (mem s) (c + 16) k))) by (by apply st_ok).
  set (m1 := wr 8 (mem s) (c + 16) k).
  assert (Hh1 : heap_ok m1 bs live).
  { apply (heap_ext _ (mem s)); [done|]. intros r x Hr Hx. unfold m1. apply lookup_wr_out. intros Hin.
    specialize (Hap r Hr). unfold apart in Hap. simpl in Hap. lia. }
  rewrite <- (app_nil_r bs) in Hh1.
  destruct (heap_insert free_list m1 bs [] live c k Hh1) as (Lp & Lq & Mp & Mq & Hh2); [|done|done|done| | |].
  { split; [|apply Hh1]. intros r Hr. rewrite app_nil_r in Hr. specialize (Hap r Hr).
    unfold apart, region, HEADER_SIZE in *. simpl in *. lia. }
  { by apply mapped_wr. }
  { unfold m1. rewrite rd_wr_same. f_equal. apply Z.mod_small. simpl. lia. }
  set (p := before free_list bs.*1) in *. change (after [].*1 free_list) with free_list in *.
  exists (mem_add m1 c p free_list). split; [|split; [done|split]].
  - rewrite (bind_Ok _ _ (with_mem s m1) p (with_mem s m1)) by (by apply ld_ok).
    rewrite dll_list_add_eq; [done| |done|done]. apply mapped_wr. eapply mapped_sub; [exact Hm|lia|lia].
  - apply (same_dom_trans _ m1); [by apply same_dom_wr|].
    apply mem_add_dom; [|done|done]. apply mapped_wr. eapply mapped_sub; [exact Hm|lia|lia].
  - intros x Hx Hxc. rewrite mem_add_out; [unfold m1; apply lookup_wr_out; lia|lia| |].
    + apply Hx. rewrite <- (app_nil_r bs). apply before_node.
    + apply Hx. apply elem_of_cons. by left.
Qed.

(** The frames that [kheap_alloc] asks for, and the block they become. *)
Definition grow_frames n : Z := (n + HEADER_SIZE + 0xfff) / 0x1000.
Definition grow_block n f : Z * Z := (va f, FRAME_SIZE * grow_frames n - HEADER_SIZE).

Lemma grow_frames_eq n :
  0 <= n < 2 ^ 62 -> ALIGN_UP (u64 (n + HEADER_SIZE)) FRAME_SIZE / FRAME_SIZE = grow_frames n.
Proof.
  intros Hn. unfold grow_frames, FRAME_SIZE, HEADER_SIZE. rewrite u64_small, ALIGN_UP_page by lia. zlia.
Qed.

(** Both locks are irrelevant to the frame allocator's search. *)
Lemma first_fit_glob s n f x : first_fit s n f -> first_fit (with_glob s g_kheap_lock x) n f.
Proof.
  unfold first_fit, free_run, used. by rewrite !gval_with_glob_ne by done.
Qed.

(** The state in which the heap has the new frames. *)
Record grown_heap s s' bs live n f : Prop := {
  gh_heap : heap_ok (mem s') (bs ++ [grow_block n f]) live;
  gh_globals : same_globals s s';
  gh_dom : same_dom (mem s) (mem s');
  gh_used : forall g, 0 <= g < gval s g_limit ->
    used s' g = if bool_decide (f <= g < f + grow_frames n) then true else used s g;
  gh_pmm : pmm_inv HHDM_OFFSET s';
  gh_kept : live_kept s s' live;
  gh_foreign : foreign_kept s s' bs live
}.

(** New frames become a block at the end of the list, whatever is done next. *)
Lemma add_frames_eq s bs live n f :
  heap_ok (mem s) bs live -> pmm_inv HHDM_OFFSET s ->
  (forall r, r ∈ regions bs live -> apart r (gval s g_bitmap, bitmap_bytes s)) ->
  (forall r g, r ∈ regions bs live -> 1 <= g < gval s g_limit -> used s g = false -> apart r (va g, FRAME_SIZE)) ->
  0 <= n < 2 ^ 62 -> first_fit s (grow_frames n) f ->
  exists s', (forall A (k : K A),
      (p ← pmm_malloc (grow_frames n);
       add_block free_list (u64 (p + HHDM_OFFSET)) (u64 (grow_frames n * FRAME_SIZE)) ;; k) s = k s') /\
    grown_heap s s' bs live n f.
Proof.
  intros Hh Hp Hbm Hfr Hn Hff. set (F := grow_frames n). pose proof Hff as (Hf1 & Hf2 & Hf3 & _). fold F in Hf2, Hf3.
  assert (HF : 1 <= F < 2 ^ 51 /\ n + 24 <= FRAME_SIZE * F) by (unfold F, grow_frames, HEADER_SIZE, FRAME_SIZE; zlia).
  pose proof (pi_hhdm _ _ Hp). pose proof (pi_top _ _ Hp) as Htop.
  assert (Hvf : va f + FRAME_SIZE * F < 2 ^ 64) by (unfold frame_va, FRAME_SIZE in *; lia).
  destruct (pmm_malloc_eq s F (pi_ok _ _ Hp) ltac:(lia)) as [(f' & s1 & Hff' & E1 & Hfs)|[Hnf _]];
    [|by destruct (Hnf f Hf1 Hf2)].
  assert (f' = f) as -> by (by eapply first_fit_unique). pose proof (fs_globals _ _ _ _ _ Hfs) as Hg1.
  destruct (fs_bits _ _ _ _ _ Hfs) as [[Hd1 Ho1] _].
  assert (Hrun : mapped (mem s) (va f) (FRAME_SIZE * F)) by (by apply run_mapped).
  assert (Hoff : forall x, va f <= x < va f + FRAME_SIZE * F -> ~ (gval s g_bitmap <= x < gval s g_bitmap + bitmap_bytes s)).
  { intros x Hx. eapply (run_off_bitmap HHDM_OFFSET s f F); try done. by rewrite va_add. }
  assert (Hap : forall r, r ∈ regions bs live -> apart r (va f, FRAME_SIZE * F)).
  { intros r Hr. apply apart_run; [by eapply regions_pos| |lia]. intros g Hgr. apply Hfr; [done|lia|by apply Hf3]. }
  assert (Hh1 : heap_ok (mem s1) bs live).
  { apply (heap_ext _ (mem s)); [done|]. intros r x Hr Hx. apply Ho1. intros Hin.
    specialize (Hbm r Hr). unfold apart in Hbm. simpl in Hbm. lia. }
  set (k := FRAME_SIZE * F - 24). assert (Ek : FRAME_SIZE * F = 24 + k) by (unfold k; lia).
  destruct (add_block_eq s1 bs live (va f) k) as (m' & E2 & Hh2 & Hd2 & Ho2);
    [done|unfold frame_va; lia|unfold k; lia|lia| |rewrite <- Ek; exact Hap|].
  { rewrite <- Ek. intros x Hx. by apply Hd1, Hrun. }
  assert (Hbmk : forall x, gval s g_bitmap <= x < gval s g_bitmap + bitmap_bytes s -> m' !! x = mem s1 !! x).
  { intros x Hx. apply Ho2.
    - intros nd Hnd Hin. destruct (node_region _ _ _ _ _ Hh1 Hnd) as (len & Hr & Hlen).
      specialize (Hbm _ Hr). unfold apart in Hbm. simpl in Hbm. lia.
    - intros Hin. apply (Hoff x); [lia|done]. }
  exists (with_mem s1 m'). split.
  - intros A c. fold F. rewrite (bind_Ok _ _ _ _ _ E1). rewrite (u64_small (FRAME_SIZE * f + HHDM_OFFSET)) by (unfold frame_va, FRAME_SIZE in *; lia).
    replace (FRAME_SIZE * f + HHDM_OFFSET) with (va f) by (unfold frame_va, FRAME_SIZE; lia).
    rewrite (u64_small (F * FRAME_SIZE)) by (unfold FRAME_SIZE in *; lia).
    replace (F * FRAME_SIZE) with (24 + k) by lia. by rewrite (bind_Ok _ _ _ _ _ E2).
  - assert (Hp1 : pmm_inv HHDM_OFFSET s1) by (by eapply frames_set_inv).
    assert (Hag : pmm_agree s1 (with_mem s1 m')).
    { split; [done|]. split; [done|]. unfold bitmap_bytes. rewrite !Hg1. exact Hbmk. }
    destruct (pmm_agree_inv HHDM_OFFSET s1 (with_mem s1 m') Hag Hp1) as (Hp2 & _ & _).
    split; [exact Hh2|done|intros x; simpl; by rewrite (Hd2 x)| |done| |].
    { intros g Hgl. rewrite (used_agree s1); [by apply (frames_set_used s s1); [|lia]|done|by rewrite Hg1|apply Hag]. }
    2:{ intros x (X1 & X2 & X3). simpl. rewrite Ho2, Ho1; [done|done| |].
      - intros nd Hnd Hin. destruct (node_region _ _ _ _ _ Hh1 Hnd) as (len & Hr & Hlen).
        specialize (X1 _ Hr). simpl in X1. lia.
      - intros Hin. pose (g := f + (x - va f) / FRAME_SIZE). assert (Hg : f <= g < f + F /\ va g <= x < va g + FRAME_SIZE)
          by (unfold g, frame_va, FRAME_SIZE in *; zlia).
        apply (X3 g); [lia|apply Hf3; lia|lia]. }
    + intros blk x Hb Hx. simpl. rewrite Ho2, Ho1; [done| | |].
      * intros Hin. assert (Hr : region blk ∈ regions bs live) by (apply elem_of_regions; right; exists blk; tauto).
        specialize (Hbm _ Hr). unfold apart, region, HEADER_SIZE in Hbm. simpl in Hbm. lia.
      * intros nd Hnd. eapply heap_payload; [exact Hh1|by right|done|done].
      * intros Hin. assert (Hr : region blk ∈ regions bs live) by (apply elem_of_regions; right; exists blk; tauto).
        specialize (Hap _ Hr). unfold apart, region, HEADER_SIZE in Hap. simpl in Hap. lia.
Qed.

Lemma kheap_grow_eq s bs live n f :
  heap_ok (mem s) bs live -> pmm_inv HHDM_OFFSET s ->
  (forall r, r ∈ regions bs live -> apart r (gval s g_bitmap, bitmap_bytes s)) ->
  (forall r g, r ∈ regions bs live -> 1 <= g < gval s g_limit -> used s g = false -> apart r (va g, FRAME_SIZE)) ->
  0 <= n < 2 ^ 62 -> first_fit s (grow_frames n) f -> quiet (bs ++ [grow_block n f]) ->
  exists s', kheap_grow HHDM_OFFSET free_list n s = Ok tt s' /\ grown_heap s s' bs live n f.
Proof.
  intros Hh Hp Hbm Hfr Hn Hff Hq. destruct (add_frames_eq s bs live n f) as (s' & E & G); try done.
  exists s'. split; [|done]. unfold kheap_grow. rewrite grow_frames_eq by done. rewrite E.
  by eapply coalesce_quiet; [apply G|].
Qed.

Lemma pmm_inv_heap_lock s x : pmm_inv HHDM_OFFSET s -> pmm_inv HHDM_OFFSET (with_glob s g_kheap_lock x).
Proof.
  intros Hp. destruct (pmm_agree_inv HHDM_OFFSET s (with_glob s g_kheap_lock x)) as (H & _ & _); [|done|done].
  apply pmm_agree_glob. intros [?|[?|?]]; done.
Qed.

(** The frames of a free run are not foreign. *)
Lemma run_not_foreign s bs live k f x :
  first_fit s k f -> va f <= x < va f + FRAME_SIZE * k -> ~ foreign s bs live x.
Proof.
  intros (Hf1 & Hf2 & Hf3 & _) Hin (_ & _ & X3). pose (g := f + (x - va f) / FRAME_SIZE).
  assert (Hg : f <= g < f + k /\ va g <= x < va g + FRAME_SIZE) by (unfold g, frame_va, FRAME_SIZE in *; zlia).
  apply (X3 g); [lia|apply Hf3; lia|lia].
Qed.

(** The new block is apart from the bitmap and from the frames that are left. *)
Lemma grown_apart s s' bs live n f :
  pmm_inv HHDM_OFFSET s -> first_fit s (grow_frames n) f -> 0 <= n < 2 ^ 62 ->
  (forall r, r ∈ regions bs live -> apart r (gval s g_bitmap, bitmap_bytes s)) ->
  (forall r g, r ∈ regions bs live -> 1 <= g < gval s g_limit -> used s g = false -> apart r (va g, FRAME_SIZE)) ->
  grown_heap s s' bs live n f ->
  forall r, r ∈ regions (bs ++ [grow_block n f]) live ->
    apart r (gval s' g_bitmap, bitmap_bytes s') /\
    forall g, 1 <= g < gval s' g_limit -> used s' g = false -> apart r (va g, FRAME_SIZE).
Proof.
  intros Hp Hff Hn Hbm Hfr [_ Hg _ Hu _ _ _] r Hr. pose proof Hff as (Hf1 & Hf2 & Hf3 & _).
  assert (HF : 1 <= grow_frames n) by (unfold grow_frames, HEADER_SIZE; zlia).
  assert (Hsplit : r ∈ regions bs live \/ r = (va f, FRAME_SIZE * grow_frames n)).
  { unfold grow_block in Hr. rewrite regions_insert in Hr. apply elem_of_cons in Hr as [->|Hr]; [right|left].
    - unfold region. simpl. f_equal. lia.
    - by rewrite app_nil_r in Hr. }
  unfold bitmap_bytes in *. rewrite !Hg. split.
  - destruct Hsplit as [Hr'| ->]; [by apply Hbm|].
    destruct (decide (apart (va f, FRAME_SIZE * grow_frames n) (gval s g_bitmap, (gval s g_limit + 7) / 8))) as [|Hno]; [done|].
    exfalso. unfold apart in Hno. simpl in Hno. pose (x := Z.max (va f) (gval s g_bitmap)).
    apply (run_off_bitmap HHDM_OFFSET s f (grow_frames n) x); try done; [rewrite va_add|unfold bitmap_bytes];
      pose proof (bm_limit _ (pmm_bm _ (pi_ok _ _ Hp))); unfold x, FRAME_SIZE in *; zlia.
  - intros g Hgl Hug. rewrite Hu in Hug by lia. case_bool_decide as Hin; [done|].
    destruct Hsplit as [Hr'| ->]; [by apply Hfr|]. unfold apart, frame_va, FRAME_SIZE. simpl. lia.
Qed.

(** A call that finds no block: it adds one and calls itself again. *)
Lemma kheap_body_grow s bs live n f :
  kheap_inv s bs live -> Forall (fun blk => snd blk < n) bs -> 0 <= n < 2 ^ 62 ->
  first_fit s (grow_frames n) f -> quiet (bs ++ [grow_block n f]) ->
  exists s', kheap_alloc_body HHDM_OFFSET free_list n tt s = Ok (inl tt) s' /\
    kheap_inv s' (bs ++ [grow_block n f]) live /\ same_globals s s' /\ live_kept s s' live /\
    foreign_kept s s' bs live /\ (forall x, foreign s bs live x -> foreign s' (bs ++ [grow_block n f]) live x).
Proof.
  intros [Hh Hl Hp Hbm Hfr] Hsm Hn Hff Hq. set (s0 := with_glob s g_kheap_lock 1).
  assert (Hg0 : forall v, v <> g_kheap_lock -> gval s0 v = gval s v) by (intros; by apply gval_with_glob_ne).
  assert (Hb0 : bitmap_bytes s0 = bitmap_bytes s) by (unfold bitmap_bytes; by rewrite Hg0).
  assert (Hu0 : forall g, used s0 g = used s g) by (intros g; unfold used; by rewrite Hg0).
  destruct (kheap_grow_eq s0 bs live n f) as (s1 & E1 & G1); try done.
  { by apply pmm_inv_heap_lock. }
  { rewrite Hb0, Hg0 by done. done. }
  { intros r g Hr. rewrite Hg0, Hu0 by done. by apply Hfr. }
  { by apply first_fit_glob. }
  pose proof G1 as [H1 H2 H3 H4 H5 H6 H7]. rewrite Hg0 in H4 by done. exists (with_glob s1 g_kheap_lock 0).
  split; [|split; [|split; [|split; [done|split]]]].
  - unfold kheap_alloc_body. rewrite (bind_Ok _ _ s tt s0) by (apply acquire_free; simpl; by rewrite Hl).
    rewrite (bind_Ok _ _ s0 (first_block n bs) s0) by (by eapply kheap_find_eq).
    assert (Hf : first_block n bs = None).
    { clear - Hsm. induction Hsm as [|[c j] l Hc Hsm IH]; simpl in *; [done|].
      by destruct (Z.leb_spec n j); [lia|]. }
    rewrite Hf, (bind_Ok _ _ _ _ _ E1). rewrite (bind_Ok _ _ s1 tt (with_glob s1 g_kheap_lock 0)); [done|].
    apply release_held. simpl. f_equal. rewrite H2. apply gval_with_glob_eq.
  - assert (Hap : forall r, r ∈ regions (bs ++ [grow_block n f]) live -> apart r (gval s1 g_bitmap, bitmap_bytes s1) /\
        forall g, 1 <= g < gval s1 g_limit -> used s1 g = false -> apart r (va g, FRAME_SIZE)).
    { apply (grown_apart s0 s1); [by apply pmm_inv_heap_lock|by apply first_fit_glob|done| | |done].
      - by rewrite Hb0, Hg0.
      - intros r g Hr. rewrite Hg0, Hu0 by done. by apply Hfr. }
    split; [done|by rewrite gval_with_glob_eq|by apply pmm_inv_heap_lock| |].
    + unfold bitmap_bytes in *. rewrite !gval_with_glob_ne by done. intros r Hr. by apply Hap.
    + intros r g Hr Hgl Hug. rewrite gval_with_glob_ne in Hgl by done.
      apply Hap; [done|done|]. unfold used in *. by rewrite gval_with_glob_ne in Hug.
  - intros v. destruct (decide (v = g_kheap_lock)) as [->|]; [by rewrite gval_with_glob_eq|].
    rewrite gval_with_glob_ne, H2 by done. by apply Hg0.
  - intros x (X1 & X2 & X3). apply H7. split; [done|]. rewrite Hb0, !Hg0 by done. split; [done|].
    intros g. rewrite Hu0. apply X3.
  - intros x (X1 & X2 & X3). split; [|split].
    + intros r Hr. unfold grow_block in Hr. rewrite regions_insert, app_nil_r in Hr.
      apply elem_of_cons in Hr as [->|Hr]; [|by apply X1]. unfold region. simpl. intros Hin.
      apply (run_not_foreign s bs live (grow_frames n) f x); [done|lia|done].
    + unfold bitmap_bytes in *. rewrite !gval_with_glob_ne, !H2, !Hg0 by done. done.
    + intros g Hgl Hug. rewrite gval_with_glob_ne, H2, Hg0 in Hgl by done. apply X3; [done|].
      assert (Hug' : used s1 g = false) by (unfold used in *; by rewrite gval_with_glob_ne in Hug).
      rewrite H4, Hu0 in Hug' by lia. by case_bool_decide.
Qed.

Lemma live_kept_trans s1 s2 s3 live : live_kept s1 s2 live -> live_kept s2 s3 live -> live_kept s1 s3 live.
Proof. intros H1 H2 blk x Hb Hx. by rewrite (H2 blk), (H1 blk). Qed.

Lemma kheap_alloc_grow s bs live n f :
  kheap_inv s bs live -> Forall (fun blk => snd blk < n) bs -> 0 <= n < 2 ^ 62 ->
  first_fit s (grow_frames n) f -> quiet (bs ++ [grow_block n f]) ->
  let k := snd (grow_block n f) in
  exists s', kheap_alloc HHDM_OFFSET free_list n s = Ok (va f + 24) s' /\
    kheap_inv s' (bs ++ remainder (va f) k n) (taken (va f) k n :: live) /\
    same_globals s s' /\ live_kept s s' live /\ foreign_kept s s' bs live /\
    (forall x, foreign s bs live x -> foreign s' (bs ++ remainder (va f) k n) (taken (va f) k n :: live) x).
Proof.
  intros Hk Hsm Hn Hff Hq k.
  destruct (kheap_body_grow s bs live n f Hk Hsm Hn Hff Hq) as (s1 & E1 & Hk1 & Hg1 & Hv1 & Ho1 & Hf1).
  assert (Hnk : 0 <= n <= k) by (unfold k, grow_block, grow_frames, HEADER_SIZE, FRAME_SIZE; simpl; zlia).
  destruct (kheap_body_fit s1 bs (va f) k [] live n) as (s2 & E2 & Hh2 & Hg2 & _ & Hout & Hd);
    [apply Hk1|apply Hk1|done|done|].
  assert (Ho : forall x, (forall r, r ∈ regions (bs ++ [(va f, k)]) live -> ~ (fst r <= x < fst r + snd r)) ->
            mem s2 !! x = mem s1 !! x).
  { intros x Hx. destruct (alloc_outside (bs ++ [(va f, k)]) live live (mem s1) (va f) k x) as [H1 H2];
      [apply Hk1|apply elem_of_app; right; by apply list_elem_of_singleton|done|by apply Hout]. }
  exists s2. split; [|split; [|split; [by etrans|split; [|split]]]].
  - apply (kloop_runs _ 2); [|lia]. eapply runs_next; [exact E1|]. by apply runs_exit.
  - rewrite app_nil_r in Hh2. eapply (kheap_inv_step s1); [exact Hk1|done|done|done|exact Ho|].
    intros r Hr. apply (taken_regions free_list bs (va f) k [] live n); [done|]. by rewrite app_nil_r.
  - eapply live_kept_trans; [exact Hv1|]. eapply fit_kept; [apply Hk1|exact Hout].
  - intros x Hx. rewrite <- (Ho1 x Hx). apply Ho, (Hf1 x Hx).
  - intros x Hx%Hf1. revert Hx. rewrite <- (app_nil_r (bs ++ remainder _ _ _)), <- app_assoc.
    apply foreign_step; [done|done|exact Ho|]. intros r. by apply taken_regions.
Qed.

(** The free list alone, as the static initialiser leaves it, is a heap. *)
Lemma heap_ok_empty m :
  rd 8 m free_list = Some free_list -> rd 8 m (free_list + 8) = Some free_list ->
  0 < free_list -> free_list + 16 < 2 ^ 64 -> heap_ok m [] [].
Proof.
  intros H1 H2 H3 H4.
  assert (Hr : forall r, r ∈ regions [] [] -> r = (free_list, 16)) by (intros r [?|(? & [[]%elem_of_nil|[]%elem_of_nil] & _)]%elem_of_regions; done).
  split.
  - by constructor.
  - by intros blk ?%elem_of_nil.
  - intros r ->%Hr. simpl. lia.
  - intros r ->%Hr. apply rd_Some_mapped in H1, H2. simpl in *. intros x Hx.
    destruct (decide (x < free_list + 8)); [apply H1|apply H2]; lia.
  - split; [|done]. by intros r ?%elem_of_nil.
Qed.

(** [kheap_init]: the first frame becomes the first block. *)
Lemma kheap_init_eq s f :
  kheap_inv s [] [] -> first_fit s 1 f ->
  exists s', kheap_init HHDM_OFFSET free_list s = Ok tt s' /\ kheap_inv s' [grow_block 0 f] [] /\
    same_globals s s' /\ same_dom (mem s) (mem s') /\ foreign_kept s s' [] [] /\
    (forall g, 0 <= g < gval s g_limit -> used s' g = if decide (g = f) then true else used s g).
Proof.
  intros [Hh Hl Hp Hbm Hfr] Hff. destruct (add_frames_eq s [] [] 0 f) as (s1 & E & G); [done..|].
  pose proof (grown_apart s s1 [] [] 0 f Hp Hff ltac:(lia) Hbm Hfr G) as Hap. pose proof G as [G1 G2 G3 G4 G5 G6 G7].
  eexists. split; [etrans; [apply (E unit)|reflexivity]|]. split; [|split; [done|split; [done|split; [done|]]]].
  - split; [done|by rewrite <- Hl, <- G2| |by intros r Hr; apply Hap|by intros r g Hr; apply Hap].
    match goal with |- pmm_inv _ (KState _ _ ?t) => by destruct (pmm_agree_inv HHDM_OFFSET s1 (KState (mem s1) (glob s1) t)) as (H & _ & _) end.
  - intros g Hg. change (used s1 g = if decide (g = f) then true else used s g). rewrite G4 by done.
    change (grow_frames 0) with 1. repeat case_decide; case_bool_decide; done || lia.
Qed.

(** C20: [kheap_alloc] grows the heap when no free block is large enough: it
    turns the first run of frames that covers the request and a header into a
    block and allocates from it, in two rounds; the blocks in use keep their
    bytes and stay disjoint from the new one.  (The list must be one that
    [coalesce_dll] leaves alone, see [quiet].) *)
Theorem kheap_alloc_grows s bs live n f :
  kheap_inv s bs live -> Forall (fun blk => snd blk < n) bs -> 0 <= n < 2 ^ 62 ->
  first_fit s (grow_frames n) f -> quiet (bs ++ [grow_block n f]) ->
  let k := snd (grow_block n f) in
  exists s', kheap_alloc HHDM_OFFSET free_list n s = Ok (va f + 24) s' /\
    kheap_inv s' (bs ++ remainder (va f) k n) (taken (va f) k n :: live) /\
    same_globals s s' /\ live_kept s s' live.
Proof.
  intros Hk Hsm Hn Hff Hq k. destruct (kheap_alloc_grow s bs live n f Hk Hsm Hn Hff Hq) as (s' & E & Hk' & Hg & Hl & _).
  by exists s'.
Qed.

End alloc.
