(* ===== verification/KheapFree.v ===== *)
(** [kheap_free] returns a block to the free list of the kernel heap. *)
From S2P Require Import Prelude Machine Lock Str Interfaces Pmm PmmSpec Kheap KheapSpec KheapProps.
Import Lock.Seq.

(** The blocks that the search of [kheap_free] passes, and the rest. *)
Fixpoint below (b : Z) (bs : list (Z * Z)) : list (Z * Z) :=
  match bs with
  | blk :: bs' => if b <? fst blk then [] else blk :: below b bs'
  | [] => []
  end.
Fixpoint above (b : Z) (bs : list (Z * Z)) : list (Z * Z) :=
  match bs with
  | blk :: bs' => if b <? fst blk then bs else above b bs'
  | [] => []
  end.

(** A freed block goes before the first block at a higher address; when there is
    none it becomes the first of the list. *)
Definition free_insert (blk : Z * Z) (bs : list (Z * Z)) : list (Z * Z) :=
  match above (fst blk) bs with
  | [] => blk :: bs
  | l2 => below (fst blk) bs ++ blk :: l2
  end.

Lemma below_above b bs : below b bs ++ above b bs = bs.
Proof. induction bs as [|blk bs IH]; simpl; [done|]. destruct (b <? fst blk); simpl; [done|by rewrite IH]. Qed.

Lemma free_insert_split blk bs :
  exists l1 l2, bs = l1 ++ l2 /\ free_insert blk bs = l1 ++ blk :: l2.
Proof.
  unfold free_insert. destruct (above (fst blk) bs) as [|c l2] eqn:E; [by exists [], bs|].
  exists (below (fst blk) bs), (c :: l2). split; [|done]. rewrite <- E. symmetry. apply below_above.
Qed.

Section free.
Context (HHDM_OFFSET free_list : Z).
Implicit Types (s : kstate) (bs live : list (Z * Z)) (b k n : Z).
Local Abbreviation heap_ok := (heap_ok free_list).
Local Abbreviation regions := (regions free_list).
Local Abbreviation kheap_inv := (kheap_inv HHDM_OFFSET free_list).

Lemma regions_live blk bs live : regions bs (blk :: live) ≡ₚ region blk :: regions bs live.
Proof. unfold KheapSpec.regions. rewrite fmap_cons, <- Permutation_middle. by rewrite Permutation_swap. Qed.

Lemma heap_drop m bs live blk : heap_ok m bs (blk :: live) -> heap_ok m bs live.
Proof.
  intros [H1 H2 H3 H4 H5].
  assert (Hr : forall r, r ∈ regions bs live -> r ∈ regions bs (blk :: live))
    by (intros r Hr; rewrite regions_live; apply elem_of_cons; by right).
  split; [done| |by auto|by auto|by apply (seps_perm _ _ (regions_live blk bs live))].
  intros blk' Hb. apply H2. apply elem_of_app in Hb. apply elem_of_app. rewrite elem_of_cons. tauto.
Qed.

(** The search ends at the first block above, or at the head of the list. *)
Lemma above_runs b s bs x :
  Forall (linked (mem s)) (pairs x bs.*1 free_list) -> free_list ∉ bs.*1 ->
  exists j, (j <= S (length bs))%nat /\
    runs (above_body free_list b) j (after bs.*1 free_list) s
      (after (above b bs).*1 free_list, match above b bs with [] => false | _ => true end) s.
Proof.
  revert x. induction bs as [|[c k] bs IH]; intros x Hl Hfl.
  - exists 1%nat. split; [lia|]. apply runs_exit. unfold above_body, after. simpl. by rewrite Z.eqb_refl.
  - change (((c, k) :: bs).*1) with (c :: bs.*1) in *. simpl pairs in Hl. apply list.Forall_cons in Hl as [_ Hl].
    apply not_elem_of_cons in Hfl as [Hne Hfl]. change (after (c :: bs.*1) free_list) with c. simpl above.
    assert (Hnx : rd 8 (mem s) c = Some (after bs.*1 free_list)).
    { destruct bs as [|[d j] bs]; apply list.Forall_cons in Hl as [[H _] _]; exact H. }
    destruct (Z.ltb_spec b c) as [Hlt|Hge].
    + exists 1%nat. split; [lia|]. apply runs_exit. unfold above_body. destruct (Z.eqb_spec c free_list); [congruence|].
      by destruct (Z.ltb_spec b c); [|lia].
    + destruct (IH c Hl Hfl) as (j & Hj & Hr). exists (S j). split; [simpl; lia|].
      eapply runs_next; [|exact Hr]. unfold above_body. destruct (Z.eqb_spec c free_list); [congruence|].
      destruct (Z.ltb_spec b c); [lia|]. by rewrite (bind_Ok _ _ s (after bs.*1 free_list) s) by (by apply ld_ok).
Qed.

(** The block enters the list where [free_insert] puts it. *)
Lemma free_link_eq s bs live b k :
  heap_ok (mem s) bs ((b, k) :: live) ->
  exists m', free_link free_list b s = Ok tt (with_mem s m') /\
    heap_ok m' (free_insert (b, k) bs) live /\ same_dom (mem s) m' /\
    (forall x, (forall nd, nd ∈ nodes free_list (free_insert (b, k) bs) -> ~ (nd <= x < nd + 16)) ->
       m' !! x = mem s !! x).
Proof.
  intros Hh. assert (Hrb : region (b, k) ∈ regions bs ((b, k) :: live)) by (rewrite regions_live; apply elem_of_cons; by left).
  destruct (hp_range _ _ _ _ Hh _ Hrb) as (Hb & Hk & Hbk). pose proof (hp_mapped _ _ _ _ Hh _ Hrb) as Hm.
  unfold region, HEADER_SIZE in Hb, Hk, Hbk, Hm. simpl in Hb, Hk, Hbk, Hm.
  assert (Hk0 : 0 <= k) by (apply (heap_size_range _ _ _ _ (b, k) Hh); right; apply elem_of_cons; by left).
  assert (Hsz : rd 8 (mem s) (b + 16) = Some k) by 
    (apply (hp_sizes _ _ _ _ Hh (b, k)), elem_of_app; right; apply elem_of_cons; by left).
  pose proof (hp_seps _ _ _ _ Hh) as Hsep. apply (seps_perm _ _ (regions_live _ _ _)) in Hsep.
  pose proof (heap_drop _ _ _ _ Hh) as Hh0. pose proof (heap_length _ _ _ _ Hh0).
  destruct (above_runs b s bs free_list) as (j & Hj & Hrun); [apply Hh0|by eapply heap_fl_fresh|].
  unfold free_link. rewrite (bind_Ok _ _ s (after bs.*1 free_list) s) by (by eapply ld_ok, heap_first).
  rewrite (bind_Ok _ _ _ _ _ (kloop_runs _ _ _ _ _ _ Hrun ltac:(lia))).
  assert (Hb16 : mapped (mem s) b 16) by (eapply mapped_sub; [exact Hm|lia|lia]).
  assert (Hins : forall l1 l2, bs = l1 ++ l2 -> free_insert (b, k) bs = l1 ++ (b, k) :: l2 ->
    let p := before free_list l1.*1 in let q := after l2.*1 free_list in
    rd 8 (mem s) p = Some q /\ rd 8 (mem s) (q + 8) = Some p /\
    dll_list_add b p q s = Ok tt (with_mem s (mem_add (mem s) b p q)) /\
    heap_ok (mem_add (mem s) b p q) (free_insert (b, k) bs) live /\ same_dom (mem s) (mem_add (mem s) b p q) /\
    (forall x, (forall nd, nd ∈ nodes free_list (free_insert (b, k) bs) -> ~ (nd <= x < nd + 16)) ->
       mem_add (mem s) b p q !! x = mem s !! x)).
  { intros l1 l2 -> -> p q. destruct (heap_insert free_list (mem s) l1 l2 live b k Hh0) as (E1 & E2 & E3 & E4 & E5);
      [done|done|done|lia|done|done|]. fold p q in E1, E2, E3, E4, E5.
    split; [done|]. split; [done|]. split; [by apply dll_list_add_eq|]. split; [done|]. split; [by apply mem_add_dom|].
    intros x Hx. apply mem_add_out; apply Hx.
    - unfold nodes. rewrite fmap_app, elem_of_cons, elem_of_app. right. right. apply elem_of_cons. by left.
    - apply nodes_insert, before_node.
    - apply nodes_insert, after_node. }
  destruct (above b bs) as [|[c j'] l2] eqn:Ea.
  - destruct (Hins [] bs) as (E1 & E2 & E3 & E4 & E5 & E6); [done|unfold free_insert; simpl; by rewrite Ea|].
    eexists. split; [|split; [exact E4|split; [exact E5|exact E6]]].
    change (after [].*1 free_list) with free_list. change (before free_list [].*1) with free_list in *.
    by rewrite (bind_Ok _ _ s (after bs.*1 free_list) s) by (by apply ld_ok).
  - destruct (Hins (below b bs) ((c, j') :: l2)) as (E1 & E2 & E3 & E4 & E5 & E6);
      [rewrite <- Ea; symmetry; apply below_above|unfold free_insert; simpl; by rewrite Ea|].
    eexists. split; [|split; [exact E4|split; [exact E5|exact E6]]].
    by rewrite (bind_Ok _ _ s (before free_list (below b bs).*1) s) by (by apply ld_ok).
Qed.

(** C27: [kheap_free] gives a block back: a block that the caller holds leaves the
    blocks in use and enters the free list before the first block at a higher address,
    or at the head of the list when there is none; the list stays well formed and
    disjoint from what is still in use, whose bytes are not touched.  This holds under
    two conditions: the block is not one that the code hands to the frame allocator
    (at least a frame long, with its header 24 bytes behind the start of a frame), and
    the test of [coalesce_dll] finds no pair in the new list ([quiet]); the test is
    wrong (see [coalesce_misses_neighbours]), and on a list that is not quiet the
    heap can lose the separation of its blocks. *)
Theorem kheap_free_returns s bs live b k :
  kheap_inv s bs ((b, k) :: live) -> quiet (free_insert (b, k) bs) ->
  k + sizeof_alloc_node < FRAME_SIZE \/ u64 (b - 24) mod FRAME_SIZE <> 0 ->
  exists s', kheap_free HHDM_OFFSET free_list (b + 24) s = Ok tt s' /\
    kheap_inv s' (free_insert (b, k) bs) live /\ same_globals s s' /\ live_kept s s' live.
Proof.
  intros Hk Hq Hsmall. pose proof (ki_heap _ _ _ _ _ Hk) as Hh. set (s0 := with_glob s g_kheap_lock 1).
  destruct (free_link_eq s0 bs live b k Hh) as (m' & E & Hh' & Hd & Hout).
  set (s1 := with_mem s0 m'). set (s2 := with_glob s1 g_kheap_lock 0).
  assert (Hg : same_globals s s2).
  { intros v. destruct (decide (v = g_kheap_lock)) as [->|]; [unfold s2; by rewrite gval_with_glob_eq, (ki_lock _ _ _ _ _ Hk)|].
    unfold s2, s1, s0. by rewrite gval_with_glob_ne, gval_with_mem, gval_with_glob_ne. }
  destruct (free_insert_split (b, k) bs) as (l1 & l2 & Hbs & Hfi).
  assert (Hperm : regions (free_insert (b, k) bs) live ≡ₚ regions bs ((b, k) :: live))
    by (rewrite Hfi, regions_insert, Hbs, regions_live; done).
  exists s2. split; [|split; [|split; [done|]]].
  - unfold kheap_free. rewrite (bind_Ok _ _ s tt s0) by (apply acquire_free; simpl; by rewrite (ki_lock _ _ _ _ _ Hk)).
    assert (Hin : region (b, k) ∈ regions bs ((b, k) :: live)) by (rewrite regions_live; apply elem_of_cons; by left).
    destruct (hp_range _ _ _ _ Hh _ Hin) as (Hb & _ & Hbk). unfold region, HEADER_SIZE in Hb, Hbk. simpl in Hb, Hbk.
    assert (Hkr : (b, k) ∈ bs \/ (b, k) ∈ (b, k) :: live) by (right; apply elem_of_cons; by left).
    pose proof (heap_size_range _ _ _ _ _ Hh Hkr) as Hk0. simpl in Hk0.
    rewrite (u64_small (b + 24 - 24)) by lia. replace (b + 24 - 24) with b by lia.
    rewrite (bind_Ok _ _ s0 k s0) by (apply ld_ok, (hp_sizes _ _ _ _ Hh (b, k)), elem_of_app; right; apply elem_of_cons; by left).
    assert (Hguard : (FRAME_SIZE <=? u64 (k + sizeof_alloc_node)) && (u64 (b - 24) mod FRAME_SIZE =? 0) = false).
    { destruct Hsmall as [Hs|Hs].
      - unfold sizeof_alloc_node, FRAME_SIZE in *. rewrite u64_small by lia. destruct (Z.leb_spec 0x1000 (k + 32)); [lia|done].
      - destruct (Z.eqb_spec (u64 (b - 24) mod FRAME_SIZE) 0); [done|]. by rewrite andb_false_r. }
    rewrite Hguard, (bind_Ok _ _ _ _ _ E), (bind_Ok _ _ s1 tt s1) by (by eapply coalesce_quiet).
    apply release_held. simpl. f_equal. apply gval_with_glob_eq.
  - apply (kheap_inv_step _ _ s s2 bs ((b, k) :: live)); [done|done|done|done| |].
    + intros x Hx. apply Hout. intros nd Hnd Hin. destruct (node_region _ _ _ _ _ Hh' Hnd) as (len & Hr & Hlen).
      rewrite Hperm in Hr. specialize (Hx _ Hr). simpl in Hx. lia.
    + intros r Hr. rewrite Hperm in Hr. exists r. split; [done|lia].
  - intros blk x Hb Hx. apply Hout. intros nd Hnd. by apply (heap_payload _ _ _ _ _ _ _ Hh' (or_intror Hb) Hnd).
Qed.

End free.
