(* ===== verification/KheapWitness.v ===== *)
(** A small heap: the theorems about the kernel heap on concrete states, and
    states on which [memory/kheap.c] goes wrong. *)
From S2P Require Import Prelude Machine Lock Str Interfaces Pmm PmmSpec Kheap KheapSpec KheapProps KheapFree.
Import Lock.Seq.

(** The machine of [small_pmm] with the head of the list at [0x8000] and, in frame
    1, a free block of [0x100] bytes and a block of [0xed0] bytes in use. *)
Definition frame_heap_mem (len : nat) : gmap Z byte :=
  let m := zeros 0x10000 len ∪ zeros 0x8000 16 in
  let m := wr 1 m 0x10000 2 in
  let m := wr 8 (wr 8 m 0x8000 0x11000) 0x8008 0x11000 in
  let m := wr 8 (wr 8 (wr 8 m 0x11000 0x8000) 0x11008 0x8000) 0x11010 0x100 in
  wr 8 m 0x11128 0xed0.
Definition small_heap_mem : gmap Z byte := frame_heap_mem (Z.to_nat 0x6000).
Definition small_heap : kstate := KState small_heap_mem {[ g_bitmap := 0x10000; g_limit := 6 ]} [].
(** The same heap on a machine without other frames. *)
Definition tiny_heap : kstate := KState (frame_heap_mem (Z.to_nat 0x2000)) {[ g_bitmap := 0x10000; g_limit := 2 ]} [].
Definition small_free : list (Z * Z) := [(0x11000, 0x100)].
Definition small_live : list (Z * Z) := [(0x11118, 0xed0)].

(** A heap whose blocks are all in frame 1, the only frame in use. *)
Lemma frame_heap_inv m limit bs live :
  let s := KState m {[ g_bitmap := 0x10000; g_limit := limit ]} [] in
  2 <= limit <= 8 -> mapped m 0x10000 (0x1000 * limit) -> mapped m 0x8000 16 -> rd 1 m 0x10000 = Some 2 ->
  Forall (linked m) (pairs 0x8000 (fst <$> bs) 0x8000) ->
  Forall (fun blk => rd 8 m (fst blk + 16) = Some (snd blk) /\
    0x11000 <= fst blk /\ 0 <= snd blk /\ fst blk + 24 + snd blk <= 0x12000) (bs ++ live) ->
  seps (regions 0x8000 bs live) -> kheap_inv 0x10000 0x8000 s bs live.
Proof.
  intros s HL M1 M2 Hu1 Hl Hb Hs. rewrite list.Forall_forall in Hb.
  assert (Hlim : gval s g_limit = limit) by done. assert (Hbm : gval s g_bitmap = 0x10000) by done.
  assert (Hbb : bitmap_bytes s = 1) by (unfold bitmap_bytes; rewrite Hlim; zlia).
  assert (Hused : used s 1 = true) by (unfold used, bit; rewrite Hbm; change (mem s !! _) with (m !! 0x10000); by rewrite (rd1_lookup m 0x10000 2 Hu1)).
  assert (Hr : forall r, r ∈ regions 0x8000 bs live -> r = (0x8000, 16) \/
            0x11000 <= fst r /\ 0 <= snd r /\ fst r + snd r <= 0x12000).
  { intros r [->|(blk & Hblk & ->)]%elem_of_regions; [by left|right].
    destruct (Hb blk) as (_ & ? & ? & ?); [by apply elem_of_app|]. unfold region, HEADER_SIZE. cbn [fst snd]. lia. }
  split; [|done| | |].
  - split; [done|intros blk Hblk; by apply Hb| | |done].
    + intros r [->|Hrg]%Hr; cbn [fst snd]; lia.
    + intros r [->|Hrg]%Hr; [done|]. eapply mapped_sub; [exact M1|lia|lia].
  - split; [|lia|rewrite Hlim; lia|rewrite Hlim; unfold frame_va; lia|].
    + split; [done|]. split; [rewrite Hlim; lia|]. rewrite Hbm, Hbb. eapply mapped_sub; [exact M1|lia|lia].
    + intros g Hg _. rewrite Hlim in Hg. split.
      * unfold frame_va, FRAME_SIZE. eapply mapped_sub; [exact M1|lia|lia].
      * right. rewrite Hbm, Hbb. unfold frame_va. lia.
  - rewrite Hbm, Hbb. intros r [->|Hrg]%Hr; unfold apart; cbn [fst snd]; lia.
  - intros r g Hrr Hg Hu. rewrite Hlim in Hg. assert (g <> 1) by congruence.
    unfold frame_va, FRAME_SIZE, apart. apply Hr in Hrr as [->|Hrg]; cbn [fst snd]; lia.
Qed.

(** Mapped memory under the writes that build a heap. *)
Ltac demo_mapped :=
  repeat match goal with |- mapped (wr _ _ _ _) _ _ => apply mapped_wr end; intros x Hx; apply lookup_union_is_Some;
  first [left; apply zeros_mapped; lia | right; apply zeros_mapped; lia].
Ltac demo_blocks :=
  cbn [pairs fmap list_fmap app fst small_free small_live];
  repeat (apply List.Forall_cons || apply List.Forall_nil); cbn [fst snd]; unfold linked; cbn [fst snd];
  repeat apply conj; first [lia | mem_rd].
Ltac demo_seps :=
  cbn [seps regions fmap list_fmap app]; repeat split;
  intros r Hr; repeat (apply elem_of_cons in Hr as [->|Hr]); try (by apply elem_of_nil in Hr);
  unfold apart, region, HEADER_SIZE; cbn [fst snd]; lia.

Lemma small_heap_inv : kheap_inv 0x10000 0x8000 small_heap small_free small_live.
Proof.
  unfold small_heap, small_heap_mem, frame_heap_mem.
  apply frame_heap_inv; [lia|demo_mapped|demo_mapped|mem_rd|demo_blocks|demo_blocks|demo_seps].
Qed.

Lemma tiny_heap_inv : kheap_inv 0x10000 0x8000 tiny_heap small_free small_live.
Proof.
  unfold tiny_heap, frame_heap_mem.
  apply frame_heap_inv; [lia|demo_mapped|demo_mapped|mem_rd|demo_blocks|demo_blocks|demo_seps].
Qed.

(** Which frames of the small machine are free. *)
Lemma small_heap_used g : 1 <= g < 6 -> used small_heap g = (g =? 1).
Proof.
  intros Hg. unfold used, bit. change (gval small_heap g_bitmap) with 0x10000. replace (g / 8) with 0 by zlia.
  change (0x10000 + 0) with 0x10000. rewrite (rd1_lookup (mem small_heap) 0x10000 2) by (unfold small_heap, small_heap_mem, frame_heap_mem; cbn [mem]; mem_rd).
  assert (Hc : g = 1 \/ g = 2 \/ g = 3 \/ g = 4 \/ g = 5) by lia. by destruct Hc as [->|[->|[->|[->| ->]]]].
Qed.

Lemma kheap_alloc_first_fit_witness :
  exists s', kheap_alloc 0x10000 0x8000 0x20 small_heap = Ok 0x11018 s' /\
    kheap_inv 0x10000 0x8000 s' [(0x11038, 0xc8)] ((0x11000, 0x20) :: small_live) /\
    same_globals small_heap s' /\ live_kept small_heap s' small_live.
Proof.
  apply (kheap_alloc_first_fit 0x10000 0x8000 small_heap [] 0x11000 0x100 [] small_live 0x20);
    [apply small_heap_inv|by constructor|lia].
Defined.

Lemma kheap_alloc_grows_witness :
  exists s', kheap_alloc 0x10000 0x8000 0x200 small_heap = Ok 0x12018 s' /\
    kheap_inv 0x10000 0x8000 s' [(0x11000, 0x100); (0x12218, 0xdd0)] ((0x12000, 0x200) :: small_live) /\
    same_globals small_heap s' /\ live_kept small_heap s' small_live.
Proof.
  apply (kheap_alloc_grows 0x10000 0x8000 small_heap small_free small_live 0x200 2);
    [apply small_heap_inv|by repeat constructor|lia| |done].
  assert (Hg : grow_frames 0x200 = 1) by done. rewrite Hg. split; [lia|]. split; [done|]. split.
  - intros g Hg'. rewrite small_heap_used by lia. by apply Z.eqb_neq; lia.
  - intros g Hg' Hrun. assert (g = 1) as -> by lia. specialize (Hrun 1 ltac:(lia)). by rewrite small_heap_used in Hrun by lia.
Defined.

(** Four blocks of frame 1: a free one without payload, two in use, of which the
    second is [32 * 24] bytes above the first block, and another free one. *)
Definition gap_heap_mem : gmap Z byte :=
  let m := zeros 0x10000 (Z.to_nat 0x2000) ∪ zeros 0x8000 16 in
  let m := wr 1 m 0x10000 2 in
  let m := wr 8 (wr 8 m 0x8000 0x11000) 0x8008 0x11400 in
  let m := wr 8 (wr 8 (wr 8 m 0x11000 0x11400) 0x11008 0x8000) 0x11010 0 in
  let m := wr 8 (wr 8 (wr 8 m 0x11400 0x8000) 0x11408 0x11000) 0x11410 0x20 in
  wr 8 (wr 8 m 0x11028 0x2d0) 0x11310 0x20.
Definition gap_heap : kstate := KState gap_heap_mem {[ g_bitmap := 0x10000; g_limit := 2 ]} [].
Lemma gap_heap_inv :
  kheap_inv 0x10000 0x8000 gap_heap [(0x11000, 0); (0x11400, 0x20)] [(0x11300, 0x20); (0x11018, 0x2d0)].
Proof.
  unfold gap_heap, gap_heap_mem.
  apply frame_heap_inv; [lia|demo_mapped|demo_mapped|mem_rd|demo_blocks|demo_blocks|demo_seps].
Qed.
Lemma gap_heap_inv_first :
  kheap_inv 0x10000 0x8000 gap_heap [(0x11000, 0); (0x11400, 0x20)] [(0x11018, 0x2d0); (0x11300, 0x20)].
Proof.
  unfold gap_heap, gap_heap_mem.
  apply frame_heap_inv; [lia|demo_mapped|demo_mapped|mem_rd|demo_blocks|demo_blocks|demo_seps].
Qed.

(** The block at [0x11018] goes between the two free ones. *)
Lemma kheap_free_returns_witness :
  exists s', kheap_free 0x10000 0x8000 0x11030 gap_heap = Ok tt s' /\
    kheap_inv 0x10000 0x8000 s' [(0x11000, 0); (0x11018, 0x2d0); (0x11400, 0x20)] [(0x11300, 0x20)] /\
    same_globals gap_heap s' /\ live_kept gap_heap s' [(0x11300, 0x20)].
Proof.
  apply (kheap_free_returns 0x10000 0x8000 gap_heap [(0x11000, 0); (0x11400, 0x20)] [(0x11300, 0x20)] 0x11018 0x2d0);
    [apply gap_heap_inv_first|repeat split; vm_compute; discriminate|left; done].
Defined.

(** * Where the heap goes wrong *)

(** [coalesce_dll] never merges two neighbouring blocks: the end of the first
    block is computed in units of [sizeof(alloc_node_t)], so that the test for
    adjacency fails on every block that really starts where its predecessor
    ends. *)
Theorem coalesce_misses_neighbours s b k :
  rd 8 (mem s) (b + 16) = Some k -> 0 < b -> 0 <= k -> b + HEADER_SIZE + k < 2 ^ 64 ->
  coalesces b (b + HEADER_SIZE + k) s = Ok false s.
Proof.
  intros Hr Hb Hk Hlt. unfold coalesces. destruct (Z.eqb_spec b NULL) as [E|_]; [unfold NULL in E; lia|].
  rewrite (bind_Ok _ _ s k s) by (by apply ld_ok). unfold HEADER_SIZE, sizeof_alloc_node in *.
  destruct (Z.eqb_spec (u64 (b + 32 * (k + 24))) (b + 24 + k)) as [E|_]; [|done].
  exfalso. assert (Hd : (2 ^ 64 | 31 * (k + 24))).
  { exists ((b + 32 * (k + 24)) / 2 ^ 64). pose proof (Z.div_mod (b + 32 * (k + 24)) (2 ^ 64) ltac:(lia)).
    unfold u64 in E. lia. }
  apply Z.gauss in Hd; [|done]. apply Z.divide_pos_le in Hd; lia.
Qed.

Lemma coalesce_misses_neighbours_witness :
  coalesces 0x11000 (0x11000 + HEADER_SIZE + 0x100) small_heap = Ok false small_heap.
Proof. 
  apply (coalesce_misses_neighbours small_heap 0x11000 0x100); [|done|done|done].
  unfold small_heap, small_heap_mem, frame_heap_mem. cbn [mem]. mem_rd.
Defined.

(** C33: [coalesce_dll] merges blocks that are not neighbours, and the heap then
    hands out memory that is in use: from a well-formed heap with a block in use
    between two others, freeing the upper one and allocating 48 bytes returns a
    pointer whose bytes overlap the block in use. *)
Theorem kheap_free_alloc_overlap :
  exists s, kheap_inv 0x10000 0x8000 s [(0x11000, 0); (0x11400, 0x20)] [(0x11300, 0x20); (0x11018, 0x2d0)] /\
  exists s1 s2 p, kheap_free 0x10000 0x8000 (0x11300 + 24) s = Ok tt s1 /\
    kheap_alloc 0x10000 0x8000 0x30 s1 = Ok p s2 /\
    exists x, p <= x < p + 0x30 /\ 0x11018 + 24 <= x < 0x11018 + 24 + 0x2d0.
Proof.
  exists gap_heap. split; [apply gap_heap_inv|].
  set (s1 := ok_state (kheap_free 0x10000 0x8000 (0x11300 + 24) gap_heap) gap_heap).
  exists s1, (ok_state (kheap_alloc 0x10000 0x8000 0x30 s1) s1), 0x11018.
  split; [apply ok_split; by vm_compute|]. split; [apply ok_split; by vm_compute|].
  exists 0x11030. lia.
Qed.

(** [kheap_realloc] copies the whole old block also when the new one is
    smaller: on a well-formed heap, shrinking a block of [0xed0] bytes to 32
    returns a block of 32 bytes and overwrites the header of the free block
    behind it. *)
Theorem kheap_realloc_shrink_overflow :
  exists s, kheap_inv 0x10000 0x8000 s small_free small_live /\
  exists s', kheap_realloc 0x10000 0x8000 (0x11118 + 24) 0x20 s = Ok 0x11018 s' /\
    rd 8 (mem s') (0x11000 + 16) = Some 0x20 /\
    rd 8 (mem s') 0x8000 = Some (0x11018 + 0x20) /\
    rd 8 (mem s') (0x11018 + 0x20) = Some NULL.
Proof.
  exists tiny_heap. split; [apply tiny_heap_inv|].
  exists (ok_state (kheap_realloc 0x10000 0x8000 (0x11118 + 24) 0x20 tiny_heap) tiny_heap).
  split; [apply ok_split; by vm_compute|]. by vm_compute.
Qed.
