(* ===== verification/Heap.v ===== *)
(** What the kernel heap promises to its clients (vectors, hash maps, the file
    system, the scheduler): a class whose laws the clients' theorems use;
    [KheapHeap.kheap_heap] is the instance with the operations of
    [memory/kheap.c].

    A client sees the heap as the list [blocks] of the blocks that were handed
    out (address and size of the payload) and the list [ext] of regions that
    are not the heap's business (static variables, other memory). *)
From S2P Require Import Prelude Machine Str KheapSpec.

(** The byte [x] belongs to a region of the list. *)
Definition in_regions (rs : list (Z * Z)) (x : Z) : Prop := exists r, r ∈ rs /\ fst r <= x < fst r + snd r.

(** The bytes of the clients are the same in both states. *)
Definition kept (rs : list (Z * Z)) (s s' : kstate) : Prop :=
  forall x, in_regions rs x -> mem s' !! x = mem s !! x.

Class KernelHeap := {
  heap_alloc : Z -> K Z;
  heap_calloc : Z -> K Z;
  heap_realloc : Z -> Z -> K Z;

  (** The heap is in order; and it can serve a request of [n] bytes. *)
  heap_inv : kstate -> list (Z * Z) -> list (Z * Z) -> Prop;
  heap_ready : kstate -> list (Z * Z) -> list (Z * Z) -> Z -> Prop;
  (** The globals the heap's state lives in. *)
  heap_global : gvar -> Prop;

  hk_ready_inv s blocks ext n : heap_ready s blocks ext n -> heap_inv s blocks ext;
  hk_range s blocks ext p k :
    heap_inv s blocks ext -> (p, k) ∈ blocks -> 0 < p /\ 0 <= k /\ p + k < 2 ^ 64 /\ mapped (mem s) p k;
  hk_seps s blocks ext : heap_inv s blocks ext -> seps blocks;
  hk_ext s blocks ext b r : heap_inv s blocks ext -> b ∈ blocks -> r ∈ ext -> apart b r;

  hk_alloc s blocks ext n :
    heap_ready s blocks ext n ->
    exists p k s', heap_alloc n s = Ok p s' /\ n <= k /\ heap_inv s' ((p, k) :: blocks) ext /\
      kept (blocks ++ ext) s s' /\ same_globals s s';
  hk_calloc s blocks ext n :
    heap_ready s blocks ext n ->
    exists p k s', heap_calloc n s = Ok p s' /\ n <= k /\ heap_inv s' ((p, k) :: blocks) ext /\
      kept (blocks ++ ext) s s' /\ same_globals s s' /\
      (forall x, p <= x < p + n -> mem s' !! x = Some Byte.x00);
  (** The new block begins with the bytes of the old one, which stays allocated.
      The law does not cover a block that shrinks. *)
  hk_realloc s blocks ext p k n :
    heap_ready s blocks ext n -> (p, k) ∈ blocks -> 0 < n -> k <= n ->
    exists p' k' s', heap_realloc p n s = Ok p' s' /\ n <= k' /\ heap_inv s' ((p', k') :: blocks) ext /\
      kept (blocks ++ ext) s s' /\ same_globals s s' /\
      (forall i, 0 <= i < k -> mem s' !! (p' + i) = mem s !! (p + i));
  hk_realloc_null s n : 0 < n -> heap_realloc 0 n s = heap_alloc n s;

  (** The clients write to their own bytes and to their own globals. *)
  hk_write s blocks ext m' :
    same_dom (mem s) m' -> (forall x, ~ in_regions (blocks ++ ext) x -> m' !! x = mem s !! x) ->
    (heap_inv s blocks ext -> heap_inv (with_mem s m') blocks ext) /\
    (forall n, heap_ready s blocks ext n -> heap_ready (with_mem s m') blocks ext n);
  hk_glob s blocks ext v y :
    ~ heap_global v ->
    (heap_inv s blocks ext -> heap_inv (with_glob s v y) blocks ext) /\
    (forall n, heap_ready s blocks ext n -> heap_ready (with_glob s v y) blocks ext n)
}.

(** [strdup] of [lib/str.c]. *)
Definition strdup `{KernelHeap} (str : Z) : K Z :=
  n ← strlen str;
  let l := u64 n in
  d ← heap_alloc (u64 (l + 1));
  if d =? NULL then mret NULL
  else memcpy d str (u64 (l + 1)) ;; mret d.
