(* ===== verification/KheapHeap.v ===== *)
(** The kernel heap of [memory/kheap.c] implements the interface [KernelHeap]. *)
From S2P Require Import Prelude Machine Lock Str Interfaces Pmm PmmSpec Kheap KheapSpec KheapProps Heap.
Import Lock.Seq.

(** The block whose payload is [blk]. *)
Definition header (blk : Z * Z) : Z * Z := (fst blk - 24, snd blk).

Section headers.
Context (free_list : Z).
Implicit Types (m : gmap Z byte) (bs live blocks : list (Z * Z)) (blk : Z * Z).
Local Abbreviation heap_ok := (heap_ok free_list).

(** A heap depends on its headers only. *)
Lemma heap_ext_headers m m' bs live :
  heap_ok m bs live -> same_dom m m' ->
  (forall x, free_list <= x < free_list + 16 -> m' !! x = m !! x) ->
  (forall blk x, blk ∈ bs ++ live -> fst blk <= x < fst blk + 24 -> m' !! x = m !! x) -> heap_ok m' bs live.
Proof.
  intros Hh Hd Hfl Hhd.
  assert (Hnode : forall x, x ∈ nodes free_list bs -> rd 8 m' x = rd 8 m x /\ rd 8 m' (x + 8) = rd 8 m (x + 8)).
  { intros x [->|(blk & -> & Hb)%list_elem_of_fmap]%elem_of_cons; split; apply rd_ext; intros y Hy; try (apply Hfl; lia).
    all: apply (Hhd blk); [apply elem_of_app; by left|lia]. }
  split; [|intros blk Hb|apply Hh| |apply Hh].
  - apply list.Forall_forall. intros [x y] Hxy.
    destruct (proj1 (list.Forall_forall _ _) (hp_links _ _ _ _ Hh) _ Hxy) as [Hx Hy]. simpl in *.
    assert (Ix : x ∈ (pairs free_list bs.*1 free_list).*1) by (apply list_elem_of_fmap; by exists (x, y)).
    assert (Iy : y ∈ (pairs free_list bs.*1 free_list).*2) by (apply list_elem_of_fmap; by exists (x, y)).
    rewrite pairs_fst in Ix. rewrite pairs_snd in Iy. apply Hnode in Ix as [E1 _].
    assert (Hn : y ∈ nodes free_list bs).
    { apply elem_of_app in Iy as [Iy|Iy%list_elem_of_singleton]; apply elem_of_cons; [by right|by left]. }
    apply Hnode in Hn as [_ E2]. split; simpl; congruence.
  - rewrite <- (hp_sizes _ _ _ _ Hh blk Hb). apply rd_ext. intros x Hx. apply (Hhd blk); [done|lia].
  - intros r Hr x Hx. apply Hd. by apply (hp_mapped _ _ _ _ Hh r Hr).
Qed.

(** The bytes of the headers are not part of any payload. *)
Lemma header_not_payload m bs blocks x :
  heap_ok m bs (header <$> blocks) ->
  free_list <= x < free_list + 16 \/ (exists blk, blk ∈ bs ++ (header <$> blocks) /\ fst blk <= x < fst blk + 24) ->
  ~ in_regions blocks x.
Proof.
  intros Hh Hx (blk & Hb & Hin). set (r2 := region (header blk)).
  assert (Hlive : header blk ∈ header <$> blocks) by (apply list_elem_of_fmap; by exists blk).
  assert (H2 : r2 ∈ regions free_list bs (header <$> blocks)) by (apply elem_of_regions; right; exists (header blk); by split; [right|]).
  assert (Hr : exists r, r ∈ regions free_list bs (header <$> blocks) /\ fst r <= x < fst r + 24 /\ x < fst r + snd r).
  { destruct Hx as [Hx|(b' & Hb' & Hx)].
    - exists (free_list, 16). split; [apply elem_of_regions; by left|simpl; lia].
    - exists (region b'). split; [apply elem_of_regions; right; exists b'; by rewrite <- elem_of_app|].
      pose proof (heap_size_range _ _ _ _ _ Hh (proj1 (elem_of_app _ _ _) Hb')). unfold region, HEADER_SIZE. simpl. lia. }
  destruct Hr as (r & Hr & Hx1 & Hx2). unfold r2, region, header, HEADER_SIZE in *. cbn [fst snd] in *.
  destruct (decide (fst r = fst blk - 24)) as [E|Hne]; [lia|].
  pose proof (seps_elem _ _ _ (hp_seps _ _ _ _ Hh) Hr H2 Hne) as Ha. unfold apart in Ha. simpl in Ha. lia.
Qed.

End headers.

Section instance.
Context (HHDM_OFFSET free_list : Z).
Implicit Types (s : kstate) (bs blocks ext : list (Z * Z)) (n p k : Z).
Local Abbreviation kheap_inv := (kheap_inv HHDM_OFFSET free_list).
Local Abbreviation foreign := (foreign HHDM_OFFSET free_list).

(** The heap with the free blocks [bs], and regions that are foreign to it. *)
Definition client_inv s bs blocks ext : Prop :=
  kheap_inv s bs (header <$> blocks) /\
  forall r, r ∈ ext -> 0 < snd r /\ forall x, fst r <= x < fst r + snd r -> foreign s bs (header <$> blocks) x.

(** A free block fits, or there are frames for a new one. *)
Definition room s bs n : Prop :=
  0 <= n < 2 ^ 62 /\
  ((exists l1 b k l2, bs = l1 ++ (b, k) :: l2 /\ Forall (fun blk => snd blk < n) l1 /\ n <= k) \/
   (Forall (fun blk => snd blk < n) bs /\
    exists f, first_fit s (grow_frames n) f /\ quiet (bs ++ [grow_block HHDM_OFFSET n f]))).

Definition kheap_heap_inv s blocks ext : Prop := exists bs, client_inv s bs blocks ext.
Definition kheap_heap_ready s blocks ext n : Prop := exists bs, client_inv s bs blocks ext /\ room s bs n.

Lemma client_block s bs blocks ext p k :
  client_inv s bs blocks ext -> (p, k) ∈ blocks ->
  0 < p - 24 /\ 0 <= k /\ p + k < 2 ^ 64 /\ mapped (mem s) (p - 24) (24 + k) /\ rd 8 (mem s) (p - 24 + 16) = Some k.
Proof.
  intros [Hk _] Hb. pose proof (ki_heap _ _ _ _ _ Hk) as Hh.
  assert (Hl : header (p, k) ∈ header <$> blocks) by (apply list_elem_of_fmap; by exists (p, k)).
  assert (Hr : region (header (p, k)) ∈ regions free_list bs (header <$> blocks))
    by (apply elem_of_regions; right; exists (header (p, k)); by split; [right|]).
  destruct (hp_range _ _ _ _ Hh _ Hr) as (H1 & H2 & H3). pose proof (hp_mapped _ _ _ _ Hh _ Hr) as H4.
  pose proof (heap_size_range _ _ _ _ _ Hh (or_intror Hl)) as H5.
  pose proof (hp_sizes _ _ _ _ Hh (header (p, k)) (proj2 (elem_of_app _ _ _) (or_intror Hl))) as H6.
  unfold region, header, HEADER_SIZE in *. simpl in *. split; [lia|]. split; [lia|]. split; [lia|done].
Qed.

Lemma client_ext s bs blocks ext b r :
  client_inv s bs blocks ext -> b ∈ blocks -> r ∈ ext -> apart b r.
Proof.
  intros Hc Hb Hr. destruct b as [p k]. destruct (client_block _ _ _ _ _ _ Hc Hb) as (H1 & H2 & H3 & _).
  destruct Hc as [Hk He]. destruct (He r Hr) as [Hpos Hf].
  destruct (decide (apart (p, k) r)) as [|Hno]; [done|]. exfalso. unfold apart in Hno. cbn [fst snd] in Hno.
  destruct (Hf (Z.max (p - 24) (fst r))) as (Hf1 & _); [lia|]. apply (Hf1 (region (header (p, k)))).
  - apply elem_of_regions. right. exists (header (p, k)). split; [right|done]. apply list_elem_of_fmap. by exists (p, k).
  - unfold region, header, HEADER_SIZE. simpl. lia.
Qed.

Lemma client_seps s bs blocks ext : client_inv s bs blocks ext -> seps blocks.
Proof.
  intros [Hk _]. pose proof (hp_seps _ _ _ _ (ki_heap _ _ _ _ _ Hk)) as Hs. unfold regions in Hs.
  rewrite app_comm_cons in Hs. apply seps_app in Hs as (_ & Hs & _). clear Hk.
  induction blocks as [|b blocks IH]; [done|]. destruct Hs as [H1 H2]. split; [|by apply IH].
  intros r Hr. assert (Hi : region (header r) ∈ region <$> (header <$> blocks))
    by (apply list_elem_of_fmap; exists (header r); split; [done|]; apply list_elem_of_fmap; by exists r).
  specialize (H1 _ Hi). unfold apart, region, header, HEADER_SIZE in *. simpl in H1. lia.
Qed.

(** Writing to payloads and foreign memory. *)
Lemma client_write s bs blocks ext m' :
  client_inv s bs blocks ext -> same_dom (mem s) m' ->
  (forall x, ~ in_regions (blocks ++ ext) x -> m' !! x = mem s !! x) ->
  client_inv (with_mem s m') bs blocks ext /\ (forall g, 0 <= g < gval s g_limit -> used (with_mem s m') g = used s g).
Proof.
  intros [Hk He] Hd Ho. pose proof Hk as [Hh Hl Hp Hbm Hfr].
  assert (Hno : forall x, ~ in_regions blocks x -> ~ foreign s bs (header <$> blocks) x -> m' !! x = mem s !! x).
  { intros x H1 H2. apply Ho. intros (r & [Hr|Hr]%elem_of_app & Hx); [by apply H1; exists r|].
    destruct (He r Hr) as [_ Hf]. by apply H2, Hf. }
  assert (Hh' : heap_ok free_list m' bs (header <$> blocks)).
  { apply (heap_ext_headers free_list (mem s)); [done|done| |].
    - intros x Hx. apply Hno; [eapply header_not_payload; [exact Hh|by left]|].
      intros (Hf & _). apply (Hf (free_list, 16)); [apply elem_of_regions; by left|done].
    - intros blk x Hb Hx. apply Hno; [eapply header_not_payload; [exact Hh|right; by exists blk]|].
      pose proof (heap_size_range _ _ _ _ _ Hh (proj1 (elem_of_app _ _ _) Hb)).
      intros (Hf & _). apply (Hf (region blk)); [apply elem_of_regions; right; exists blk; by rewrite <- elem_of_app|].
      unfold region, HEADER_SIZE. simpl. lia. }
  assert (Hb : forall x, gval s g_bitmap <= x < gval s g_bitmap + bitmap_bytes s -> m' !! x = mem s !! x).
  { intros x Hx. apply Hno; [|by intros (_ & Hf & _)]. intros (blk & Hblk & Hin).
    assert (Hr : region (header blk) ∈ regions free_list bs (header <$> blocks)).
    { apply elem_of_regions. right. exists (header blk). split; [right|done]. apply list_elem_of_fmap. by exists blk. }
    specialize (Hbm _ Hr). unfold apart, region, header, HEADER_SIZE in Hbm. simpl in Hbm. lia. }
  assert (Hag : pmm_agree s (with_mem s m')) by (split; [done|]; by split).
  assert (Hu : forall g, 0 <= g < gval s g_limit -> used (with_mem s m') g = used s g)
    by (intros g Hg; by apply used_agree).
  destruct (pmm_agree_inv HHDM_OFFSET s (with_mem s m') Hag Hp) as (Hp' & _ & _).
  split; [|done]. split.
  - split; [done|done|done|done|]. intros r g Hr Hg Hug. rewrite Hu in Hug by (simpl in Hg; change (gval (with_mem s m') g_limit) with (gval s g_limit) in Hg; lia).
    by apply Hfr.
  - intros r Hr. destruct (He r Hr) as [Hpos Hf]. split; [done|]. intros x Hx. destruct (Hf x Hx) as (F1 & F2 & F3).
    split; [done|]. split; [done|]. intros g Hg Hug. change (gval (with_mem s m') g_limit) with (gval s g_limit) in Hg.
    rewrite Hu in Hug by lia. by apply F3.
Qed.

Lemma kept_split s s' bs blocks ext :
  client_inv s bs blocks ext -> live_kept s s' (header <$> blocks) ->
  foreign_kept HHDM_OFFSET free_list s s' bs (header <$> blocks) -> kept (blocks ++ ext) s s'.
Proof.
  intros [_ He] Hl Hf x (r & [Hr|Hr]%elem_of_app & Hx).
  - apply (Hl (header r)); [apply list_elem_of_fmap; by exists r|]. unfold header. simpl. lia.
  - destruct (He r Hr) as [_ H]. by apply Hf, H.
Qed.

Lemma client_alloc s bs blocks ext n :
  client_inv s bs blocks ext -> room s bs n ->
  exists p k s' bs', kheap_alloc HHDM_OFFSET free_list n s = Ok p s' /\ n <= k /\
    client_inv s' bs' ((p, k) :: blocks) ext /\ kept (blocks ++ ext) s s' /\ same_globals s s'.
Proof.
  intros Hc [Hn Hroom]. pose proof Hc as [Hki He].
  assert (H : exists b k s' bs', kheap_alloc HHDM_OFFSET free_list n s = Ok (b + 24) s' /\ n <= k /\
     kheap_inv s' bs' (taken b k n :: (header <$> blocks)) /\ same_globals s s' /\ live_kept s s' (header <$> blocks) /\
     foreign_kept HHDM_OFFSET free_list s s' bs (header <$> blocks) /\
     (forall x, foreign s bs (header <$> blocks) x -> foreign s' bs' (taken b k n :: (header <$> blocks)) x)).
  { destruct Hroom as [(l1 & b & k & l2 & -> & Hsm & Hk)|(Hsm & f & Hff & Hq)].
    - destruct (kheap_alloc_fit _ _ s l1 b k l2 _ n Hki Hsm ltac:(lia)) as (s' & E & H').
      by exists b, k, s', (l1 ++ remainder b k n ++ l2).
    - destruct (kheap_alloc_grow _ _ s bs _ n f Hki Hsm Hn Hff Hq) as (s' & E & H').
      eexists _, _, s', _. split; [exact E|]. split; [|exact H'].
      unfold grow_block, grow_frames, HEADER_SIZE, FRAME_SIZE; simpl; zlia. }
  destruct H as (b & k & s' & bs' & E & Hnk & Hki' & Hg & Hl & Hfk & Hfm).
  assert (Eh : header <$> ((b + 24, snd (taken b k n)) :: blocks) = taken b k n :: (header <$> blocks)).
  { cbn [fmap list_fmap]. f_equal. unfold header, taken. cbn [fst snd]. f_equal; lia. }
  exists (b + 24), (snd (taken b k n)), s', bs'. split; [done|].
  split; [unfold taken; simpl; case_match; lia|]. split; [|split; [by eapply kept_split|done]].
  unfold client_inv. rewrite Eh. split; [done|].
  intros r Hr. destruct (He r Hr) as [Hpos Hf]. split; [done|]. intros x Hx. by apply Hfm, Hf.
Qed.

Lemma kept_app_l rs rs' s s' : kept (rs ++ rs') s s' -> kept rs s s'.
Proof. intros H x (r & Hr & Hx). apply H. exists r. split; [apply elem_of_app; by left|done]. Qed.

(** Filling the newest block. *)
Lemma client_fill s bs p k blocks ext m' :
  client_inv s bs ((p, k) :: blocks) ext -> same_outside p k (mem s) m' ->
  client_inv (with_mem s m') bs ((p, k) :: blocks) ext /\ kept (blocks ++ ext) s (with_mem s m').
Proof.
  intros Hc [Hd Ho]. split.
  - apply client_write; [done|done|]. intros x Hx. apply Ho. intros Hin. apply Hx. exists (p, k).
    split; [apply elem_of_cons; by left|done].
  - intros x (r & Hr & Hx). simpl. apply Ho. intros Hin.
    assert (Ha : apart (p, k) r).
    { apply elem_of_app in Hr as [Hr|Hr]; [by apply (client_seps _ _ _ _ Hc)|].
      eapply client_ext; [exact Hc|apply elem_of_cons; by left|done]. }
    unfold apart in Ha. simpl in Ha. lia.
Qed.

Lemma kept_trans rs s1 s2 s3 : kept rs s1 s2 -> kept rs s2 s3 -> kept rs s1 s3.
Proof. intros H1 H2 x Hx. by rewrite H2, H1. Qed.

Lemma client_calloc s bs blocks ext n :
  client_inv s bs blocks ext -> room s bs n ->
  exists p k s' bs', kheap_calloc HHDM_OFFSET free_list n s = Ok p s' /\ n <= k /\
    client_inv s' bs' ((p, k) :: blocks) ext /\ kept (blocks ++ ext) s s' /\ same_globals s s' /\
    (forall x, p <= x < p + n -> mem s' !! x = Some Byte.x00).
Proof.
  intros Hc Hr. destruct (client_alloc _ _ _ _ _ Hc Hr) as (p & k & s1 & bs1 & E & Hnk & Hc1 & Hk1 & Hg1).
  destruct (client_block _ _ _ _ p k Hc1) as (Hp & Hk0 & Hpk & Hm & _); [apply elem_of_cons; by left|].
  destruct Hr as [Hn _].
  destruct (memset_eq s1 p 0 n) as (m' & E' & Hs & Hf); [unfold NULL; lia|lia|eapply mapped_sub; [exact Hm|lia|lia]|].
  destruct (client_fill s1 bs1 p k blocks ext m' Hc1) as [Hc2 Hk2]; [eapply same_outside_weaken; [exact Hs|lia|lia]|].
  exists p, k, (with_mem s1 m'), bs1. split; [|split; [done|split; [done|split; [by eapply kept_trans|split; [done|]]]]].
  - unfold kheap_calloc. rewrite (bind_Ok _ _ _ _ _ E). destruct (Z.eqb_spec p NULL) as [E0|_]; [unfold NULL in E0; lia|].
    cbv iota beta delta [negb]. by rewrite (bind_Ok _ _ _ _ _ E').
  - intros x Hx. simpl. replace x with (p + (x - p)) by lia. rewrite Hf by lia. done.
Qed.

Lemma client_realloc s bs blocks ext p k n :
  client_inv s bs blocks ext -> room s bs n -> (p, k) ∈ blocks -> 0 < n -> k <= n ->
  exists p' k' s' bs', kheap_realloc HHDM_OFFSET free_list p n s = Ok p' s' /\ n <= k' /\
    client_inv s' bs' ((p', k') :: blocks) ext /\ kept (blocks ++ ext) s s' /\ same_globals s s' /\
    (forall i, 0 <= i < k -> mem s' !! (p' + i) = mem s !! (p + i)).
Proof.
  intros Hc Hr Hb Hn0 Hkn. destruct (client_block _ _ _ _ _ _ Hc Hb) as (Hp & Hk0 & Hpk & Hm & Hsz).
  destruct (client_alloc _ _ _ _ _ Hc Hr) as (p' & k' & s1 & bs1 & E & Hnk & Hc1 & Hk1 & Hg1).
  destruct (client_block _ _ _ _ p' k' Hc1) as (Hp' & Hk0' & Hpk' & Hm' & _); [apply elem_of_cons; by left|].
  destruct (client_block _ _ _ _ p k Hc1) as (_ & _ & _ & Hm1 & _); [apply elem_of_cons; by right|].
  assert (Ha : apart (p', k') (p, k)) by (by apply (client_seps _ _ _ _ Hc1)). unfold apart in Ha. simpl in Ha.
  destruct (memcpy_eq s1 p' p k) as (m' & E' & Hs & Hcp); [unfold NULL; lia|unfold NULL; lia|lia| | |lia|].
  { eapply mapped_sub; [exact Hm'|lia|lia]. }
  { eapply mapped_sub; [exact Hm1|lia|lia]. }
  destruct (client_fill s1 bs1 p' k' blocks ext m' Hc1) as [Hc2 Hk2]; [eapply same_outside_weaken; [exact Hs|lia|lia]|].
  exists p', k', (with_mem s1 m'), bs1. split; [|split; [done|split; [done|split; [by eapply kept_trans|split; [done|]]]]].
  - unfold kheap_realloc, NULL in *. destruct (Z.eqb_spec p 0); [lia|]. destruct (Z.eqb_spec n 0); [lia|]. cbv iota beta delta [andb].
    rewrite (bind_Ok _ _ s k s) by (apply ld_ok; by rewrite u64_small by lia).
    rewrite (bind_Ok _ _ _ _ _ E). destruct (Z.eqb_spec p' 0); [lia|]. by rewrite (bind_Ok _ _ _ _ _ E').
  - intros i Hi. simpl. rewrite Hcp by done. apply Hk1. exists (p, k). split; [apply elem_of_app; by left|simpl; lia].
Qed.

(** The globals of the heap and of the frame allocator it draws on. *)
Definition kheap_global (v : gvar) : Prop := v = g_kheap_lock \/ v = g_bitmap \/ v = g_limit \/ v = g_pmm_lock.

Lemma client_glob s bs blocks ext v y :
  client_inv s bs blocks ext -> ~ kheap_global v -> client_inv (with_glob s v y) bs blocks ext.
Proof.
  intros [[H1 H2 H3 H4 H5] He] Hv.
  assert (Hg : forall w, kheap_global w -> gval (with_glob s v y) w = gval s w)
    by (intros w Hw; apply gval_with_glob_ne; by intros ->).
  assert (Hbm : gval (with_glob s v y) g_bitmap = gval s g_bitmap) by (apply Hg; right; by left).
  assert (Hlim : gval (with_glob s v y) g_limit = gval s g_limit) by (apply Hg; right; right; by left).
  assert (Hu : forall g, used (with_glob s v y) g = used s g) by (intros g; unfold used; by rewrite Hbm).
  assert (Hbb : bitmap_bytes (with_glob s v y) = bitmap_bytes s) by (unfold bitmap_bytes; by rewrite Hlim).
  destruct (pmm_agree_inv HHDM_OFFSET s (with_glob s v y)) as (Hp & _ & _);
    [apply pmm_agree_glob; unfold kheap_global in Hv; tauto|done|].
  split; [split; [done|rewrite Hg by (by left); done|done| |]|].
  - intros r Hr. rewrite Hbm, Hbb. by apply H4.
  - intros r g Hr. rewrite Hu, Hlim. by apply H5.
  - intros r Hr. destruct (He r Hr) as [Hpos Hf]. split; [done|]. intros x Hx. destruct (Hf x Hx) as (F1 & F2 & F3).
    split; [done|]. rewrite Hbm, Hbb. split; [done|]. intros g. rewrite Hlim, Hu. apply F3.
Qed.

Lemma room_ext s s' bs n :
  room s bs n -> gval s' g_limit = gval s g_limit -> (forall g, 0 <= g < gval s g_limit -> used s' g = used s g) ->
  room s' bs n.
Proof.
  intros [Hn [H|(Hsm & f & (F1 & F2 & F3 & F4) & Hq)]] Hl Hu; (split; [done|]); [by left|right].
  assert (HF : 1 <= grow_frames n) by (unfold grow_frames, HEADER_SIZE; zlia).
  split; [done|]. exists f. split; [|done]. split; [done|]. split; [by rewrite Hl|]. split.
  - intros g Hg. rewrite Hu by lia. by apply F3.
  - intros g Hg Hrun. apply (F4 g Hg). intros h Hh. rewrite <- Hu by lia. by apply Hrun.
Qed.

#[refine] Instance kheap_heap : KernelHeap := {|
  heap_alloc := kheap_alloc HHDM_OFFSET free_list;
  heap_calloc := kheap_calloc HHDM_OFFSET free_list;
  heap_realloc := kheap_realloc HHDM_OFFSET free_list;
  heap_inv := kheap_heap_inv;
  heap_ready := kheap_heap_ready;
  heap_global := kheap_global
|}.
Proof.
  - intros s blocks ext n (bs & Hc & _). by exists bs.
  - intros s blocks ext p k (bs & Hc) Hb. destruct (client_block _ _ _ _ _ _ Hc Hb) as (H1 & H2 & H3 & H4 & _).
    split; [lia|]. split; [lia|]. split; [lia|]. eapply mapped_sub; [exact H4|lia|lia].
  - intros s blocks ext (bs & Hc). by eapply client_seps.
  - intros s blocks ext b r (bs & Hc). by eapply client_ext.
  - intros s blocks ext n (bs & Hc & Hr). destruct (client_alloc _ _ _ _ _ Hc Hr) as (p & k & s' & bs' & E & Hnk & Hc' & H).
    exists p, k, s'. split; [done|]. split; [done|]. split; [by exists bs'|done].
  - intros s blocks ext n (bs & Hc & Hr). destruct (client_calloc _ _ _ _ _ Hc Hr) as (p & k & s' & bs' & E & Hnk & Hc' & H).
    exists p, k, s'. split; [done|]. split; [done|]. split; [by exists bs'|done].
  - intros s blocks ext p k n (bs & Hc & Hr) Hb Hn Hk.
    destruct (client_realloc _ _ _ _ _ _ _ Hc Hr Hb Hn Hk) as (p' & k' & s' & bs' & E & Hnk & Hc' & H).
    exists p', k', s'. split; [done|]. split; [done|]. split; [by exists bs'|done].
  - intros s n Hn. unfold kheap_realloc, NULL. destruct (Z.eqb_spec n 0); [lia|done].
  - intros s blocks ext m' Hd Ho. split.
    + intros (bs & Hc). exists bs. by apply client_write.
    + intros n (bs & Hc & Hr). exists bs. destruct (client_write _ _ _ _ m' Hc Hd Ho) as [Hc' Hu].
      split; [done|]. by eapply room_ext.
  - intros s blocks ext v y Hv. split.
    + intros (bs & Hc). exists bs. by apply client_glob.
    + intros n (bs & Hc & Hr). exists bs. split; [by apply client_glob|].
      assert (Hne : forall w, kheap_global w -> v <> w) by (by intros w Hw ->).
      apply (room_ext s); [done|apply gval_with_glob_ne, Hne; right; right; by left|]. intros g _. unfold used.
      rewrite gval_with_glob_ne; [done|]. apply Hne. right. by left.
Defined.

End instance.
