(* ===== verification/Vector.v ===== *)
(** The growing arrays of [lib/vector.h] and [lib/vector.c], on any kernel heap.

    A [vector_t] at address [v] has [items] at [v], [item_size] at [v + 8],
    [capacity] (in bytes) at [v + 16], the lock at [v + 24], with its file name
    at [v + 32], and [data] at [v + 40].  [vec] is the abstraction: the vector
    holds the list [l] of items, each a list of bytes. *)
From S2P Require Import Prelude Machine Lock Str Layout KheapSpec Heap.
Import Lock.Seq.

Definition sizeof_vector : Z := 48.

Section vector.
Context `{KernelHeap} (heap_free : Z -> K unit) (FILE : Z).

Definition vector_create (vector item_size : Z) : K unit :=
  st 8 vector 0 ;;
  st 8 (vector + 8) item_size ;;
  st 4 (vector + 24) 0 ;; st 8 (vector + 32) FILE ;;
  st 8 (vector + 40) 0 ;;
  st 8 (vector + 16) 0.

Definition vector_size (vector : Z) : K Z :=
  items ← ld 8 vector;
  item_size ← ld 8 (vector + 8);
  mret (u64 (items * item_size)).

Definition vector_get_items (vector : Z) : K Z :=
  spinlock_acquire (LM (vector + 24)) ;;
  items ← ld 8 vector;
  spinlock_release (LM (vector + 24)) ;;
  mret items.

(** The lock is kept when the index is out of range. *)
Definition vector_get (vector index : Z) : K Z :=
  spinlock_acquire (LM (vector + 24)) ;;
  items ← ld 8 vector;
  if items <=? index then mret 0
  else
    data ← ld 8 (vector + 40);
    item_size ← ld 8 (vector + 8);
    spinlock_release (LM (vector + 24)) ;;
    mret (u64 (data + index * item_size)).

(** [ptr = kheap_realloc(vector->data, size); assert(ptr); vector->data = ptr;
     vector->capacity = size;], which four operations share. *)
Definition vector_grow (vector size : Z) : K Z :=
  data ← ld 8 (vector + 40);
  ptr ← heap_realloc data size;
  kassert (negb (ptr =? NULL)) ;;
  st 8 (vector + 40) ptr ;;
  st 8 (vector + 16) size ;;
  mret ptr.

Definition vector_push (vector data : Z) : K unit :=
  spinlock_acquire (LM (vector + 24)) ;;
  items ← ld 8 vector;
  item_size ← ld 8 (vector + 8);
  let vector_size := u64 (items * item_size) in
  ptr ← ld 8 (vector + 40);
  capacity ← ld 8 (vector + 16);
  ptr ← (if capacity <? u64 (vector_size + item_size)
         then vector_grow vector (u64 (vector_size + item_size)) else mret ptr);
  memcpy (u64 (ptr + vector_size)) data item_size ;;
  items' ← ld 8 vector;
  st 8 vector (u64 (items' + 1)) ;;
  spinlock_release (LM (vector + 24)).

(** One item too many is moved, and an index out of range still removes one. *)
Definition vector_remove (vector index : Z) : K unit :=
  spinlock_acquire (LM (vector + 24)) ;;
  items ← ld 8 vector;
  (if index <? items then
     data ← ld 8 (vector + 40);
     item_size ← ld 8 (vector + 8);
     memcpy (u64 (data + index * item_size)) (u64 (data + (index + 1) * item_size))
       (u64 (item_size * items - index * item_size))
   else mret tt) ;;
  items' ← ld 8 vector;
  st 8 vector (u64 (items' - 1)) ;;
  spinlock_release (LM (vector + 24)).

Definition vector_delete (vector : Z) : K unit :=
  data ← ld 8 (vector + 40);
  heap_free data ;;
  heap_free vector.

Definition vector_pop (vector : Z) : K unit :=
  spinlock_acquire (LM (vector + 24)) ;;
  items ← ld 8 vector;
  st 8 vector (u64 (items - 1)) ;;
  spinlock_release (LM (vector + 24)).

Definition vector_replace (vector data index : Z) : K Z :=
  ptr ← vector_get vector index;
  spinlock_acquire (LM (vector + 24)) ;;
  item_size ← ld 8 (vector + 8);
  memcpy ptr data item_size ;;
  spinlock_release (LM (vector + 24)) ;;
  mret ptr.

Definition vector_insert (vector data index : Z) : K unit :=
  spinlock_acquire (LM (vector + 24)) ;;
  items ← ld 8 vector;
  item_size ← ld 8 (vector + 8);
  let vector_size := u64 (items * item_size) in
  capacity ← ld 8 (vector + 16);
  (if capacity <? u64 (vector_size + item_size)
   then vector_grow vector (u64 (vector_size + item_size)) ;; mret tt else mret tt) ;;
  base ← ld 8 (vector + 40);
  memcpy (u64 (base + (index + 1) * item_size)) (u64 (base + index * item_size))
    (u64 (item_size * items - index * item_size)) ;;
  base' ← ld 8 (vector + 40);
  memcpy (u64 (base' + index * item_size)) data item_size ;;
  items' ← ld 8 vector;
  st 8 vector (u64 (items' + 1)) ;;
  spinlock_release (LM (vector + 24)).

Definition vector_reserve (vector new_cap : Z) : K unit :=
  spinlock_acquire (LM (vector + 24)) ;;
  item_size ← ld 8 (vector + 8);
  capacity ← ld 8 (vector + 16);
  (if capacity <? u64 (new_cap * item_size)
   then vector_grow vector (u64 (new_cap * item_size)) ;; mret tt else mret tt) ;;
  spinlock_release (LM (vector + 24)).

Definition vector_resize (vector items : Z) : K unit :=
  spinlock_acquire (LM (vector + 24)) ;;
  item_size ← ld 8 (vector + 8);
  capacity ← ld 8 (vector + 16);
  (if capacity <? u64 (items * item_size)
   then vector_grow vector (u64 (items * item_size)) ;; mret tt else mret tt) ;;
  st 8 vector items ;;
  spinlock_release (LM (vector + 24)).

(** The result is an [int]; the lock is kept when the pointer is not in range. *)
Definition vector_get_index (vector data : Z) : K Z :=
  spinlock_acquire (LM (vector + 24)) ;;
  base ← ld 8 (vector + 40);
  item_size ← ld 8 (vector + 8);
  items ← ld 8 vector;
  if (u64 (base + item_size * items) <? data) || (data <? base) then mret (-1)
  else if item_size =? 0 then fault
  else
    spinlock_release (LM (vector + 24)) ;;
    mret (s32 ((data - base) / item_size)).

End vector.
