(* ===== verification/VectorSpec.v ===== *)
(** What the operations on vectors do to the list of items. *)
From S2P Require Import Prelude Machine Lock Str Layout KheapSpec Heap Vector.
Import Lock.Seq.

(** The region [r'] lies inside [r]. *)
Definition inside (r' r : Z * Z) : Prop := fst r <= fst r' /\ fst r' + snd r' <= fst r + snd r.

Section vectors.
Context `{KernelHeap}.
Implicit Types (s : kstate) (blocks ext : list (Z * Z)) (v isz lk cap d k n : Z) (l : list (list byte)).

(** The vector at [v] holds [l]: the items are at [d], in a block of [k] bytes of
    which [cap] are its capacity; [lk] is its lock. *)
Record vec s blocks ext v isz lk cap d k l : Prop := {
  vc_items : rd 8 (mem s) v = Some (Z.of_nat (length l));
  vc_isz : rd 8 (mem s) (v + 8) = Some isz;
  vc_cap : rd 8 (mem s) (v + 16) = Some cap;
  vc_lock : rd 4 (mem s) (v + 24) = Some lk;
  vc_data : rd 8 (mem s) (v + 40) = Some d;
  vc_block : d = NULL /\ k = 0 /\ cap = 0 \/ (d, k) ∈ blocks /\ apart (d, k) (v, sizeof_vector);
  vc_fits : Z.of_nat (length l) * isz <= cap <= k;
  vc_sizes : Forall (fun it => Z.of_nat (length it) = isz) l;
  vc_bytes : bytes_at (mem s) d (concat l);
  vc_own : exists r, r ∈ blocks ++ ext /\ inside (v, sizeof_vector) r;
  vc_pos : 0 < isz /\ 0 < v
}.

(** The bytes of the vector itself. *)
Lemma vec_own_byte s blocks ext v isz lk cap d k l x :
  vec s blocks ext v isz lk cap d k l -> v <= x < v + sizeof_vector -> in_regions (blocks ++ ext) x.
Proof. intros Hv Hx. destruct (vc_own _ _ _ _ _ _ _ _ _ _ Hv) as (r & Hr & Hi). exists r. unfold inside in Hi. simpl in *. split; [done|lia]. Qed.

Lemma concat_length isz l :
  Forall (fun it => Z.of_nat (length it) = isz) l -> Z.of_nat (length (concat l)) = Z.of_nat (length l) * isz.
Proof.
  induction 1 as [|it l Hit Hl IH]; [done|]. cbn [concat]. rewrite length_app, length_cons. lia.
Qed.

Lemma vec_data_range s blocks ext v isz lk cap d k l :
  heap_inv s blocks ext -> vec s blocks ext v isz lk cap d k l ->
  0 <= d /\ 0 <= cap <= k /\ d + k < 2 ^ 64 /\ mapped (mem s) d k /\ apart (d, k) (v, sizeof_vector) \/ k = 0.
Proof.
  intros Hh Hv. pose proof (vc_fits _ _ _ _ _ _ _ _ _ _ Hv) as Hf. pose proof (vc_pos _ _ _ _ _ _ _ _ _ _ Hv) as Hp.
  destruct (vc_block _ _ _ _ _ _ _ _ _ _ Hv) as [(-> & -> & ->)|[Hb Ha]]; [by right|left].
  destruct (hk_range _ _ _ _ _ Hh Hb) as (H1 & H2 & H3 & H4). split; [lia|]. split; [nia|]. split; [lia|done].
Qed.

(** The abstraction in a state that agrees on the vector and on its items. *)
Lemma vec_ext s s' blocks ext blocks' v isz lk cap d k l :
  vec s blocks ext v isz lk cap d k l ->
  (forall x, v <= x < v + sizeof_vector -> mem s' !! x = mem s !! x) ->
  (forall x, d <= x < d + k -> mem s' !! x = mem s !! x) ->
  (forall b, b ∈ blocks -> b ∈ blocks') ->
  vec s' blocks' ext v isz lk cap d k l.
Proof.
  intros [H1 H2 H3 H4 H5 H6 H7 H8 H9 H10 H11] Hv Hd Hb. unfold sizeof_vector in Hv.
  assert (Hrd : forall (j : nat) a, v <= a -> a + Z.of_nat j <= v + 48 -> rd j (mem s') a = rd j (mem s) a)
    by (intros; apply rd_ext; intros; apply Hv; lia).
  split; rewrite ?Hrd by lia; try done.
  - destruct H6 as [H6|[H6 H6']]; [by left|right]. split; [by apply Hb|done].
  - intros i b Hi. rewrite Hd; [by apply H9|]. apply lookup_lt_Some in Hi. pose proof (concat_length _ _ H8). lia.
  - destruct H10 as (r & Hr & Hin). exists r. split; [|done]. apply elem_of_app. apply elem_of_app in Hr as [Hr|Hr]; [left; by apply Hb|by right].
Qed.

(** Taking and releasing the lock. *)
Lemma vec_lock s blocks ext v isz lk cap d k l y :
  vec s blocks ext v isz lk cap d k l -> heap_inv s blocks ext -> 0 <= y < 2 ^ 32 ->
  let s' := with_mem s (wr 4 (mem s) (v + 24) y) in
  vec s' blocks ext v isz y cap d k l /\ heap_inv s' blocks ext /\
  (forall n, heap_ready s blocks ext n -> heap_ready s' blocks ext n) /\
  (forall x, ~ (v <= x < v + sizeof_vector) -> mem s' !! x = mem s !! x).
Proof.
  intros Hv Hh Hy s'. pose proof Hv as [V1 V2 V3 V4 V5 V6 V7 V8 V9 V10 V11].
  pose proof (vec_data_range _ _ _ _ _ _ _ _ _ _ Hh Hv) as Hd.
  assert (Hm : mapped (mem s) (v + 24) 4) by (by apply (rd_Some_mapped 4 _ _ lk)).
  assert (Ho : forall x, ~ (v + 24 <= x < v + 28) -> mem s' !! x = mem s !! x)
    by (intros x Hx; unfold s'; cbn [mem with_mem]; rewrite lookup_wr_out by lia; done).
  assert (Hw : same_dom (mem s) (mem s')) by (apply (same_dom_wr _ _ 4); done).
  destruct (hk_write s blocks ext (mem s') Hw) as [W1 W2].
  { intros x Hx. apply Ho. intros Hin. apply Hx, (vec_own_byte _ _ _ _ _ _ _ _ _ _ _ Hv). unfold sizeof_vector. lia. }
  split; [|split; [by apply W1|split; [by apply W2|intros x Hx; apply Ho; unfold sizeof_vector in Hx; lia]]].
  assert (Hrd : forall (j : nat) a, a + Z.of_nat j <= v + 24 \/ v + 28 <= a -> rd j (mem s') a = rd j (mem s) a)
    by (intros j a Ha; apply rd_ext; intros x Hx; apply Ho; lia).
  split; rewrite ?Hrd by lia; try done.
  - unfold s'. cbn [mem with_mem]. rewrite rd_wr_same. f_equal. by apply Z.mod_small.
  - intros i b Hi. rewrite Ho; [by apply V9|]. apply lookup_lt_Some in Hi. pose proof (concat_length _ _ V8) as Hc.
    destruct Hd as [(D1 & D2 & D3 & D4 & D5)|Hk0]; [|lia]. unfold apart, sizeof_vector in D5. simpl in D5. lia.
Qed.

(** A larger block for the items. *)
Lemma vector_grow_eq s blocks ext v isz lk cap d k l n :
  vec s blocks ext v isz lk cap d k l -> heap_ready s blocks ext n ->
  Z.of_nat (length l) * isz <= n -> k <= n -> 0 < n < 2 ^ 64 ->
  exists p k' s', vector_grow v n s = Ok p s' /\ p <> NULL /\
    vec s' ((p, k') :: blocks) ext v isz lk n p k' l /\ heap_inv s' ((p, k') :: blocks) ext /\
    (forall x, in_regions (blocks ++ ext) x -> ~ (v <= x < v + sizeof_vector) -> mem s' !! x = mem s !! x) /\
    same_globals s s'.
Proof.
  intros Hv Hr Hl Hkn Hn. pose proof (hk_ready_inv _ _ _ _ Hr) as Hh.
  pose proof Hv as [V1 V2 V3 V4 V5 V6 V7 V8 V9 V10 V11].
  assert (Hre : exists p k' s1, heap_realloc d n s = Ok p s1 /\ n <= k' /\ heap_inv s1 ((p, k') :: blocks) ext /\
     kept (blocks ++ ext) s s1 /\ same_globals s s1 /\ (forall i, 0 <= i < k -> mem s1 !! (p + i) = mem s !! (d + i))).
  { destruct V6 as [(-> & -> & ->)|[Hb _]].
    - destruct (hk_alloc _ _ _ _ Hr) as (p & k' & s1 & E & Hk' & Hh1 & Hkp & Hg). exists p, k', s1.
      rewrite hk_realloc_null by lia. repeat (split; [done|]). lia.
    - apply hk_realloc; [done|done|lia|lia]. }
  destruct Hre as (p & k' & s1 & E & Hk' & Hh1 & Hkp & Hg & Hcp).
  destruct (hk_range _ _ _ p k' Hh1) as (P1 & P2 & P3 & P4); [apply elem_of_cons; by left|].
  destruct V10 as (r & Hro & Hin). unfold inside, sizeof_vector in Hin. simpl in Hin.
  assert (Ha : apart (p, k') r).
  { apply elem_of_app in Hro as [Hro|Hro]; [by apply (hk_seps _ _ _ Hh1)|].
    by apply (hk_ext _ _ _ _ _ Hh1); [apply elem_of_cons; left|]. }
  assert (Hav : apart (p, k') (v, 48)) by (unfold apart in *; simpl in *; lia). unfold apart in Hav. simpl in Hav.
  assert (Hvk : forall x, v <= x < v + 48 -> mem s1 !! x = mem s !! x)
    by (intros x Hx; apply Hkp, (vec_own_byte _ _ _ _ _ _ _ _ _ _ _ Hv); done).
  assert (Hrd : forall j a, v <= a -> a + Z.of_nat j <= v + 48 -> rd j (mem s1) a = rd j (mem s) a)
    by (intros; apply rd_ext; intros; apply Hvk; lia).
  set (m2 := wr 8 (wr 8 (mem s1) (v + 40) p) (v + 16) n).
  assert (M40 : mapped (mem s1) (v + 40) 8) by (apply (rd_Some_mapped 8 _ _ d); rewrite Hrd by lia; done).
  assert (M16 : mapped (mem s1) (v + 16) 8) by (apply (rd_Some_mapped 8 _ _ cap); rewrite Hrd by lia; done).
  assert (Ho : forall x, ~ (v + 16 <= x < v + 24) -> ~ (v + 40 <= x < v + 48) -> m2 !! x = mem s1 !! x)
    by (intros x X1 X2; unfold m2; by rewrite !lookup_wr_out by lia).
  exists p, k', (with_mem s1 m2). split; [|split; [unfold NULL; lia|split; [|split; [|split; [|done]]]]].
  - unfold vector_grow. rewrite (ld_then 8 _ d) by done. rewrite (bind_Ok _ _ _ _ _ E).
    rewrite (bind_Ok _ _ s1 tt s1) by (unfold kassert, NULL; by destruct (Z.eqb_spec p 0); [lia|]).
    rewrite st_then by done. rewrite st_then by (by apply mapped_wr). done.
  - assert (Hrd2 : forall j a, a + Z.of_nat j <= v + 16 \/ (v + 24 <= a /\ a + Z.of_nat j <= v + 40) ->
              rd j m2 a = rd j (mem s1) a) by (intros j a Ha2; apply rd_ext; intros x Hx; apply Ho; lia).
    split; cbn [mem with_mem]; rewrite ?Hrd2, ?Hrd by lia; try done.
    + unfold m2. rewrite rd_wr_same. f_equal. apply Z.mod_small. simpl. lia.
    + unfold m2. rewrite rd_wr_ne, rd_wr_same by lia. f_equal. apply Z.mod_small. simpl. lia.
    + right. split; [apply elem_of_cons; by left|done].
    + intros i b Hi. pose proof (lookup_lt_Some _ _ _ Hi). pose proof (concat_length _ _ V8).
      rewrite Ho, Hcp by lia. by apply V9.
    + exists r. split; [|done]. apply elem_of_app. rewrite elem_of_cons. apply elem_of_app in Hro. tauto.
  - apply hk_write; [by do 2 (apply same_dom_wr; [|done])| |done]. intros x Hx. apply Ho; intros Hin2; apply Hx;
      exists r; (split; [apply elem_of_app; rewrite elem_of_cons; apply elem_of_app in Hro; tauto|lia]).
  - intros x Hx Hnv. cbn [mem with_mem]. unfold sizeof_vector in Hnv. rewrite Ho by lia. by apply Hkp.
Qed.

(** Copying an item behind the others and counting it. *)
Lemma vector_append_eq s blocks ext v isz cap d k l src item :
  vec s blocks ext v isz 1 cap d k l -> heap_inv s blocks ext ->
  (Z.of_nat (length l) + 1) * isz <= cap -> Z.of_nat (length l) + 1 < 2 ^ 64 ->
  bytes_at (mem s) src item -> Z.of_nat (length item) = isz -> src <> NULL -> d <> NULL ->
  apart (src, isz) (d, k) ->
  exists s', (memcpy (u64 (d + u64 (Z.of_nat (length l) * isz))) src isz ;;
      items' ← ld 8 v; st 8 v (u64 (items' + 1)) ;; spinlock_release (LM (v + 24))) s = Ok tt s' /\
    vec s' blocks ext v isz 0 cap d k (l ++ [item]) /\ heap_inv s' blocks ext /\
    (forall x, ~ (v <= x < v + sizeof_vector) -> ~ (d <= x < d + k) -> mem s' !! x = mem s !! x) /\ same_globals s s'.
Proof.
  intros Hv Hh Hcap Hlen Hsrc Hit Hs0 Hd0 Ha. pose proof Hv as [V1 V2 V3 V4 V5 V6 V7 V8 V9 V10 V11].
  destruct V6 as [(-> & _)|[Hb Hav]]; [done|]. set (len := Z.of_nat (length l)) in *.
  destruct (hk_range _ _ _ _ _ Hh Hb) as (R1 & R2 & R3 & R4). unfold apart, sizeof_vector in Ha, Hav. simpl in Ha, Hav.
  assert (Hl0 : 0 <= len * isz) by nia. assert (Hlk : len * isz + isz <= k) by lia.
  rewrite (u64_small (len * isz)) by lia. rewrite (u64_small (d + len * isz)) by lia. set (e := d + len * isz) in *.
  destruct (memcpy_eq s e src isz) as (m1 & E1 & [D1 O1] & C1); [unfold NULL in *; lia|done|lia| | |lia|].
  { eapply mapped_sub; [exact R4|lia|lia]. }
  { rewrite <- Hit. by apply bytes_at_mapped. }
  set (m2 := wr 8 m1 v (len + 1)). set (s2 := with_mem s m2).
  assert (Hk1 : forall x, v <= x < v + 48 -> m1 !! x = mem s !! x) by (intros x Hx; apply O1; lia).
  assert (Hrd1 : forall (j : nat) a, v <= a -> a + Z.of_nat j <= v + 48 -> rd j m1 a = rd j (mem s) a)
    by (intros j a A1 A2; apply rd_ext; intros x Hx; apply Hk1; lia).
  assert (Mv : mapped m1 v 8) by (apply (rd_Some_mapped 8 _ _ len); rewrite Hrd1 by lia; done).
  assert (Hrd2 : forall (j : nat) a, v + 8 <= a -> a + Z.of_nat j <= v + 48 -> rd j m2 a = rd j (mem s) a)
    by (intros j a A1 A2; unfold m2; rewrite rd_wr_ne by lia; apply Hrd1; lia).
  assert (Hlen2 : Z.of_nat (length (l ++ [item])) = len + 1) by (rewrite length_app; simpl; lia).
  assert (Hv2 : vec s2 blocks ext v isz 1 cap d k (l ++ [item])).
  { split; rewrite ?Hlen2; cbn [mem with_mem s2]; rewrite ?Hrd2 by lia; try done; try lia.
    - unfold m2. rewrite rd_wr_same. f_equal. apply Z.mod_small. simpl. lia.
    - right. done.
    - apply Forall_app. split; [done|]. by constructor.
    - rewrite concat_app. cbn [concat]. rewrite app_nil_r. pose proof (concat_length _ _ V8) as Hcl. fold len in Hcl.
      intros i b Hi. assert (Hout : forall x, d <= x < d + k -> m2 !! x = m1 !! x)
        by (intros x Hx; unfold m2; rewrite lookup_wr_out by lia; done).
      pose proof (lookup_lt_Some _ _ _ Hi) as Hlt. rewrite length_app in Hlt. rewrite Hout by lia.
      destruct (decide (i < length (concat l))%nat) as [Hi1|Hi1].
      + rewrite lookup_app_l in Hi by done. rewrite O1 by lia. by apply V9.
      + rewrite lookup_app_r in Hi by lia. replace (d + Z.of_nat i) with (e + (Z.of_nat i - len * isz)) by lia.
        rewrite C1 by lia. specialize (Hsrc _ _ Hi). rewrite <- Hsrc. f_equal. lia. }
  assert (Hh2 : heap_inv s2 blocks ext).
  { apply hk_write; [|intros x Hx|done].
    - apply (same_dom_wr _ _ 8); [exact D1|]. apply (rd_Some_mapped 8 _ _ len). done.
    - unfold m2. rewrite lookup_wr_out, O1; [done| |].
      + intros Hin. apply Hx. exists (d, k). split; [apply elem_of_app; by left|simpl; lia].
      + intros Hin. apply Hx, (vec_own_byte _ _ _ _ _ _ _ _ _ _ _ Hv). unfold sizeof_vector. lia. }
  destruct (vec_lock _ _ _ _ _ _ _ _ _ _ 0 Hv2 Hh2 ltac:(lia)) as (Hv3 & Hh3 & _ & Ho3).
  eexists. split; [|split; [exact Hv3|split; [exact Hh3|split; [|done]]]].
  - rewrite (bind_Ok _ _ _ _ _ E1). rewrite (ld_then 8 v len) by (cbn [mem with_mem]; rewrite Hrd1 by lia; done).
    rewrite u64_small by lia. rewrite st_then by done. fold s2. apply release_held. apply (vc_lock _ _ _ _ _ _ _ _ _ _ Hv2).
  - intros x X1 X2. rewrite Ho3 by done. cbn [mem with_mem s2]. unfold m2. unfold sizeof_vector in X1.
    rewrite lookup_wr_out, O1 by lia. done.
Qed.

(** Taking the free lock of a vector. *)
Lemma vec_acquire s blocks ext v isz cap d k l :
  vec s blocks ext v isz 0 cap d k l -> heap_inv s blocks ext ->
  exists s', spinlock_acquire (LM (v + 24)) s = Ok tt s' /\
    vec s' blocks ext v isz 1 cap d k l /\ heap_inv s' blocks ext /\
    (forall n, heap_ready s blocks ext n -> heap_ready s' blocks ext n) /\
    (forall x, ~ (v <= x < v + sizeof_vector) -> mem s' !! x = mem s !! x) /\ same_globals s s'.
Proof.
  intros Hv Hh. destruct (vec_lock _ _ _ _ _ _ _ _ _ _ 1 Hv Hh ltac:(lia)) as (H1 & H2 & H3 & H4).
  eexists. split; [|split; [exact H1|split; [exact H2|split; [exact H3|split; [exact H4|done]]]]].
  apply acquire_free, (vc_lock _ _ _ _ _ _ _ _ _ _ Hv).
Qed.

(** A new block is disjoint from everything the clients had. *)
Lemma fresh_outside s blocks ext p k x :
  heap_inv s ((p, k) :: blocks) ext -> in_regions (blocks ++ ext) x -> ~ (p <= x < p + k).
Proof.
  intros Hh (q & Hq & Hx). assert (Ha : apart (p, k) q).
  { apply elem_of_app in Hq as [Hq|Hq]; [by apply (hk_seps _ _ _ Hh)|].
    by apply (hk_ext _ _ _ _ _ Hh); [apply elem_of_cons; left|]. }
  unfold apart in Ha. simpl in Ha. lia.
Qed.

(** Room for [n] bytes of items: in place, or in a larger block. *)
Lemma vector_room_eq s blocks ext v isz cap d k l src n :
  vec s blocks ext v isz 1 cap d k l -> heap_inv s blocks ext -> 0 < n < 2 ^ 62 ->
  Z.of_nat (length l) * isz <= n -> (cap < n -> heap_ready s blocks ext n /\ k <= n) ->
  (forall x, src <= x < src + isz -> in_regions (blocks ++ ext) x) -> apart (src, isz) (d, k) ->
  exists s2 blocks' cap' d' k', (if cap <? n then vector_grow v n else mret d) s = Ok d' s2 /\
     vec s2 blocks' ext v isz 1 cap' d' k' l /\ heap_inv s2 blocks' ext /\ n <= cap' /\ d' <> NULL /\
     (forall b, b ∈ blocks -> b ∈ blocks') /\ same_globals s s2 /\ apart (src, isz) (d', k') /\
     (forall x, in_regions (blocks ++ ext) x -> ~ (v <= x < v + sizeof_vector) -> mem s2 !! x = mem s !! x) /\
     (d' = d /\ k' = k \/ forall x, in_regions (blocks ++ ext) x -> ~ (d' <= x < d' + k')).
Proof.
  intros Hv Hh Hn Hl Hgrow Hsown S6. pose proof (vc_pos _ _ _ _ _ _ _ _ _ _ Hv) as [Hisz _].
  destruct (Z.ltb_spec cap n) as [Hlt|Hge].
  - destruct (Hgrow Hlt) as [Hready Hkn].
    destruct (vector_grow_eq s blocks ext v isz 1 cap d k l n Hv Hready) as (p & k' & s2 & E2 & P0 & Hv2 & Hh2 & Ho2 & Hg2);
      [lia|lia|lia|].
    exists s2, ((p, k') :: blocks), n, p, k'. split; [done|]. do 4 (split; [done|]).
    split; [intros b Hb; apply elem_of_cons; by right|]. split; [done|].
    split; [|split; [done|right; intros x; by eapply fresh_outside]].
    pose proof (vc_fits _ _ _ _ _ _ _ _ _ _ Hv2).
    destruct (decide (apart (src, isz) (p, k'))) as [|Hno]; [done|]. exfalso. unfold apart in Hno. simpl in Hno.
    apply (fresh_outside _ _ _ _ _ (Z.max src p) Hh2); [apply Hsown; lia|lia].
  - exists s, blocks, cap, d, k. split; [done|]. do 2 (split; [done|]). split; [lia|].
    split; [|split; [done|split; [done|split; [done|split; [done|by left]]]]].
    destruct (vc_block _ _ _ _ _ _ _ _ _ _ Hv) as [(-> & -> & ->)|[Hb _]]; [lia|].
    destruct (hk_range _ _ _ _ _ Hh Hb). unfold NULL. lia.
Qed.

(** The item to be stored is the caller's: it lies in memory that the heap has
    handed out or does not know, and not in the vector. *)
Record source_ok s blocks ext v isz d k src (item : list byte) : Prop := {
  so_bytes : bytes_at (mem s) src item;
  so_size : Z.of_nat (length item) = isz;
  so_null : src <> NULL;
  so_own : exists r, r ∈ blocks ++ ext /\ inside (src, isz) r;
  so_vector : apart (src, isz) (v, sizeof_vector);
  so_data : apart (src, isz) (d, k)
}.


(** The items lie side by side. *)
Lemma concat_item isz l i item :
  Forall (fun it => Z.of_nat (length it) = isz) l -> l !! i = Some item ->
  forall j b, item !! j = Some b -> exists a : nat, Z.of_nat a = Z.of_nat i * isz + Z.of_nat j /\ concat l !! a = Some b.
Proof.
  intros Hf. revert i. induction Hf as [|it l Hit Hf IH]; intros i Hi j b Hj; [by rewrite lookup_nil in Hi|].
  destruct i as [|i]; cbn [concat].
  - injection Hi as ->. exists j. split; [lia|]. rewrite lookup_app_l; [done|]. by apply lookup_lt_Some in Hj.
  - destruct (IH i Hi j b Hj) as (n & Hn & Hc). exists (length it + n)%nat. split; [lia|].
    rewrite lookup_app_r by lia. by replace (length it + n - length it)%nat with n by lia.
Qed.

(** [vector_get] of an index in range returns the address of the item of that
    index, and leaves memory, the lock included, as it was. *)
Theorem vector_get_reads s blocks ext v isz cap d k l i item :
  vec s blocks ext v isz 0 cap d k l -> heap_inv s blocks ext -> l !! i = Some item ->
  vector_get v (Z.of_nat i) s = Ok (d + Z.of_nat i * isz) s /\
  bytes_at (mem s) (d + Z.of_nat i * isz) item.
Proof.
  intros Hv Hh Hi. pose proof Hv as [V1 V2 V3 V4 V5 V6 V7 V8 V9 V10 V11].
  pose proof (lookup_lt_Some _ _ _ Hi) as Hlt. split.
  - destruct (vec_data_range _ _ _ _ _ _ _ _ _ _ Hh Hv) as [(D1 & D2 & D3 & _)|Hk0]; [|nia].
    set (m1 := wr 4 (mem s) (v + 24) 1). unfold vector_get.
    rewrite (bind_Ok _ _ s tt (with_mem s m1)) by (by apply acquire_free).
    assert (Hrd : forall a, a + 8 <= v + 24 \/ v + 28 <= a -> rd 8 m1 a = rd 8 (mem s) a)
      by (intros a Ha; unfold m1; apply rd_wr_ne; lia).
    rewrite (ld_then 8 _ (Z.of_nat (length l))) by (cbn [mem with_mem]; rewrite Hrd by lia; done).
    destruct (Z.leb_spec (Z.of_nat (length l)) (Z.of_nat i)); [lia|].
    rewrite (ld_then 8 _ d) by (cbn [mem with_mem]; rewrite Hrd by lia; done).
    rewrite (ld_then 8 _ isz) by (cbn [mem with_mem]; rewrite Hrd by lia; done).
    rewrite (bind_Ok _ _ _ tt s); [rewrite u64_small by nia; done|].
    rewrite release_held by (unfold m1; simpl; by rewrite rd_wr_same). simpl. rewrite with_mem_mem. f_equal.
    unfold m1. rewrite wr_wr_same, wr_rd_id by done. by destruct s.
  - intros j b Hj. destruct (concat_item _ _ _ _ V8 Hi j b Hj) as (n & Hn & Hc). rewrite <- (V9 n b Hc). f_equal. lia.
Qed.

(** An index out of range makes [vector_get] return a null pointer without
    releasing the lock: the next operation on the vector ends in the deadlock
    assertion. *)
Theorem vector_get_out_of_range_deadlocks s blocks ext v isz cap d k l i src :
  vec s blocks ext v isz 0 cap d k l -> Z.of_nat (length l) <= i ->
  exists s', vector_get v i s = Ok NULL s' /\
    vector_get v 0 s' = Halt /\ vector_push v src s' = Halt /\ vector_pop v s' = Halt.
Proof.
  intros Hv Hi. pose proof Hv as [V1 V2 V3 V4 V5 V6 V7 V8 V9 V10 V11].
  set (m1 := wr 4 (mem s) (v + 24) 1). exists (with_mem s m1). split.
  - unfold vector_get. rewrite (bind_Ok _ _ s tt (with_mem s m1)) by (by apply acquire_free).
    rewrite (ld_then 8 _ (Z.of_nat (length l))) by (cbn [mem with_mem]; unfold m1; rewrite rd_wr_ne by lia; done).
    by destruct (Z.leb_spec (Z.of_nat (length l)) i); [|lia].
  - assert (Hh : spinlock_acquire (LM (v + 24)) (with_mem s m1) = Halt).
    { rewrite (acquire_cases _ _ 1); [done|]. simpl. unfold m1. by rewrite rd_wr_same. }
    unfold vector_get, vector_push, vector_pop, mbind, K_bind. by rewrite Hh.
Qed.

End vectors.
