(* ===== verification/VectorWitness.v ===== *)
(** The theorems about vectors on the heap of [memory/kheap.c] and a small state. *)
From S2P Require Import Prelude Machine Lock Str Layout Interfaces Pmm PmmSpec Kheap KheapSpec KheapProps KheapFree KheapWitness.
From S2P Require Import Heap KheapHeap Vector VectorSpec.

#[local] Existing Instance kheap_heap.
#[local] Instance small_kernel_heap : KernelHeap := kheap_heap 0x10000 0x8000.

(** The small heap, with a [vector_t] of items of 8 bytes at [0x9000] and a
    caller's item at [0x9100]. *)
Definition vec_mem (items cap d : Z) : gmap Z byte :=
  let m := small_heap_mem ∪ zeros 0x9000 0x200 in
  wr 8 (wr 8 (wr 8 (wr 8 m 0x9000 items) 0x9008 8) 0x9010 cap) 0x9028 d.
Definition vec_state (items cap d : Z) : kstate :=
  KState (vec_mem items cap d) {[ g_bitmap := 0x10000; g_limit := 6 ]} [].
Definition vec_ext_regions : list (Z * Z) := [(0x9000, 48); (0x9100, 8)].
Definition vec_blocks : list (Z * Z) := [(0x11130, 0xed0)].

Lemma vec_mem_heap items cap d x :
  0x8000 <= x < 0x8010 \/ 0x10000 <= x -> is_Some (small_heap_mem !! x) -> vec_mem items cap d !! x = small_heap_mem !! x.
Proof.
  intros Hx [b Hb]. unfold vec_mem. rewrite !lookup_wr_out by lia. by rewrite (lookup_union_Some_l _ _ x b).
Qed.

Lemma small_heap_mapped : mapped small_heap_mem 0x10000 0x6000 /\ mapped small_heap_mem 0x8000 16.
Proof. unfold small_heap_mem, frame_heap_mem. split; demo_mapped. Qed.

(** States that have the small heap and other memory between [0x9000] and [0xa000]. *)
Definition has_small_heap (m : gmap Z byte) : Prop :=
  forall x, 0x8000 <= x < 0x8010 \/ 0x10000 <= x < 0x16000 -> m !! x = small_heap_mem !! x.
Definition small_state (m : gmap Z byte) : kstate := KState m {[ g_bitmap := 0x10000; g_limit := 6 ]} [].

Lemma small_state_inv m : has_small_heap m -> kheap_inv 0x10000 0x8000 (small_state m) small_free small_live.
Proof.
  destruct small_heap_mapped as [M1 M2]. intros E.
  assert (R : forall a, 0x8000 <= a /\ a + 8 <= 0x8010 \/ 0x10000 <= a /\ a + 8 <= 0x16000 ->
            rd 8 m a = rd 8 small_heap_mem a) by (intros a Ha; apply rd_ext; intros x Hx; apply E; lia).
  apply frame_heap_inv.
  - lia.
  - intros x Hx. rewrite E by lia. apply M1. lia.
  - intros x Hx. rewrite E by lia. apply M2. lia.
  - rewrite (rd_ext 1 small_heap_mem m) by (intros x Hx; apply E; lia). unfold small_heap_mem, frame_heap_mem. mem_rd.
  - cbn [pairs fmap list_fmap small_free fst].
    repeat (apply List.Forall_cons || apply List.Forall_nil); (split; cbn [fst snd]; rewrite R by lia);
      unfold small_heap_mem, frame_heap_mem; mem_rd.
  - cbn [app small_free small_live].
    repeat (apply List.Forall_cons || apply List.Forall_nil);
      (split; cbn [fst snd]; [rewrite R by lia|lia]); unfold small_heap_mem, frame_heap_mem; mem_rd.
  - demo_seps.
Qed.

Lemma small_client m ext :
  has_small_heap m -> (forall r, r ∈ ext -> 0 < snd r /\ 0x9000 <= fst r /\ fst r + snd r <= 0xa000) ->
  client_inv 0x10000 0x8000 (small_state m) small_free vec_blocks ext.
Proof.
  intros Hm Hext. split; [by apply small_state_inv|]. intros r Hr. destruct (Hext r Hr) as (H1 & H2 & H3).
  split; [lia|]. intros x Hx. split; [|split].
  - intros q Hq. repeat (apply elem_of_cons in Hq as [->|Hq]); [| | |by apply elem_of_nil in Hq]; simpl; unfold HEADER_SIZE; lia.
  - change (gval _ g_bitmap) with 0x10000. lia.
  - intros g Hg _. unfold frame_va. lia.
Qed.

Lemma vec_state_client items cap d :
  client_inv 0x10000 0x8000 (vec_state items cap d) small_free vec_blocks vec_ext_regions.
Proof.
  apply (small_client (vec_mem items cap d)).
  - destruct small_heap_mapped as [M1 M2]. intros x Hx. apply vec_mem_heap; [lia|]. destruct Hx; [apply M2; lia|apply M1; lia].
  - intros r Hr. repeat (apply elem_of_cons in Hr as [->|Hr]); [simpl; lia|simpl; lia|by apply elem_of_nil in Hr].
Qed.

(** A vector of 8-byte items with an explicit header. *)
Lemma vec_state_vec items cap d k l :
  d = NULL /\ k = 0 /\ cap = 0 \/ d = 0x11130 /\ k = 0xed0 ->
  Z.of_nat (length l) = items -> items < 2 ^ 64 -> items * 8 <= cap <= k ->
  Forall (fun it => Z.of_nat (length it) = 8) l -> bytes_at (vec_mem items cap d) d (concat l) ->
  vec (vec_state items cap d) vec_blocks vec_ext_regions 0x9000 8 0 cap d k l.
Proof.
  intros Hd <- Hi Hf Hs Hb. assert (Hlim : cap < 2 ^ 64 /\ 0 <= d < 2 ^ 64 /\ 0 <= cap) by (unfold NULL in Hd; lia).
  split; cbn [mem vec_state].
  - unfold vec_mem. do 3 (rewrite rd_wr_ne by lia). rewrite rd_wr_same. f_equal. apply Z.mod_small. simpl. lia.
  - unfold vec_mem. do 2 (rewrite rd_wr_ne by lia). by rewrite rd_wr_same.
  - unfold vec_mem. rewrite rd_wr_ne by lia. rewrite rd_wr_same. f_equal. apply Z.mod_small. simpl. lia.
  - unfold vec_mem, small_heap_mem, frame_heap_mem. mem_rd.
  - unfold vec_mem. rewrite rd_wr_same. f_equal. apply Z.mod_small. simpl. lia.
  - destruct Hd as [Hd|[-> ->]]; [by left|right]. split; [apply elem_of_cons; by left|]. unfold apart, sizeof_vector. simpl. lia.
  - lia.
  - exact Hs.
  - exact Hb.
  - exists (0x9000, 48). split; [apply elem_of_app; right; apply elem_of_cons; by left|]. unfold inside, sizeof_vector. simpl. lia.
  - lia.
Qed.

Lemma vec_push_source :
  source_ok (vec_state 0 0 NULL) vec_blocks vec_ext_regions 0x9000 8 NULL 0 0x9100 (replicate 8 Byte.x00).
Proof.
  split; [|done|done| | |].
  - intros i b Hi. apply lookup_replicate in Hi as [-> Hi]. cbn [mem vec_state]. unfold vec_mem.
    unfold small_heap_mem, frame_heap_mem. mem_zero.
  - exists (0x9100, 8). split; [apply elem_of_app; right; apply elem_of_cons; right; apply elem_of_cons; by left|].
    unfold inside. simpl. lia.
  - unfold apart, sizeof_vector. simpl. lia.
  - unfold apart, NULL. simpl. lia.
Qed.


Lemma vec_get_item :
  vec (vec_state 1 8 0x11130) vec_blocks vec_ext_regions 0x9000 8 0 8 0x11130 0xed0 [replicate 8 Byte.x00].
Proof.
  apply vec_state_vec; [by right|done|lia|simpl; lia|by repeat constructor|].
  intros i b Hi. change (concat [replicate 8 Byte.x00]) with (replicate 8 Byte.x00) in Hi.
  apply lookup_replicate in Hi as [-> Hi].
  unfold vec_mem, small_heap_mem, frame_heap_mem. mem_zero.
Qed.

Lemma vector_get_reads_witness :
  vector_get 0x9000 0 (vec_state 1 8 0x11130) = Ok 0x11130 (vec_state 1 8 0x11130) /\
  bytes_at (mem (vec_state 1 8 0x11130)) 0x11130 (replicate 8 Byte.x00).
Proof.
  apply (vector_get_reads (vec_state 1 8 0x11130) vec_blocks vec_ext_regions 0x9000 8 8 0x11130 0xed0
           [replicate 8 Byte.x00] 0 (replicate 8 Byte.x00)); [apply vec_get_item| |done].
  exists small_free. apply vec_state_client.
Defined.

Lemma vector_get_out_of_range_deadlocks_witness :
  exists s', vector_get 0x9000 1 (vec_state 1 8 0x11130) = Ok NULL s' /\
    vector_get 0x9000 0 s' = Halt /\ vector_push 0x9000 0x9100 s' = Halt /\ vector_pop 0x9000 s' = Halt.
Proof.
  apply (vector_get_out_of_range_deadlocks (vec_state 1 8 0x11130) vec_blocks vec_ext_regions 0x9000 8 8 0x11130 0xed0
           [replicate 8 Byte.x00] 1 0x9100); [apply vec_get_item|done].
Defined.
