(* ===== verification/Hashmap.v ===== *)
(** The hash maps of [lib/hashmap.h] and [lib/hashmap.c], on any kernel heap.

    A [hashmap_t] at [h] has [entries] at [h], [entry_count] at [h + 8] and
    [items] at [h + 16].  A [hashmap_entry_t] has [next], [key_length], [key]
    and [val], 8 bytes each.  The entries of the array head the chains of their
    buckets; [hashmap_set] never stores a key in them, so that they act as
    entries for the empty key.  Keys are kept by reference. *)
From S2P Require Import Prelude Machine Lock Str Layout KheapSpec Heap.

Definition sizeof_hashmap_entry : Z := 32.
Definition sizeof_hashmap : Z := 24.

(** [hash = ((hash << 5) + hash) + c] *)
Definition hash_step (h c : Z) : Z := u64 (u64 (u64 (Z.shiftl h 5) + h) + c).

Fixpoint hash_loop (n : nat) (i key h : Z) : K Z :=
  match n with
  | O => mret h
  | S n' => c ← ld 1 (key + i); hash_loop n' (i + 1) key (hash_step h c)
  end.
Definition hash (key size : Z) : K Z := hash_loop (Z.to_nat size) 0 key 5381.

Definition INDEX (key entry_count : Z) : K Z :=
  n ← strlen key;
  h ← hash key n;
  if entry_count =? 0 then fault else mret (h mod entry_count).

Section hashmap.
Context `{KernelHeap} (heap_free : Z -> K unit).

(** One round of the search: [inl] is the next entry. *)
Definition find_entry (key key_length entry : Z) : K (Z + Z) :=
  if entry =? NULL then mret (inr NULL)
  else
    len ← ld 8 (entry + 8);
    same ← (if key_length =? len
            then k ← ld 8 (entry + 16); c ← memcmp k key key_length; mret (c =? 0)
            else mret false);
    if same : bool then mret (inr entry)
    else next ← ld 8 entry; mret (inl next).

Definition hashmap_entry_get (hashmap key : Z) : K Z :=
  entry_count ← ld 8 (hashmap + 8);
  index ← INDEX key entry_count;
  entries ← ld 8 hashmap;
  key_length ← strlen key;
  kloop (find_entry key (u64 key_length)) (u64 (entries + sizeof_hashmap_entry * index)).

Definition hashmap_create (hashmap entry_count : Z) : K bool :=
  data ← heap_calloc (u64 (entry_count * sizeof_hashmap_entry));
  if data =? NULL then mret false
  else
    st 8 hashmap data ;;
    st 8 (hashmap + 8) entry_count ;;
    st 8 (hashmap + 16) 0 ;;
    mret true.

(** The walk to the end of the chain. *)
Definition last_entry (entry : Z) : K (Z + Z) :=
  next ← ld 8 entry;
  if next =? NULL then mret (inr entry) else mret (inl next).

Definition hashmap_set (hashmap key val : Z) : K bool :=
  entry ← hashmap_entry_get hashmap key;
  if negb (entry =? NULL) then st 8 (entry + 24) val ;; mret true
  else
    entry_count ← ld 8 (hashmap + 8);
    index ← INDEX key entry_count;
    entries ← ld 8 hashmap;
    entry ← kloop last_entry (u64 (entries + sizeof_hashmap_entry * index));
    new_entry ← heap_calloc sizeof_hashmap_entry;
    if new_entry =? NULL then mret false
    else
      st 8 (new_entry + 16) key ;;
      n ← strlen key;
      st 8 (new_entry + 8) (u64 n) ;;
      st 8 (new_entry + 24) val ;;
      st 8 new_entry NULL ;;
      st 8 entry new_entry ;;
      items ← ld 8 (hashmap + 16);
      st 8 (hashmap + 16) (u64 (items + 1)) ;;
      mret true.

Definition hashmap_get (hashmap key : Z) : K Z :=
  entry ← hashmap_entry_get hashmap key;
  if entry =? NULL then mret 0 else ld 8 (entry + 24).

(** The search of [hashmap_remove] stops at the first key of the same length that
    differs; it keeps the previous entry. *)
Definition remove_find (key key_length : Z) (x : Z * Z) : K ((Z * Z) + (Z * Z)) :=
  let '(prev, entry) := x in
  if entry =? NULL then mret (inr (prev, entry))
  else
    len ← ld 8 (entry + 8);
    stop ← (if key_length =? len
            then k ← ld 8 (entry + 16); c ← memcmp k key key_length; mret (negb (c =? 0))
            else mret false);
    if stop : bool then mret (inr (prev, entry))
    else next ← ld 8 entry; mret (inl (entry, next)).

Definition hashmap_remove (hashmap key : Z) : K bool :=
  entry_count ← ld 8 (hashmap + 8);
  index ← INDEX key entry_count;
  entries ← ld 8 hashmap;
  key_length ← strlen key;
  '(prev, entry) ← kloop (remove_find key (u64 key_length)) (NULL, u64 (entries + sizeof_hashmap_entry * index));
  (if negb (prev =? NULL) then
     next ← ld 8 entry;
     st 8 prev next ;;
     heap_free entry ;;
     k ← ld 8 (entry + 16);
     heap_free k
   else
     next ← ld 8 entry;
     if negb (next =? NULL) then
       memcpy entry next sizeof_hashmap_entry ;;
       next' ← ld 8 entry;
       heap_free next'
     else mret tt) ;;
  items ← ld 8 (hashmap + 16);
  st 8 (hashmap + 16) (u64 (items - 1)) ;;
  mret true.

End hashmap.
