(* ===== verification/HashmapSpec.v ===== *)
(** The hash maps of [lib/hashmap.c] as finite maps from strings to pointers.

    A map is described by its buckets: the value of the bucket's entry in the
    array, which acts as the entry of the empty key, and the entries that are
    chained to it. *)
From S2P Require Import Prelude Machine Lock Str Layout KheapSpec Heap VectorSpec Hashmap.

Record entry := Entry { e_addr : Z; e_kptr : Z; e_key : list byte; e_val : Z }.

Abbreviation bucket := (Z * list entry)%type.

(** * The hash *)

(** djb2 over the integers: [hash * 33 + c]. *)
Definition djb2 (l : list byte) : Z := foldl (fun h b => h * 33 + byte_Z b) 5381 l.
Definition hash_of (l : list byte) : Z := u64 (djb2 l).

Lemma hash_step_eq x c : hash_step (u64 x) c = u64 (x * 33 + c).
Proof.
  unfold hash_step. rewrite Z.shiftl_mul_pow2 by lia. change (2 ^ 5) with 32. rewrite !u64_add_l.
  rewrite <- Z.add_assoc, u64_add_l. replace (u64 x * 32 + (u64 x + c)) with (u64 x * 33 + c) by lia.
  unfold u64. rewrite Zplus_mod, Zmult_mod_idemp_l, <- Zplus_mod. done.
Qed.

Lemma hash_loop_eq s key i l x :
  bytes_at (mem s) (key + i) l ->
  hash_loop (length l) i key (u64 x) s = Ok (u64 (foldl (fun h b => h * 33 + byte_Z b) x l)) s.
Proof.
  revert i x. induction l as [|b l IH]; intros i x Hl; [done|]. apply bytes_at_cons in Hl as [Hb Hl]. cbn [length hash_loop foldl].
  rewrite (bind_Ok _ _ _ _ _ (ld_byte _ _ _ Hb)). rewrite hash_step_eq. apply IH. by rewrite Z.add_assoc.
Qed.

Lemma hash_eq s key l : bytes_at (mem s) key l -> hash key (Z.of_nat (length l)) s = Ok (hash_of l) s.
Proof.
  intros Hl. unfold hash. rewrite Nat2Z.id. change 5381 with (u64 5381). apply hash_loop_eq. by rewrite Z.add_0_r.
Qed.

Lemma INDEX_eq s key l n :
  cstr (mem s) key l -> Z.of_nat (length l) < 2 ^ 31 -> n <> 0 -> INDEX key n s = Ok (hash_of l mod n) s.
Proof.
  intros Hl Hlen Hn. unfold INDEX. rewrite (bind_Ok _ _ _ _ _ (strlen_eq _ _ _ Hl Hlen)).
  rewrite (bind_Ok _ _ _ _ _ (hash_eq _ _ _ (bytes_at_cstr _ _ _ Hl))). by destruct (Z.eqb_spec n 0).
Qed.

(** * Chains of entries *)

Definition link (c : list entry) : Z := match c with [] => NULL | e :: _ => e_addr e end.

Record entry_at (m : gmap Z byte) (e : entry) (next : Z) : Prop := {
  ea_next : rd 8 m (e_addr e) = Some next;
  ea_len : rd 8 m (e_addr e + 8) = Some (Z.of_nat (length (e_key e)));
  ea_kptr : rd 8 m (e_addr e + 16) = Some (e_kptr e);
  ea_val : rd 8 m (e_addr e + 24) = Some (e_val e);
  ea_key : bytes_at m (e_kptr e) (e_key e)
}.

Fixpoint chain (m : gmap Z byte) (c : list entry) : Prop :=
  match c with
  | [] => True
  | e :: c' => (0 < e_addr e /\ entry_at m e (link c')) /\ chain m c'
  end.

(** The first entry of a key. *)
Fixpoint chain_find (key : list byte) (c : list entry) : option entry :=
  match c with
  | [] => None
  | e :: c' => if decide (e_key e = key) then Some e else chain_find key c'
  end.

(** Storing a value in the first entry of a key. *)
Fixpoint chain_update (key : list byte) (val : Z) (c : list entry) : list entry :=
  match c with
  | [] => []
  | e :: c' => if decide (e_key e = key) then Entry (e_addr e) (e_kptr e) (e_key e) val :: c'
               else e :: chain_update key val c'
  end.

Section chains.
Implicit Types (m : gmap Z byte) (c : list entry) (e : entry) (key : list byte) (s : kstate).

Lemma chain_find_Some key c e : chain_find key c = Some e -> e ∈ c /\ e_key e = key.
Proof.
  induction c as [|e' c IH]; [done|]. simpl. case_decide as Hk.
  - intros [= ->]. split; [apply elem_of_cons; by left|done].
  - intros [H1 H2]%IH. split; [apply elem_of_cons; by right|done].
Qed.

Lemma chain_find_None key c : chain_find key c = None <-> forall e, e ∈ c -> e_key e <> key.
Proof.
  induction c as [|e' c IH]; simpl; [split; [by intros _ e ?%elem_of_nil|done]|]. case_decide as Hk.
  - split; [done|]. intros Hn. by destruct (Hn e'); [apply elem_of_cons; left|].
  - rewrite IH. split.
    + intros Hn e [->|Hin]%elem_of_cons; [done|by apply Hn].
    + intros Hn e Hin. apply Hn, elem_of_cons. by right.
Qed.

(** One round of the search at an entry of the chain. *)
Lemma find_entry_at s e next kp key :
  0 < e_addr e -> entry_at (mem s) e next -> bytes_at (mem s) kp key ->
  find_entry kp (Z.of_nat (length key)) (e_addr e) s =
    Ok (if decide (e_key e = key) then inr (e_addr e) else inl next) s.
Proof.
  intros Hpos [H1 H2 H3 H4 H5] Hk. unfold find_entry. destruct (Z.eqb_spec (e_addr e) NULL) as [E|_]; [unfold NULL in E; lia|].
  rewrite (ld_then 8 _ _ _ _ H2). destruct (Z.eqb_spec (Z.of_nat (length key)) (Z.of_nat (length (e_key e)))) as [El|El].
  - rewrite (bind_Ok _ _ s (bool_decide (e_key e = key)) s).
    2:{ rewrite (ld_then 8 _ _ _ _ H3), El. apply Nat2Z.inj in El. rewrite (bind_Ok _ _ _ _ _ (memcmp_eq _ _ _ _ _ H5 Hk (eq_sym El))).
        unfold mret, K_ret. f_equal. pose proof (lex_0 (e_key e) key (eq_sym El)) as Hx. case_bool_decide as Hd.
        - by apply Z.eqb_eq, Hx.
        - apply Z.eqb_neq. tauto. }
    case_bool_decide; case_decide; try done. by rewrite (ld_then 8 _ _ _ _ H1).
  - rewrite (bind_Ok _ _ s false s) by done. case_decide as Hd; [by rewrite Hd in El|]. by rewrite (ld_then 8 _ _ _ _ H1).
Qed.

Lemma find_runs_chain s c kp key :
  chain (mem s) c -> bytes_at (mem s) kp key ->
  exists j, (j <= S (length c))%nat /\
    runs (find_entry kp (Z.of_nat (length key))) j (link c) s (from_option e_addr NULL (chain_find key c)) s.
Proof.
  intros Hc Hk. induction c as [|e c IH]; simpl.
  - exists 1%nat. split; [lia|]. by constructor.
  - destruct Hc as [[Hpos He] Hc]. pose proof (find_entry_at _ _ _ _ _ Hpos He Hk) as E. case_decide as Hd.
    + exists 1%nat. split; [lia|]. by constructor.
    + destruct (IH Hc) as (j & Hj & Hr). exists (S j). split; [lia|]. by econstructor.
Qed.

Lemma last_runs_chain s e c :
  chain (mem s) (e :: c) -> runs last_entry (S (length c)) (e_addr e) s (default (e_addr e) (e_addr <$> list.last c)) s.
Proof.
  revert e. induction c as [|e' c IH]; intros e [[Hpos He] Hc].
  - constructor. unfold last_entry. by rewrite (ld_then 8 _ _ _ _ (ea_next _ _ _ He)).
  - replace (default (e_addr e) (e_addr <$> list.last (e' :: c))) with (default (e_addr e') (e_addr <$> list.last c))
      by (rewrite last_cons; by destruct (list.last c)).
    cbn [length]. eapply runs_next; [|by apply IH]. unfold last_entry. rewrite (ld_then 8 _ _ _ _ (ea_next _ _ _ He)). simpl.
    destruct Hc as [[Hpos' _] _]. destruct (Z.eqb_spec (e_addr e') NULL) as [E|_]; [unfold NULL in E; lia|done].
Qed.

(** A chain depends on its entries and keys only. *)
Lemma entry_at_ext m m' e next :
  entry_at m e next ->
  (forall x, e_addr e <= x < e_addr e + 32 \/ e_kptr e <= x < e_kptr e + Z.of_nat (length (e_key e)) -> m' !! x = m !! x) ->
  entry_at m' e next.
Proof.
  intros [H1 H2 H3 H4 H5] Hx.
  assert (R : forall a, e_addr e <= a -> a + 8 <= e_addr e + 32 -> rd 8 m' a = rd 8 m a)
    by (intros a A1 A2; apply rd_ext; intros x Hin; apply Hx; lia).
  split; rewrite ?R by lia; try done. eapply bytes_at_agree; [|done]. intros x Hin. apply Hx. lia.
Qed.

Lemma chain_ext m m' c :
  chain m c ->
  (forall e x, e ∈ c -> e_addr e <= x < e_addr e + 32 \/ e_kptr e <= x < e_kptr e + Z.of_nat (length (e_key e)) -> m' !! x = m !! x) ->
  chain m' c.
Proof.
  induction c as [|e c IH]; [done|]. intros [[H1 H2] H3] Hx. split; [split; [done|]|].
  - eapply entry_at_ext; [done|]. intros x. apply Hx, elem_of_cons. by left.
  - apply IH; [done|]. intros e' x Hin. apply Hx, elem_of_cons. by right.
Qed.

Lemma chain_elem m c e : chain m c -> e ∈ c -> 0 < e_addr e /\ exists next, entry_at m e next.
Proof.
  induction c as [|e' c IH]; intros Hc Hin; [by apply elem_of_nil in Hin|]. destruct Hc as [[Hp He] Hc].
  apply elem_of_cons in Hin as [->|Hin]; [by eauto|by apply IH].
Qed.

End chains.

(** * Stores to a chain *)

(** The byte [x] belongs to an entry, or to the key of one. *)
Definition in_entry (e : entry) (x : Z) : Prop := e_addr e <= x < e_addr e + 32.
Definition in_key (e : entry) (x : Z) : Prop := e_kptr e <= x < e_kptr e + Z.of_nat (length (e_key e)).

Record spread (c : list entry) : Prop := {
  sp_entries k k' e e' : c !! k = Some e -> c !! k' = Some e' -> k <> k' -> apart (e_addr e, 32) (e_addr e', 32);
  sp_keys e e' x : e ∈ c -> e' ∈ c -> in_key e x -> ~ in_entry e' x
}.

Section stores.
Implicit Types (m : gmap Z byte) (c : list entry) (e : entry) (key : list byte) (s : kstate).

Lemma spread_tail e c : spread (e :: c) -> spread c.
Proof.
  intros [H1 H2]. split.
  - intros k k' e1 e2 E1 E2 Hne. apply (H1 (S k) (S k')); [done|done|lia].
  - intros e1 e2 x E1 E2. apply H2; apply elem_of_cons; by right.
Qed.

Lemma spread_head e c e' : spread (e :: c) -> e' ∈ c -> apart (e_addr e, 32) (e_addr e', 32).
Proof.
  intros [H1 _] [k Hk]%list_elem_of_lookup. by apply (H1 0%nat (S k)).
Qed.

(** A store inside another entry. *)
Lemma entry_at_wr m e next e' c a v :
  entry_at m e next -> apart (e_addr e, 32) (e_addr e', 32) -> spread c -> e ∈ c -> e' ∈ c ->
  e_addr e' <= a -> a + 8 <= e_addr e' + 32 -> entry_at (wr 8 m a v) e next.
Proof.
  intros He Ha Hs Hin Hin' A1 A2. eapply entry_at_ext; [done|]. intros x Hx. apply lookup_wr_out. unfold apart in Ha. simpl in Ha.
  destruct Hx as [Hx|Hx]; [lia|]. pose proof (sp_keys _ Hs e e' x Hin Hin' Hx) as Hn. unfold in_entry in Hn. lia.
Qed.

Lemma chain_wr m c e' c0 a v :
  chain m c -> (forall e, e ∈ c -> e ∈ c0 /\ apart (e_addr e, 32) (e_addr e', 32)) -> spread c0 -> e' ∈ c0 ->
  e_addr e' <= a -> a + 8 <= e_addr e' + 32 -> chain (wr 8 m a v) c.
Proof.
  induction c as [|e c IH]; [done|]. intros [[H1 H2] H3] Hin Hs He' A1 A2.
  destruct (Hin e) as [He Ha]; [apply elem_of_cons; by left|]. split; [split; [done|]|].
  - by apply (entry_at_wr _ _ _ e' c0).
  - apply IH; try done. intros e1 H1'. apply Hin, elem_of_cons. by right.
Qed.

(** Storing a value. *)
Lemma chain_store m c key e v :
  chain m c -> spread c -> chain_find key c = Some e -> 0 <= v < 2 ^ 64 ->
  chain (wr 8 m (e_addr e + 24) v) (chain_update key v c).
Proof.
  intros Hc Hs Hf Hv. induction c as [|e' c IH]; [done|]. destruct Hc as [[H1 H2] H3]. simpl in *. case_decide as Hd.
  - injection Hf as ->. split; [split; [done|]|].
    + destruct H2 as [E1 E2 E3 E4 E5]. cbn [link] in *. split; cbn [e_addr e_kptr e_key e_val]; rewrite ?rd_wr_ne by lia; try done.
      * rewrite rd_wr_same. f_equal. apply Z.mod_small. simpl. lia.
      * eapply bytes_at_agree; [|done]. intros x Hx. apply lookup_wr_out. intros Hin.
        apply (sp_keys _ Hs e e x); [apply elem_of_cons; by left|apply elem_of_cons; by left|done|unfold in_entry; lia].
    + apply (chain_wr _ _ e (e :: c)); [done| |done|apply elem_of_cons; by left|lia|lia].
      intros e1 Hin. split; [apply elem_of_cons; by right|]. apply apart_sym. by apply (spread_head _ c).
  - pose proof (chain_find_Some _ _ _ Hf) as [Hin _]. split; [split; [done|]|].
    + replace (link (chain_update key v c)) with (link c) by (destruct c as [|e1 c]; [done|]; simpl; by case_decide).
      apply (entry_at_wr _ _ _ e (e' :: c)); [done|by apply (spread_head _ c)|done|apply elem_of_cons; by left|apply elem_of_cons; by right|lia|lia].
    + apply IH; [done|by apply spread_tail in Hs|done].
Qed.

(** Linking a new last entry. *)
Lemma chain_snoc m e c new :
  chain m (e :: c) -> spread (e :: c ++ [new]) -> entry_at m new NULL -> 0 < e_addr new < 2 ^ 64 ->
  chain (wr 8 m (default (e_addr e) (e_addr <$> list.last c)) (e_addr new)) (e :: c ++ [new]).
Proof.
  revert e. induction c as [|e' c IH]; intros e [[H1 H2] H3] Hs Hn Hr.
  - cbn [list.last fmap option_fmap option_map default app]. split; [split; [done|]|split; [|done]].
    + destruct H2 as [E1 E2 E3 E4 E5]. split; rewrite ?rd_wr_ne by lia; try done.
      * rewrite rd_wr_same. f_equal. apply Z.mod_small. simpl. lia.
      * eapply bytes_at_agree; [|done]. intros x Hx. apply lookup_wr_out. intros Hin.
        apply (sp_keys _ Hs e e x); [apply elem_of_cons; by left|apply elem_of_cons; by left|done|unfold in_entry; lia].
    + split; [lia|]. apply (entry_at_wr _ _ _ e ([e; new])); [done| |done| | |lia|lia].
      * apply apart_sym. apply (spread_head _ [new]); [done|apply elem_of_cons; by left].
      * apply elem_of_cons; right; apply elem_of_cons; by left.
      * apply elem_of_cons; by left.
  - replace (default (e_addr e) (e_addr <$> list.last (e' :: c))) with (default (e_addr e') (e_addr <$> list.last c))
      by (rewrite last_cons; by destruct (list.last c)).
    cbn [app]. split; [split; [done|]|].
    + assert (Hl : exists el, el ∈ e' :: c /\ e_addr el = default (e_addr e') (e_addr <$> list.last c)).
      { destruct (list.last c) as [el|] eqn:El.
        - exists el. split; [|done]. apply elem_of_cons. right. by apply last_Some_elem_of.
        - exists e'. split; [apply elem_of_cons; by left|done]. }
      destruct Hl as (el & Hel & <-).
      assert (Hel' : el ∈ (e' :: c) ++ [new]) by (apply elem_of_app; by left).
      apply (entry_at_wr _ _ _ el (e :: e' :: c ++ [new])); [done|by apply (spread_head _ ((e' :: c) ++ [new]))|done| | |lia|lia].
      * apply elem_of_cons; by left.
      * apply elem_of_cons; by right.
    + apply IH; [done|by apply spread_tail in Hs|done|done].
Qed.

Lemma chain_find_update key v c e key' :
  chain_find key c = Some e ->
  e_val <$> chain_find key' (chain_update key v c) = if decide (key' = key) then Some v else e_val <$> chain_find key' c.
Proof.
  induction c as [|e' c IH]; [done|]. simpl. destruct (decide (e_key e' = key)) as [Hd|Hd].
  - intros _. simpl. subst key. destruct (decide (key' = e_key e')) as [->|]; [by rewrite decide_True|by rewrite !decide_False by done].
  - intros Hf. simpl. destruct (decide (e_key e' = key')) as [<-|]; [by rewrite decide_False|by apply IH].
Qed.

Lemma chain_find_snoc key c new :
  chain_find key (c ++ [new]) =
    match chain_find key c with Some e => Some e | None => if decide (e_key new = key) then Some new else None end.
Proof. induction c as [|e c IH]; simpl; [reflexivity|]. rewrite IH. by destruct (decide (e_key e = key)). Qed.

End stores.

(** * The map *)

(** The entry of the array for bucket [i]. *)
Definition sentinel (d : Z) (i : nat) (v : Z) : entry := Entry (d + 32 * Z.of_nat i) NULL [] v.
Definition hm_chain (d : Z) (i : nat) (b : bucket) : list entry := sentinel d i (fst b) :: snd b.

Definition hm_index (n : nat) (key : list byte) : nat := Z.to_nat (hash_of key mod Z.of_nat n).

Definition hm_lookup (d : Z) (bk : list bucket) (key : list byte) : option Z :=
  let i := hm_index (length bk) key in
  match bk !! i with Some b => e_val <$> chain_find key (hm_chain d i b) | None => None end.

(** The number of entries that were allocated. *)
Definition hm_count (bk : list bucket) : Z := foldr (fun b n => Z.of_nat (length (snd b)) + n) 0 bk.

(** Where the [k]-th entry of bucket [i] and its key are. *)
Definition place (e : entry) : Z * Z * list byte := (e_addr e, e_kptr e, e_key e).
Definition hm_at (d : Z) (bk : list bucket) (i k : nat) : option (Z * Z * list byte) :=
  match bk !! i with Some b => place <$> hm_chain d i b !! k | None => None end.

Record hm_geo (blocks ext : list (Z * Z)) (h d : Z) (bk : list bucket) : Prop := {
  hg_apart i k i' k' a kp ky a' kp' ky' :
    hm_at d bk i k = Some (a, kp, ky) -> hm_at d bk i' k' = Some (a', kp', ky') -> (i, k) <> (i', k') -> apart (a, 32) (a', 32);
  hg_keys i k i' k' a kp ky a' kp' ky' x :
    hm_at d bk i k = Some (a, kp, ky) -> hm_at d bk i' k' = Some (a', kp', ky') ->
    kp <= x < kp + Z.of_nat (length ky) -> ~ (a' <= x < a' + 32);
  hg_self i k a kp ky x :
    hm_at d bk i k = Some (a, kp, ky) -> h <= x < h + sizeof_hashmap ->
    ~ (a <= x < a + 32) /\ ~ (kp <= x < kp + Z.of_nat (length ky));
  hg_owned i k a kp ky x :
    hm_at d bk i k = Some (a, kp, ky) -> a <= x < a + 32 \/ kp <= x < kp + Z.of_nat (length ky) -> in_regions (blocks ++ ext) x;
  hg_range i k a kp ky : hm_at d bk i k = Some (a, kp, ky) -> 0 < a < 2 ^ 64;
  hg_homes i k a kp ky : hm_at d bk i (S k) = Some (a, kp, ky) -> ky <> [] /\ hm_index (length bk) ky = i;
  hg_nodup i k k' a kp ky a' kp' : hm_at d bk i k = Some (a, kp, ky) -> hm_at d bk i k' = Some (a', kp', ky) -> k = k';
  hg_map x : h <= x < h + sizeof_hashmap -> in_regions (blocks ++ ext) x
}.

(** The hash map at [h] has the buckets [bk], with the array of entries at [d]. *)
Record hmap (s : kstate) (blocks ext : list (Z * Z)) (h d : Z) (bk : list bucket) : Prop := {
  hm_entries : rd 8 (mem s) h = Some d;
  hm_entry_count : rd 8 (mem s) (h + 8) = Some (Z.of_nat (length bk));
  hm_items : rd 8 (mem s) (h + 16) = Some (u64 (hm_count bk));
  hm_chains i b : bk !! i = Some b -> chain (mem s) (hm_chain d i b);
  hm_layout : hm_geo blocks ext h d bk;
  hm_bounds : (0 < length bk)%nat /\ 0 < d /\ d + 32 * Z.of_nat (length bk) < 2 ^ 64
}.

#[export] Instance byte_countable : Countable byte.
Proof. refine (inj_countable byte_Z (fun z => Some (Z_byte z)) _). intros b. by rewrite Z_byte_byte_Z. Defined.

(** The map from strings to values that the buckets stand for. *)
Definition hm_model (d : Z) (bk : list bucket) (M : gmap (list byte) Z) : Prop :=
  forall key, hm_lookup d bk key = M !! key.

Section hmap.
Context `{KernelHeap}.
Implicit Types (s : kstate) (blocks ext : list (Z * Z)) (bk : list bucket) (b : bucket) (key : list byte) (e : entry).

Lemma hm_index_lt n key : (0 < n)%nat -> (hm_index n key < n)%nat /\ Z.of_nat (hm_index n key) = hash_of key mod Z.of_nat n.
Proof. intros Hn. unfold hm_index. pose proof (Z.mod_pos_bound (hash_of key) (Z.of_nat n) ltac:(lia)). lia. Qed.

Lemma hm_at_chain d bk i b k e : bk !! i = Some b -> hm_chain d i b !! k = Some e -> hm_at d bk i k = Some (place e).
Proof. unfold hm_at. intros -> E. by rewrite E. Qed.

Lemma hm_at_elem d bk i b e : bk !! i = Some b -> e ∈ hm_chain d i b -> exists k, hm_at d bk i k = Some (place e).
Proof. intros Hb [k Hk]%list_elem_of_lookup. exists k. by apply (hm_at_chain _ _ _ b). Qed.

Lemma hm_spread blocks ext h d bk i b : hm_geo blocks ext h d bk -> bk !! i = Some b -> spread (hm_chain d i b).
Proof.
  intros G Hb. split.
  - intros k k' e e' E1 E2 Hne. eapply (hg_apart _ _ _ _ _ G i k i k'); [by eapply hm_at_chain|by eapply hm_at_chain|congruence].
  - intros e e' x E1 E2 Hx. destruct (hm_at_elem _ _ _ _ _ Hb E1) as [k A1]. destruct (hm_at_elem _ _ _ _ _ Hb E2) as [k' A2].
    by eapply (hg_keys _ _ _ _ _ G i k i k').
Qed.

Lemma hm_chain_length blocks ext h d bk i b :
  hm_geo blocks ext h d bk -> bk !! i = Some b -> Z.of_nat (length (hm_chain d i b)) + 1 <= 2 ^ 64.
Proof.
  intros G Hb. set (c := hm_chain d i b).
  assert (Hnd : NoDup (e_addr <$> c)).
  { apply NoDup_alt. intros k k' a E1 E2. apply list_lookup_fmap_Some in E1 as (e & -> & E1), E2 as (e' & Ea & E2).
    destruct (decide (k = k')) as [|Hne]; [done|exfalso].
    pose proof (sp_entries _ (hm_spread _ _ _ _ _ _ _ G Hb) _ _ _ _ E1 E2 Hne) as Ha. unfold apart in Ha. simpl in Ha. lia. }
  assert (Hle : (length (e_addr <$> c) <= length (seqZ 1 (2 ^ 64 - 1)))%nat).
  { apply submseteq_length, NoDup_submseteq; [done|]. intros a (e & -> & Hin)%list_elem_of_fmap. apply elem_of_seqZ.
    destruct (hm_at_elem _ _ _ _ _ Hb Hin) as [k A]. pose proof (hg_range _ _ _ _ _ G _ _ _ _ _ A). lia. }
  rewrite length_fmap, length_seqZ in Hle. lia.
Qed.

(** The head of the bucket of a key. *)
Lemma hm_bucket s blocks ext h d bk key :
  hmap s blocks ext h d bk ->
  exists b, bk !! hm_index (length bk) key = Some b /\
    u64 (d + sizeof_hashmap_entry * (hash_of key mod Z.of_nat (length bk))) = link (hm_chain d (hm_index (length bk) key) b).
Proof.
  intros Hm. destruct (hm_bounds _ _ _ _ _ _ Hm) as (B1 & B2 & B3).
  destruct (hm_index_lt (length bk) key B1) as [Hlt Hi]. destruct (lookup_lt_is_Some_2 bk _ Hlt) as [b Hb]. exists b. split; [done|].
  simpl. rewrite <- Hi. unfold sizeof_hashmap_entry. apply u64_small. lia.
Qed.

Lemma hashmap_entry_get_eq s blocks ext h d bk kp key b :
  hmap s blocks ext h d bk -> cstr (mem s) kp key -> Z.of_nat (length key) < 2 ^ 31 ->
  bk !! hm_index (length bk) key = Some b ->
  hashmap_entry_get h kp s = Ok (from_option e_addr NULL (chain_find key (hm_chain d (hm_index (length bk) key) b))) s.
Proof.
  intros Hm Hk Hlen Hb. destruct (hm_bounds _ _ _ _ _ _ Hm) as (B1 & B2 & B3). unfold hashmap_entry_get.
  destruct (hm_bucket _ _ _ _ _ _ key Hm) as (b' & Hb' & Hlink). rewrite Hb in Hb'. injection Hb' as <-.
  rewrite (ld_then 8 _ _ _ _ (hm_entry_count _ _ _ _ _ _ Hm)).
  rewrite (bind_Ok _ _ _ _ _ (INDEX_eq _ _ _ (Z.of_nat (length bk)) Hk Hlen ltac:(lia))).
  rewrite (ld_then 8 _ _ _ _ (hm_entries _ _ _ _ _ _ Hm)).
  rewrite (bind_Ok _ _ _ _ _ (strlen_eq _ _ _ Hk Hlen)), u64_small by lia. rewrite Hlink.
  destruct (find_runs_chain _ _ _ _ (hm_chains _ _ _ _ _ _ Hm _ _ Hb) (bytes_at_cstr _ _ _ Hk)) as (j & Hj & Hr).
  apply (kloop_runs _ j); [done|]. pose proof (hm_chain_length _ _ _ _ _ _ _ (hm_layout _ _ _ _ _ _ Hm) Hb). lia.
Qed.

Lemma hashmap_get_eq s blocks ext h d bk kp key :
  hmap s blocks ext h d bk -> cstr (mem s) kp key -> Z.of_nat (length key) < 2 ^ 31 ->
  hashmap_get h kp s = Ok (default 0 (hm_lookup d bk key)) s.
Proof.
  intros Hm Hk Hlen. destruct (hm_bucket _ _ _ _ _ _ key Hm) as (b & Hb & _). unfold hashmap_get, hm_lookup. rewrite Hb.
  rewrite (bind_Ok _ _ _ _ _ (hashmap_entry_get_eq _ _ _ _ _ _ _ _ _ Hm Hk Hlen Hb)).
  destruct (chain_find key (hm_chain d (hm_index (length bk) key) b)) as [e|] eqn:Ef; [|done]. simpl.
  pose proof (chain_find_Some _ _ _ Ef) as [Hin _]. pose proof (hm_chains _ _ _ _ _ _ Hm _ _ Hb) as Hc.
  destruct (chain_elem _ _ _ Hc Hin) as (Hp & next & He).
  destruct (Z.eqb_spec (e_addr e) NULL) as [E|_]; [unfold NULL in E; lia|]. apply ld_ok, He.
Qed.

(** ** Storing the value of a key that is present *)

Definition bucket_update key v b : bucket := if decide (key = []) then (v, snd b) else (fst b, chain_update key v (snd b)).

Lemma hm_chain_update d i key v b : hm_chain d i (bucket_update key v b) = chain_update key v (hm_chain d i b).
Proof.
  unfold bucket_update, hm_chain. simpl. destruct (decide (key = [])) as [->|Hne]; [by rewrite decide_True|].
  rewrite decide_False by (intros E; by apply Hne). done.
Qed.

Lemma chain_update_place key v (c : list entry) : place <$> chain_update key v c = place <$> c.
Proof. induction c as [|e c IH]; [done|]. simpl. case_decide; [done|]. rewrite !fmap_cons. by f_equal. Qed.

Lemma hm_count_insert bk i b b' :
  bk !! i = Some b -> hm_count (<[i := b']> bk) = hm_count bk - Z.of_nat (length (snd b)) + Z.of_nat (length (snd b')).
Proof.
  revert i. induction bk as [|b0 bk IH]; intros i Hi; [done|]. destruct i as [|i]; simpl in *.
  - injection Hi as ->. lia.
  - rewrite (IH _ Hi). lia.
Qed.

Lemma hm_geo_ext blocks ext h d bk bk' :
  (forall i k, hm_at d bk' i k = hm_at d bk i k) -> length bk' = length bk ->
  hm_geo blocks ext h d bk -> hm_geo blocks ext h d bk'.
Proof. intros E El [G1 G2 G3 G4 G5 G6 G7 G8]. split; intros *; rewrite ?E, ?El; eauto. Qed.

(** The array entries and the chains do not overlap the map's own fields. *)
Lemma hm_entry_wr s blocks ext h d bk i k a kp ky off v :
  hmap s blocks ext h d bk -> hm_at d bk i k = Some (a, kp, ky) -> 0 <= off -> off + 8 <= 32 ->
  let m' := wr 8 (mem s) (a + off) v in
  rd 8 m' h = rd 8 (mem s) h /\ rd 8 m' (h + 8) = rd 8 (mem s) (h + 8) /\ rd 8 m' (h + 16) = rd 8 (mem s) (h + 16).
Proof.
  intros Hm Ha H1 H2 m'. assert (E : forall x, h <= x < h + 24 -> m' !! x = mem s !! x).
  { intros x Hx. unfold m'. apply lookup_wr_out. intros Hin.
    destruct (hg_self _ _ _ _ _ (hm_layout _ _ _ _ _ _ Hm) _ _ _ _ _ x Ha Hx) as [Hno _]. lia. }
  split; [|split]; apply rd_ext; intros x Hx; apply E; lia.
Qed.

(** A store to an entry leaves the other chains. *)
Lemma hm_chain_other s blocks ext h d bk i k a kp ky off v j b :
  hmap s blocks ext h d bk -> hm_at d bk i k = Some (a, kp, ky) -> 0 <= off -> off + 8 <= 32 ->
  bk !! j = Some b -> j <> i -> chain (wr 8 (mem s) (a + off) v) (hm_chain d j b).
Proof.
  intros Hm Ha H1 H2 Hb Hne. pose proof (hm_layout _ _ _ _ _ _ Hm) as G.
  eapply chain_ext; [by apply (hm_chains _ _ _ _ _ _ Hm)|]. intros e x Hin Hx. apply lookup_wr_out. intros Hw.
  destruct (hm_at_elem _ _ _ _ _ Hb Hin) as [k' A]. destruct Hx as [Hx|Hx].
  - assert (Hap : apart (e_addr e, 32) (a, 32)) by (eapply (hg_apart _ _ _ _ _ G j k' i k); [done|done|congruence]).
    unfold apart in Hap. simpl in Hap. lia.
  - eapply (hg_keys _ _ _ _ _ G j k' i k); [done|done|done|lia].
Qed.

Lemma hm_update s blocks ext h d bk key b e v (i := hm_index (length bk) key) :
  hmap s blocks ext h d bk -> bk !! i = Some b -> chain_find key (hm_chain d i b) = Some e -> 0 <= v < 2 ^ 64 ->
  hmap (with_mem s (wr 8 (mem s) (e_addr e + 24) v)) blocks ext h d (<[i := bucket_update key v b]> bk).
Proof.
  intros Hm Hb Hf Hv. pose proof (hm_layout _ _ _ _ _ _ Hm) as G. pose proof (chain_find_Some _ _ _ Hf) as [Hin _].
  destruct (hm_at_elem _ _ _ _ _ Hb Hin) as [k A]. destruct (hm_entry_wr _ _ _ _ _ _ _ _ _ _ _ 24 v Hm A ltac:(lia) ltac:(lia)) as (R1 & R2 & R3).
  pose proof (lookup_lt_Some _ _ _ Hb) as Hlt.
  split; cbn [mem with_mem]; rewrite ?R1, ?R2, ?R3, ?length_insert; try apply Hm.
  - rewrite (hm_count_insert _ _ b) by done. rewrite (hm_items _ _ _ _ _ _ Hm). do 2 f_equal.
    unfold bucket_update. case_decide; simpl; [lia|]. pose proof (f_equal length (chain_update_place key v (snd b))) as El.
    rewrite !length_fmap in El. lia.
  - intros j b' Hj. apply list_lookup_insert_Some in Hj as [(<- & <- & _)|[Hne Hj]].
    + rewrite hm_chain_update. apply chain_store; [by apply (hm_chains _ _ _ _ _ _ Hm)|by eapply hm_spread|done|done].
    + eapply hm_chain_other; [done|exact A|lia|lia|done|congruence].
  - eapply hm_geo_ext; [|apply length_insert|exact G]. intros j k'. unfold hm_at.
    destruct (decide (i = j)) as [<-|Hne]; [|by rewrite list_lookup_insert_ne].
    rewrite list_lookup_insert_eq by done. rewrite Hb, hm_chain_update, <- !list_lookup_fmap. by rewrite chain_update_place.
Qed.

Lemma hm_lookup_update d bk key b e v (i := hm_index (length bk) key) key' :
  bk !! i = Some b -> chain_find key (hm_chain d i b) = Some e ->
  hm_lookup d (<[i := bucket_update key v b]> bk) key' = if decide (key' = key) then Some v else hm_lookup d bk key'.
Proof.
  intros Hb Hf. unfold hm_lookup. rewrite length_insert. pose proof (lookup_lt_Some _ _ _ Hb) as Hlt.
  destruct (decide (hm_index (length bk) key' = i)) as [E|Hne].
  - rewrite E, list_lookup_insert_eq by done. rewrite hm_chain_update, Hb. by apply (chain_find_update _ _ _ e).
  - rewrite list_lookup_insert_ne by done. case_decide as Hk; [|done]. by subst.
Qed.

(** ** A new entry for a key that is absent *)

(** The caller's key: its bytes are the client's and not the map's. *)
Definition key_free blocks ext h d bk kp key : Prop :=
  forall x, kp <= x <= kp + Z.of_nat (length key) ->
    in_regions (blocks ++ ext) x /\ ~ (h <= x < h + sizeof_hashmap) /\
    forall i k a kp' ky, hm_at d bk i k = Some (a, kp', ky) -> ~ (a <= x < a + 32).

Definition bucket_append b (new : entry) : bucket := (fst b, snd b ++ [new]).

Lemma hm_chain_append d i b new : hm_chain d i (bucket_append b new) = hm_chain d i b ++ [new].
Proof. done. Qed.

Lemma hm_at_append d bk i b new j q r :
  bk !! i = Some b -> hm_at d (<[i := bucket_append b new]> bk) j q = Some r ->
  hm_at d bk j q = Some r \/ j = i /\ q = length (hm_chain d i b) /\ r = place new.
Proof.
  intros Hb. unfold hm_at. destruct (decide (i = j)) as [<-|Hne]; [|rewrite list_lookup_insert_ne by done; by left].
  rewrite list_lookup_insert_eq by (by eapply lookup_lt_Some). rewrite hm_chain_append, Hb. intros E.
  destruct (decide (q < length (hm_chain d i b))%nat) as [Hq|Hq]; [rewrite lookup_app_l in E by done; by left|right].
  rewrite lookup_app_r in E by lia. destruct (q - length (hm_chain d i b))%nat as [|q'] eqn:Eq; [|done].
  simpl in E. injection E as <-. split; [done|]. split; [lia|done].
Qed.

Lemma apart_bytes a n a' n' : 0 < n -> 0 < n' -> (forall x, a <= x < a + n -> ~ (a' <= x < a' + n')) -> apart (a, n) (a', n').
Proof. intros Hn Hn' Hx. unfold apart. simpl. pose proof (Hx (Z.max a a')). lia. Qed.

Lemma hm_absent blocks ext h d bk i b key k a kp :
  hm_geo blocks ext h d bk -> bk !! i = Some b -> chain_find key (hm_chain d i b) = None -> hm_at d bk i k <> Some (a, kp, key).
Proof.
  intros G Hb Hf Ha. unfold hm_at in Ha. rewrite Hb in Ha. destruct (hm_chain d i b !! k) as [e|] eqn:E; [|done].
  simpl in Ha. injection Ha as E1 E2 E3. by apply (proj1 (chain_find_None _ _) Hf e); [eapply list_elem_of_lookup_2|].
Qed.

Lemma hm_geo_append blocks ext h d bk b key v kp p k (i := hm_index (length bk) key) :
  hm_geo blocks ext h d bk -> bk !! i = Some b -> chain_find key (hm_chain d i b) = None ->
  key_free blocks ext h d bk kp key -> (forall x, in_regions (blocks ++ ext) x -> ~ (p <= x < p + k)) ->
  32 <= k -> 0 < p < 2 ^ 64 ->
  hm_geo ((p, k) :: blocks) ext h d (<[i := bucket_append b (Entry p kp key v)]> bk).
Proof.
  intros G Hb Hf Hk Hfresh Hk32 Hp. pose proof G as [G1 G2 G3 G4 G5 G6 G7 G8].
  assert (Hw : forall x, in_regions (blocks ++ ext) x -> in_regions (((p, k) :: blocks) ++ ext) x).
  { intros x (r & Hr & Hx). exists r. split; [|done]. simpl. apply elem_of_cons. by right. }
  assert (Hne : key <> []).
  { intros ->. simpl in Hf. done. }
  assert (Hapart : forall j q a kp' ky, hm_at d bk j q = Some (a, kp', ky) -> apart (a, 32) (p, 32)).
  { intros j q a kp' ky Ha. apply apart_bytes; [lia|lia|]. intros x Hx Hx'. apply (Hfresh x); [eapply G4; [done|by left]|lia]. }
  split; intros *; rewrite ?length_insert.
  - intros [A1|(-> & -> & [= -> -> ->])]%(hm_at_append _ _ _ _ _ _ _ _ Hb) [A2|(-> & -> & [= -> -> ->])]%(hm_at_append _ _ _ _ _ _ _ _ Hb) Hd.
    + by eapply (G1 i0 k0 i' k').
    + by eapply Hapart.
    + apply apart_sym. by eapply Hapart.
    + done.
  - intros [A1|(-> & -> & [= -> -> ->])]%(hm_at_append _ _ _ _ _ _ _ _ Hb) [A2|(-> & -> & [= -> -> ->])]%(hm_at_append _ _ _ _ _ _ _ _ Hb) Hx Hx'.
    + by eapply (G2 i0 k0 i' k').
    + apply (Hfresh x); [eapply G4; [done|by right]|lia].
    + destruct (Hk x) as (_ & _ & K3); [lia|]. by eapply K3.
    + destruct (Hk x) as (K1 & _); [lia|]. apply (Hfresh x); [done|lia].
  - intros [A1|(-> & -> & [= -> -> ->])]%(hm_at_append _ _ _ _ _ _ _ _ Hb) Hx; [by eapply G3|]. split.
    + intros Hx'. apply (Hfresh x); [by apply G8|lia].
    + intros Hx'. destruct (Hk x) as (_ & K2 & _); [lia|done].
  - intros [A1|(-> & -> & [= -> -> ->])]%(hm_at_append _ _ _ _ _ _ _ _ Hb) Hx; [by eapply Hw, G4|]. destruct Hx as [Hx|Hx].
    + exists (p, k). split; [apply elem_of_cons; by left|simpl; lia].
    + apply Hw. destruct (Hk x) as (K1 & _); [lia|done].
  - intros [A1|(-> & -> & [= -> -> ->])]%(hm_at_append _ _ _ _ _ _ _ _ Hb); [by eapply G5|done].
  - intros [A1|(-> & _ & [= -> -> ->])]%(hm_at_append _ _ _ _ _ _ _ _ Hb); [by eapply G6|done].
  - intros [A1|(-> & -> & [= -> -> ->])]%(hm_at_append _ _ _ _ _ _ _ _ Hb) [A2|(E & -> & E2)]%(hm_at_append _ _ _ _ _ _ _ _ Hb).
    + by eapply G7.
    + injection E2 as _ _ ->. subst. exfalso. by apply (hm_absent _ _ _ _ _ _ _ _ _ _ _ G Hb Hf A1).
    + exfalso. by apply (hm_absent _ _ _ _ _ _ _ _ _ _ _ G Hb Hf A2).
    + done.
  - intros Hx. by apply Hw, G8.
Qed.

(** The memory with the fields of a new entry. *)
Definition new_entry_mem (m : gmap Z byte) (p kp len v : Z) : gmap Z byte :=
  wr 8 (wr 8 (wr 8 (wr 8 m (p + 16) kp) (p + 8) len) (p + 24) v) p NULL.

Lemma new_entry_out m p kp len v x : ~ (p <= x < p + 32) -> new_entry_mem m p kp len v !! x = m !! x.
Proof. intros Hx. unfold new_entry_mem. by rewrite !lookup_wr_out by lia. Qed.

Lemma new_entry_at m p kp key v :
  bytes_at m kp key -> (forall x, kp <= x < kp + Z.of_nat (length key) -> ~ (p <= x < p + 32)) ->
  Z.of_nat (length key) < 2 ^ 31 -> 0 <= kp < 2 ^ 64 -> 0 <= v < 2 ^ 64 ->
  entry_at (new_entry_mem m p kp (Z.of_nat (length key)) v) (Entry p kp key v) NULL.
Proof.
  intros Hb Hx Hl Hkp Hv. unfold new_entry_mem. split; cbn [e_addr e_kptr e_key e_val].
  - by rewrite rd_wr_same.
  - do 2 (rewrite rd_wr_ne by lia). rewrite rd_wr_same. f_equal. apply Z.mod_small. simpl. lia.
  - do 3 (rewrite rd_wr_ne by lia). rewrite rd_wr_same. f_equal. apply Z.mod_small. simpl. lia.
  - rewrite rd_wr_ne by lia. rewrite rd_wr_same. f_equal. apply Z.mod_small. simpl. lia.
  - eapply bytes_at_agree; [|done]. intros x Hin. apply (new_entry_out m p kp (Z.of_nat (length key)) v). by apply Hx.
Qed.

(** The last entry of a bucket. *)
Lemma last_of_bucket d bk i b :
  bk !! i = Some b -> exists k a kp ky, hm_at d bk i k = Some (a, kp, ky) /\
    a = default (d + 32 * Z.of_nat i) (e_addr <$> list.last (snd b)).
Proof.
  intros Hb. assert (Hl : exists e, e ∈ hm_chain d i b /\ e_addr e = default (d + 32 * Z.of_nat i) (e_addr <$> list.last (snd b))).
  { destruct (list.last (snd b)) as [e|] eqn:E.
    - exists e. split; [|done]. apply elem_of_cons. right. by apply last_Some_elem_of.
    - exists (sentinel d i (fst b)). split; [apply elem_of_cons; by left|done]. }
  destruct Hl as (e & Hin & He). destruct (hm_at_elem _ _ _ _ _ Hb Hin) as [k A]. by exists k, (e_addr e), (e_kptr e), (e_key e).
Qed.

(** The map seen in a later state that keeps the clients' bytes. *)
Lemma hmap_kept s m blocks blocks' ext h d bk :
  hmap s blocks ext h d bk -> (forall x, in_regions (blocks ++ ext) x -> m !! x = mem s !! x) ->
  (forall r, r ∈ blocks -> r ∈ blocks') -> hmap (with_mem s m) blocks' ext h d bk.
Proof.
  intros Hm Hk Hbl. pose proof (hm_layout _ _ _ _ _ _ Hm) as G.
  assert (R : forall a, h <= a -> a + 8 <= h + 24 -> rd 8 m a = rd 8 (mem s) a).
  { intros a A1 A2. apply rd_ext. intros x Hx. apply Hk, (hg_map _ _ _ _ _ G). unfold sizeof_hashmap. lia. }
  split; cbn [mem with_mem]; rewrite ?R by lia; try apply Hm.
  - intros i b Hb. eapply chain_ext; [by apply (hm_chains _ _ _ _ _ _ Hm)|]. intros e x Hin Hx. apply Hk.
    destruct (hm_at_elem _ _ _ _ _ Hb Hin) as [k A]. by eapply (hg_owned _ _ _ _ _ G).
  - assert (Hw : forall x, in_regions (blocks ++ ext) x -> in_regions (blocks' ++ ext) x).
    { intros x (r & Hr & Hx). exists r. split; [|done]. apply elem_of_app. apply elem_of_app in Hr as [Hr|Hr]; [left; by apply Hbl|by right]. }
    destruct G as [G1 G2 G3 G4 G5 G6 G7 G8]. split; eauto.
Qed.

(** The items counter is the map's own. *)
Lemma hmap_count s blocks ext h d bk v :
  hmap s blocks ext h d bk ->
  let m := wr 8 (mem s) (h + 16) v in
  rd 8 m h = Some d /\ rd 8 m (h + 8) = Some (Z.of_nat (length bk)) /\ rd 8 m (h + 16) = Some (u64 v) /\
  forall i b, bk !! i = Some b -> chain m (hm_chain d i b).
Proof.
  intros Hm m. unfold m. do 2 (rewrite rd_wr_ne by lia). rewrite rd_wr_same. split; [apply Hm|]. split; [apply Hm|]. split; [done|].
  intros i b Hb. eapply chain_ext; [by apply (hm_chains _ _ _ _ _ _ Hm)|]. intros e x Hin Hx. apply lookup_wr_out. intros Hw.
  destruct (hm_at_elem _ _ _ _ _ Hb Hin) as [k A].
  destruct (hg_self _ _ _ _ _ (hm_layout _ _ _ _ _ _ Hm) _ _ _ _ _ x A) as [H1 H2]; [unfold sizeof_hashmap; lia|]. tauto.
Qed.

Lemma hm_append s blocks ext h d bk b key v kp p k (i := hm_index (length bk) key) (bk' := <[i := bucket_append b (Entry p kp key v)]> bk) :
  hmap s blocks ext h d bk -> bk !! i = Some b -> chain_find key (hm_chain d i b) = None ->
  entry_at (mem s) (Entry p kp key v) NULL ->
  key_free blocks ext h d bk kp key -> (forall x, in_regions (blocks ++ ext) x -> ~ (p <= x < p + k)) ->
  32 <= k -> 0 < p < 2 ^ 64 ->
  hmap (with_mem s (wr 8 (wr 8 (mem s) (default (d + 32 * Z.of_nat i) (e_addr <$> list.last (snd b))) p) (h + 16) (u64 (u64 (hm_count bk) + 1))))
    ((p, k) :: blocks) ext h d bk'.
Proof.
  intros Hm Hb Hf He Hk Hfresh H32 Hp. pose proof (hm_geo_append _ _ _ _ _ _ _ v _ _ _ (hm_layout _ _ _ _ _ _ Hm) Hb Hf Hk Hfresh H32 Hp) as G'.
  fold i bk' in G'. pose proof (lookup_lt_Some _ _ _ Hb) as Hlt.
  destruct (last_of_bucket d _ _ _ Hb) as (k0 & a & kp0 & ky0 & A & Ea). rewrite <- Ea.
  destruct (hm_entry_wr _ _ _ _ _ _ _ _ _ _ _ 0 p Hm A ltac:(lia) ltac:(lia)) as (R1 & R2 & R3). rewrite Z.add_0_r in R1, R2, R3.
  assert (Hb' : bk' !! i = Some (bucket_append b (Entry p kp key v))) by (unfold bk'; by rewrite list_lookup_insert_eq).
  assert (Hc : forall j b', bk' !! j = Some b' -> chain (wr 8 (mem s) a p) (hm_chain d j b')).
  { intros j b' Hj. unfold bk' in Hj. apply list_lookup_insert_Some in Hj as [(<- & <- & _)|[Hne Hj]].
    - rewrite hm_chain_append, Ea. unfold hm_chain. apply (chain_snoc (mem s) (sentinel d i (fst b)) (snd b) (Entry p kp key v)).
      + apply (hm_chains _ _ _ _ _ _ Hm _ _ Hb).
      + apply (hm_spread _ _ _ _ _ _ _ G' Hb').
      + done.
      + done.
    - rewrite <- (Z.add_0_r a). eapply hm_chain_other; [done|exact A|lia|lia|done|congruence]. }
  split; cbn [mem with_mem].
  - rewrite rd_wr_ne, R1 by lia. apply Hm.
  - rewrite rd_wr_ne, R2 by lia. unfold bk'. rewrite length_insert. apply Hm.
  - rewrite rd_wr_same. f_equal. change (_ mod 2 ^ (8 * Z.of_nat 8)) with (u64 (u64 (u64 (hm_count bk) + 1))).
    rewrite u64_u64, u64_add_l. f_equal. unfold bk'. rewrite (hm_count_insert _ _ b) by done. simpl. rewrite length_app. simpl. lia.
  - intros j b' Hj. eapply chain_ext; [by apply Hc|]. intros e x Hin Hx. apply lookup_wr_out. intros Hw.
    destruct (hm_at_elem _ _ _ _ _ Hj Hin) as [q A']. destruct (hg_self _ _ _ _ _ G' _ _ _ _ _ x A') as [H1 H2]; [unfold sizeof_hashmap; lia|].
    unfold in_entry, in_key in *. tauto.
  - exact G'.
  - unfold bk'. rewrite length_insert. apply Hm.
Qed.

Lemma hm_lookup_append d bk key b kp p v (i := hm_index (length bk) key) key' :
  bk !! i = Some b -> chain_find key (hm_chain d i b) = None ->
  hm_lookup d (<[i := bucket_append b (Entry p kp key v)]> bk) key' = if decide (key' = key) then Some v else hm_lookup d bk key'.
Proof.
  intros Hb Hf. unfold hm_lookup. rewrite length_insert. pose proof (lookup_lt_Some _ _ _ Hb) as Hlt.
  destruct (decide (hm_index (length bk) key' = i)) as [E|Hne].
  - rewrite E, list_lookup_insert_eq by done. rewrite hm_chain_append, chain_find_snoc, Hb. cbn [e_key].
    destruct (decide (key' = key)) as [->|Hk]; [by rewrite Hf, decide_True|]. rewrite decide_False by done.
    by destruct (chain_find key' (hm_chain d i b)).
  - rewrite list_lookup_insert_ne by done. case_decide as Hk; [|done]. by subst.
Qed.

(** * The operations *)

(** [hashmap_set] of a key that is present. *)
Lemma hashmap_set_found s blocks ext h d bk kp key b e v (i := hm_index (length bk) key) :
  hmap s blocks ext h d bk -> cstr (mem s) kp key -> Z.of_nat (length key) < 2 ^ 31 ->
  bk !! i = Some b -> chain_find key (hm_chain d i b) = Some e ->
  hashmap_set h kp v s = Ok true (with_mem s (wr 8 (mem s) (e_addr e + 24) v)) /\ in_regions (blocks ++ ext) (e_addr e) /\
  exists k, hm_at d bk i k = Some (place e).
Proof.
  intros Hm Hk Hlen Hb Hf. pose proof (chain_find_Some _ _ _ Hf) as [Hin _]. destruct (hm_at_elem _ _ _ _ _ Hb Hin) as [k A].
  pose proof (hg_range _ _ _ _ _ (hm_layout _ _ _ _ _ _ Hm) _ _ _ _ _ A) as Hr. split; [|split; [|by exists k]].
  - unfold hashmap_set. rewrite (bind_Ok _ _ _ _ _ (hashmap_entry_get_eq _ _ _ _ _ _ _ _ _ Hm Hk Hlen Hb)).
    fold i. rewrite Hf. simpl. destruct (Z.eqb_spec (e_addr e) NULL) as [E|_]; [unfold NULL in E; lia|]. simpl.
    rewrite st_then; [done|]. destruct (chain_elem _ _ _ (hm_chains _ _ _ _ _ _ Hm _ _ Hb) Hin) as (_ & next & He).
    by apply (rd_Some_mapped 8 _ _ _ (ea_val _ _ _ He)).
  - eapply (hg_owned _ _ _ _ _ (hm_layout _ _ _ _ _ _ Hm)); [exact A|left; simpl; lia].
Qed.

(** [hashmap_set] of a key that is absent, up to the allocation of the entry. *)
Lemma hashmap_set_absent s blocks ext h d bk kp key b v (i := hm_index (length bk) key) (la := default (d + 32 * Z.of_nat i) (e_addr <$> list.last (snd b))) :
  hmap s blocks ext h d bk -> cstr (mem s) kp key -> Z.of_nat (length key) < 2 ^ 31 ->
  bk !! i = Some b -> chain_find key (hm_chain d i b) = None ->
  hashmap_set h kp v s =
    (new_entry ← heap_calloc sizeof_hashmap_entry;
     if new_entry =? NULL then mret false
     else
       st 8 (new_entry + 16) kp ;; n ← strlen kp; st 8 (new_entry + 8) (u64 n) ;; st 8 (new_entry + 24) v ;;
       st 8 new_entry NULL ;; st 8 la new_entry ;; items ← ld 8 (h + 16); st 8 (h + 16) (u64 (items + 1)) ;; mret true) s.
Proof.
  intros Hm Hk Hlen Hb Hf. destruct (hm_bounds _ _ _ _ _ _ Hm) as (B1 & B2 & B3). unfold hashmap_set.
  rewrite (bind_Ok _ _ _ _ _ (hashmap_entry_get_eq _ _ _ _ _ _ _ _ _ Hm Hk Hlen Hb)). fold i. rewrite Hf. simpl.
  rewrite (ld_then 8 _ _ _ _ (hm_entry_count _ _ _ _ _ _ Hm)).
  rewrite (bind_Ok _ _ _ _ _ (INDEX_eq _ _ _ (Z.of_nat (length bk)) Hk Hlen ltac:(lia))).
  rewrite (ld_then 8 _ _ _ _ (hm_entries _ _ _ _ _ _ Hm)).
  destruct (hm_bucket _ _ _ _ _ _ key Hm) as (b' & Hb' & Hlink). fold i in Hb', Hlink. rewrite Hb in Hb'. injection Hb' as <-. rewrite Hlink.
  rewrite (bind_Ok _ _ s la s); [done|]. apply (kloop_runs _ (S (length (snd b)))).
  - apply (last_runs_chain s (sentinel d i (fst b)) (snd b)), (hm_chains _ _ _ _ _ _ Hm _ _ Hb).
  - pose proof (hm_chain_length _ _ _ _ _ _ _ (hm_layout _ _ _ _ _ _ Hm) Hb) as Hl. simpl in Hl. lia.
Qed.

End hmap.
