(* ===== verification/HashmapProps.v ===== *)
(** The hash maps refine finite maps: creation, lookup and insertion on any
    kernel heap, and a run of them on the heap of [memory/kheap.c]. *)
From S2P Require Import Prelude Machine Lock Str Layout KheapSpec Heap VectorSpec Hashmap HashmapSpec.

Section props.
Context `{KernelHeap}.
Implicit Types (s : kstate) (blocks ext : list (Z * Z)) (bk : list bucket) (key : list byte).

(** A byte of the map: its header or one of its entries. *)
Definition hm_byte h d bk (x : Z) : Prop :=
  h <= x < h + sizeof_hashmap \/ exists i k a kp ky, hm_at d bk i k = Some (a, kp, ky) /\ a <= x < a + 32.

(** What an insertion does. *)
Definition set_result s blocks ext h d bk M key v kp : Prop :=
  exists s' blocks' bk', hashmap_set h kp v s = Ok true s' /\
    hmap s' blocks' ext h d bk' /\ hm_model d bk' (<[key := v]> M) /\ heap_inv s' blocks' ext /\
    (forall r, r ∈ blocks -> r ∈ blocks') /\ same_globals s s' /\
    (forall x, in_regions (blocks ++ ext) x -> ~ hm_byte h d bk x -> mem s' !! x = mem s !! x).

Lemma set_found s blocks ext h d bk M kp key b e v :
  hmap s blocks ext h d bk -> hm_model d bk M -> heap_inv s blocks ext ->
  cstr (mem s) kp key -> Z.of_nat (length key) < 2 ^ 31 -> 0 <= v < 2 ^ 64 ->
  bk !! hm_index (length bk) key = Some b -> chain_find key (hm_chain d (hm_index (length bk) key) b) = Some e ->
  set_result s blocks ext h d bk M key v kp.
Proof.
  intros Hm HM Hh Hk Hlen Hv Hb Hf.
  destruct (hashmap_set_found _ _ _ _ _ _ _ _ _ _ v Hm Hk Hlen Hb Hf) as (E & _ & k & A).
  eexists _, blocks, _. split; [exact E|]. split; [by apply hm_update|]. split; [|split; [|split; [done|split; [done|]]]].
  - intros key'. rewrite (hm_lookup_update _ _ _ _ e) by done. destruct (decide (key' = key)) as [->|Hne].
    + by rewrite lookup_insert_eq.
    + rewrite lookup_insert_ne by done. apply HM.
  - apply hk_write; [| |done].
    + apply (same_dom_wr _ _ 8); [done|]. pose proof (chain_find_Some _ _ _ Hf) as [Hin _].
      destruct (chain_elem _ _ _ (hm_chains _ _ _ _ _ _ Hm _ _ Hb) Hin) as (_ & next & He).
      by apply (rd_Some_mapped 8 _ _ _ (ea_val _ _ _ He)).
    + intros x Hx. apply lookup_wr_out. intros Hw. apply Hx.
      eapply (hg_owned _ _ _ _ _ (hm_layout _ _ _ _ _ _ Hm)); [exact A|simpl; lia].
  - intros x _ Hx. cbn [mem with_mem]. apply lookup_wr_out. intros Hw. apply Hx. right.
    eexists _, k, _, _, _. split; [exact A|simpl; lia].
Qed.

Lemma hm_at_mapped s blocks ext h d bk i k a kp ky :
  hmap s blocks ext h d bk -> hm_at d bk i k = Some (a, kp, ky) -> mapped (mem s) a 8.
Proof.
  intros Hm A. unfold hm_at in A. destruct (bk !! i) as [b|] eqn:Hb; [|done].
  destruct (hm_chain d i b !! k) as [e|] eqn:El; [|done]. injection A as <- _ _.
  destruct (chain_elem _ _ _ (hm_chains _ _ _ _ _ _ Hm _ _ Hb) (list_elem_of_lookup_2 _ _ _ El)) as (_ & next & He).
  by apply (rd_Some_mapped 8 _ _ _ (ea_next _ _ _ He)).
Qed.

Lemma set_absent s blocks ext h d bk M kp key b v :
  hmap s blocks ext h d bk -> hm_model d bk M -> heap_ready s blocks ext sizeof_hashmap_entry ->
  cstr (mem s) kp key -> Z.of_nat (length key) < 2 ^ 31 -> 0 <= v < 2 ^ 64 -> 0 <= kp < 2 ^ 64 ->
  key_free blocks ext h d bk kp key ->
  bk !! hm_index (length bk) key = Some b -> chain_find key (hm_chain d (hm_index (length bk) key) b) = None ->
  set_result s blocks ext h d bk M key v kp.
Proof.
  intros Hm HM Hr Hk Hlen Hv Hkp Hfree Hb Hf. unfold set_result.
  rewrite (hashmap_set_absent _ _ _ _ _ _ _ _ _ v Hm Hk Hlen Hb Hf).
  destruct (hk_calloc _ _ _ _ Hr) as (p & k & s1 & E & Hk32 & Hh1 & Hkept & Hg & _). unfold sizeof_hashmap_entry in Hk32.
  destruct (hk_range _ _ _ p k Hh1) as (P1 & P2 & P3 & P4); [apply elem_of_cons; by left|].
  assert (Hfresh : forall x, in_regions (blocks ++ ext) x -> ~ (p <= x < p + k)) by (intros x; by apply (fresh_outside s1)).
  set (len := Z.of_nat (length key)) in *. set (m2 := new_entry_mem (mem s1) p kp len v).
  assert (Ho2 : forall x, in_regions (blocks ++ ext) x -> m2 !! x = mem s !! x).
  { intros x Hx. unfold m2. rewrite new_entry_out by (intros ?; apply (Hfresh x Hx); lia). by apply Hkept. }
  assert (Hk1 : cstr (wr 8 (mem s1) (p + 16) kp) kp key).
  { destruct Hk as [Hk Hz]. split; [|done]. eapply bytes_at_agree; [|done]. intros x Hx. rewrite length_app in Hx. simpl in Hx.
    destruct (Hfree x) as [Hin _]; [lia|]. rewrite lookup_wr_out by (intros ?; apply (Hfresh x Hin); lia). by apply Hkept. }
  pose proof (hmap_kept _ m2 _ blocks _ _ _ _ Hm Ho2 ltac:(done)) as Hm2.
  assert (Hm2' : hmap (with_mem s1 m2) blocks ext h d bk) by (destruct Hm2; split; done).
  assert (He2 : entry_at m2 (Entry p kp key v) NULL).
  { apply new_entry_at; try done.
    - eapply bytes_at_agree; [|apply (bytes_at_cstr _ _ _ Hk)]. intros x Hx. apply Hkept. destruct (Hfree x) as [Hin _]; [lia|done].
    - intros x Hx Hx'. destruct (Hfree x) as [Hin _]; [lia|]. apply (Hfresh x Hin). lia. }
  pose proof (hm_append _ _ _ _ _ _ _ _ v _ _ _ Hm2' Hb Hf He2 Hfree Hfresh Hk32 ltac:(lia)) as Hm4. cbn [mem with_mem] in Hm4. rewrite with_mem_mem in Hm4.
  destruct (last_of_bucket d _ _ _ Hb) as (k0 & a & kp0 & ky0 & A & Ea). rewrite <- Ea in *.
  pose proof (hm_at_mapped _ _ _ _ _ _ _ _ _ _ _ Hm2' A) as Ma. cbn [mem with_mem] in Ma.
  pose proof (rd_Some_mapped 8 _ _ _ (hm_items _ _ _ _ _ _ Hm2')) as Mh. cbn [mem with_mem] in Mh.
  assert (Md : same_dom (mem s1) m2).
  { unfold m2, new_entry_mem. repeat (apply (same_dom_wr _ _ 8); [|eapply mapped_sub; [exact P4|lia|lia]]). done. }
  eexists _, ((p, k) :: blocks), _. split; [|split; [exact Hm4|split; [|split; [|split; [|split; [exact Hg|]]]]]].
  - rewrite (bind_Ok _ _ _ _ _ E). destruct (Z.eqb_spec p NULL) as [E0|_]; [unfold NULL in E0; lia|].
    rewrite st_then by (eapply mapped_sub; [exact P4|lia|lia]).
    rewrite (bind_Ok _ _ _ _ _ (strlen_eq _ _ (with_mem s1 _) Hk1 Hlen)). fold len. rewrite (u64_small len) by lia.
    do 3 (rewrite st_then by (cbn [mem with_mem]; repeat apply mapped_wr; eapply mapped_sub; [exact P4|lia|lia])).
    cbn [mem with_mem]. rewrite !with_mem_mem. fold (new_entry_mem (mem s1) p kp len v). fold m2.
    rewrite st_then by exact Ma. cbn [mem with_mem]. rewrite with_mem_mem.
    rewrite (ld_then 8 _ (u64 (hm_count bk))).
    2:{ cbn [mem with_mem]. destruct (hm_entry_wr _ _ _ _ _ _ _ _ _ _ _ 0 p Hm2' A ltac:(lia) ltac:(lia)) as (_ & _ & R3).
        rewrite Z.add_0_r in R3. cbn [mem with_mem] in R3. rewrite R3. apply Hm2'. }
    rewrite st_then.
    2:{ cbn [mem with_mem]. by apply mapped_wr. }
    cbn [mem with_mem]. rewrite with_mem_mem. reflexivity.
  - intros key'. rewrite hm_lookup_append by done. destruct (decide (key' = key)) as [->|Hne].
    + by rewrite lookup_insert_eq.
    + rewrite lookup_insert_ne by done. apply HM.
  - apply hk_write; [| |exact Hh1].
    + eapply same_dom_trans; [exact Md|]. by repeat (apply (same_dom_wr _ _ 8); [|done]).
    + intros x Hx. assert (Hx' : ~ in_regions (blocks ++ ext) x /\ ~ (p <= x < p + k)).
      { split; intros Hin; apply Hx; [destruct Hin as (r & Hr' & Hin); exists r; split; [apply elem_of_cons; by right|done]|].
        exists (p, k). split; [apply elem_of_cons; by left|done]. }
      rewrite !lookup_wr_out.
      * unfold m2. apply new_entry_out. lia.
      * intros Hin. apply (proj1 Hx'). eapply (hg_owned _ _ _ _ _ (hm_layout _ _ _ _ _ _ Hm)); [exact A|left; lia].
      * intros Hin. apply (proj1 Hx'), (hg_map _ _ _ _ _ (hm_layout _ _ _ _ _ _ Hm)). unfold sizeof_hashmap. lia.
  - intros r Hin. apply elem_of_cons. by right.
  - intros x Hx Hno. cbn [mem with_mem]. rewrite !lookup_wr_out.
    + by apply Ho2.
    + intros Hin. apply Hno. right. eexists _, _, _, _, _. split; [exact A|lia].
    + intros Hin. apply Hno. left. unfold sizeof_hashmap. lia.
Qed.

(** C12: insertion and lookup refine a finite map.  When the buckets of a hash map
    stand for the map [M], [hashmap_set] returns true, the buckets then stand for
    [M] with the key bound to the value, and a [hashmap_get] of any string
    returns what this map has for it (0 when it has nothing) and changes nothing.
    The heap stays in order, and the clients' memory outside the map is kept.  An
    absent key needs room for an entry on the heap and a string that neither
    overlaps the map nor belongs to the heap's free memory. *)
Theorem hashmap_set_refines s blocks ext h d bk M kp key v :
  hmap s blocks ext h d bk -> hm_model d bk M -> heap_inv s blocks ext ->
  (M !! key = None -> heap_ready s blocks ext sizeof_hashmap_entry /\ key_free blocks ext h d bk kp key) ->
  cstr (mem s) kp key -> Z.of_nat (length key) < 2 ^ 31 -> 0 <= v < 2 ^ 64 -> 0 <= kp < 2 ^ 64 ->
  exists s' blocks' bk', hashmap_set h kp v s = Ok true s' /\
    hmap s' blocks' ext h d bk' /\ hm_model d bk' (<[key := v]> M) /\ heap_inv s' blocks' ext /\
    (forall r, r ∈ blocks -> r ∈ blocks') /\ same_globals s s' /\
    (forall x, in_regions (blocks ++ ext) x -> ~ hm_byte h d bk x -> mem s' !! x = mem s !! x) /\
    (forall kp' key', cstr (mem s') kp' key' -> Z.of_nat (length key') < 2 ^ 31 ->
       hashmap_get h kp' s' = Ok (default 0 (<[key := v]> M !! key')) s').
Proof.
  intros Hm HM Hh Hroom Hk Hlen Hv Hkp. destruct (hm_bucket _ _ _ _ _ _ key Hm) as (b & Hb & _).
  assert (Hset : set_result s blocks ext h d bk M key v kp).
  { destruct (chain_find key (hm_chain d (hm_index (length bk) key) b)) as [e|] eqn:Hf; [by eapply set_found|].
    destruct Hroom as [Hr Hfree]; [|by eapply set_absent]. rewrite <- (HM key). unfold hm_lookup. by rewrite Hb, Hf. }
  destruct Hset as (s' & blocks' & bk' & E & Hm' & HM' & Hh' & Hbl & Hg & Ho).
  exists s', blocks', bk'. do 7 (split; [done|]). intros kp' key' Hk' Hlen'.
  rewrite (hashmap_get_eq _ _ _ _ _ _ _ _ Hm' Hk' Hlen'). by rewrite HM'.
Qed.

(** One round of the search of [hashmap_remove]. *)
Lemma remove_find_at s e next kp key prev :
  0 < e_addr e -> entry_at (mem s) e next -> bytes_at (mem s) kp key -> (length (e_key e) = length key -> e_key e = key) ->
  remove_find kp (Z.of_nat (length key)) (prev, e_addr e) s = Ok (inl (e_addr e, next)) s.
Proof.
  intros Hpos [H1 H2 H3 H4 H5] Hk Heq. unfold remove_find. destruct (Z.eqb_spec (e_addr e) NULL) as [E|_]; [unfold NULL in E; lia|].
  rewrite (ld_then 8 _ _ _ _ H2). rewrite (bind_Ok _ _ s false s); [by rewrite (ld_then 8 _ _ _ _ H1)|].
  destruct (Z.eqb_spec (Z.of_nat (length key)) (Z.of_nat (length (e_key e)))) as [El|El]; [|done].
  apply Nat2Z.inj in El. rewrite (ld_then 8 _ _ _ _ H3). rewrite <- (Heq (eq_sym El)) in *.
  by rewrite (bind_Ok _ _ _ _ _ (memcmp_eq _ _ _ _ _ H5 Hk eq_refl)), lex_refl.
Qed.

Lemma remove_runs s c kp key prev :
  chain (mem s) c -> bytes_at (mem s) kp key -> (forall e, e ∈ c -> length (e_key e) = length key -> e_key e = key) ->
  exists prev', runs (remove_find kp (Z.of_nat (length key))) (S (length c)) (prev, link c) s (prev', NULL) s /\
    (0 < prev \/ c <> [] -> 0 < prev').
Proof.
  revert prev. induction c as [|e c IH]; intros prev Hc Hk Hall.
  - exists prev. split; [by constructor|]. by intros [|].
  - destruct Hc as [[Hp He] Hc].
    destruct (IH (e_addr e) Hc Hk) as (prev' & Hr & Hpos); [intros e' Hin; apply Hall, elem_of_cons; by right|].
    exists prev'. split; [|intros _; apply Hpos; by left]. eapply runs_next; [|exact Hr]. simpl.
    apply remove_find_at; try done. apply Hall, elem_of_cons. by left.
Qed.

(** C34: [hashmap_remove] tests the result of [memcmp] the wrong way round: it walks
    past the key that was asked for.  When the key is in the map and no other key of
    its bucket has the same length, the search passes its entry, ends at the null
    pointer, and the store that unlinks the entry reads through it; the key is not
    removed and the call does not return. *)
Theorem hashmap_remove_dereferences_null (heap_free : Z -> K unit) s blocks ext h d bk kp key b e :
  hmap s blocks ext h d bk -> cstr (mem s) kp key -> Z.of_nat (length key) < 2 ^ 31 ->
  bk !! hm_index (length bk) key = Some b ->
  chain_find key (hm_chain d (hm_index (length bk) key) b) = Some e ->
  (forall e', e' ∈ hm_chain d (hm_index (length bk) key) b -> e' <> e -> length (e_key e') <> length key) ->
  rd 8 (mem s) NULL = None ->
  hashmap_remove heap_free h kp s = Fault.
Proof.
  intros Hm Hk Hlen Hb Hf Hother Hnull.
  assert (Hall : forall e', e' ∈ hm_chain d (hm_index (length bk) key) b -> length (e_key e') = length key -> e_key e' = key).
  { intros e' Hin Hl. destruct (decide (e_key e' = key)) as [|Hne]; [done|]. destruct (Hother e' Hin); [|done]. intros ->. apply Hne, (chain_find_Some _ _ _ Hf). } destruct (hm_bounds _ _ _ _ _ _ Hm) as (B1 & B2 & B3). unfold hashmap_remove.
  rewrite (ld_then 8 _ _ _ _ (hm_entry_count _ _ _ _ _ _ Hm)).
  rewrite (bind_Ok _ _ _ _ _ (INDEX_eq _ _ _ (Z.of_nat (length bk)) Hk Hlen ltac:(lia))).
  rewrite (ld_then 8 _ _ _ _ (hm_entries _ _ _ _ _ _ Hm)).
  rewrite (bind_Ok _ _ _ _ _ (strlen_eq _ _ _ Hk Hlen)), u64_small by lia.
  destruct (hm_bucket _ _ _ _ _ _ key Hm) as (b' & Hb' & ->). rewrite Hb in Hb'. injection Hb' as <-.
  destruct (remove_runs s _ kp key NULL (hm_chains _ _ _ _ _ _ Hm _ _ Hb) (bytes_at_cstr _ _ _ Hk) Hall) as (prev & Hr & Hpos).
  rewrite (bind_Ok _ _ _ _ _ (kloop_runs _ _ _ _ _ _ Hr ltac:(pose proof (hm_chain_length _ _ _ _ _ _ _ (hm_layout _ _ _ _ _ _ Hm) Hb); lia))).
  destruct (Z.eqb_spec prev NULL) as [E|_]; [unfold NULL in E; specialize (Hpos ltac:(by right)); lia|].
  unfold mbind, K_bind, ld. cbn [negb]. by rewrite Hnull.
Qed.

(** The places of the entries of a new map. *)
Lemma hm_at_replicate d n i k a kp ky :
  hm_at d (replicate n (0, [])) i k = Some (a, kp, ky) -> (i < n)%nat /\ k = O /\ a = d + 32 * Z.of_nat i /\ kp = NULL /\ ky = [].
Proof.
  unfold hm_at. destruct (replicate n (0, []) !! i) as [b|] eqn:E; [|done]. apply lookup_replicate in E as [-> Hi].
  destruct k as [|k]; [|done]. simpl. by intros [= <- <- <-].
Qed.

Lemma hm_geo_replicate blocks ext h p k n :
  0 < p -> p + k < 2 ^ 64 -> 32 * Z.of_nat n <= k ->
  (forall x, h <= x < h + sizeof_hashmap -> in_regions (blocks ++ ext) x) ->
  (forall x, in_regions (blocks ++ ext) x -> ~ (p <= x < p + k)) ->
  hm_geo ((p, k) :: blocks) ext h p (replicate n (0, [])).
Proof.
  intros Hp Hk Hn Hown Hfresh. split; intros *.
  - intros (L1 & -> & -> & -> & ->)%hm_at_replicate (L2 & -> & -> & -> & ->)%hm_at_replicate Hne. unfold apart. simpl.
    assert (i <> i') by congruence. lia.
  - intros (_ & _ & _ & -> & ->)%hm_at_replicate _ Hx. simpl in Hx. lia.
  - intros (L1 & -> & -> & -> & ->)%hm_at_replicate Hx. split; [|simpl; lia]. intros Hin. apply (Hfresh x); [by apply Hown|lia].
  - intros (L1 & -> & -> & -> & ->)%hm_at_replicate [Hx|Hx]; [|simpl in Hx; lia]. exists (p, k). split; [apply elem_of_cons; by left|simpl; lia].
  - intros (L1 & -> & -> & -> & ->)%hm_at_replicate. lia.
  - by intros (_ & ? & _)%hm_at_replicate.
  - intros (_ & -> & _)%hm_at_replicate (_ & -> & _)%hm_at_replicate. done.
  - intros Hx. destruct (Hown x Hx) as (r & Hr & Hin). exists r. split; [apply elem_of_cons; by right|done].
Qed.

Lemma hm_model_replicate d n : (0 < n)%nat -> hm_model d (replicate n (0, [])) {[ [] := 0 ]}.
Proof.
  intros Hn key. unfold hm_lookup. rewrite length_replicate. destruct (hm_index_lt n key Hn) as [Hlt _].
  rewrite lookup_replicate_2 by done. simpl. destruct (decide ([] = key)) as [<-|Hne].
  - by rewrite lookup_singleton_eq.
  - by rewrite lookup_singleton_ne.
Qed.

(** A new hash map is empty.  [hashmap_create] with a positive number of
    buckets returns true; every bucket has only its entry in the array, so that
    the empty key has the value 0 and no other key is present. *)
Theorem hashmap_create_empty s blocks ext h n :
  heap_ready s blocks ext (Z.of_nat n * sizeof_hashmap_entry) -> (0 < n)%nat -> 0 <= h < 2 ^ 64 - sizeof_hashmap ->
  (forall x, h <= x < h + sizeof_hashmap -> in_regions (blocks ++ ext) x) -> mapped (mem s) h sizeof_hashmap ->
  Z.of_nat n * sizeof_hashmap_entry < 2 ^ 64 ->
  exists s' p k, hashmap_create h (Z.of_nat n) s = Ok true s' /\
    hmap s' ((p, k) :: blocks) ext h p (replicate n (0, [])) /\ hm_model p (replicate n (0, [])) {[ [] := 0 ]} /\
    heap_inv s' ((p, k) :: blocks) ext /\ same_globals s s' /\
    (forall x, in_regions (blocks ++ ext) x -> ~ (h <= x < h + sizeof_hashmap) -> mem s' !! x = mem s !! x).
Proof.
  intros Hr Hn Hh Hown Hmap Hbig. unfold sizeof_hashmap, sizeof_hashmap_entry in *.
  destruct (hk_calloc _ _ _ _ Hr) as (p & k & s1 & E & Hk & Hh1 & Hkept & Hg & Hz).
  destruct (hk_range _ _ _ p k Hh1) as (P1 & P2 & P3 & P4); [apply elem_of_cons; by left|].
  assert (Hfresh : forall x, in_regions (blocks ++ ext) x -> ~ (p <= x < p + k)) by (intros x; by apply (fresh_outside s1)).
  assert (Hmap1 : mapped (mem s1) h 24) by (intros x Hx; rewrite Hkept by (by apply Hown); by apply Hmap).
  set (m := wr 8 (wr 8 (wr 8 (mem s1) h p) (h + 8) (Z.of_nat n)) (h + 16) 0).
  assert (Ho : forall x, ~ (h <= x < h + 24) -> m !! x = mem s1 !! x) by (intros x Hx; unfold m; by rewrite !lookup_wr_out by lia).
  exists (with_mem s1 m), p, k. split; [|split; [|split; [by apply hm_model_replicate|split; [|split; [exact Hg|]]]]].
  - unfold hashmap_create. unfold sizeof_hashmap_entry. rewrite (u64_small (Z.of_nat n * 32)) by lia.
    rewrite (bind_Ok _ _ _ _ _ E). destruct (Z.eqb_spec p NULL) as [E0|_]; [unfold NULL in E0; lia|].
    do 3 (rewrite st_then by (cbn [mem with_mem]; repeat apply mapped_wr; eapply mapped_sub; [exact Hmap1|lia|lia])). done.
  - split; cbn [mem with_mem]; rewrite ?length_replicate.
    + unfold m. do 2 (rewrite rd_wr_ne by lia). rewrite rd_wr_same. f_equal. apply Z.mod_small. simpl. lia.
    + unfold m. rewrite rd_wr_ne by lia. rewrite rd_wr_same. f_equal. apply Z.mod_small. simpl. lia.
    + unfold m. rewrite rd_wr_same. f_equal. transitivity (u64 0); [done|]. f_equal. clear. by induction n as [|n IH]; simpl; [|rewrite <- IH].
    + intros i b [-> Hi]%lookup_replicate. split; [|done].
      assert (Hzero : forall a, p + 32 * Z.of_nat i <= a -> a + 8 <= p + 32 * Z.of_nat i + 32 -> rd 8 m a = Some 0).
      { intros a A1 A2. apply rd_zero. intros x Hx. rewrite Ho; [apply Hz; lia|]. intros Hin. apply (Hfresh x); [by apply Hown|lia]. }
      split; [simpl; lia|]. split; cbn [e_addr e_kptr e_key e_val sentinel fst length]; try (apply Hzero; lia). by apply bytes_at_nil.
    + apply hm_geo_replicate; unfold sizeof_hashmap; auto; lia.
    + lia.
  - apply hk_write; [| |exact Hh1].
    + unfold m. repeat (apply (same_dom_wr _ _ 8); [|eapply mapped_sub; [exact Hmap1|lia|lia]]). done.
    + intros x Hx. apply Ho. intros Hin. apply Hx. destruct (Hown x Hin) as (r & Hr' & Hin'). exists r. split; [apply elem_of_cons; by right|done].
  - intros x Hx Hno. cbn [mem with_mem]. rewrite Ho by lia. by apply Hkept.
Qed.

End props.

(** The hash of [lib/hashmap.c], which shifts and adds in 64 bits, is the
    polynomial djb2 over the integers modulo [2^64], as its comment says. *)
Theorem hash_is_djb2 s key l :
  bytes_at (mem s) key l -> hash key (Z.of_nat (length l)) s = Ok (djb2 l mod 2 ^ 64) s.
Proof. apply hash_eq. Qed.
