(* ===== verification/HashmapWitness.v ===== *)
(** The theorems about hash maps on the heap of [memory/kheap.c] and a small state:
    a map of eight buckets at [0x9000] whose array is the block at [0x11130], and
    the string ["a"] at [0x9028]. *)
From S2P Require Import Prelude Machine Lock Str Layout Interfaces Pmm PmmSpec Kheap KheapSpec KheapProps KheapFree KheapWitness.
From S2P Require Import Heap KheapHeap Vector VectorSpec VectorWitness Hashmap HashmapSpec HashmapProps.

#[local] Existing Instance kheap_heap.
#[local] Instance small_kernel_heap : KernelHeap := kheap_heap 0x10000 0x8000.

Definition map_state : kstate := vec_state 0x11130 0 97.
Definition map_buckets : list bucket := replicate 8 (0, []).

Lemma map_ready n : 0 <= n <= 0x100 -> heap_ready map_state vec_blocks vec_ext_regions n.
Proof.
  intros Hn. exists small_free. split; [apply vec_state_client|]. split; [lia|].
  left. exists [], 0x11000, 0x100, []. split; [done|]. split; [constructor|]. simpl. lia.
Qed.

Lemma map_array_zero i : (i < 8)%nat ->
  forall x, 0x11130 + 32 * Z.of_nat i <= x < 0x11130 + 32 * Z.of_nat i + 32 -> mem map_state !! x = Some Byte.x00.
Proof.
  intros Hi x Hx. unfold map_state. cbn [mem vec_state]. rewrite vec_mem_heap; [|lia|apply (proj1 small_heap_mapped); lia].
  unfold small_heap_mem, frame_heap_mem. mem_zero.
Qed.

Ltac map_rd := unfold map_state, vec_state, vec_mem, small_heap_mem, frame_heap_mem; cbn [mem]; mem_rd.

Lemma map_hmap : hmap map_state vec_blocks vec_ext_regions 0x9000 0x11130 map_buckets.
Proof.
  split; [map_rd|map_rd|map_rd| | |].
  - intros i b [-> Hi]%lookup_replicate. split; [|done]. split; [simpl; lia|].
    assert (Hz : forall a, 0x11130 + 32 * Z.of_nat i <= a -> a + 8 <= 0x11130 + 32 * Z.of_nat i + 32 -> rd 8 (mem map_state) a = Some 0)
      by (intros a A1 A2; apply rd_zero; intros x Hx; apply (map_array_zero i Hi); lia).
    split; cbn [e_addr e_kptr e_key e_val sentinel fst length]; try (apply Hz; lia). by apply bytes_at_nil.
  - change vec_blocks with ((0x11130, 0xed0) :: []). apply hm_geo_replicate; [lia|lia|lia| |].
    + intros x Hx. exists (0x9000, 48). unfold sizeof_hashmap in Hx. split; [apply elem_of_cons; by left|simpl; lia].
    + intros x (r & Hr & Hx) Hin. repeat (apply elem_of_cons in Hr as [->|Hr]); [simpl in Hx; lia|simpl in Hx; lia|by apply elem_of_nil in Hr].
  - split; [vm_compute; lia|]. split; [lia|]. vm_compute. reflexivity.
Qed.

Definition key_a : list byte := [Z_byte 97].

Lemma map_key : cstr (mem map_state) 0x9028 key_a.
Proof.
  split; [|vm_compute; intros Hin; repeat (apply elem_of_cons in Hin as [Hin|Hin]; [discriminate Hin|]); by apply elem_of_nil in Hin].
  cbn [map_state vec_state mem]. unfold vec_mem.
  repeat (apply bytes_at_cons; split; [rewrite lookup_wr_in by lia; vm_compute; reflexivity|]). by apply bytes_at_nil.
Qed.

Lemma map_key_free : key_free vec_blocks vec_ext_regions 0x9000 0x11130 map_buckets 0x9028 key_a.
Proof.
  intros x Hx. simpl in Hx. split; [|split].
  - exists (0x9000, 48). split; [apply elem_of_app; right; apply elem_of_cons; by left|simpl; lia].
  - unfold sizeof_hashmap. lia.
  - intros i k a kp ky (Hi & -> & -> & _)%hm_at_replicate. lia.
Qed.

Lemma hashmap_set_refines_witness :
  exists s' blocks' bk', hashmap_set 0x9000 0x9028 42 map_state = Ok true s' /\
    hmap s' blocks' vec_ext_regions 0x9000 0x11130 bk' /\ hm_model 0x11130 bk' (<[key_a := 42]> {[ [] := 0 ]}) /\
    heap_inv s' blocks' vec_ext_regions /\
    (forall r, r ∈ vec_blocks -> r ∈ blocks') /\ same_globals map_state s' /\
    (forall x, in_regions (vec_blocks ++ vec_ext_regions) x -> ~ hm_byte 0x9000 0x11130 map_buckets x ->
       mem s' !! x = mem map_state !! x) /\
    (forall kp' key', cstr (mem s') kp' key' -> Z.of_nat (length key') < 2 ^ 31 ->
       hashmap_get 0x9000 kp' s' = Ok (default 0 (<[key_a := 42]> ({[ [] := 0 ]} : gmap (list byte) Z) !! key')) s').
Proof.
  apply (hashmap_set_refines map_state vec_blocks vec_ext_regions 0x9000 0x11130 map_buckets {[ [] := 0 ]} 0x9028 key_a 42).
  - apply map_hmap.
  - apply hm_model_replicate. lia.
  - eapply hk_ready_inv, (map_ready 0). lia.
  - intros _. split; [apply map_ready; unfold sizeof_hashmap_entry; lia|apply map_key_free].
  - apply map_key.
  - vm_compute. reflexivity.
  - lia.
  - lia.
Defined.

Lemma hashmap_create_empty_witness :
  exists s' p k, hashmap_create 0x9000 8 map_state = Ok true s' /\
    hmap s' ((p, k) :: vec_blocks) vec_ext_regions 0x9000 p (replicate 8 (0, [])) /\
    hm_model p (replicate 8 (0, [])) {[ [] := 0 ]} /\
    heap_inv s' ((p, k) :: vec_blocks) vec_ext_regions /\ same_globals map_state s' /\
    (forall x, in_regions (vec_blocks ++ vec_ext_regions) x -> ~ (0x9000 <= x < 0x9000 + sizeof_hashmap) ->
       mem s' !! x = mem map_state !! x).
Proof.
  apply (hashmap_create_empty map_state vec_blocks vec_ext_regions 0x9000 8).
  - apply map_ready. vm_compute. by split.
  - lia.
  - unfold sizeof_hashmap. lia.
  - intros x Hx. exists (0x9000, 48). unfold sizeof_hashmap in Hx. split; [apply elem_of_app; right; apply elem_of_cons; by left|simpl; lia].
  - unfold map_state, vec_state, vec_mem, small_heap_mem, frame_heap_mem. cbn [mem].
    do 4 apply (mapped_wr 8). intros x Hx. apply lookup_union_is_Some. right. apply zeros_mapped. unfold sizeof_hashmap in Hx. lia.
  - vm_compute. reflexivity.
Defined.

(** The map with the key ["a"]: its entry is a block at [0x11018]. *)
Definition entry_a : entry := Entry 0x11018 0x9028 key_a 42.
Definition entry_state : kstate := with_mem map_state (new_entry_mem (mem map_state) 0x11018 0x9028 (Z.of_nat (length key_a)) 42).
Definition one_state : kstate :=
  with_mem entry_state (wr 8 (wr 8 (mem entry_state) (0x11130 + 32 * Z.of_nat (hm_index 8 key_a)) 0x11018) (0x9000 + 16) (u64 (u64 (hm_count map_buckets) + 1))).
Definition one_buckets : list bucket := <[hm_index 8 key_a := bucket_append (0, []) entry_a]> map_buckets.

Lemma entry_fresh x : in_regions (vec_blocks ++ vec_ext_regions) x -> ~ (0x11018 <= x < 0x11018 + 32).
Proof.
  intros (r & Hr & Hx) Hin. repeat (apply elem_of_cons in Hr as [->|Hr]); [simpl in Hx; lia..|by apply elem_of_nil in Hr].
Qed.

Lemma key_a_bucket : map_buckets !! hm_index (length map_buckets) key_a = Some (0, []).
Proof. vm_compute. reflexivity. Qed.

Lemma entry_state_hmap : hmap entry_state vec_blocks vec_ext_regions 0x9000 0x11130 map_buckets.
Proof.
  apply (hmap_kept _ _ vec_blocks); [apply map_hmap| |done].
  intros x Hx. apply new_entry_out. by apply entry_fresh.
Qed.

Lemma one_hmap : hmap one_state ((0x11018, 32) :: vec_blocks) vec_ext_regions 0x9000 0x11130 one_buckets.
Proof.
  apply (hm_append entry_state vec_blocks vec_ext_regions 0x9000 0x11130 map_buckets (0, []) key_a 42 0x9028 0x11018 32).
  - apply entry_state_hmap.
  - apply key_a_bucket.
  - vm_compute. reflexivity.
  - apply (new_entry_at (mem map_state) 0x11018 0x9028 key_a 42); [apply bytes_at_cstr, map_key|simpl; lia..].
  - apply map_key_free.
  - intros x. apply entry_fresh.
  - lia.
  - lia.
Qed.

Lemma one_key : cstr (mem one_state) 0x9028 key_a.
Proof.
  destruct map_key as [H1 H2]. split; [|done]. eapply bytes_at_agree; [|exact H1]. intros x Hx. simpl in Hx.
  unfold one_state. cbn [mem with_mem]. pose proof (hm_index_lt 8 key_a ltac:(lia)).
  rewrite !lookup_wr_out by lia. apply new_entry_out. lia.
Qed.

Lemma hashmap_remove_dereferences_null_witness :
  chain_find key_a (hm_chain 0x11130 (hm_index 8 key_a) (bucket_append (0, []) entry_a)) = Some entry_a /\
  hashmap_remove (kheap_free 0x10000 0x8000) 0x9000 0x9028 one_state = Fault.
Proof.
  split; [vm_compute; reflexivity|].
  apply (hashmap_remove_dereferences_null (kheap_free 0x10000 0x8000) one_state ((0x11018, 32) :: vec_blocks) vec_ext_regions 0x9000 0x11130
           one_buckets 0x9028 key_a (bucket_append (0, []) entry_a) entry_a).
  - apply one_hmap.
  - apply one_key.
  - vm_compute. reflexivity.
  - vm_compute. reflexivity.
  - vm_compute. reflexivity.
  - intros e' Hin Hne. apply elem_of_cons in Hin as [->|Hin]; [discriminate|].
    apply elem_of_cons in Hin as [->|Hin]; [done|by apply elem_of_nil in Hin].
  - vm_compute. reflexivity.
Defined.

Lemma hash_is_djb2_witness : hash 0x9028 1 map_state = Ok (5381 * 33 + 97) map_state.
Proof.
  apply (hash_is_djb2 map_state 0x9028 key_a). apply bytes_at_cstr, map_key.
Defined.
