(* ===== verification/Lapic.v ===== *)
(** The local interrupt controller, [dev/apic/lapic.c], and the interval timer,
    [dev/pit.c], with the port accesses of [lib/io.h].

    Writes to device registers and ports are events of the trace.  What a device
    answers is a parameter: a function of the trace so far. *)
From S2P Require Import Prelude Machine Lock Str.
Import Lock.Seq.

Definition LAPIC_APIC_ID : Z := 0x20.
Definition LAPIC_EOI : Z := 0xb0.
Definition LAPIC_SPURIOUS_IVR : Z := 0xf0.
Definition LAPIC_ICR0 : Z := 0x300.
Definition LAPIC_ICR1 : Z := 0x310.
Definition LAPIC_LVT_TIMER_REG : Z := 0x320.
Definition LAPIC_TIMER_INIT_COUNT : Z := 0x380.
Definition LAPIC_TIMER_COUNTER : Z := 0x390.
Definition LAPIC_TIMER_DIVIDE_CFG_REG : Z := 0x3e0.
(** The registers of [lapic.h], each 16 bytes behind the one before or further on. *)
Definition lapic_registers : list (string * Z) := [
  ("APIC_ID", 0x20); ("APIC_VERSION", 0x30); ("TPR", 0x80); ("APR", 0x90); ("PPR", 0xa0); ("EOI", 0xb0);
  ("RRD", 0xc0); ("LOGICAL_DESTINATION_REG", 0xd0); ("DESTINATION_FORMAT_REG", 0xe0); ("SPURIOUS_IVR", 0xf0);
  ("ISR0", 0x100); ("ISR1", 0x110); ("ISR2", 0x120); ("ISR3", 0x130); ("ISR4", 0x140); ("ISR5", 0x150);
  ("ISR6", 0x160); ("ISR7", 0x170); ("TMR0", 0x180); ("TMR1", 0x190); ("TMR2", 0x1a0); ("TMR3", 0x1b0);
  ("TMR4", 0x1c0); ("TMR5", 0x1d0); ("TMR6", 0x1e0); ("TMR7", 0x1f0); ("IRR0", 0x200); ("IRR1", 0x210);
  ("IRR2", 0x220); ("IRR3", 0x230); ("IRR4", 0x240); ("IRR5", 0x250); ("IRR6", 0x260); ("IRR7", 0x270);
  ("ERROR_REG", 0x280); ("LVT_CMCI_REGS", 0x2f0); ("ICR0", 0x300); ("ICR1", 0x310); ("LVT_TIMER_REG", 0x320);
  ("LVT_THERMAL_SENSOR_REG", 0x330); ("LVT_PERF_MON_CNT_REG", 0x340); ("LVT_LINT0", 0x350);
  ("LVT_LINT1", 0x360); ("LVT_ERROR_REG", 0x370); ("TIMER_INIT_COUNT", 0x380); ("TIMER_COUNTER", 0x390);
  ("TIMER_DIVIDE_CFG_REG", 0x3e0)
]%string.
Definition OSCILATOR_FREQ : Z := 1193182.
Definition TIMER_FREQ : Z := 1000.

Definition outb (port data : Z) : K unit := emit (EvOut port data).
Definition outw (port data : Z) : K unit := emit (EvOutw port (u16 data)).
Definition outd (port data : Z) : K unit := emit (EvOutd port (u32 data)).

(** [this_cpu()]: the base of the segment [gs]. *)
Definition this_cpu : K Z := gget g_gs_base.

Section lapic.
Variable HHDM_OFFSET : Z.
(** The value a 32-bit device register, and a port, holds. *)
Variables (mmio_value port_value : list event -> Z -> Z).

Definition inb (port : Z) : K Z := fun s => Ok (u8 (port_value (trace s) port)) s.

(** A device answers an access of each width in its own way: [port_value] is the
    answer to the width that reads it. *)
Definition inw (port : Z) : K Z := fun s => Ok (u16 (port_value (trace s) port)) s.
Definition ind (port : Z) : K Z := fun s => Ok (u32 (port_value (trace s) port)) s.

Definition lapic_base : K Z :=
  msr ← gget g_apic_base;
  mret (u64 (Z.land msr 0xfffff000 + HHDM_OFFSET)).

Definition mmio_read (addr : Z) : K Z := fun s => Ok (u32 (mmio_value (trace s) addr)) s.

Definition lapic_read (reg : Z) : K Z :=
  base ← lapic_base;
  mmio_read (u64 (base + reg)).

Definition lapic_write (reg data : Z) : K unit :=
  base ← lapic_base;
  emit (EvMmio (u64 (base + reg)) data).

Definition lapic_eoi : K unit := lapic_write LAPIC_EOI 0x00.

Definition lapic_ipi (lapic_id vector : Z) : K unit :=
  lapic_write LAPIC_ICR1 (u32 (Z.shiftl lapic_id 24)) ;;
  lapic_write LAPIC_ICR0 vector.

Definition lapic_id : K Z := lapic_read LAPIC_APIC_ID.

Definition lapic_stop : K unit :=
  lapic_write LAPIC_TIMER_INIT_COUNT 0 ;;
  lapic_write LAPIC_LVT_TIMER_REG (Z.shiftl 1 16).

(** [lapic_freq] is at offset 44 of [cpu_local_t]. *)
Definition lapic_timer_oneshot (ms vector : Z) : K unit :=
  asm "cli" 0 ;;
  lapic_stop ;;
  cpu ← this_cpu;
  lapic_freq ← ld 4 (cpu + 44);
  let ticks := u64 (ms * (lapic_freq / 1000)) in
  lapic_write LAPIC_LVT_TIMER_REG vector ;;
  lapic_write LAPIC_TIMER_DIVIDE_CFG_REG 0 ;;
  lapic_write LAPIC_TIMER_INIT_COUNT (u32 ticks) ;;
  asm "sti" 0.

Definition pit_get_current_count : K Z :=
  outb 0x43 0x00 ;;
  lo ← inb 0x40;
  hi ← inb 0x40;
  mret (Z.lor (u16 (Z.shiftl hi 8)) lo).

Definition pit_set_reload_value (count : Z) : K unit :=
  asm "cli" 0 ;;
  outb 0x43 0x34 ;;
  outb 0x40 (u8 count) ;;
  outb 0x40 (u8 (Z.shiftr count 8)) ;;
  asm "sti" 0.

(** The wait for the counter; the bound of the model is that of [kloop]. *)
Definition lapic_wait (_ : unit) : K (unit + unit) :=
  c ← lapic_read LAPIC_TIMER_COUNTER;
  mret (if c =? 0 then inr tt else inl tt).

Definition lapic_calibrate : K unit :=
  spinlock_acquire (LG g_lapic_lock) ;;
  lapic_stop ;;
  pit_set_reload_value 0xffff ;;
  tick_first ← pit_get_current_count;
  lapic_write LAPIC_TIMER_INIT_COUNT 0xfffff ;;
  kloop lapic_wait tt ;;
  tick_last ← pit_get_current_count;
  let tick_total := u64 (tick_first - tick_last) in
  (if tick_total =? 0 then fault else mret tt) ;;
  let freq := u64 (0xfffff / tick_total * OSCILATOR_FREQ) in
  cpu ← this_cpu;
  st 4 (cpu + 44) (u32 freq) ;;
  lapic_stop ;;
  spinlock_release (LG g_lapic_lock).

Definition lapic_init : K unit :=
  ivr ← lapic_read LAPIC_SPURIOUS_IVR;
  lapic_write LAPIC_SPURIOUS_IVR (Z.lor (Z.lor ivr (Z.shiftl 1 8)) 0xff) ;;
  lapic_calibrate.

(** The handler of the timer interrupt. *)
Definition pit : K unit :=
  ticks ← gget g_ticks;
  gput g_ticks (u64 (ticks + 1)) ;;
  lapic_eoi.

Definition pit_divisor : Z := u16 (OSCILATOR_FREQ / TIMER_FREQ).

End lapic.

(** The table is strictly increasing in steps of 16 bytes within the page of the
    device, and has the registers that the functions use. *)
Definition spaced (l : list Z) : bool :=
  (fix go x l := match l with [] => true | y :: l' => (x + 16 <=? y) && (y mod 16 =? 0) && go y l' end) 0 l.

Lemma lapic_registers_spaced :
  spaced lapic_registers.*2 = true /\ Forall (fun r => 0 <= r <= 0x3e0) lapic_registers.*2 /\
  Forall (.∈ lapic_registers.*2) [LAPIC_APIC_ID; LAPIC_EOI; LAPIC_SPURIOUS_IVR; LAPIC_ICR0; LAPIC_ICR1; LAPIC_LVT_TIMER_REG; LAPIC_TIMER_INIT_COUNT;
   LAPIC_TIMER_COUNTER; LAPIC_TIMER_DIVIDE_CFG_REG].
Proof.
  split; [reflexivity|]. split; [by apply (bool_decide_unpack _); vm_compute|].
  by apply (bool_decide_unpack _); vm_compute.
Qed.
