(* ===== verification/Stdio.v ===== *)
(** Text output: the serial port of [dev/serial.c], the console of
    [dev/console.c] and the [printf] of [lib/stdio.c].

    In the other files a call of [printf] is one event of the trace; here it is
    what the function does with the bytes of its format. *)
From S2P Require Import Prelude Machine Lock Str Layout Lapic.
Import Lock.Seq.

Definition PORT : Z := 0x3f8.

Definition serial_init : K unit :=
  outb (PORT + 1) 0x00 ;;
  outb (PORT + 3) 0x80 ;;
  outb (PORT + 0) 0x01 ;;
  outb (PORT + 1) 0x00 ;;
  outb (PORT + 3) 0x03 ;;
  outb (PORT + 2) 0xC7 ;;
  outb (PORT + 4) 0x0B.

Section stdio.
Variable port_value : list event -> Z -> Z.
(** [flanterm_write] of the terminal library; the static [buffer] of [itoa], the
    local array [str] of [printf] and the literals ["0x"] and ["0b"]. *)
Variables (flanterm_write : Z -> Z -> Z -> K unit) (buffer str lit_0x lit_0b : Z).

Definition is_transmitter_empty : K bool :=
  status ← inb port_value (PORT + 5);
  mret (negb (Z.land status 64 =? 0)).

Definition transmit_wait (_ : unit) : K (unit + unit) :=
  empty ← is_transmitter_empty;
  if empty : bool then mret (inr tt) else asm "pause" 0 ;; mret (inl tt).

Definition transmit_data (value : Z) : K unit :=
  kloop transmit_wait tt ;;
  outb PORT value.

Definition serial_char (p : Z) : K (Z + unit) :=
  c ← ld 1 p;
  if c =? 0 then mret (inr tt)
  else
    (if c =? 10 then transmit_data 13 else mret tt) ;;
    c ← ld 1 p;
    transmit_data c ;;
    mret (inl (p + 1)).

Definition serial_out (p : Z) : K unit :=
  spinlock_acquire (LG g_serial_lock) ;;
  kloop serial_char p ;;
  spinlock_release (LG g_serial_lock).

Definition console_write (p : Z) : K unit :=
  term_context ← gget g_term_context;
  if negb (term_context =? NULL) then
    spinlock_acquire (LG g_console_lock) ;;
    term_context ← gget g_term_context;
    n ← strlen p;
    flanterm_write term_context p (u64 n) ;;
    spinlock_release (LG g_console_lock)
  else mret tt.

Definition out (p : Z) : K unit := serial_out p ;; console_write p.

(** [va_arg]: reading more arguments than were passed is undefined. *)
Definition va_arg (args : list Z) : K (Z * list Z) :=
  match args with [] => fault | a :: args' => mret (a, args') end.

(** The conversion [c] behind a [%]. *)
Definition printf_conv (c : Z) (args : list Z) : K (list Z) :=
  if c =? 115 then '(a, args) ← va_arg args; out a ;; mret args
  else if c =? 100 then '(a, args) ← va_arg args; p ← itoa buffer a 10; out p ;; mret args
  else if c =? 120 then out lit_0x ;; '(a, args) ← va_arg args; p ← itoa buffer a 16; out p ;; mret args
  else if c =? 98 then out lit_0b ;; '(a, args) ← va_arg args; p ← itoa buffer a 2; out p ;; mret args
  else mret args.

(** One round of the loop over the format. *)
Definition printf_char (x : Z * list Z) : K ((Z * list Z) + unit) :=
  let '(c, args) := x in
  ch ← ld 1 c;
  if ch =? 0 then mret (inr tt)
  else if ch =? 37 then
    ch ← ld 1 (c + 1);
    args ← printf_conv ch args;
    mret (inl (c + 2, args))
  else
    st 1 str ch ;;
    st 1 (str + 1) 0 ;;
    out str ;;
    mret (inl (c + 1, args)).

Definition kprintf (fmt : Z) (args : list Z) : K unit :=
  spinlock_acquire (LG g_print_lock) ;;
  kloop printf_char (fmt, args) ;;
  spinlock_release (LG g_print_lock).

End stdio.

(** [console_init]: [flanterm_fb_init] of the terminal library is given the
    allocator and the members of the bootloader's frame buffer. *)
Definition console_init (flanterm_fb_init : Z -> Z -> Z -> Z -> K Z) (fb_address fb_width fb_height fb_pitch : Z) : K unit :=
  term_context ← flanterm_fb_init fb_address fb_width fb_height fb_pitch;
  gput g_term_context term_context.
