(* ===== verification/StdioSpec.v ===== *)
(** What [printf] sends to the serial port. *)
From S2P Require Import Prelude Machine Lock Str Layout KheapSpec Lapic Stdio.
Import Lock.Seq.

(** * The text of a format *)

(** The arguments that a caller passes: a number, or the address of a string. *)
Inductive parg :=
  | PNum (n : Z)
  | PStr (p : Z) (l : list byte).
Definition parg_val (a : parg) : Z := match a with PNum n => n | PStr p _ => p end.

(** The digits of a number: no leading zero. *)
Definition numeral (base n : Z) (ds : list Z) : Prop :=
  val_digits base ds = n /\ Forall (fun d => 0 <= d < base) ds /\ ds <> [] /\ (head ds = Some 0 -> ds = [0]).

Definition percent : byte := Byte.x25.

(** The output that a format and its arguments stand for. *)
Inductive renders : list byte -> list parg -> list byte -> Prop :=
  | rn_end args : renders [] args []
  | rn_char c f args o : c <> percent -> renders f args o -> renders (c :: f) args (c :: o)
  | rn_str p l f args o : renders f args o -> renders (percent :: Byte.x73 :: f) (PStr p l :: args) (l ++ o)
  | rn_dec n ds f args o : numeral 10 n ds -> renders f args o ->
      renders (percent :: Byte.x64 :: f) (PNum n :: args) ((digit_byte <$> ds) ++ o)
  | rn_hex n ds f args o : numeral 16 n ds -> renders f args o ->
      renders (percent :: Byte.x78 :: f) (PNum n :: args) ([Byte.x30; Byte.x78] ++ (digit_byte <$> ds) ++ o)
  | rn_bin n ds f args o : numeral 2 n ds -> renders f args o ->
      renders (percent :: Byte.x62 :: f) (PNum n :: args) ([Byte.x30; Byte.x62] ++ (digit_byte <$> ds) ++ o)
  | rn_other c f args o : c ∉ [Byte.x73; Byte.x64; Byte.x78; Byte.x62] -> renders f args o ->
      renders (percent :: c :: f) args o.

(** A format that fits its arguments.  A number in base 2 has fewer than 50 digits
    (see [itoa_binary_underrun]). *)
Inductive fmt_ok : list byte -> list parg -> Prop :=
  | fo_end args : fmt_ok [] args
  | fo_char c f args : c <> percent -> fmt_ok f args -> fmt_ok (c :: f) args
  | fo_str p l f args : fmt_ok f args -> fmt_ok (percent :: Byte.x73 :: f) (PStr p l :: args)
  | fo_dec n f args : 0 <= n < 2 ^ 64 -> fmt_ok f args -> fmt_ok (percent :: Byte.x64 :: f) (PNum n :: args)
  | fo_hex n f args : 0 <= n < 2 ^ 64 -> fmt_ok f args -> fmt_ok (percent :: Byte.x78 :: f) (PNum n :: args)
  | fo_bin n f args : 0 <= n < 2 ^ 49 -> fmt_ok f args -> fmt_ok (percent :: Byte.x62 :: f) (PNum n :: args)
  | fo_other c f args : c ∉ [Byte.x73; Byte.x64; Byte.x78; Byte.x62] -> fmt_ok f args -> fmt_ok (percent :: c :: f) args.

(** A line feed is sent as carriage return and line feed. *)
Definition crlf (l : list byte) : list Z :=
  l ≫= (fun b => if byte_Z b =? 10 then [13; 10] else [byte_Z b]).
Definition sent (l : list byte) : list event := EvOut PORT <$> crlf l.

Lemma sent_app l1 l2 : sent (l1 ++ l2) = sent l1 ++ sent l2.
Proof. unfold sent, crlf. by rewrite bind_app, fmap_app. Qed.

Section stdio_proofs.
Context (port_value : list event -> Z -> Z) (flanterm_write : Z -> Z -> Z -> K unit) (buffer str lit_0x lit_0b : Z).
Implicit Types (s : kstate) (l f : list byte) (p : Z).

Local Abbreviation serial_out := (serial_out port_value).
Local Abbreviation out := (out port_value flanterm_write).
Local Abbreviation printf_char := (printf_char port_value flanterm_write buffer str lit_0x lit_0b).

(** The transmitter is always ready: its status register has bit 6 set. *)
Context (ready : forall t, Z.land (u8 (port_value t (PORT + 5))) 64 <> 0).

Definition add_trace s (t : list event) : kstate := KState (mem s) (glob s) (trace s ++ t).

Lemma add_trace_app s t1 t2 : add_trace (add_trace s t1) t2 = add_trace s (t1 ++ t2).
Proof. unfold add_trace. simpl. by rewrite app_assoc. Qed.

Lemma add_trace_nil s : add_trace s [] = s.
Proof. unfold add_trace. rewrite app_nil_r. by destruct s. Qed.

Lemma transmit_eq v s : transmit_data port_value v s = Ok tt (add_trace s [EvOut PORT v]).
Proof.
  unfold transmit_data. rewrite (bind_Ok _ _ s tt s); [done|].
  apply (kloop_runs _ 1); [|lia]. constructor. unfold transmit_wait, is_transmitter_empty, inb, mbind, K_bind, mret, K_ret.
  pose proof (ready (trace s)). by destruct (Z.eqb_spec (Z.land (u8 (port_value (trace s) (PORT + 5))) 64) 0).
Qed.

Lemma serial_runs l s p :
  cstr (mem s) p l -> runs (serial_char port_value) (S (length l)) p s tt (add_trace s (sent l)).
Proof.
  revert s p. induction l as [|b l IH]; intros s p Hl.
  - rewrite add_trace_nil. constructor. unfold serial_char. rewrite (bind_Ok _ _ _ _ _ (ld_byte _ _ _ (cstr_nil _ _ Hl))). done.
  - apply cstr_cons in Hl as (Hb & Hne & Hl). eapply runs_next.
    + unfold serial_char. rewrite (bind_Ok _ _ _ _ _ (ld_byte _ _ _ Hb)).
      destruct (Z.eqb_spec (byte_Z b) 0) as [E0|_]; [by apply byte_Z_x00 in E0|].
      rewrite (bind_Ok _ _ s tt (add_trace s (if byte_Z b =? 10 then [EvOut PORT 13] else []))).
      2:{ destruct (byte_Z b =? 10); [apply transmit_eq|by rewrite add_trace_nil]. }
      rewrite (bind_Ok _ _ (add_trace s _) _ _ (ld_byte (add_trace s _) _ _ Hb)).
      rewrite (bind_Ok _ _ _ _ _ (transmit_eq _ _)). reflexivity.
    + change (b :: l) with ([b] ++ l). rewrite sent_app.
      replace (sent [b]) with ((if byte_Z b =? 10 then [EvOut PORT 13] else []) ++ [EvOut PORT (byte_Z b)])
        by (unfold sent, crlf; simpl; by destruct (Z.eqb_spec (byte_Z b) 10) as [->|]).
      rewrite <- !add_trace_app. apply (IH (add_trace (add_trace s _) _)). exact Hl.
Qed.

(** [s'] is [s] with the events [t] behind its trace. *)
Record said s s' (t : list event) : Prop := {
  sd_mem : mem s' = mem s;
  sd_glob : same_globals s s';
  sd_trace : trace s' = trace s ++ t
}.

(** The console is not open and no lock is held. *)
Definition serial_only s : Prop := gval s g_serial_lock = 0 /\ gval s g_term_context = 0.

Lemma out_eq l s p :
  cstr (mem s) p l -> Z.of_nat (length l) < 2 ^ 31 -> serial_only s -> exists s', out p s = Ok tt s' /\ said s s' (sent l).
Proof.
  intros Hl Hlen [Hk Ht]. set (s1 := with_glob s g_serial_lock 1).
  set (s3 := with_glob (add_trace s1 (sent l)) g_serial_lock 0). exists s3.
  assert (Hg : same_globals s s3).
  { intros v. destruct (decide (v = g_serial_lock)) as [->|]; [unfold s3; by rewrite gval_with_glob_eq, Hk|].
    unfold s3. rewrite gval_with_glob_ne by done. by apply (gval_with_glob_ne s g_serial_lock v 1). }
  split; [|by split].
  unfold Stdio.out, Stdio.serial_out. rewrite (bind_Ok _ _ s tt s3).
  - unfold console_write. rewrite (bind_Ok _ _ s3 0 s3); [done|]. unfold gget. f_equal. by rewrite Hg.
  - rewrite (bind_Ok _ _ s tt s1) by (apply acquire_free; simpl; by rewrite Hk).
    rewrite (bind_Ok _ _ _ _ _ (kloop_runs _ _ _ _ _ _ (serial_runs l s1 p Hl) ltac:(lia))).
    apply release_held. simpl. f_equal. apply gval_with_glob_eq.
Qed.

(** * The loop over the format *)

(** The bytes that [printf] itself writes. *)
Definition scratch (x : Z) : Prop := buffer <= x < buffer + 50 \/ str <= x < str + 2.

Record text (m : gmap Z byte) p l : Prop := {
  tx_cstr : cstr m p l;
  tx_len : Z.of_nat (length l) < 2 ^ 31;
  tx_out x : p <= x <= p + Z.of_nat (length l) -> ~ scratch x
}.

Definition parg_ok (m : gmap Z byte) (a : parg) : Prop := match a with PStr p l => text m p l | PNum _ => True end.

(** One step of the loop: only the scratch bytes and the trace change. *)
Record step_said s s' (t : list event) : Prop := {
  ss_mem x : ~ scratch x -> mem s' !! x = mem s !! x;
  ss_dom : same_dom (mem s) (mem s');
  ss_glob : same_globals s s';
  ss_trace : trace s' = trace s ++ t
}.

Lemma said_step s s' t : said s s' t -> step_said s s' t.
Proof. intros [H1 H2 H3]. split; [by rewrite H1|by rewrite H1|done|done]. Qed.

Lemma step_trans s1 s2 s3 t1 t2 : step_said s1 s2 t1 -> step_said s2 s3 t2 -> step_said s1 s3 (t1 ++ t2).
Proof.
  intros [A1 A2 A3 A4] [B1 B2 B3 B4]. split.
  - intros x Hx. by rewrite B1, A1.
  - by eapply same_dom_trans.
  - by transitivity s2.
  - by rewrite B4, A4, app_assoc.
Qed.

Lemma text_step s s' t p l : step_said s s' t -> text (mem s) p l -> text (mem s') p l.
Proof.
  intros Hs [[H1 H1'] H2 H3]. split; [|done|done]. split; [|done]. eapply bytes_at_agree; [|done].
  intros x Hx. apply (ss_mem _ _ _ Hs), H3. rewrite length_app in Hx. simpl in Hx. lia.
Qed.

Lemma parg_step s s' t a : step_said s s' t -> parg_ok (mem s) a -> parg_ok (mem s') a.
Proof. destruct a; [done|]. apply text_step. Qed.

Lemma serial_step s s' t : step_said s s' t -> serial_only s -> serial_only s'.
Proof. intros Hs [H1 H2]. split; by rewrite (ss_glob _ _ _ Hs). Qed.

Lemma mapped_step s s' t a n : step_said s s' t -> mapped (mem s) a n -> mapped (mem s') a n.
Proof. intros Hs Hm x Hx. by apply (ss_dom _ _ _ Hs), Hm. Qed.

Lemma out_text l s p : text (mem s) p l -> serial_only s -> exists s', out p s = Ok tt s' /\ step_said s s' (sent l).
Proof. intros Ht Hs. destruct (out_eq l s p (tx_cstr _ _ _ Ht) (tx_len _ _ _ Ht) Hs) as (s' & E & H). exists s'. split; [done|by apply said_step]. Qed.

(** A number is written to the static buffer and sent. *)
Lemma out_number base n s :
  2 <= base <= 16 -> 0 <= n < base ^ 49 -> mapped (mem s) buffer 50 -> serial_only s ->
  exists ds p s1 s', itoa buffer n base s = Ok p s1 /\ out p s1 = Ok tt s' /\ numeral base n ds /\
    step_said s s' (sent (digit_byte <$> ds)).
Proof.
  intros Hb Hn Hm Hs. destruct (itoa_eq buffer buffer 48 n base s) as (p & ds & m' & E & Hc & Hv & Hf & Hl & Hp & [Hd Ho] & Hz);
    [done|done|lia|lia|by replace (buffer + 50 - buffer) with 50 by lia|].
  assert (Hst : step_said s (with_mem s m') []).
  { split; [|done|done|by rewrite app_nil_r]. intros x Hx. apply Ho. unfold scratch in Hx. lia. }
  destruct (out_eq (digit_byte <$> ds) (with_mem s m') p Hc) as (s' & E' & Hs'); [rewrite length_fmap; lia|exact Hs|].
  exists ds, p, (with_mem s m'), s'. split; [done|]. split; [done|]. split.
  - split; [done|]. split; [done|]. split; [|done]. intros ->. simpl in Hl. lia.
  - apply (step_trans _ _ _ [] _ Hst). by apply said_step.
Qed.

(** What [printf] needs of the state, and keeps. *)
Record io_ok s : Prop := {
  io_serial : serial_only s;
  io_buffer : mapped (mem s) buffer 50;
  io_str : mapped (mem s) str 2;
  io_0x : text (mem s) lit_0x [Byte.x30; Byte.x78];
  io_0b : text (mem s) lit_0b [Byte.x30; Byte.x62]
}.

Lemma io_step s s' t : step_said s s' t -> io_ok s -> io_ok s'.
Proof.
  intros Hs [H1 H2 H3 H4 H5]. split; [by eapply serial_step|by eapply mapped_step|by eapply mapped_step|by eapply text_step|by eapply text_step].
Qed.

(** A character of the format. *)
Lemma char_step b s c args :
  io_ok s -> mem s !! c = Some b -> b <> percent -> b <> Byte.x00 ->
  exists s', printf_char (c, args) s = Ok (inl (c + 1, args)) s' /\ step_said s s' (sent [b]).
Proof.
  intros Hio Hb Hp Hz. set (m := <[str + 1 := Byte.x00]> (<[str := b]> (mem s))).
  assert (Hm : is_Some (mem s !! str) /\ is_Some (mem s !! (str + 1))) by (split; apply (io_str _ Hio); lia).
  assert (Hst : step_said s (with_mem s m) []).
  { split; [|intros x|done|by rewrite app_nil_r].
    - intros x Hx. unfold m. cbn [mem with_mem]. unfold scratch in Hx. by rewrite !lookup_insert_ne by lia.
    - unfold m. cbn [mem with_mem]. destruct (decide (x = str + 1)) as [->|]; [rewrite lookup_insert_eq; split; [by intros _; apply Hm|by eauto]|].
      rewrite lookup_insert_ne by done. destruct (decide (x = str)) as [->|]; [rewrite lookup_insert_eq; split; [by intros _; apply Hm|by eauto]|].
      by rewrite lookup_insert_ne. }
  assert (Hc : cstr m str [b]).
  { split; [|intros Hin; apply list_elem_of_singleton in Hin; by subst]. simpl. apply bytes_at_cons. unfold m.
    split; [rewrite lookup_insert_ne, lookup_insert_eq by lia; done|]. apply bytes_at_cons. split; [by rewrite lookup_insert_eq|apply bytes_at_nil]. }
  destruct (out_eq [b] (with_mem s m) str Hc) as (s' & E & Hs'); [simpl; lia|apply (io_serial _ Hio)|].
  exists s'. split; [|apply (step_trans _ _ _ [] _ Hst); by apply said_step].
  unfold Stdio.printf_char. rewrite (bind_Ok _ _ _ _ _ (ld_byte _ _ _ Hb)).
  destruct (Z.eqb_spec (byte_Z b) 0) as [E0|_]; [by apply byte_Z_x00 in E0|].
  destruct (Z.eqb_spec (byte_Z b) 37) as [E0|_]; [exfalso; apply Hp, byte_Z_inj; by rewrite E0|].
  rewrite (bind_Ok _ _ _ _ _ (st_byte s str (byte_Z b) (proj1 Hm))). rewrite Z_byte_byte_Z.
  rewrite (bind_Ok _ _ _ tt (with_mem s m)).
  2:{ rewrite st_byte; [done|]. cbn [mem with_mem]. rewrite lookup_insert_ne by lia. apply Hm. }
  by rewrite (bind_Ok _ _ _ _ _ E).
Qed.

(** A conversion whose function was run. *)
Lemma conv_step s s' c b args args' t :
  mem s !! c = Some percent -> mem s !! (c + 1) = Some b ->
  printf_conv port_value flanterm_write buffer lit_0x lit_0b (byte_Z b) args s = Ok args' s' -> step_said s s' t ->
  printf_char (c, args) s = Ok (inl (c + 2, args')) s' /\ step_said s s' t.
Proof.
  intros Hc Hb E Hs. split; [|done]. unfold Stdio.printf_char. rewrite (bind_Ok _ _ _ _ _ (ld_byte _ _ _ Hc)).
  change (byte_Z percent =? 0) with false. change (byte_Z percent =? 37) with true. cbv iota.
  rewrite (bind_Ok _ _ _ _ _ (ld_byte _ _ _ Hb)). by rewrite (bind_Ok _ _ _ _ _ E).
Qed.

(** The conversions of a number, behind a prefix that was sent or not. *)
Lemma number_conv base n s (args : list Z) :
  2 <= base <= 16 -> 0 <= n < base ^ 49 -> io_ok s ->
  exists ds s', ('(a, args) ← va_arg (n :: args); p ← itoa buffer a base; out p ;; mret args) s = Ok args s' /\
    numeral base n ds /\ step_said s s' (sent (digit_byte <$> ds)).
Proof.
  intros Hb Hn Hio. destruct (out_number base n s Hb Hn (io_buffer _ Hio) (io_serial _ Hio)) as (ds & p & s1 & s' & E1 & E2 & Hnum & Hs).
  exists ds, s'. split; [|done]. cbn [va_arg]. rewrite (bind_Ok _ _ s (n, args) s) by done.
  by rewrite (bind_Ok _ _ _ _ _ E1), (bind_Ok _ _ _ _ _ E2).
Qed.

Lemma text_tail s c b f : text (mem s) c (b :: f) -> mem s !! c = Some b /\ b <> Byte.x00 /\ text (mem s) (c + 1) f.
Proof.
  intros [H1 H2 H3]. apply cstr_cons in H1 as (Hb & Hne & Hl). do 2 (split; [done|]). split; [done|simpl in H2; lia|].
  intros x Hx. apply H3. simpl. lia.
Qed.

Lemma pargs_step s s' t pargs : step_said s s' t -> Forall (parg_ok (mem s)) pargs -> Forall (parg_ok (mem s')) pargs.
Proof. intros Hs. apply List.Forall_impl. intros a. by eapply parg_step. Qed.

(** The loop from [c] on: it ends after at most [n] rounds and sends [o]. *)
Definition prints (n : nat) c (args : list Z) s (P : list byte -> Prop) : Prop :=
  exists o k s', (k <= n)%nat /\ runs printf_char k (c, args) s tt s' /\ P o /\ step_said s s' (sent o).

(** Prepending a step to a run of the loop. *)
Lemma prints_cons n s s1 c c' args args' o (P P' : list byte -> Prop) :
  printf_char (c, args) s = Ok (inl (c', args')) s1 -> step_said s s1 (sent o) ->
  prints n c' args' s1 P' -> (forall o', P' o' -> P (o ++ o')) -> prints (S n) c args s P.
Proof.
  intros E Hs (o' & k & s' & Hk & Hr & Hre & Hs') HP. exists (o ++ o'), (S k), s'. split; [lia|].
  split; [by econstructor|]. split; [by apply HP|]. rewrite sent_app. by eapply step_trans.
Qed.

Lemma prints_conv n s s1 c b args args' o (P P' : list byte -> Prop) :
  mem s !! c = Some percent -> mem s !! (c + 1) = Some b ->
  printf_conv port_value flanterm_write buffer lit_0x lit_0b (byte_Z b) args s = Ok args' s1 -> step_said s s1 (sent o) ->
  prints n (c + 2) args' s1 P' -> (forall o', P' o' -> P (o ++ o')) -> prints (S (S n)) c args s P.
Proof.
  intros Hc Hb E Hs Hp HP. destruct (conv_step _ _ _ _ _ _ _ Hc Hb E Hs) as [Ec _].
  destruct (prints_cons n s s1 c (c + 2) args args' o P P' Ec Hs Hp HP) as (o' & k & s' & Hk & Hr). exists o', k, s'. split; [lia|done].
Qed.

(** The prefixed conversions. *)
Lemma prefix_conv base n s (args : list Z) lit pre :
  2 <= base <= 16 -> 0 <= n < base ^ 49 -> io_ok s -> text (mem s) lit pre ->
  exists ds s', (out lit ;; '(a, args) ← va_arg (n :: args); p ← itoa buffer a base; out p ;; mret args) s = Ok args s' /\
    numeral base n ds /\ step_said s s' (sent (pre ++ (digit_byte <$> ds))).
Proof.
  intros Hb Hn Hio Ht. destruct (out_text pre s lit Ht (io_serial _ Hio)) as (s1 & E1 & Hs1).
  destruct (number_conv base n s1 args Hb Hn) as (ds & s2 & E2 & Hnum & Hs2); [by eapply io_step|].
  exists ds, s2. rewrite (bind_Ok _ _ _ _ _ E1). split; [exact E2|]. split; [done|]. rewrite sent_app. by eapply step_trans.
Qed.

Lemma printf_loop f pargs s c :
  fmt_ok f pargs -> io_ok s -> text (mem s) c f -> Forall (parg_ok (mem s)) pargs ->
  prints (S (length f)) c (parg_val <$> pargs) s (renders f pargs).
Proof.
  intros Hok. revert s c. induction Hok as [args|b f args Hne Hok IH|p l f args Hok IH|n f args Hn Hok IH|n f args Hn Hok IH|n f args Hn Hok IH|b f args Hb Hok IH];
    intros s c Hio Ht Ha.
  { exists [], 1%nat, s. split; [simpl; lia|]. split; [|split; [constructor|split; [done|done|done|by rewrite app_nil_r]]].
    constructor. unfold Stdio.printf_char. by rewrite (bind_Ok _ _ _ _ _ (ld_byte _ _ _ (cstr_nil _ _ (tx_cstr _ _ _ Ht)))). }
  { apply text_tail in Ht as (Hb & Hz & Ht). destruct (char_step b s c (parg_val <$> args) Hio Hb Hne Hz) as (s1 & E & Hs).
    apply (prints_cons _ _ _ _ _ _ _ [b] _ (renders f args) E Hs); [|intros o' Ho; by constructor].
    apply IH; [by eapply io_step|by eapply text_step|by eapply pargs_step]. }
  all: apply text_tail in Ht as (Hc1 & _ & Ht); apply text_tail in Ht as (Hc2 & _ & Ht); rewrite <- Z.add_assoc in Ht; cbn [Z.add] in Ht.
  1-4: apply list.Forall_cons in Ha as [Ha1 Ha]; rewrite fmap_cons; cbn [parg_val length].
  - destruct (out_text l s p Ha1 (io_serial _ Hio)) as (s1 & E & Hs).
    apply (prints_conv _ _ s1 _ _ _ (parg_val <$> args) l _ (renders f args) Hc1 Hc2); [|exact Hs| |intros o' Ho; by constructor].
    + unfold printf_conv. change (byte_Z Byte.x73 =? 115) with true. cbv iota. cbn [va_arg].
      rewrite (bind_Ok _ _ s (p, parg_val <$> args) s) by done. by rewrite (bind_Ok _ _ _ _ _ E).
    + apply IH; [by eapply io_step|by eapply text_step|by eapply pargs_step].
  - destruct (number_conv 10 n s (parg_val <$> args)) as (ds & s1 & E & Hnum & Hs); [lia|lia|done|].
    apply (prints_conv _ _ s1 _ _ _ (parg_val <$> args) (digit_byte <$> ds) _ (renders f args) Hc1 Hc2); [exact E|exact Hs| |intros o' Ho; by constructor].
    apply IH; [by eapply io_step|by eapply text_step|by eapply pargs_step].
  - destruct (prefix_conv 16 n s (parg_val <$> args) lit_0x _ ltac:(lia) ltac:(lia) Hio (io_0x _ Hio)) as (ds & s1 & E & Hnum & Hs).
    apply (prints_conv _ _ s1 _ _ _ (parg_val <$> args) _ _ (renders f args) Hc1 Hc2 E Hs); [|intros o' Ho; rewrite <- app_assoc; by constructor].
    apply IH; [by eapply io_step|by eapply text_step|by eapply pargs_step].
  - destruct (prefix_conv 2 n s (parg_val <$> args) lit_0b _ ltac:(lia) ltac:(lia) Hio (io_0b _ Hio)) as (ds & s1 & E & Hnum & Hs).
    apply (prints_conv _ _ s1 _ _ _ (parg_val <$> args) _ _ (renders f args) Hc1 Hc2 E Hs); [|intros o' Ho; rewrite <- app_assoc; by constructor].
    apply IH; [by eapply io_step|by eapply text_step|by eapply pargs_step].
  - assert (Hs : step_said s s (sent [])) by (split; [done|done|done|by rewrite app_nil_r]).
    assert (Hne : forall y, y ∈ [Byte.x73; Byte.x64; Byte.x78; Byte.x62] -> byte_Z b <> byte_Z y)
      by (intros y Hy E; apply byte_Z_inj in E; by subst).
    apply (prints_conv _ _ s _ _ _ (parg_val <$> args) [] _ (renders f args) Hc1 Hc2); [|exact Hs|by apply IH|intros o' Ho; by constructor].
    unfold printf_conv.
    destruct (Z.eqb_spec (byte_Z b) 115) as [E|_]; [exfalso; apply (Hne Byte.x73); [repeat (apply elem_of_cons; (by left) || right)|exact E]|].
    destruct (Z.eqb_spec (byte_Z b) 100) as [E|_]; [exfalso; apply (Hne Byte.x64); [repeat (apply elem_of_cons; (by left) || right)|exact E]|].
    destruct (Z.eqb_spec (byte_Z b) 120) as [E|_]; [exfalso; apply (Hne Byte.x78); [repeat (apply elem_of_cons; (by left) || right)|exact E]|].
    destruct (Z.eqb_spec (byte_Z b) 98) as [E|_]; [exfalso; apply (Hne Byte.x62); [repeat (apply elem_of_cons; (by left) || right)|exact E]|]. done.
Qed.

(** C28: [printf] sends what its format stands for.  With the console closed, the
    locks free and a transmitter that is ready, every format that fits its
    arguments is sent to the serial port as its rendering, line feeds as carriage
    return and line feed, in order and with nothing in between; apart from the
    static buffer of [itoa] and its own local array no memory changes, and the
    locks are free again. *)
Theorem printf_renders s fmt f pargs :
  fmt_ok f pargs -> io_ok s -> gval s g_print_lock = 0 -> text (mem s) fmt f -> Forall (parg_ok (mem s)) pargs ->
  exists o s', kprintf port_value flanterm_write buffer str lit_0x lit_0b fmt (parg_val <$> pargs) s = Ok tt s' /\
    renders f pargs o /\ trace s' = trace s ++ sent o /\ same_globals s s' /\
    (forall x, ~ scratch x -> mem s' !! x = mem s !! x).
Proof.
  intros Hok Hio Hl Ht Ha. set (s1 := with_glob s g_print_lock 1).
  destruct (printf_loop f pargs s1 fmt Hok) as (o & k & s2 & Hk & Hr & Hre & [S1 S2 S3 S4]).
  { destruct Hio as [[I1 I1'] I2 I3 I4 I5]. split; [|done|done|done|done]. split; unfold s1; by rewrite gval_with_glob_ne. }
  { exact Ht. } { exact Ha. }
  exists o, (with_glob s2 g_print_lock 0). split; [|split; [done|split; [exact S4|split; [|exact S1]]]].
  - unfold kprintf. rewrite (bind_Ok _ _ s tt s1) by (apply acquire_free; simpl; by rewrite Hl).
    rewrite (bind_Ok _ _ s1 tt s2).
    2:{ apply (kloop_runs _ k); [done|]. pose proof (tx_len _ _ _ Ht). lia. }
    apply release_held. simpl. f_equal. rewrite S3. apply gval_with_glob_eq.
  - intros v. destruct (decide (v = g_print_lock)) as [->|]; [by rewrite gval_with_glob_eq, Hl|].
    rewrite gval_with_glob_ne, S3 by done. by apply (gval_with_glob_ne s g_print_lock v 1).
Qed.

End stdio_proofs.

(** A format at 0x100, a string at 0x120, the literals at 0x140 and 0x148, the
    buffer of [itoa] at 0x200 and the local array at 0x300. *)
Definition io_state : kstate :=
  let m := zeros 0x100 (Z.to_nat 0x210) in
  let m := put_bytes m 0x100 [Byte.x25; Byte.x73; Byte.x3d; Byte.x25; Byte.x64; Byte.x0a; Byte.x00] in
  let m := put_bytes m 0x120 [Byte.x61; Byte.x62; Byte.x00] in
  let m := put_bytes m 0x140 [Byte.x30; Byte.x78; Byte.x00] in
  KState (put_bytes m 0x148 [Byte.x30; Byte.x62; Byte.x00]) ∅ [].
Definition io_format : list byte := [Byte.x25; Byte.x73; Byte.x3d; Byte.x25; Byte.x64; Byte.x0a].

Ltac io_text :=
  split; [split; [repeat (apply bytes_at_cons; split; [vm_compute; reflexivity|]); apply bytes_at_nil|by apply (bool_decide_unpack _)]
         |simpl; lia|intros x Hx; simpl in Hx; unfold scratch; lia].

Lemma printf_renders_witness :
  exists o s', kprintf (fun _ _ => 64) (fun _ _ _ => mret tt) 0x200 0x300 0x140 0x148 0x100 [0x120; 42] io_state = Ok tt s' /\
    renders io_format [PStr 0x120 [Byte.x61; Byte.x62]; PNum 42] o /\ trace s' = trace io_state ++ sent o /\
    same_globals io_state s' /\ (forall x, ~ scratch 0x200 0x300 x -> mem s' !! x = mem io_state !! x).
Proof.
  apply (printf_renders (fun _ _ => 64) (fun _ _ _ => mret tt) 0x200 0x300 0x140 0x148 ltac:(vm_compute; discriminate)
           io_state 0x100 io_format [PStr 0x120 [Byte.x61; Byte.x62]; PNum 42]).
  - do 2 constructor; [done|]. constructor; [lia|]. constructor; [done|]. constructor.
  - split; [done| | |io_text|io_text].
    + apply (rd_mapped 50). vm_compute. eexists. reflexivity.
    + apply (rd_mapped 2). vm_compute. eexists. reflexivity.
  - done.
  - io_text.
  - apply List.Forall_cons; [cbn [parg_ok]; io_text|]. apply List.Forall_cons; [exact I|apply List.Forall_nil].
Defined.
