(* ===== verification/Gdt.v ===== *)
(** The global descriptor table of [memory/gdt/gdt.h] and [memory/gdt/gdt.c].

    The table is the array [gdt] of 11 packed entries of 8 bytes.  [descriptor]
    is what the processor makes of such an entry (Intel SDM 3, 3.4.5 and 7.2.3),
    the abstract side of the theorems. *)
From S2P Require Import Prelude Machine Lock Str Layout.
Import Lock.Seq.

Record gdt_entry := GdtEntry {
  limit : Z; baselow16 : Z; basemid8 : Z; access : Z; granularity : Z; basehigh8 : Z
}.

(** A designated initialiser sets the members it does not name to 0. *)
Definition gdt_null : gdt_entry := GdtEntry 0 0 0 0 0 0.

(** [gdt[i] = e]: the fields of the packed structure in order. *)
Definition put_entry (a : Z) (e : gdt_entry) : K unit :=
  st 2 a (limit e) ;;
  st 2 (a + 2) (baselow16 e) ;;
  st 1 (a + 4) (basemid8 e) ;;
  st 1 (a + 5) (access e) ;;
  st 1 (a + 6) (granularity e) ;;
  st 1 (a + 7) (basehigh8 e).

Definition sizeof_gdt : Z := 11 * 8.

Section gdt.
Variables (gdt gdtr : Z).

(** [load_gdt] is assembly: it executes [lgdt] on the address it is given; [Asm] has
    its instructions. *)
Definition gdt_load : K unit :=
  st 2 gdtr (sizeof_gdt - 1) ;;
  st 8 (gdtr + 2) gdt ;;
  asm "load_gdt" gdtr.

Definition gdt_entries : list gdt_entry :=
  [ GdtEntry 0 0 0 0 0 0;
    GdtEntry 0xffff 0 0 0x9a 0 0;
    GdtEntry 0xffff 0 0 0x92 0 0;
    GdtEntry 0xffff 0 0 0x9a 0xcf 0;
    GdtEntry 0xffff 0 0 0x92 0xcf 0;
    GdtEntry 0 0 0 0x9a 0x20 0;
    GdtEntry 0 0 0 0x92 0 0;
    GdtEntry 0 0 0 0xf2 0 0;
    GdtEntry 0 0 0 0xfa 0x20 0;
    GdtEntry 104 0 0 0x89 0 0;
    GdtEntry 0 0 0 0 0 0 ].

Fixpoint put_entries (a : Z) (es : list gdt_entry) : K unit :=
  match es with
  | [] => mret tt
  | e :: es' => put_entry a e ;; put_entries (a + 8) es'
  end.

Definition gdt_init : K unit :=
  put_entries gdt gdt_entries ;;
  gdt_load ;;
  printf "GDT initialized.\n" [].

Definition gdt_load_tss (tss : Z) : K unit :=
  spinlock_acquire (LG g_gdt_lock) ;;
  put_entry (gdt + 9 * 8)
    (GdtEntry 104 (u16 tss) (u8 (Z.shiftr tss 16)) 0x89 0x00 (u8 (Z.shiftr tss 24))) ;;
  put_entry (gdt + 10 * 8)
    (GdtEntry (u16 (Z.shiftr tss 32)) (u16 (Z.shiftr tss 48)) 0 0 0 0) ;;
  asm "ltr" 0x48 ;;
  spinlock_release (LG g_gdt_lock).

End gdt.

(** * What the processor reads *)

(** The base and limit of the 8-byte descriptor [d]. *)
Definition desc_base (d : Z) : Z :=
  Z.lor (Z.land (Z.shiftr d 16) 0xffffff) (Z.shiftl (Z.land (Z.shiftr d 56) 0xff) 24).
Definition desc_limit (d : Z) : Z :=
  Z.lor (Z.land d 0xffff) (Z.shiftl (Z.land (Z.shiftr d 48) 0xf) 16).
Definition desc_present (d : Z) : bool := Z.testbit d 47.
Definition desc_dpl (d : Z) : Z := Z.land (Z.shiftr d 45) 3.
(** Code or data (as opposed to a system descriptor); executable; 64-bit. *)
Definition desc_segment (d : Z) : bool := Z.testbit d 44.
Definition desc_code (d : Z) : bool := Z.testbit d 43.
Definition desc_writable (d : Z) : bool := Z.testbit d 41.
Definition desc_long (d : Z) : bool := Z.testbit d 53.
Definition desc_type (d : Z) : Z := Z.land (Z.shiftr d 40) 0xf.

(** The descriptor that a selector names, and the base of the 16-byte system
    descriptor it names. *)
Definition descriptor (m : gmap Z byte) (gdt sel : Z) : option Z := rd 8 m (gdt + 8 * (sel / 8)).
Definition system_base (m : gmap Z byte) (gdt sel : Z) : option Z :=
  lo ← descriptor m gdt sel;
  hi ← descriptor m gdt (sel + 8);
  Some (Z.lor (desc_base lo) (Z.shiftl (Z.land hi 0xffffffff) 32)).

(** * Lemmas *)

Section lemmas.
Implicit Types (s : kstate) (m : gmap Z byte) (a : Z) (e : gdt_entry).

Definition entry_ok e : Prop :=
  0 <= limit e < 2 ^ 16 /\ 0 <= baselow16 e < 2 ^ 16 /\ 0 <= basemid8 e < 2 ^ 8 /\
  0 <= access e < 2 ^ 8 /\ 0 <= granularity e < 2 ^ 8 /\ 0 <= basehigh8 e < 2 ^ 8.
Definition entry_word e : Z :=
  limit e + 2 ^ 16 * baselow16 e + 2 ^ 32 * basemid8 e + 2 ^ 40 * access e +
  2 ^ 48 * granularity e + 2 ^ 56 * basehigh8 e.

Lemma entry_word_range e : entry_ok e -> 0 <= entry_word e < 2 ^ 64.
Proof. unfold entry_ok, entry_word. lia. Qed.

Lemma put_entry_eq s a e :
  entry_ok e -> mapped (mem s) a 8 -> put_entry a e s = Ok tt (with_mem s (wr 8 (mem s) a (entry_word e))).
Proof.
  intros (H1 & H2 & H3 & H4 & H5 & H6) Hm. unfold put_entry.
  do 5 (rewrite st_then by (repeat apply mapped_wr; eapply mapped_sub; [exact Hm|lia|lia])).
  rewrite st_ok by (repeat apply mapped_wr; eapply mapped_sub; [exact Hm|lia|lia]).
  rewrite !with_mem_mem. cbn [mem with_mem]. do 2 f_equal.
  rewrite (wr_fields 2 2) by lia. rewrite (wr_fields 4 1) by lia. rewrite (wr_fields 5 1) by lia.
  rewrite (wr_fields 6 1) by lia. rewrite (wr_fields 7 1) by lia. done.
Qed.

Lemma put_entries_eq s a es :
  Forall entry_ok es -> mapped (mem s) a (8 * Z.of_nat (length es)) ->
  exists m', put_entries a es s = Ok tt (with_mem s m') /\
    same_outside a (8 * Z.of_nat (length es)) (mem s) m' /\
    forall i e, es !! i = Some e -> rd 8 m' (a + 8 * Z.of_nat i) = Some (entry_word e).
Proof.
  revert s a. induction es as [|e es IH]; intros s a Hok Hm.
  - exists (mem s). split; [by destruct s|]. split; [done|]. intros i e He. by rewrite lookup_nil in He.
  - apply list.Forall_cons in Hok as [He Hok]. rewrite length_cons in *.
    assert (Hm8 : mapped (mem s) a 8) by (eapply mapped_sub; [exact Hm|lia|lia]).
    set (s1 := with_mem s (wr 8 (mem s) a (entry_word e))).
    destruct (IH s1 (a + 8) Hok) as (m' & E & Ho & Hr); [apply mapped_wr; eapply mapped_sub; [exact Hm|lia|lia]|].
    assert (Ho1 : same_outside a 8 (mem s) (mem s1)) by (by apply (same_outside_wr 8)).
    exists m'. split; [|split].
    + cbn [put_entries]. by rewrite (bind_Ok _ _ s tt s1) by (by apply put_entry_eq).
    + eapply same_outside_trans; eapply same_outside_weaken; [exact Ho1|lia|lia|exact Ho|lia|lia].
    + intros [|i] e' Hi.
      * injection Hi as <-. rewrite (same_outside_rd _ _ _ _ 8 _ Ho) by lia. unfold s1. cbn [mem with_mem].
        replace (a + 8 * Z.of_nat 0) with a by lia. rewrite rd_wr_same. f_equal. apply Z.mod_small, entry_word_range, He.
      * rewrite <- (Hr i e' Hi). f_equal. lia.
Qed.

Lemma gdt_load_eq s gdt gdtr :
  0 <= gdt < 2 ^ 64 -> mapped (mem s) gdtr 10 ->
  exists m', gdt_load gdt gdtr s = Ok tt (KState m' (glob s) (trace s ++ [EvAsm "load_gdt" gdtr])) /\
    same_outside gdtr 10 (mem s) m' /\ rd 2 m' gdtr = Some (sizeof_gdt - 1) /\ rd 8 m' (gdtr + 2) = Some gdt.
Proof.
  intros Hg Hm. set (m' := wr 8 (wr 2 (mem s) gdtr (sizeof_gdt - 1)) (gdtr + 2) gdt). exists m'. split; [|split; [|split]].
  - unfold gdt_load. do 2 (rewrite st_then by (repeat apply mapped_wr; eapply mapped_sub; [exact Hm|lia|lia])). done.
  - apply (same_outside_trans _ _ _ (wr 2 (mem s) gdtr (sizeof_gdt - 1))).
    + apply (same_outside_weaken gdtr 2); [|lia|lia]. apply (same_outside_wr 2). eapply mapped_sub; [exact Hm|lia|lia].
    + apply (same_outside_weaken (gdtr + 2) 8); [|lia|lia]. apply (same_outside_wr 8), mapped_wr.
      eapply mapped_sub; [exact Hm|lia|lia].
  - unfold m'. rewrite rd_wr_ne by lia. by rewrite rd_wr_same.
  - unfold m'. rewrite rd_wr_same. f_equal. by apply Z.mod_small.
Qed.

(** Joining a low field and a shifted high one. *)
Lemma join_fields x y k : 0 <= k -> 0 <= x < 2 ^ k -> Z.lor x (Z.shiftl y k) = x + 2 ^ k * y.
Proof.
  intros Hk Hx. rewrite Z.shiftl_mul_pow2, Z.lor_comm, (Z.mul_comm y), lor_add_disjoint by lia. lia.
Qed.

Lemma field_mod x k n : 0 <= k -> 0 <= n -> Z.land (Z.shiftr x k) (Z.ones n) = (x / 2 ^ k) mod 2 ^ n.
Proof. intros Hk Hn. by rewrite Z.land_ones, Z.shiftr_div_pow2. Qed.

Definition tss_entry tss : gdt_entry :=
  GdtEntry 104 (u16 tss) (u8 (Z.shiftr tss 16)) 0x89 0x00 (u8 (Z.shiftr tss 24)).
Definition tss_entry_high tss : gdt_entry :=
  GdtEntry (u16 (Z.shiftr tss 32)) (u16 (Z.shiftr tss 48)) 0 0 0 0.

Lemma tss_entries_ok tss : entry_ok (tss_entry tss) /\ entry_ok (tss_entry_high tss).
Proof. unfold entry_ok, tss_entry, tss_entry_high; simpl. ulia. Qed.

Lemma tss_base_join tss :
  0 <= tss < 2 ^ 64 ->
  Z.lor (desc_base (entry_word (tss_entry tss)))
    (Z.shiftl (Z.land (entry_word (tss_entry_high tss)) 0xffffffff) 32) = tss.
Proof.
  intros Ht. assert (H0 : desc_base (entry_word (tss_entry tss)) = tss mod 2 ^ 32).
  { unfold desc_base. rewrite (field_mod _ 16 24), (field_mod _ 56 8) by lia.
    rewrite join_fields by (lia || apply Z.mod_pos_bound; lia).
    unfold entry_word, tss_entry, u16, u8. simpl limit. simpl baselow16. simpl basemid8. simpl access.
    simpl granularity. simpl basehigh8. rewrite !Z.shiftr_div_pow2 by lia. zlia. }
  rewrite H0, join_fields by (lia || apply Z.mod_pos_bound; lia).
  change 0xffffffff with (Z.ones 32). rewrite Z.land_ones by lia.
  unfold entry_word, tss_entry_high, u16. simpl limit. simpl baselow16. simpl basemid8. simpl access.
  simpl granularity. simpl basehigh8. rewrite !Z.shiftr_div_pow2 by lia. zlia.
Qed.

Lemma tss_entry_attributes tss (d := entry_word (tss_entry tss)) :
  0 <= tss < 2 ^ 64 ->
  desc_present d = true /\ desc_segment d = false /\ desc_type d = 9 /\ desc_dpl d = 0 /\ desc_limit d = 104.
Proof.
  intros Ht. assert (Hd : exists lo hi, 0 <= lo < 2 ^ 24 /\ 0 <= hi < 2 ^ 8 /\
      d = 104 + 2 ^ 16 * lo + 2 ^ 40 * 0x89 + 2 ^ 56 * hi).
  { exists (u16 tss + 2 ^ 16 * u8 (Z.shiftr tss 16)), (u8 (Z.shiftr tss 24)).
    split; [ulia|]. split; [ulia|]. unfold d, entry_word, tss_entry. simpl. lia. }
  destruct Hd as (lo & hi & Hlo & Hhi & ->).
  unfold desc_present, desc_segment, desc_type, desc_dpl, desc_limit.
  split; [apply Z.testbit_true; zlia|]. split; [apply Z.testbit_false; zlia|].
  change 0xf with (Z.ones 4). change 3 with (Z.ones 2). change 0xffff with (Z.ones 16).
  rewrite !field_mod, Z.land_ones by lia. split; [zlia|]. split; [zlia|].
  rewrite join_fields by (lia || apply Z.mod_pos_bound; lia). zlia.
Qed.

End lemmas.

(** * Properties *)

Definition code64 (dpl : Z) (d : Z) : Prop :=
  desc_present d = true /\ desc_segment d = true /\ desc_code d = true /\ desc_long d = true /\ desc_dpl d = dpl.
Definition data_segment (dpl : Z) (d : Z) : Prop :=
  desc_present d = true /\ desc_segment d = true /\ desc_code d = false /\ desc_writable d = true /\ desc_dpl d = dpl.

(** The table and the register image after [gdt_init]. *)
Lemma gdt_init_eq s gdt gdtr :
  0 <= gdt < 2 ^ 64 -> mapped (mem s) gdt sizeof_gdt -> mapped (mem s) gdtr 10 ->
  gdt + sizeof_gdt <= gdtr \/ gdtr + 10 <= gdt ->
  exists m, gdt_init gdt gdtr s =
      Ok tt (KState m (glob s) ((trace s ++ [EvAsm "load_gdt" gdtr]) ++ [EvPrintf "GDT initialized.\n" []])) /\
    rd 2 m gdtr = Some (sizeof_gdt - 1) /\ rd 8 m (gdtr + 2) = Some gdt /\
    (forall i e, gdt_entries !! i = Some e -> rd 8 m (gdt + 8 * Z.of_nat i) = Some (entry_word e)) /\
    (forall x, ~ (gdt <= x < gdt + sizeof_gdt) -> ~ (gdtr <= x < gdtr + 10) -> m !! x = mem s !! x).
Proof.
  intros Hg Hm Hmr Hap. unfold sizeof_gdt in *.
  destruct (put_entries_eq s gdt gdt_entries) as (m1 & E1 & O1 & R1); [by repeat constructor|done|].
  change (8 * Z.of_nat (length gdt_entries)) with 88 in O1.
  destruct (gdt_load_eq (with_mem s m1) gdt gdtr) as (m2 & E2 & O2 & R2 & R3);
    [done|by eapply same_outside_mapped|]. cbn [mem with_mem trace glob] in *.
  exists m2. split; [|split; [exact R2|split; [exact R3|split]]].
  - unfold gdt_init. rewrite (bind_Ok _ _ _ _ _ E1), (bind_Ok _ _ _ _ _ E2). reflexivity.
  - intros i e Hi. rewrite (same_outside_rd _ _ _ _ 8 _ O2); [by apply R1|].
    apply lookup_lt_Some in Hi. change (length gdt_entries) with 11%nat in Hi. lia.
  - intros x H1 H2. destruct O1 as [_ O1], O2 as [_ O2]. by rewrite O2, O1.
Qed.

(** The descriptors of the selectors in use. *)
Lemma gdt_segments m gdt sel P :
  (forall i e, gdt_entries !! i = Some e -> rd 8 m (gdt + 8 * Z.of_nat i) = Some (entry_word e)) ->
  (sel, P) ∈ [(0x28, code64 0); (0x30, data_segment 0); (Z.lor 0x40 3, code64 3);
     (Z.lor 0x38 3, data_segment 3); (0, fun d => d = 0)] ->
  exists d, descriptor m gdt sel = Some d /\ P d.
Proof.
  intros Hd Hin. unfold descriptor.
  repeat (apply elem_of_cons in Hin as [[= -> ->]|Hin]); [| | | | |by apply elem_of_nil in Hin].
  - eexists. split; [by apply (Hd 5%nat)|]. by vm_compute.
  - eexists. split; [by apply (Hd 6%nat)|]. by vm_compute.
  - eexists. split; [by apply (Hd 8%nat)|]. by vm_compute.
  - eexists. split; [by apply (Hd 7%nat)|]. by vm_compute.
  - eexists. split; [by apply (Hd 0%nat)|]. by vm_compute.
Qed.

(** [gdt_init] fills the table and loads its address and last byte into the
    register: the selectors that the scheduler and the interrupt gates use are
    what they are meant to be for the processor: [0x28] kernel code and [0x40|3]
    user code for 64-bit mode, [0x30] kernel data and [0x38|3] user data, and
    selector 0 the null descriptor. *)
Theorem gdt_init_segments s gdt gdtr :
  0 <= gdt < 2 ^ 64 -> mapped (mem s) gdt sizeof_gdt -> mapped (mem s) gdtr 10 ->
  gdt + sizeof_gdt <= gdtr \/ gdtr + 10 <= gdt ->
  exists s', gdt_init gdt gdtr s = Ok tt s' /\
    rd 2 (mem s') gdtr = Some (sizeof_gdt - 1) /\ rd 8 (mem s') (gdtr + 2) = Some gdt /\
    EvAsm "load_gdt" gdtr ∈ trace s' /\
    (forall sel P, (sel, P) ∈ [(0x28, code64 0); (0x30, data_segment 0); (Z.lor 0x40 3, code64 3);
        (Z.lor 0x38 3, data_segment 3); (0, fun d => d = 0)] ->
       exists d, descriptor (mem s') gdt sel = Some d /\ P d) /\
    (forall x, ~ (gdt <= x < gdt + sizeof_gdt) -> ~ (gdtr <= x < gdtr + 10) -> mem s' !! x = mem s !! x).
Proof.
  intros Hg Hm Hmr Hap. destruct (gdt_init_eq s gdt gdtr Hg Hm Hmr Hap) as (m & E & R2 & R3 & Hd & Ho).
  eexists. split; [exact E|]. split; [exact R2|]. split; [exact R3|]. split; [|split; [|exact Ho]].
  - cbn [trace]. rewrite !elem_of_app. left. right. by apply list_elem_of_singleton.
  - intros sel P. by apply gdt_segments.
Qed.

(** A table at [0x1000] and its register image at [0x2000]. *)
Definition gdt_machine : kstate := KState (zeros 0x1000 88 ∪ zeros 0x2000 10) ∅ [].

Lemma gdt_machine_mapped : mapped (mem gdt_machine) 0x1000 sizeof_gdt /\ mapped (mem gdt_machine) 0x2000 10.
Proof.
  split; intros x Hx; apply lookup_union_is_Some; [left|right]; apply zeros_mapped; unfold sizeof_gdt in Hx; lia.
Qed.

Lemma gdt_init_segments_witness :
  exists s', gdt_init 0x1000 0x2000 gdt_machine = Ok tt s' /\
    rd 2 (mem s') 0x2000 = Some (sizeof_gdt - 1) /\ rd 8 (mem s') (0x2000 + 2) = Some 0x1000 /\
    EvAsm "load_gdt" 0x2000 ∈ trace s' /\
    (forall sel P, (sel, P) ∈ [(0x28, code64 0); (0x30, data_segment 0); (Z.lor 0x40 3, code64 3);
        (Z.lor 0x38 3, data_segment 3); (0, fun d => d = 0)] ->
       exists d, descriptor (mem s') 0x1000 sel = Some d /\ P d) /\
    (forall x, ~ (0x1000 <= x < 0x1000 + sizeof_gdt) -> ~ (0x2000 <= x < 0x2000 + 10) ->
       mem s' !! x = mem gdt_machine !! x).
Proof.
  apply (gdt_init_segments gdt_machine 0x1000 0x2000); [lia|apply gdt_machine_mapped|apply gdt_machine_mapped|].
  unfold sizeof_gdt. lia.
Defined.

(** [gdt_load_tss] makes selector [0x48] a task state segment at [tss] and
    loads it: the base that the processor assembles from the four pieces of the
    two entries is the address of the structure, whatever its bits; the
    descriptor is a present, available 64-bit TSS of privilege 0, no other
    entry changes and the lock is free again. *)
Theorem gdt_load_tss_base s gdt tss :
  0 <= tss < 2 ^ 64 -> mapped (mem s) gdt sizeof_gdt -> gval s g_gdt_lock = 0 ->
  exists s' d, gdt_load_tss gdt tss s = Ok tt s' /\
    descriptor (mem s') gdt 0x48 = Some d /\
    desc_present d = true /\ desc_segment d = false /\ desc_type d = 9 /\ desc_dpl d = 0 /\ desc_limit d = 104 /\
    system_base (mem s') gdt 0x48 = Some tss /\
    (forall sel, 0 <= sel < 0x48 -> descriptor (mem s') gdt sel = descriptor (mem s) gdt sel) /\
    same_globals s s' /\ trace s' = trace s ++ [EvAsm "ltr" 0x48].
Proof.
  intros Ht Hm Hl. unfold sizeof_gdt in Hm.
  pose proof (tss_entries_ok tss) as [Ok1 Ok2]. set (s0 := with_glob s g_gdt_lock 1).
  set (m1 := wr 8 (mem s) (gdt + 9 * 8) (entry_word (tss_entry tss))).
  set (m2 := wr 8 m1 (gdt + 10 * 8) (entry_word (tss_entry_high tss))).
  set (s2 := KState m2 (glob s0) (trace s ++ [EvAsm "ltr" 0x48])).
  assert (Hlo : descriptor m2 gdt 0x48 = Some (entry_word (tss_entry tss))).
  { unfold descriptor, m2, m1. change (8 * (0x48 / 8)) with (9 * 8). rewrite rd_wr_ne, rd_wr_same by lia.
    f_equal. by apply Z.mod_small, entry_word_range. }
  assert (Hhi : descriptor m2 gdt (0x48 + 8) = Some (entry_word (tss_entry_high tss))).
  { unfold descriptor, m2. change (8 * ((0x48 + 8) / 8)) with (10 * 8). rewrite rd_wr_same.
    f_equal. by apply Z.mod_small, entry_word_range. }
  destruct (tss_entry_attributes tss Ht) as (A1 & A2 & A3 & A4 & A5).
  exists (with_glob s2 g_gdt_lock 0), (entry_word (tss_entry tss)).
  split; [|do 6 (split; [done|]); split; [|split; [|split]]].
  - unfold gdt_load_tss. rewrite (bind_Ok _ _ s tt s0) by (apply acquire_free; simpl; by rewrite Hl).
    fold (tss_entry tss) (tss_entry_high tss).
    rewrite (bind_Ok _ _ s0 tt (with_mem s0 m1))
      by (apply put_entry_eq; [done|eapply mapped_sub; [exact Hm|lia|lia]]).
    rewrite (bind_Ok _ _ _ tt (with_mem s0 m2))
      by (apply (put_entry_eq (with_mem s0 m1)); [done|apply mapped_wr; eapply mapped_sub; [exact Hm|lia|lia]]).
    rewrite (bind_Ok _ _ _ tt s2) by done. apply release_held. simpl. f_equal. apply gval_with_glob_eq.
  - unfold system_base. cbn [mem with_glob s2]. rewrite Hlo. simpl mbind. rewrite Hhi. simpl. f_equal. by apply tss_base_join.
  - intros sel Hs. unfold descriptor. cbn [mem with_glob s2]. unfold m2, m1.
    assert (8 * (sel / 8) + 8 <= 9 * 8) by zlia. by rewrite !rd_wr_ne by lia.
  - intros v. destruct (decide (v = g_gdt_lock)) as [->|]; [by rewrite gval_with_glob_eq|].
    rewrite gval_with_glob_ne by done. by apply (gval_with_glob_ne s g_gdt_lock v 1).
  - done.
Qed.

Lemma gdt_load_tss_base_witness :
  exists s' d, gdt_load_tss 0x1000 0xffff800012345678 gdt_machine = Ok tt s' /\
    descriptor (mem s') 0x1000 0x48 = Some d /\
    desc_present d = true /\ desc_segment d = false /\ desc_type d = 9 /\ desc_dpl d = 0 /\ desc_limit d = 104 /\
    system_base (mem s') 0x1000 0x48 = Some 0xffff800012345678 /\
    (forall sel, 0 <= sel < 0x48 -> descriptor (mem s') 0x1000 sel = descriptor (mem gdt_machine) 0x1000 sel) /\
    same_globals gdt_machine s' /\ trace s' = trace gdt_machine ++ [EvAsm "ltr" 0x48].
Proof.
  apply (gdt_load_tss_base gdt_machine 0x1000 0xffff800012345678); [lia|apply gdt_machine_mapped|done].
Defined.
