(* ===== verification/Idt.v ===== *)
(** The interrupt descriptor table of [sys/idt/idt.h] and [sys/idt/idt.c].

    [idt] (256 gates of 16 bytes), [isr] (256 function pointers), [idtr],
    [exception_names] (31 string pointers) and the assembly table [isr_stubs]
    (256 function pointers) are addresses.  [gate] is what the processor makes
    of a gate (Intel SDM 3, 6.14.1). *)
From S2P Require Import Prelude Machine Lock Str Layout Lapic Gdt.

Section idt.
Variables (idt isr isr_stubs idtr exception_names : Z).
(** The addresses of the C functions, and of the strings [cRED] and [cNONE]. *)
Variables (exception_handler_ptr isr_generic_ptr cRED cNONE : Z).

Definition idt_load : K unit := asm "lidt" idtr ;; asm "sti" 0.

Definition encode_idt_entry (vector handler flags : Z) : K unit :=
  let ptr := handler in
  let gate := idt + 16 * vector in
  st 2 gate (u16 ptr) ;;
  st 2 (gate + 2) 0x28 ;;
  st 1 (gate + 4) 0 ;;
  st 1 (gate + 5) flags ;;
  st 2 (gate + 6) (u16 (Z.shiftr ptr 16)) ;;
  st 4 (gate + 8) (u32 (Z.shiftr ptr 32)) ;;
  st 4 (gate + 12) 0.

(** The offsets of the registers in [interrupt_frame_t], in the order in which
    they are printed. *)
Definition frame_offsets : list Z :=
  [128; 120; 112; 104; 96; 88; 80; 168; 72; 64; 56; 48; 40; 32; 24; 16; 144; 160; 152; 176; 0; 8; 136].

Fixpoint ld_all (addrs : list Z) : K (list Z) :=
  match addrs with
  | [] => mret []
  | a :: addrs' => x ← ld 8 a; xs ← ld_all addrs'; mret (x :: xs)
  end.

(** [exception_names] has 31 entries: an index of 31 is out of range;
    [cpu_number] is at offset 24 of [cpu_local_t]. *)
Definition exception_handler (vector state : Z) : K unit :=
  name ← (if vector <? 31 then ld 8 (exception_names + 8 * vector) else fault);
  cpu ← this_cpu;
  cpu_number ← ld 8 (cpu + 24);
  printf "%s\nEXCEPTION RECIVED: %s on core #%d%s\n" [cRED; name; cpu_number; cNONE] ;;
  regs ← ld_all (map (Z.add state) frame_offsets);
  printf "  RAX=%x  RBX=%x\n  RCX=%x  RDX=%x\n  RSI=%x  RDI=%x\n  RBP=%x  RSP=%x\n  R08=%x  R09=%x\n  R10=%x  R11=%x\n  R12=%x  R13=%x\n  R14=%x  R15=%x\n  RIP=%x  RFLAGS=%x\n  CS=%x SS=%x ES=%x DS=%x\n  ERR=%x"
    regs ;;
  asm "cli; hlt" 0.

Definition isr_generic (vector state : Z) : K unit := printf "Something, %d\n" [vector].

Definition idt_fill (handler i : Z) : K unit :=
  stub ← ld 8 (isr_stubs + 8 * i);
  encode_idt_entry (u8 i) stub 0x8e ;;
  st 8 (isr + 8 * i) handler.

Definition idt_init : K unit :=
  st 2 idtr (256 * 16 - 1) ;;
  st 8 (idtr + 2) idt ;;
  kfor 0 32 (idt_fill exception_handler_ptr) ;;
  kfor 32 256 (idt_fill isr_generic_ptr) ;;
  idt_load ;;
  printf "IDT initialized.\n" [].

Definition idt_set_ist (vector ist : Z) : K unit := st 1 (idt + 16 * vector + 4) ist.

End idt.

(** * What the processor reads *)

Record gate := Gate {
  gate_offset : Z; gate_selector : Z; gate_ist : Z; gate_type : Z; gate_dpl : Z; gate_present : bool
}.

(** The gate in the two words at [a]. *)
Definition decode_gate (lo hi : Z) : gate :=
  Gate (Z.lor (Z.lor (Z.land lo 0xffff) (Z.shiftl (Z.land (Z.shiftr lo 48) 0xffff) 16))
          (Z.shiftl (Z.land hi 0xffffffff) 32))
    (Z.land (Z.shiftr lo 16) 0xffff) (Z.land (Z.shiftr lo 32) 7)
    (Z.land (Z.shiftr lo 40) 0xf) (Z.land (Z.shiftr lo 45) 3) (Z.testbit lo 47).
Definition read_gate (m : gmap Z byte) (idt vector : Z) : option gate :=
  lo ← rd 8 m (idt + 16 * vector);
  hi ← rd 8 m (idt + 16 * vector + 8);
  Some (decode_gate lo hi).

(** * Lemmas *)

Section lemmas.
Implicit Types (s : kstate) (m : gmap Z byte) (p : Z).

Definition gate_low p ist flags : Z :=
  u16 p + 2 ^ 16 * 0x28 + 2 ^ 32 * ist + 2 ^ 40 * flags + 2 ^ 48 * u16 (Z.shiftr p 16).
Definition gate_high p : Z := u32 (Z.shiftr p 32).
Definition gate_mem m a p flags : gmap Z byte := wr 8 (wr 8 m a (gate_low p 0 flags)) (a + 8) (gate_high p).

Lemma encode_eq s idt vector p flags :
  0 <= flags < 2 ^ 8 -> mapped (mem s) (idt + 16 * vector) 16 ->
  encode_idt_entry idt vector p flags s = Ok tt (with_mem s (gate_mem (mem s) (idt + 16 * vector) p flags)).
Proof.
  intros Hf Hm. unfold encode_idt_entry. set (a := idt + 16 * vector) in *.
  do 6 (rewrite st_then by (repeat apply mapped_wr; eapply mapped_sub; [exact Hm|lia|lia])).
  rewrite st_ok by (repeat apply mapped_wr; eapply mapped_sub; [exact Hm|lia|lia]).
  rewrite !with_mem_mem. cbn [mem with_mem]. do 2 f_equal.
  assert (H16 : forall x, 0 <= u16 x < 2 ^ 16) by ulia. assert (H32 : forall x, 0 <= u32 x < 2 ^ 32) by ulia.
  pose proof (H16 p). pose proof (H16 (Z.shiftr p 16)). pose proof (H32 (Z.shiftr p 32)).
  rewrite (wr_fields 2 2) by lia. rewrite (wr_fields 4 1) by lia. rewrite (wr_fields 5 1) by lia.
  rewrite (wr_fields 6 2) by lia.
  replace (a + 12) with (a + 8 + Z.of_nat 4) by lia. rewrite (wr_fields 4 4) by lia.
  unfold gate_mem, gate_low, gate_high. f_equal. all: f_equal; lia.
Qed.

(** Decoding inverts encoding. *)
Lemma decode_encode p ist flags :
  0 <= p < 2 ^ 64 -> 0 <= ist < 8 -> 0 <= flags < 2 ^ 8 ->
  decode_gate (gate_low p ist flags) (gate_high p) =
    Gate p 0x28 ist (flags mod 16) (flags / 32 mod 4) (Z.testbit flags 7).
Proof.
  intros Hp Hi Hf.
  assert (H : exists a b c, gate_low p ist flags = a + 2 ^ 16 * 0x28 + 2 ^ 32 * ist + 2 ^ 40 * flags + 2 ^ 48 * b /\
     gate_high p = c /\ p = a + 2 ^ 16 * b + 2 ^ 32 * c /\ 0 <= a < 2 ^ 16 /\ 0 <= b < 2 ^ 16 /\ 0 <= c < 2 ^ 32).
  { exists (u16 p), (u16 (Z.shiftr p 16)), (u32 (Z.shiftr p 32)). split; [done|]. split; [done|].
    unfold u16, u32. rewrite !Z.shiftr_div_pow2 by lia. split; [zlia|]. zlia. }
  destruct H as (a & b & c & -> & -> & Ep & Ha & Hb & Hc). unfold decode_gate.
  rewrite (field_mod _ 48 16), (field_mod _ 16 16), (field_mod _ 32 3), (field_mod _ 40 4), (field_mod _ 45 2) by lia.
  change 0xffff with (Z.ones 16). change 0xffffffff with (Z.ones 32). rewrite !Z.land_ones by lia.
  rewrite (join_fields _ _ 16), (join_fields _ _ 32) by (lia || zlia).
  f_equal; [zlia|zlia|zlia|zlia|zlia|].
  apply eq_true_iff_eq. rewrite !Z.testbit_true by lia. zlia.
Qed.

End lemmas.

(** * Filling the table *)

Section fill.
Context (idt isr isr_stubs idtr : Z) (exception_handler_ptr isr_generic_ptr : Z) (stub : Z -> Z).
Implicit Types (s : kstate) (i j : Z).

(** The tables of a machine: mapped and disjoint, with the stubs filled in by the
    assembler. *)
Record tables_ok s : Prop := {
  to_idt : mapped (mem s) idt (16 * 256);
  to_isr : mapped (mem s) isr (8 * 256);
  to_idtr : mapped (mem s) idtr 10;
  to_stubs : forall i, 0 <= i < 256 -> rd 8 (mem s) (isr_stubs + 8 * i) = Some (stub i);
  to_addr : 0 <= idt < 2 ^ 64;
  to_funs : 0 <= exception_handler_ptr < 2 ^ 64 /\ 0 <= isr_generic_ptr < 2 ^ 64;
  to_apart_idt : idt + 16 * 256 <= isr \/ isr + 8 * 256 <= idt;
  to_apart_idtr : (idt + 16 * 256 <= idtr \/ idtr + 10 <= idt) /\ (isr + 8 * 256 <= idtr \/ idtr + 10 <= isr);
  to_apart_stubs : (idt + 16 * 256 <= isr_stubs \/ isr_stubs + 8 * 256 <= idt) /\
    (isr + 8 * 256 <= isr_stubs \/ isr_stubs + 8 * 256 <= isr) /\ (idtr + 10 <= isr_stubs \/ isr_stubs + 8 * 256 <= idtr)
}.

Definition handler_of i : Z := if i <? 32 then exception_handler_ptr else isr_generic_ptr.

(** The gate and the handler of vector [i] are in place. *)
Definition gate_set (m : gmap Z byte) i : Prop :=
  read_gate m idt i = Some (Gate (stub i) 0x28 0 0xe 0 true) /\ rd 8 m (isr + 8 * i) = Some (handler_of i).

Record filled s0 i s : Prop := {
  fi_tables : tables_ok s;
  fi_gates : forall j, 0 <= j < i -> gate_set (mem s) j;
  fi_glob : glob s = glob s0;
  fi_trace : trace s = trace s0;
  fi_out : forall x, ~ (idt <= x < idt + 16 * 256) -> ~ (isr <= x < isr + 8 * 256) -> mem s !! x = mem s0 !! x
}.

Lemma tables_step s s' :
  tables_ok s -> (forall a k, mapped (mem s) a k -> mapped (mem s') a k) ->
  (forall x, ~ (idt <= x < idt + 16 * 256) -> ~ (isr <= x < isr + 8 * 256) -> ~ (idtr <= x < idtr + 10) ->
     mem s' !! x = mem s !! x) -> tables_ok s'.
Proof.
  intros [H1 H2 H3 H4 H5 H6 H7 H8 H9] Hm Ho. split; auto. intros i Hi. rewrite <- (H4 i Hi).
  apply rd_ext. intros x Hx. apply Ho; lia.
Qed.

Lemma fill_step s0 i s :
  filled s0 i s -> 0 <= i < 256 ->
  wp (idt_fill idt isr isr_stubs (handler_of i) i) (fun _ s' => filled s0 (i + 1) s') s.
Proof.
  intros [Ht Hg Hgl Htr Hout] Hi. pose proof Ht as [M1 M2 M3 R A F P1 P2 P3].
  assert (Mg : mapped (mem s) (idt + 16 * i) 16) by (eapply mapped_sub; [exact M1|lia|lia]).
  set (m1 := gate_mem (mem s) (idt + 16 * i) (stub i) 0x8e). set (m2 := wr 8 m1 (isr + 8 * i) (handler_of i)).
  assert (Mm1 : forall a k, mapped (mem s) a k -> mapped m1 a k) by (intros; by do 2 apply mapped_wr).
  apply (wp_eq _ _ _ tt (with_mem s m2)).
  - unfold idt_fill. rewrite (ld_then _ _ (stub i)) by (by apply R). rewrite (u8_small i) by lia.
    rewrite (bind_Ok _ _ _ _ _ (encode_eq s idt i (stub i) 0x8e ltac:(lia) Mg)). fold m1.
    apply (st_ok 8 _ _ (with_mem s m1)). apply Mm1. eapply mapped_sub; [exact M2|lia|lia].
  - assert (Hsr : forall x, ~ (idt + 16 * i <= x < idt + 16 * i + 16) -> ~ (isr + 8 * i <= x < isr + 8 * i + 8) ->
              m2 !! x = mem s !! x) by (intros x X1 X2; unfold m2, m1, gate_mem; by rewrite !lookup_wr_out by lia).
    assert (Hs : 0 <= stub i < 2 ^ 64) by (apply (rd_range 8 (mem s) (isr_stubs + 8 * i)), R, Hi).
    assert (Hh : 0 <= handler_of i < 2 ^ 64) by (unfold handler_of; destruct (i <? 32); lia).
    split; [|intros j Hj|done|done|].
    + apply (tables_step s); [done|intros a k Hak; by apply mapped_wr, Mm1|]. intros x X1 X2 X3. apply Hsr; lia.
    + destruct (decide (j = i)) as [->|Hne].
      * split; cbn [mem with_mem]; [|unfold m2; rewrite rd_wr_same; f_equal; by apply Z.mod_small].
        unfold read_gate. unfold m2. rewrite !(rd_wr_ne 8 _ _ 8 (isr + 8 * i)) by lia.
        unfold m1, gate_mem.
        rewrite (rd_wr_ne 8 _ (idt + 16 * i) 8 (idt + 16 * i + 8)) by lia. rewrite !rd_wr_same. simpl mbind. f_equal.
        rewrite !Z.mod_small; [by apply decode_encode| |]; unfold gate_high, gate_low; ulia.
      * destruct (Hg j ltac:(lia)) as [G1 G2]. split; cbn [mem with_mem].
        -- unfold read_gate in *. rewrite !(rd_ext 8 (mem s) m2) by (intros x Hx; apply Hsr; lia). done.
        -- rewrite (rd_ext 8 (mem s) m2) by (intros x Hx; apply Hsr; lia). done.
    + intros x X1 X2. cbn [mem with_mem]. rewrite Hsr by lia. by apply Hout.
Qed.

End fill.

(** C30: [idt_init] installs a gate for each of the 256 vectors: the processor
    enters the stub of the vector, at its full 64-bit address, through a present
    interrupt gate of privilege 0 with the kernel's code selector and without an
    interrupt stack; [isr] dispatches the first 32 vectors to the exception
    handler and the others to the generic one; the register covers the table,
    and no other memory changes. *)
Theorem idt_init_gates s idt isr isr_stubs idtr exc gen stub :
  tables_ok idt isr isr_stubs idtr exc gen stub s ->
  exists s', idt_init idt isr isr_stubs idtr exc gen s = Ok tt s' /\
    (forall i, 0 <= i < 256 -> gate_set idt isr exc gen stub (mem s') i) /\
    rd 2 (mem s') idtr = Some (256 * 16 - 1) /\ rd 8 (mem s') (idtr + 2) = Some idt /\
    EvAsm "lidt" idtr ∈ trace s' /\ same_globals s s' /\
    (forall x, ~ (idt <= x < idt + 16 * 256) -> ~ (isr <= x < isr + 8 * 256) -> ~ (idtr <= x < idtr + 10) ->
       mem s' !! x = mem s !! x).
Proof.
  intros Ht. pose proof Ht as [M1 M2 M3 R A F P1 P2 P3].
  set (s1 := with_mem s (wr 8 (wr 2 (mem s) idtr (256 * 16 - 1)) (idtr + 2) idt)).
  assert (Ht1 : tables_ok idt isr isr_stubs idtr exc gen stub s1).
  { apply (tables_step _ _ _ _ _ _ _ s); [done|intros; by do 2 apply mapped_wr|].
    intros x _ _ X. unfold s1. cbn [mem with_mem]. by rewrite !lookup_wr_out by lia. }
  assert (H0 : filled idt isr isr_stubs idtr exc gen stub s1 0 s1) by (split; [done|lia|done|done|done]).
  apply wp_proc. unfold idt_init.
  do 2 (apply wp_bind, wp_st; [repeat apply mapped_wr; eapply mapped_sub; [exact M3|lia|lia]|]). fold s1.
  apply wp_bind, (wp_kfor (filled idt isr isr_stubs idtr exc gen stub s1)); [lia|exact H0| |].
  { intros j s' Hj Hf. assert (E : handler_of exc gen j = exc) by (unfold handler_of; by destruct (Z.ltb_spec j 32); [|lia]).
    replace (idt_fill idt isr isr_stubs exc j) with (idt_fill idt isr isr_stubs (handler_of exc gen j) j) by (by rewrite E).
    apply fill_step; [done|lia]. }
  intros s2 H2.
  apply wp_bind, (wp_kfor (filled idt isr isr_stubs idtr exc gen stub s1)); [lia|exact H2| |].
  { intros j s' Hj Hf. assert (E : handler_of exc gen j = gen) by (unfold handler_of; by destruct (Z.ltb_spec j 32); [lia|]).
    replace (idt_fill idt isr isr_stubs gen j) with (idt_fill idt isr isr_stubs (handler_of exc gen j) j) by (by rewrite E).
    apply fill_step; [done|lia]. }
  intros s3 [T3 G3 Gl3 Tr3 O3]. apply (wp_eq _ _ _ tt (KState (mem s3) (glob s3)
    (((trace s3 ++ [EvAsm "lidt" idtr]) ++ [EvAsm "sti" 0]) ++ [EvPrintf "IDT initialized.\n" []]))); [done|].
  cbn [mem glob trace]. split; [done|]. split; [|split; [|split; [|split]]].
  - rewrite (rd_ext 2 (mem s1)) by (intros x Hx; apply O3; lia). unfold s1. cbn [mem with_mem].
    rewrite rd_wr_ne by lia. by rewrite rd_wr_same.
  - rewrite (rd_ext 8 (mem s1)) by (intros x Hx; apply O3; lia). unfold s1. cbn [mem with_mem].
    rewrite rd_wr_same. f_equal. by apply Z.mod_small.
  - rewrite !elem_of_app. left. left. right. by apply list_elem_of_singleton.
  - intros v. unfold gval. cbn [glob]. by rewrite Gl3.
  - intros x X1 X2 X3. rewrite O3 by done. unfold s1. cbn [mem with_mem]. by rewrite !lookup_wr_out by lia.
Qed.

(** The tables of a small machine: all stubs are at [0xffffffff80001000]. *)
Definition idt_machine : kstate :=
  KState (fold_right (fun i m => wr 8 m (0x8000 + 8 * i) 0xffffffff80001000)
            (zeros 0x1000 (Z.to_nat 0x8000)) (seqZ 0 256)) ∅ [].

Lemma idt_machine_ok :
  tables_ok 0x1000 0x4000 0x8000 0x6000 0xffffffff80002000 0xffffffff80003000 (fun _ => 0xffffffff80001000) idt_machine.
Proof.
  assert (Hm : mapped (mem idt_machine) 0x1000 0x8000).
  { unfold idt_machine. cbn [mem]. induction (seqZ 0 256) as [|i l IH]; cbn [fold_right].
    - intros x Hx. apply zeros_mapped. lia.
    - by apply mapped_wr. }
  split; [eapply mapped_sub; [exact Hm|lia|lia]..| |lia|lia|lia|lia|lia].
  intros i Hi. assert (Hall : forallb (fun i => bool_decide (rd 8 (mem idt_machine) (0x8000 + 8 * i) =
    Some 0xffffffff80001000)) (seqZ 0 256) = true) by (vm_compute; reflexivity).
  rewrite List.forallb_forall in Hall. apply (bool_decide_unpack _). rewrite Hall; [done|].
  apply list_elem_of_In, elem_of_seqZ. lia.
Qed.

Lemma idt_init_gates_witness :
  exists s', idt_init 0x1000 0x4000 0x8000 0x6000 0xffffffff80002000 0xffffffff80003000 idt_machine = Ok tt s' /\
    (forall i, 0 <= i < 256 ->
       gate_set 0x1000 0x4000 0xffffffff80002000 0xffffffff80003000 (fun _ => 0xffffffff80001000) (mem s') i) /\
    rd 2 (mem s') 0x6000 = Some (256 * 16 - 1) /\ rd 8 (mem s') (0x6000 + 2) = Some 0x1000 /\
    EvAsm "lidt" 0x6000 ∈ trace s' /\ same_globals idt_machine s' /\
    (forall x, ~ (0x1000 <= x < 0x1000 + 16 * 256) -> ~ (0x4000 <= x < 0x4000 + 8 * 256) ->
       ~ (0x6000 <= x < 0x6000 + 10) -> mem s' !! x = mem idt_machine !! x).
Proof. apply idt_init_gates, idt_machine_ok. Defined.
