(* ===== verification/Sched.v ===== *)
(** The scheduler of [proc/sched.h] and [proc/sched.c]: processes, threads, the
    circular run queue and the timer interrupt that switches threads.

    A [thread_t] has 104 bytes and a [process_t] 64, with the members at the
    offsets below; [queue] is the globals [g_queue_start], [g_queue_end] and
    [g_queue_lock]. *)
From S2P Require Import Prelude Machine Lock Str Layout Interfaces PageTable Vmm KheapSpec Heap Vector Lapic Idt.
Import Lock.Seq.

Abbreviation thread_errno := 0 (only parsing).
Abbreviation thread_prev := 8 (only parsing).
Abbreviation thread_next := 16 (only parsing).
Abbreviation thread_cr3 := 24 (only parsing).
Abbreviation thread_cpu := 32 (only parsing).
Abbreviation thread_running := 40 (only parsing).
Abbreviation thread_process := 48 (only parsing).
Abbreviation thread_lock := 56 (only parsing).
Abbreviation thread_lock_file := 64 (only parsing).
Abbreviation thread_state := 72 (only parsing).
Abbreviation thread_timeslice := 80 (only parsing).
Abbreviation thread_enqueued := 81 (only parsing).
Abbreviation thread_blocked := 82 (only parsing).
Abbreviation thread_gs_base := 88 (only parsing).
Definition sizeof_thread : Z := 104.

Abbreviation process_pagemap := 8 (only parsing).
Abbreviation process_threads := 16 (only parsing).
Abbreviation process_cwd := 24 (only parsing).
Abbreviation process_fildes := 32 (only parsing).
Abbreviation process_stack_top := 48 (only parsing).
Abbreviation process_anon_base := 56 (only parsing).
Definition sizeof_process : Z := 64.

(** [interrupt_frame_t]: the words of the frame. *)
Abbreviation frame_es := 0 (only parsing).
Abbreviation frame_ds := 8 (only parsing).
Abbreviation frame_rdi := 88 (only parsing).
Abbreviation frame_rip := 144 (only parsing).
Abbreviation frame_cs := 152 (only parsing).
Abbreviation frame_rflags := 160 (only parsing).
Abbreviation frame_rsp := 168 (only parsing).
Abbreviation frame_ss := 176 (only parsing).
Definition sizeof_interrupt_frame : Z := 184.

(** [cpu_local_t] *)
Abbreviation cpu_current_thread := 8 (only parsing).
Abbreviation cpu_idle_thread := 16 (only parsing).
Abbreviation cpu_lapic_id := 32 (only parsing).

Definition SCHED_VECTOR : Z := 34.
Definition TIME_QUANTUM : Z := 3.
Definition MAX_FILDES : Z := 256.
Definition STACK_SIZE : Z := 0x10000.

Definition get_current_thread : K Z :=
  cpu ← this_cpu;
  ld 8 (cpu + cpu_current_thread).

(** * The run queue *)

Definition sched_enqueue_thread (thread : Z) : K bool :=
  enqueued ← ld 1 (thread + thread_enqueued);
  if enqueued =? 1 then mret true
  else
    spinlock_acquire (LG g_queue_lock) ;;
    start ← gget g_queue_start;
    end_ ← gget g_queue_end;
    (if (start =? NULL) || (end_ =? NULL)
     then gput g_queue_start thread ;; gput g_queue_end thread else mret tt) ;;
    end_ ← gget g_queue_end;
    st 8 (thread + thread_prev) end_ ;;
    end_ ← gget g_queue_end;
    st 8 (end_ + thread_next) thread ;;
    gput g_queue_end thread ;;
    start ← gget g_queue_start;
    st 8 (thread + thread_next) start ;;
    start ← gget g_queue_start;
    st 8 (start + thread_prev) thread ;;
    spinlock_release (LG g_queue_lock) ;;
    st 1 (thread + thread_enqueued) 1 ;;
    mret true.

(** [queue.start] and [queue.end] are not updated. *)
Definition dequeue_thread (thread : Z) : K bool :=
  enqueued ← ld 1 (thread + thread_enqueued);
  if enqueued =? 0 then mret true
  else
    next ← ld 8 (thread + thread_next);
    prev ← ld 8 (thread + thread_prev);
    st 8 (next + thread_prev) prev ;;
    prev ← ld 8 (thread + thread_prev);
    next ← ld 8 (thread + thread_next);
    st 8 (prev + thread_next) next ;;
    spinlock_release (LM (thread + thread_lock)) ;;
    st 1 (thread + thread_enqueued) 0 ;;
    st 1 (thread + thread_running) 0 ;;
    mret true.

(** One round of the search for the next thread. *)
Definition next_thread_body (current_thread next_thread : Z) : K (Z + Z) :=
  if (next_thread =? current_thread) || (next_thread =? NULL) then mret (inr NULL)
  else
    blocked ← ld 1 (next_thread + thread_blocked);
    running ← (if negb (blocked =? 0) then mret 1 else ld 1 (next_thread + thread_running));
    taken ← (if negb (running =? 0) then mret false
             else spinlock_test_and_acq (LM (next_thread + thread_lock)));
    if taken : bool then mret (inr next_thread)
    else next ← ld 8 (next_thread + thread_next); mret (inl next).

Definition get_next_thread : K Z :=
  current_thread ← get_current_thread;
  first ← ld 8 (current_thread + thread_next);
  kloop (next_thread_body current_thread) first.

(** * Processes and threads *)

Section sched.
Context (HHDM_OFFSET : Z) `{FA : !FrameAllocator HHDM_OFFSET} `{KH : KernelHeap} (heap_free : Z -> K unit).
(** The static [processes_vector], the name of the source file, [sizeof(vfs_node_t)]
    (which contains the C library's [struct stat]) and the [AT_] constants of the
    C library's [elf.h]. *)
Context (processes_vector FILE sizeof_vfs_node : Z) (AT_ENTRY AT_PHDR AT_PHENT AT_PHNUM : Z).

Definition sched_process (pagemap : Z) : K Z :=
  proc ← heap_alloc sizeof_process;
  kassert (negb (proc =? NULL)) ;;
  vector_push processes_vector proc ;;
  threads ← heap_alloc sizeof_vector;
  vector_create FILE threads sizeof_thread ;;
  st 8 (proc + process_threads) threads ;;
  st 8 (proc + process_pagemap) pagemap ;;
  fildes ← heap_alloc sizeof_vector;
  st 8 (proc + process_fildes) fildes ;;
  fildes ← ld 8 (proc + process_fildes);
  vector_create FILE fildes sizeof_vfs_node ;;
  fildes ← ld 8 (proc + process_fildes);
  vector_resize fildes MAX_FILDES ;;
  root ← gget g_root;
  st 8 (proc + process_cwd) root ;;
  st 8 (proc + process_stack_top) 0x70000000000 ;;
  st 8 (proc + process_anon_base) 0x80000000000 ;;
  mret proc.

(** The strings of a NULL-terminated array are copied below [stack], without their
    terminators; the loop variables are the number of strings and [stack]. *)
Definition copy_strings (strings : Z) (x : Z * Z) : K ((Z * Z) + (Z * Z)) :=
  let '(len, stack) := x in
  str ← ld 8 (strings + 8 * len);
  if str =? NULL then mret (inr (len, stack))
  else
    n ← strlen str;
    let stack := u64 (stack - u64 n - 1) in
    memcpy stack str (u64 n) ;;
    mret (inl (len + 1, stack)).

(** The pointers to the copied strings; the result is the new [old_rsp]. *)
Fixpoint store_pointers (n : nat) (i strings stack old_rsp : Z) : K Z :=
  match n with
  | O => mret old_rsp
  | S n' =>
      str ← ld 8 (strings + 8 * i);
      len ← strlen str;
      let old_rsp := u64 (old_rsp - (len + 1)) in
      st 8 (u64 (stack + 8 * i)) old_rsp ;;
      store_pointers n' (i + 1) strings stack old_rsp
  end.

(** The auxiliary vector: 8 words, the last ones first. *)
Definition store_aux (stack aux : Z) : K Z :=
  st 8 (u64 (stack - 8)) 0 ;;
  st 8 (u64 (stack - 16)) 0 ;;
  let stack := u64 (stack - 32) in
  at_entry ← ld 8 aux;
  st 8 stack AT_ENTRY ;; st 8 (stack + 8) at_entry ;;
  let stack := u64 (stack - 16) in
  at_phdr ← ld 8 (aux + 8);
  st 8 stack AT_PHDR ;; st 8 (stack + 8) at_phdr ;;
  let stack := u64 (stack - 16) in
  at_phent ← ld 8 (aux + 16);
  st 8 stack AT_PHENT ;; st 8 (stack + 8) at_phent ;;
  let stack := u64 (stack - 16) in
  at_phnum ← ld 8 (aux + 24);
  st 8 stack AT_PHNUM ;; st 8 (stack + 8) at_phnum ;;
  mret stack.

(** The initial stack of a process, from [stack_top] down; the result is its
    size, by which [rsp] is lowered. *)
Definition build_stack (stack_top rsp argv envp aux : Z) : K Z :=
  '(envp_len, stack) ← kloop (copy_strings envp) (0, stack_top);
  '(argv_len, stack) ← kloop (copy_strings argv) (0, stack);
  let stack := ALIGN_DOWN stack 16 in
  let stack := if negb (Z.land (argv_len + envp_len + 1) 1 =? 0) then u64 (stack - 8) else stack in
  stack ← store_aux stack aux;
  st 8 (u64 (stack - 8)) 0 ;;
  let stack := u64 (stack - 8 - 8 * envp_len) in
  old_rsp ← store_pointers (Z.to_nat envp_len) 0 envp stack rsp;
  st 8 (u64 (stack - 8)) 0 ;;
  let stack := u64 (stack - 8 - 8 * argv_len) in
  store_pointers (Z.to_nat argv_len) 0 argv stack old_rsp ;;
  let stack := u64 (stack - 8) in
  st 8 stack argv_len ;;
  mret (u64 (stack_top - stack)).

(** The lines that both kinds of threads share: the structure and its frame. *)
Definition new_thread : K (Z * Z) :=
  thread ← heap_calloc sizeof_thread;
  st 4 (thread + thread_lock) 0 ;; st 8 (thread + thread_lock_file) FILE ;;
  frame ← heap_calloc sizeof_interrupt_frame;
  st 8 (thread + thread_state) frame ;;
  state ← ld 8 (thread + thread_state);
  mret (thread, state).

Definition sched_user_thread (start arg process argv envp aux : Z) : K Z :=
  '(thread, state) ← new_thread;
  stack_phys ← frame_alloc STACK_SIZE;
  kassert (negb (stack_phys =? NULL)) ;;
  let pages := ALIGN_UP STACK_SIZE 0x1000 / 0x1000 + 1 in
  pagemap ← ld 8 (process + process_pagemap);
  top ← ld 8 (process + process_stack_top);
  vmm_map_pages HHDM_OFFSET pagemap stack_phys (u64 (top - STACK_SIZE))
    (Z.lor (Z.lor PTE_PRESENT PTE_WRITABLE) PTE_USER) pages ;;
  top ← ld 8 (process + process_stack_top);
  st 8 (state + frame_rsp) top ;;
  st 8 (process + process_stack_top) (u64 (top - (STACK_SIZE - 0x1000))) ;;
  st 8 (state + frame_cs) (Z.lor 0x40 3) ;;
  st 8 (state + frame_ss) (Z.lor 0x38 3) ;;
  st 8 (state + frame_es) (Z.lor 0x38 3) ;;
  st 8 (state + frame_ds) (Z.lor 0x38 3) ;;
  st 8 (state + frame_rflags) 0x202 ;;
  st 8 (state + frame_rip) start ;;
  st 8 (state + frame_rdi) arg ;;
  st 8 (thread + thread_process) process ;;
  st 1 (thread + thread_timeslice) TIME_QUANTUM ;;
  pagemap ← ld 8 (process + process_pagemap);
  ptop ← ld 8 pagemap;
  st 8 (thread + thread_cr3) (u64 (ptop - HHDM_OFFSET)) ;;
  threads ← ld 8 (process + process_threads);
  items ← ld 8 threads;
  (if items =? 0 then
     rsp ← ld 8 (state + frame_rsp);
     size ← build_stack (u64 (stack_phys + STACK_SIZE + HHDM_OFFSET)) rsp argv envp aux;
     rsp ← ld 8 (state + frame_rsp);
     st 8 (state + frame_rsp) (u64 (rsp - size))
   else mret tt) ;;
  threads ← ld 8 (process + process_threads);
  vector_push threads thread ;;
  sched_enqueue_thread thread ;;
  mret thread.

Definition sched_kernel_thread (start args : Z) : K Z :=
  '(thread, state) ← new_thread;
  stack ← frame_alloc STACK_SIZE;
  kassert (negb (stack =? NULL)) ;;
  st 8 (state + frame_rsp) (u64 (stack + STACK_SIZE + HHDM_OFFSET)) ;;
  st 8 (state + frame_cs) 0x28 ;;
  st 8 (state + frame_ss) 0x30 ;;
  st 8 (state + frame_es) 0x30 ;;
  st 8 (state + frame_ds) 0x30 ;;
  st 8 (state + frame_rflags) 0x202 ;;
  st 8 (state + frame_rip) start ;;
  st 8 (state + frame_rdi) args ;;
  kernel_process ← gget g_kernel_process;
  st 8 (thread + thread_process) kernel_process ;;
  threads ← ld 8 (kernel_process + process_threads);
  vector_push threads thread ;;
  st 1 (thread + thread_timeslice) TIME_QUANTUM ;;
  pagemap ← ld 8 (kernel_process + process_pagemap);
  ptop ← ld 8 pagemap;
  st 8 (thread + thread_cr3) (u64 (ptop - HHDM_OFFSET)) ;;
  sched_enqueue_thread thread ;;
  mret thread.

(** * Switching *)

(** [switch_to_thread] does not return: the registers are popped from the frame. *)
Definition switch_to_thread (thread : Z) : K unit :=
  st 1 (thread + thread_running) 1 ;;
  state ← ld 8 (thread + thread_state);
  asm "mov rsp; pop es, ds, r15..rax; add rsp, 8; swapgs; iretq" state.

(** The timer interrupt. *)
Definition sched_vector (vector state : Z) : K unit :=
  current_thread ← get_current_thread;
  running ← ld 1 (current_thread + thread_running);
  (if negb (running =? 0) then
     st 8 (current_thread + thread_state) state ;;
     gs ← gget g_gs_base;
     st 8 (current_thread + thread_gs_base) gs
   else mret tt) ;;
  next_thread ← get_next_thread;
  if next_thread =? NULL then
    lapic_eoi HHDM_OFFSET ;;
    timeslice ← ld 1 (current_thread + thread_timeslice);
    lapic_timer_oneshot HHDM_OFFSET timeslice SCHED_VECTOR
  else
    st 1 (current_thread + thread_running) 0 ;;
    spinlock_release (LM (current_thread + thread_lock)) ;;
    cpu ← this_cpu;
    st 8 (cpu + cpu_current_thread) next_thread ;;
    next_state ← ld 8 (next_thread + thread_state);
    cs ← ld 8 (next_state + frame_cs);
    (if cs =? 0x3b then gs ← ld 8 (next_thread + thread_gs_base); gput g_kgs_base gs
     else gs ← gget g_gs_base; gput g_kgs_base gs) ;;
    cr3 ← gget g_cr3;
    next_cr3 ← ld 8 (next_thread + thread_cr3);
    (if negb (cr3 =? next_cr3) then gput g_cr3 next_cr3 else mret tt) ;;
    lapic_eoi HHDM_OFFSET ;;
    timeslice ← ld 1 (current_thread + thread_timeslice);
    lapic_timer_oneshot HHDM_OFFSET timeslice SCHED_VECTOR ;;
    switch_to_thread next_thread.

Definition dequeue_and_die : K unit :=
  asm "cli" 0 ;;
  lapic_stop HHDM_OFFSET ;;
  current_thread ← get_current_thread;
  dequeue_thread current_thread ;;
  heap_free current_thread ;;
  cpu ← this_cpu;
  idle_thread ← ld 8 (cpu + cpu_idle_thread);
  st 8 (cpu + cpu_current_thread) idle_thread ;;
  asm "sti" 0 ;;
  cpu ← this_cpu;
  id ← ld 8 (cpu + cpu_lapic_id);
  lapic_ipi HHDM_OFFSET (u32 id) SCHED_VECTOR.

(** [sched_await] arms the timer and halts until it fires. *)
Definition sched_await : K unit :=
  lapic_timer_oneshot HHDM_OFFSET TIME_QUANTUM SCHED_VECTOR ;;
  asm "hlt" 0.

(** [isr] is the table of handlers and [sched_vector_ptr] the address of
    [sched_vector]. *)
Definition sched_init (isr idt sched_vector_ptr start : Z) : K unit :=
  asm "cli" 0 ;;
  st 8 (isr + 8 * SCHED_VECTOR) sched_vector_ptr ;;
  idt_set_ist idt SCHED_VECTOR 1 ;;
  vector_create FILE processes_vector sizeof_process ;;
  kernel_pagemap ← gget g_kernel_pagemap;
  proc ← sched_process kernel_pagemap;
  gput g_kernel_process proc ;;
  sched_kernel_thread start NULL ;;
  asm "sti" 0 ;;
  sched_await.

End sched.
