(* ===== verification/SchedSpec.v ===== *)
(** What the scheduler promises: the run queue is a ring of the enqueued threads,
    and the next thread is the first runnable one behind the current thread. *)
From S2P Require Import Prelude Machine Lock Str Layout PmmSpec KheapSpec Lapic Sched.
Import Lock.Seq.

Section queue.
Implicit Types (s : kstate) (m : gmap Z byte) (t c x y : Z) (ts l : list Z).

(** [next] of the first thread is the second, [prev] of the second the first. *)
Definition follows m (xy : Z * Z) : Prop :=
  rd 8 m (fst xy + thread_next) = Some (snd xy) /\ rd 8 m (snd xy + thread_prev) = Some (fst xy).

Definition ring m ts : Prop :=
  match ts with
  | [] => True
  | t :: ts' => Forall (follows m) (pairs t ts' t)
  end.

(** A [thread_t] in memory; threads do not overlap. *)
Definition thread_at m t : Prop := 0 < t /\ t + sizeof_thread < 2 ^ 64 /\ mapped m t sizeof_thread.
Definition disjoint_threads t t' : Prop := t + sizeof_thread <= t' \/ t' + sizeof_thread <= t.

Record queue_ok s ts : Prop := {
  qo_ends : match ts with
            | [] => gval s g_queue_start = NULL
            | t :: ts' => gval s g_queue_start = t /\ gval s g_queue_end = before t ts'
            end;
  qo_ring : ring (mem s) ts;
  qo_threads : forall t, t ∈ ts -> thread_at (mem s) t /\ rd 1 (mem s) (t + thread_enqueued) = Some 1;
  qo_disjoint : forall t t', t ∈ ts -> t' ∈ ts -> t <> t' -> disjoint_threads t t';
  qo_nodup : NoDup ts;
  qo_lock : gval s g_queue_lock = 0
}.

(** The pairs of a chain but the last do not depend on its end. *)
Lemma pairs_last x l : exists L, forall z, pairs x l z = L ++ [(before x l, z)].
Proof.
  revert x. induction l as [|y l IH]; intros x; [by exists []|].
  destruct (IH y) as [L HL]. exists ((x, y) :: L). intros z. simpl. rewrite HL. f_equal. f_equal. f_equal. f_equal.
  unfold before. rewrite list.last_cons. by destruct (list.last l).
Qed.

Lemma before_elem x l : before x l ∈ x :: l.
Proof.
  unfold before. destruct (list.last l) as [y|] eqn:E; simpl; [|apply elem_of_cons; by left].
  apply elem_of_cons. right. by apply list.last_Some_elem_of.
Qed.

Lemma last_snoc_before x l y : before x (l ++ [y]) = y.
Proof. unfold before. by rewrite list.last_snoc. Qed.

(** * Enqueueing *)

Definition mem_enqueue m t e t0 : gmap Z byte :=
  wr 1 (wr 8 (wr 8 (wr 8 (wr 8 m (t + thread_prev) e) (e + thread_next) t) (t + thread_next) t0) (t0 + thread_prev) t)
    (t + thread_enqueued) 1.

Definition ends ts t : Z * Z :=
  match ts with [] => (t, t) | t0 :: ts' => (t0, before t0 ts') end.

Lemma thread_mapped m t a n : thread_at m t -> t <= a -> a + n <= t + sizeof_thread -> mapped m a n.
Proof. intros (_ & _ & H) ? ?. by eapply mapped_sub; [exact H|lia|lia]. Qed.

(** The ends of the list that a thread is linked between: without a list, itself. *)
Definition link_ends s t : Z * Z :=
  if (gval s g_queue_start =? NULL) || (gval s g_queue_end =? NULL) then (t, t)
  else (gval s g_queue_start, gval s g_queue_end).

(** An empty queue gets its ends; the ends of another stay. *)
Lemma enqueue_ends s t (s1 := with_glob s g_queue_lock 1) :
  exists s2, ((if (gval s1 g_queue_start =? NULL) || (gval s1 g_queue_end =? NULL)
      then gput g_queue_start t ;; gput g_queue_end t else mret tt) : K unit) s1 = Ok tt s2 /\
    mem s2 = mem s /\ trace s2 = trace s /\ gval s2 g_queue_start = fst (link_ends s t) /\
    gval s2 g_queue_end = snd (link_ends s t) /\ gval s2 g_queue_lock = 1 /\
    (forall v, v <> g_queue_start -> v <> g_queue_end -> v <> g_queue_lock -> gval s2 v = gval s v).
Proof.
  unfold s1, link_ends. rewrite !gval_with_glob_ne by done.
  destruct ((gval s g_queue_start =? NULL) || (gval s g_queue_end =? NULL)).
  - eexists. split; [reflexivity|]. split; [done|]. split; [done|].
    split; [rewrite gval_with_glob_ne by done; apply gval_with_glob_eq|]. split; [apply gval_with_glob_eq|].
    split; [rewrite !gval_with_glob_ne by done; apply gval_with_glob_eq|].
    intros v V1 V2 V3. by rewrite !gval_with_glob_ne by congruence.
  - eexists. split; [reflexivity|]. split; [done|]. split; [done|].
    split; [by rewrite gval_with_glob_ne|]. split; [by rewrite gval_with_glob_ne|]. split; [apply gval_with_glob_eq|].
    intros v V1 V2 V3. by rewrite gval_with_glob_ne by congruence.
Qed.

Lemma enqueue_run s t (t0 := fst (link_ends s t)) (e := snd (link_ends s t)) :
  gval s g_queue_lock = 0 -> thread_at (mem s) t -> thread_at (mem s) t0 -> thread_at (mem s) e ->
  rd 1 (mem s) (t + thread_enqueued) = Some 0 ->
  exists s', sched_enqueue_thread t s = Ok true s' /\ mem s' = mem_enqueue (mem s) t e t0 /\
    gval s' g_queue_start = t0 /\ gval s' g_queue_end = t /\
    (forall v, v <> g_queue_start -> v <> g_queue_end -> gval s' v = gval s v) /\ trace s' = trace s.
Proof.
  intros Hl Ht T0 Te He. set (s1 := with_glob s g_queue_lock 1).
  destruct (enqueue_ends s t) as (s2 & E2 & M2 & R2 & G1 & G2 & G3 & G4).
  set (m1 := wr 8 (mem s) (t + thread_prev) e). set (m2 := wr 8 m1 (e + thread_next) t).
  set (m3 := wr 8 m2 (t + thread_next) t0). set (m4 := wr 8 m3 (t0 + thread_prev) t).
  set (s3 := with_glob s2 g_queue_end t). set (s4 := with_glob s3 g_queue_lock 0).
  exists (with_mem s4 (wr 1 m4 (t + thread_enqueued) 1)). split.
  - unfold sched_enqueue_thread. rewrite (ld_then 1 _ 0) by done. change (0 =? 1) with false. cbv iota.
    rewrite (bind_Ok _ _ s tt s1) by (apply acquire_free; simpl; by rewrite Hl).
    rewrite (bind_Ok (gget g_queue_start) _ s1 _ s1 eq_refl), (bind_Ok (gget g_queue_end) _ s1 _ s1 eq_refl).
    rewrite (bind_Ok _ _ _ _ _ E2). rewrite (bind_Ok (gget g_queue_end) _ s2 e s2) by (unfold gget; by rewrite G2).
    rewrite st_then by (rewrite M2; eapply thread_mapped; [exact Ht|lia|unfold sizeof_thread; lia]). rewrite M2. fold m1.
    rewrite (bind_Ok (gget g_queue_end) _ (with_mem s2 m1) e (with_mem s2 m1)) by (unfold gget; by rewrite gval_with_mem, G2).
    rewrite st_then by (apply mapped_wr; eapply thread_mapped; [exact Te|lia|unfold sizeof_thread; lia]).
    rewrite with_mem_mem. cbn [mem with_mem]. fold m2.
    rewrite (bind_Ok (gput g_queue_end t) _ (with_mem s2 m2) tt (with_mem s3 m2)) by done.
    assert (Gs : forall m, gget g_queue_start (with_mem s3 m) = Ok t0 (with_mem s3 m))
      by (intros m; unfold gget, s3; by rewrite gval_with_mem, gval_with_glob_ne, G1).
    rewrite (bind_Ok _ _ _ _ _ (Gs m2)).
    rewrite st_then by (do 2 apply mapped_wr; eapply thread_mapped; [exact Ht|lia|unfold sizeof_thread; lia]).
    rewrite with_mem_mem. cbn [mem with_mem]. fold m3. rewrite (bind_Ok _ _ _ _ _ (Gs m3)).
    rewrite st_then by (do 3 apply mapped_wr; eapply thread_mapped; [exact T0|lia|unfold sizeof_thread; lia]).
    rewrite with_mem_mem. cbn [mem with_mem]. fold m4.
    rewrite (bind_Ok _ _ (with_mem s3 m4) tt (with_mem s4 m4)).
    2:{ rewrite (release_held (LG g_queue_lock)); [done|]. simpl. f_equal. unfold s3.
        by rewrite gval_with_mem, gval_with_glob_ne, G3. }
    rewrite st_then by (do 4 apply mapped_wr; eapply thread_mapped; [exact Ht|lia|unfold sizeof_thread; lia]).
    rewrite with_mem_mem. done.
  - split; [done|]. unfold s4, s3. rewrite !gval_with_mem.
    split; [by rewrite !gval_with_glob_ne by done|]. split; [rewrite gval_with_glob_ne by done; apply gval_with_glob_eq|].
    split; [|done]. intros v V1 V2. rewrite gval_with_mem. destruct (decide (v = g_queue_lock)) as [->|V3].
    + by rewrite gval_with_glob_eq.
    + rewrite !gval_with_glob_ne by congruence. by apply G4.
Qed.

(** What the ends are in a well-formed queue. *)
Lemma link_ends_ok s ts t : queue_ok s ts -> link_ends s t = ends ts t.
Proof.
  intros Hq. pose proof (qo_ends _ _ Hq) as Hends. unfold link_ends, ends. destruct ts as [|a ts]; [by rewrite Hends|].
  destruct Hends as [-> ->].
  destruct (qo_threads _ _ Hq a) as [(P0 & _) _]; [apply elem_of_cons; by left|].
  destruct (qo_threads _ _ Hq (before a ts)) as [(P1 & _) _]; [apply before_elem|]. unfold NULL.
  destruct (Z.eqb_spec a 0); [lia|]. by destruct (Z.eqb_spec (before a ts) 0); [lia|].
Qed.

Lemma enqueue_eq s ts t (t0 := fst (ends ts t)) (e := snd (ends ts t)) :
  queue_ok s ts -> thread_at (mem s) t -> rd 1 (mem s) (t + thread_enqueued) = Some 0 ->
  exists s', sched_enqueue_thread t s = Ok true s' /\ mem s' = mem_enqueue (mem s) t e t0 /\
    gval s' g_queue_start = t0 /\ gval s' g_queue_end = t /\
    (forall v, v <> g_queue_start -> v <> g_queue_end -> gval s' v = gval s v) /\ trace s' = trace s.
Proof.
  intros Hq Ht He. pose proof (enqueue_run s t (qo_lock _ _ Hq) Ht) as H. rewrite (link_ends_ok _ _ _ Hq) in H.
  assert (T0 : thread_at (mem s) t0 /\ thread_at (mem s) e).
  { unfold t0, e, ends. destruct ts as [|a ts]; [done|]. split; apply (qo_threads _ _ Hq); [apply elem_of_cons; by left|].
    apply before_elem. }
  destruct T0. cbv zeta in H. by apply H.
Qed.

(** A read that misses the five stores. *)
Lemma enqueue_rd m t e t0 (n : nat) a :
  t + thread_enqueued + 1 <= a \/ a + Z.of_nat n <= t + thread_prev \/
    (t + thread_next + 8 <= a /\ a + Z.of_nat n <= t + thread_enqueued) ->
  a + Z.of_nat n <= e + thread_next \/ e + thread_next + 8 <= a ->
  a + Z.of_nat n <= t0 + thread_prev \/ t0 + thread_prev + 8 <= a ->
  rd n (mem_enqueue m t e t0) a = rd n m a.
Proof. intros H1 H2 H3. unfold mem_enqueue. by rewrite !rd_wr_ne by lia. Qed.

(** The links of the new thread. *)
Lemma enqueue_links m t e t0 :
  0 < t < 2 ^ 64 -> 0 < e < 2 ^ 64 -> 0 < t0 < 2 ^ 64 ->
  (e = t /\ t0 = t) \/ (disjoint_threads e t /\ disjoint_threads t0 t /\ (e = t0 \/ disjoint_threads e t0)) ->
  follows (mem_enqueue m t e t0) (e, t) /\ follows (mem_enqueue m t e t0) (t, t0).
Proof.
  intros Rt Re R0 Hd. unfold disjoint_threads, sizeof_thread in Hd. unfold follows, mem_enqueue; cbn [fst snd].
  assert (Hw : forall v, 0 < v < 2 ^ 64 -> v mod 2 ^ (8 * Z.of_nat 8) = v) by (intros v Hv; apply Z.mod_small; simpl; lia).
  destruct Hd as [[-> ->]|(D1 & D2 & D3)]; (split; split); rewrite rd_wr_ne by lia.
  - rewrite rd_wr_ne by lia. by rewrite rd_wr_same, Hw.
  - by rewrite rd_wr_same, Hw.
  - rewrite rd_wr_ne by lia. by rewrite rd_wr_same, Hw.
  - by rewrite rd_wr_same, Hw.
  - do 2 rewrite rd_wr_ne by lia. by rewrite rd_wr_same, Hw.
  - do 3 rewrite rd_wr_ne by lia. by rewrite rd_wr_same, Hw.
  - rewrite rd_wr_ne by lia. by rewrite rd_wr_same, Hw.
  - by rewrite rd_wr_same, Hw.
Qed.

Lemma enqueue_ring m ts t (t0 := fst (ends ts t)) (e := snd (ends ts t)) :
  ring m ts -> (forall x, x ∈ ts -> 0 < x < 2 ^ 64 /\ disjoint_threads x t) -> 0 < t < 2 ^ 64 -> NoDup ts ->
  (forall x y, x ∈ ts -> y ∈ ts -> x <> y -> disjoint_threads x y) ->
  ring (mem_enqueue m t e t0) (ts ++ [t]).
Proof.
  intros Hr Hx Ht Hnd Hdis. destruct ts as [|a ts].
  - unfold ring. constructor; [|constructor]. by apply enqueue_links; [..|left].
  - unfold t0, e, ends in *. cbn [fst snd]. set (e' := before a ts).
    assert (Ia : a ∈ a :: ts) by (apply elem_of_cons; by left). pose proof (before_elem a ts) as Ie. fold e' in Ie.
    destruct (enqueue_links m t e' a) as [F1 F2]; [done|apply Hx, Ie|apply Hx, Ia| |].
    { right. split; [apply Hx, Ie|]. split; [apply Hx, Ia|]. destruct (decide (e' = a)); [by left|right; by apply Hdis]. }
    destruct (pairs_last a ts) as [L HL]. cbn [ring app] in *. rewrite pairs_app, HL. rewrite HL in Hr.
    fold e' in Hr |- *. apply Forall_app in Hr as [HrL _]. apply Forall_app.
    split; [apply Forall_app; split; [|by constructor]|by constructor].
    assert (EL1 : L.*1 ++ [e'] = a :: ts) by (rewrite <- (pairs_fst a ts a), HL, fmap_app; done).
    assert (EL2 : L.*2 = ts).
    { pose proof (pairs_snd a ts a) as Hs. rewrite HL, fmap_app in Hs. by apply app_inj_tail in Hs as [-> _]. }
    pose proof Hnd as Hnd0. apply list.NoDup_cons in Hnd0 as [Hna _].
    rewrite <- EL1 in Hnd. apply list.NoDup_app in Hnd as (_ & Hne & _).
    apply list.Forall_forall. intros [x y] Hxy.
    destruct (proj1 (list.Forall_forall _ _) HrL _ Hxy) as [R1 R2]. cbn [fst snd] in *.
    assert (Ix1 : x ∈ L.*1) by (apply list_elem_of_fmap; by exists (x, y)).
    assert (Iy2 : y ∈ L.*2) by (apply list_elem_of_fmap; by exists (x, y)).
    assert (Hxe : x <> e') by (intros ->; apply (Hne e' Ix1); by apply list_elem_of_singleton).
    assert (Ix : x ∈ a :: ts) by (rewrite <- EL1; apply elem_of_app; by left).
    rewrite EL2 in Iy2. assert (Iy : y ∈ a :: ts) by (apply elem_of_cons; by right).
    assert (Hya : y <> a) by (by intros ->).
    destruct (Hx x Ix) as [_ Dx], (Hx y Iy) as [_ Dy]. pose proof (Hdis x e' Ix Ie Hxe) as D1. pose proof (Hdis y a Iy Ia Hya) as D2.
    assert (D3 : x = a \/ disjoint_threads x a) by (destruct (decide (x = a)); [by left|right; by apply Hdis]).
    assert (D4 : y = e' \/ disjoint_threads y e') by (destruct (decide (y = e')); [by left|right; by apply Hdis]).
    unfold disjoint_threads, sizeof_thread in *. split; cbn [fst snd]; rewrite enqueue_rd by lia; done.
Qed.

(** C8: [sched_enqueue_thread] appends a thread to the ring of the run queue and
    marks it as enqueued: the ring stays doubly linked and circular, nothing but
    links and the mark is written, and the lock is free again.  A thread that is
    already in the queue is left where it is. *)
Theorem sched_enqueue_appends s ts t :
  queue_ok s ts -> thread_at (mem s) t ->
  (t ∈ ts -> sched_enqueue_thread t s = Ok true s) /\
  (rd 1 (mem s) (t + thread_enqueued) = Some 0 -> (forall x, x ∈ ts -> disjoint_threads x t) ->
   exists s', sched_enqueue_thread t s = Ok true s' /\ queue_ok s' (ts ++ [t]) /\
     (forall a, (forall x, x ∈ ts ++ [t] -> ~ (x + thread_prev <= a < x + thread_cr3)) -> a <> t + thread_enqueued ->
        mem s' !! a = mem s !! a) /\
     (forall v, v <> g_queue_start -> v <> g_queue_end -> gval s' v = gval s v)).
Proof.
  intros Hq Ht. split.
  { intros Hin. destruct (qo_threads _ _ Hq t Hin) as [_ He]. unfold sched_enqueue_thread. by rewrite (ld_then 1 _ 1). }
  intros He Hd. destruct (enqueue_eq s ts t Hq Ht He) as (s' & E & Em & G1 & G2 & G3 & _).
  set (t0 := fst (ends ts t)) in *. set (e := snd (ends ts t)) in *. pose proof Ht as (Ht0 & Ht1 & _).
  assert (Hends : t0 ∈ ts ++ [t] /\ e ∈ ts ++ [t]).
  { unfold t0, e, ends. destruct ts as [|a ts]; [split; by apply list_elem_of_singleton|].
    split; apply elem_of_app; left; [apply elem_of_cons; by left|apply before_elem]. }
  assert (Hall : forall x, x ∈ ts ++ [t] -> x = t \/ x ∈ ts /\ disjoint_threads x t).
  { intros x [Hx|Hx%list_elem_of_singleton]%elem_of_app; [right|by left]. split; [done|by apply Hd]. }
  assert (Hmap : forall x, thread_at (mem s) x -> thread_at (mem s') x).
  { intros x (X1 & X2 & X3). split; [done|]. split; [done|]. rewrite Em. by do 5 apply mapped_wr. }
  assert (Htin : t ∉ ts).
  { intros Hin. specialize (Hd t Hin). unfold disjoint_threads, sizeof_thread in Hd. lia. }
  exists s'. split; [done|]. split; [|split; [|done]].
  - split.
    + destruct ts as [|a ts]; cbn [app]; [done|]. split; [done|]. by rewrite last_snoc_before.
    + rewrite Em. apply enqueue_ring; [apply Hq| |unfold sizeof_thread in *; lia|apply Hq|apply Hq].
      intros x Hx. destruct (qo_threads _ _ Hq x Hx) as [(X1 & X2 & _) _]. unfold sizeof_thread in *.
      split; [lia|by apply Hd].
    + intros x Hx. rewrite Em. destruct (Hall x Hx) as [->|[Hx1 Hdx]].
      * split; [rewrite <- Em; by apply Hmap|]. unfold mem_enqueue. by rewrite rd_wr_same.
      * destruct (qo_threads _ _ Hq x Hx1) as [X1 X2]. split; [rewrite <- Em; by apply Hmap|].
        assert (Hsep : forall y, y ∈ ts ++ [t] -> x = y \/ disjoint_threads x y).
        { intros y Hy. destruct (Hall y Hy) as [->|[Hy1 _]]; [by right|].
          destruct (decide (x = y)); [by left|right; by apply (qo_disjoint _ _ Hq)]. }
        pose proof (Hsep _ (proj1 Hends)) as D1. pose proof (Hsep _ (proj2 Hends)) as D2.
        unfold disjoint_threads, sizeof_thread in *. rewrite enqueue_rd by lia. done.
    + intros x y Hx Hy Hne. destruct (Hall x Hx) as [->|[Hx1 Hdx]], (Hall y Hy) as [->|[Hy1 Hdy]].
      * done.
      * unfold disjoint_threads in *. lia.
      * done.
      * by apply (qo_disjoint _ _ Hq).
    + apply list.NoDup_app. split; [apply Hq|]. split; [|apply NoDup_singleton].
      intros x Hx ->%list_elem_of_singleton. done.
    + rewrite G3 by done. apply Hq.
  - intros a Ha Hne. rewrite Em. unfold mem_enqueue. pose proof (Ha _ (proj1 Hends)). pose proof (Ha _ (proj2 Hends)).
    assert (t ∈ ts ++ [t]) as Hti by (apply elem_of_app; right; by apply list_elem_of_singleton). pose proof (Ha _ Hti).
    by rewrite !lookup_wr_out by lia.
Qed.

(** * Choosing the next thread *)

(** A thread that is not blocked, not running, and whose lock is free. *)
Definition runnable m t : bool :=
  bool_decide (rd 1 m (t + thread_blocked) = Some 0 /\ rd 1 m (t + thread_running) = Some 0 /\
               rd 4 m (t + thread_lock) = Some 0).

(** The current thread of this processor. *)
Definition current s c : Prop := rd 8 (mem s) (gval s g_gs_base + cpu_current_thread) = Some c.

(** [next] of the first thread is the second. *)
Definition leads m (xy : Z * Z) : Prop := rd 8 m (fst xy + thread_next) = Some (snd xy).

Definition ring_pairs l : list (Z * Z) := match l with [] => [] | a :: l' => pairs a l' a end.

Lemma ring_leads m ts : ring m ts -> Forall (leads m) (ring_pairs ts).
Proof. destruct ts; [constructor|]. apply Forall_impl. by intros xy [H _]. Qed.

(** The ring as seen from one of its threads. *)
Lemma ring_rotate (P : Z * Z -> Prop) l1 c l2 : Forall P (ring_pairs (l1 ++ c :: l2)) -> Forall P (pairs c (l2 ++ l1) c).
Proof.
  destruct l1 as [|a l1]; [by rewrite app_nil_r|]. cbn [ring_pairs app]. rewrite !pairs_app, !Forall_app. tauto.
Qed.

Lemma next_body_eq s c t next :
  thread_at (mem s) t -> t <> c -> rd 8 (mem s) (t + thread_next) = Some next ->
  next_thread_body c t s =
    if runnable (mem s) t then Ok (inr t) (lock_set s (LM (t + thread_lock)) 1) else Ok (inl next) s.
Proof.
  intros Tt Hct Hnx. pose proof Tt as (T0 & _ & _).
  assert (Hrd : forall (n : nat) a, t <= a -> a + Z.of_nat n <= t + sizeof_thread -> exists v, rd n (mem s) a = Some v)
    by (intros n a A1 A2; apply rd_Some; eapply thread_mapped; [exact Tt|lia|lia]).
  destruct (Hrd 1%nat (t + thread_blocked)) as [bl Hbl]; [lia|unfold sizeof_thread; lia|].
  destruct (Hrd 1%nat (t + thread_running)) as [ru Hru]; [lia|unfold sizeof_thread; lia|].
  destruct (Hrd 4%nat (t + thread_lock)) as [lk Hlk]; [lia|unfold sizeof_thread; lia|]. clear Hrd.
  unfold next_thread_body, runnable. destruct (Z.eqb_spec t c); [congruence|]. unfold NULL.
  destruct (Z.eqb_spec t 0); [lia|]. cbv iota beta delta [orb]. rewrite (ld_then 1 _ bl) by done.
    rewrite Hbl, Hru, Hlk. destruct (Z.eqb_spec bl 0) as [->|Hb].
    - cbv iota beta delta [negb]. rewrite (ld_then 1 _ ru) by done. destruct (Z.eqb_spec ru 0) as [->|Hr'].
      + unfold mbind at 1, K_bind at 1. rewrite (test_and_acq_eq _ _ lk) by done. destruct (Z.eqb_spec lk 0) as [->|Hl].
        * by rewrite bool_decide_eq_true_2.
        * rewrite bool_decide_eq_false_2 by (intros (? & ? & ?); congruence).
          simpl lock_set. rewrite wr_rd_id by done. destruct s as [ms gs tr]. unfold with_mem. cbn [mem glob trace].
          by rewrite (ld_then 8 _ next).
      + rewrite bool_decide_eq_false_2 by (intros (? & ? & ?); congruence). cbv iota beta delta [negb].
        by rewrite (bind_Ok (mret false) _ s false s), (ld_then 8 _ next).
    - rewrite bool_decide_eq_false_2 by (intros (? & ? & ?); congruence). cbv iota beta delta [negb].
      rewrite (bind_Ok (mret 1) _ s 1 s) by done. change (1 =? 0) with false. cbv iota.
      by rewrite (bind_Ok (mret false) _ s false s), (ld_then 8 _ next).
Qed.

Lemma next_runs s c l x :
  Forall (leads (mem s)) (pairs x l c) -> c ∉ l -> (forall t, t ∈ l -> thread_at (mem s) t) ->
  let r := List.find (runnable (mem s)) l in
  exists j, (j <= S (length l))%nat /\
    runs (next_thread_body c) j (default c (head l)) s (default NULL r)
      (match r with Some t => lock_set s (LM (t + thread_lock)) 1 | None => s end).
Proof.
  revert x. induction l as [|t l IH]; intros x Hf Hc Ht r.
  - exists 1%nat. split; [lia|]. apply runs_exit. unfold next_thread_body. simpl. by rewrite Z.eqb_refl.
  - simpl pairs in Hf. apply list.Forall_cons in Hf as [_ Hf]. apply not_elem_of_cons in Hc as [Hct Hc].
    assert (Tt : thread_at (mem s) t) by (apply Ht, elem_of_cons; by left). pose proof Tt as (T0 & _ & _).
    assert (Hnx : rd 8 (mem s) (t + thread_next) = Some (default c (head l)))
      by (destruct l; apply list.Forall_cons in Hf as [H _]; exact H).
    pose proof (next_body_eq s c t _ Tt (not_eq_sym Hct) Hnx) as Hbody.
    unfold r. cbn [List.find]. destruct (runnable (mem s) t) eqn:Er.
    + exists 1%nat. split; [lia|]. by apply runs_exit.
    + destruct (IH t Hf Hc) as (j & Hj & Hrun); [intros t' Ht'; apply Ht, elem_of_cons; by right|].
      exists (S j). split; [simpl; lia|]. eapply runs_next; [exact Hbody|exact Hrun].
Qed.

Lemma threads_length m l : NoDup l -> (forall t, t ∈ l -> thread_at m t) -> Z.of_nat (length l) + 1 <= 2 ^ 64.
Proof.
  intros Hnd Ht. assert (Hle : (length l <= length (seqZ 1 (2 ^ 64 - 1)))%nat).
  { apply submseteq_length, NoDup_submseteq; [done|]. intros x Hx. apply elem_of_seqZ.
    destruct (Ht x Hx) as (X1 & X2 & _). unfold sizeof_thread in X2. lia. }
  rewrite length_seqZ in Hle. lia.
Qed.

(** The search goes through the threads that the links lead to. *)
Lemma next_from s c l :
  current s c -> Forall (leads (mem s)) (pairs c l c) -> NoDup (c :: l) -> (forall t, t ∈ c :: l -> thread_at (mem s) t) ->
  let r := List.find (runnable (mem s)) l in
  get_next_thread s =
    Ok (default NULL r) (match r with Some t => lock_set s (LM (t + thread_lock)) 1 | None => s end).
Proof.
  intros Hc Hr Hnd Ht r. pose proof (threads_length _ _ Hnd Ht) as Hlen. rewrite length_cons in Hlen.
  apply list.NoDup_cons in Hnd as [Hci _].
  destruct (next_runs s c l c Hr Hci) as (j & Hj & Hrun); [intros t Hin; apply Ht, elem_of_cons; by right|].
  assert (Hfirst : rd 8 (mem s) (c + thread_next) = Some (default c (head l)))
    by (destruct l; apply list.Forall_cons in Hr as [H _]; exact H).
  unfold get_next_thread, get_current_thread, this_cpu.
  rewrite (bind_Ok _ _ s c s); [|unfold mbind, K_bind, gget; apply ld_ok, Hc].
  rewrite (ld_then 8 _ _ _ _ Hfirst). apply (kloop_runs _ j); [exact Hrun|lia].
Qed.

(** C7: [get_next_thread] is round robin: from the current thread it walks once
    around the ring and takes the first thread that is neither blocked nor running
    and whose lock it obtains; without one it returns a null pointer and changes
    nothing. *)
Theorem get_next_thread_round_robin s l1 c l2 :
  queue_ok s (l1 ++ c :: l2) -> current s c ->
  let r := List.find (runnable (mem s)) (l2 ++ l1) in
  get_next_thread s =
    Ok (default NULL r) (match r with Some t => lock_set s (LM (t + thread_lock)) 1 | None => s end).
Proof.
  intros Hq Hc r.
  assert (Hp : c :: l2 ++ l1 ≡ₚ l1 ++ c :: l2) by (rewrite <- Permutation_middle; apply perm_skip, Permutation_app_comm).
  apply (next_from s c (l2 ++ l1)); [done|apply ring_rotate, ring_leads, Hq|rewrite Hp; apply Hq|].
  intros t Ht. rewrite Hp in Ht. by apply (qo_threads _ _ Hq).
Qed.

(** * Dequeueing *)

(** The memory without [t] between [prev] and [next]; [w] is the word of its lock. *)
Definition unlink_mem m t next prev w : gmap Z byte :=
  wr 1 (wr 1 (wr 4 (wr 8 (wr 8 m (next + thread_prev) prev) (prev + thread_next) next) (t + thread_lock) w)
    (t + thread_enqueued) 0) (t + thread_running) 0.

Lemma dequeue_eq s t next prev w :
  thread_at (mem s) t -> thread_at (mem s) next -> thread_at (mem s) prev -> disjoint_threads next t -> disjoint_threads prev t ->
  rd 1 (mem s) (t + thread_enqueued) = Some 1 -> rd 8 (mem s) (t + thread_next) = Some next ->
  rd 8 (mem s) (t + thread_prev) = Some prev -> rd 4 (mem s) (t + thread_lock) = Some w ->
  dequeue_thread t s = Ok true (with_mem s (unlink_mem (mem s) t next prev (fst (CAS w 1 0)))).
Proof.
  intros Tt Tn Tp Dn Dp He Hn Hp Hw. unfold disjoint_threads, sizeof_thread in Dn, Dp. unfold dequeue_thread.
  rewrite (ld_then 1 _ _ _ _ He). change (1 =? 0) with false. cbv iota.
  rewrite (ld_then 8 _ _ _ _ Hn), (ld_then 8 _ _ _ _ Hp).
  rewrite st_then by (eapply thread_mapped; [exact Tn|lia|unfold sizeof_thread; lia]).
  rewrite (ld_then 8 _ prev) by (cbn [mem with_mem]; rewrite rd_wr_ne; [done|lia]).
  rewrite (ld_then 8 _ next) by (cbn [mem with_mem]; rewrite rd_wr_ne; [done|lia]).
  rewrite st_then by (cbn [mem with_mem]; apply mapped_wr; eapply thread_mapped; [exact Tp|lia|unfold sizeof_thread; lia]).
  cbn [mem with_mem]. rewrite with_mem_mem. set (m2 := wr 8 (wr 8 _ _ _) _ _).
  assert (Hm2 : mapped m2 t sizeof_thread) by (unfold m2; do 2 apply mapped_wr; apply Tt). unfold sizeof_thread in Hm2.
  rewrite (bind_Ok _ _ _ tt (with_mem s (wr 4 m2 (t + thread_lock) (fst (CAS w 1 0))))).
  2:{ unfold spinlock_release, lock_read, lock_write.
      rewrite (ld_then 4 _ w) by (cbn [mem with_mem]; unfold m2; rewrite !rd_wr_ne by lia; done).
      unfold CAS. destruct (w =? 1); cbn [fst]; (rewrite st_ok; [by rewrite with_mem_mem|]); cbn [mem with_mem];
        (eapply mapped_sub; [exact Hm2|lia|lia]). }
  rewrite st_then by (cbn [mem with_mem]; apply mapped_wr; eapply mapped_sub; [exact Hm2|lia|lia]).
  cbn [mem with_mem]. rewrite with_mem_mem.
  rewrite st_then by (cbn [mem with_mem]; do 2 apply mapped_wr; eapply mapped_sub; [exact Hm2|lia|lia]).
  cbn [mem with_mem]. by rewrite with_mem_mem.
Qed.

(** The last thread of a queue: apart from the others, between the one before it and the first. *)
Lemma queue_last_apart s l t : queue_ok s (l ++ [t]) -> forall x, x ∈ l -> disjoint_threads x t.
Proof.
  intros Hq x Hx. pose proof (qo_nodup _ _ Hq) as Hnd. apply list.NoDup_app in Hnd as (_ & Hnt & _).
  apply (qo_disjoint _ _ Hq); [apply elem_of_app; by left|apply elem_of_app; right; by apply list_elem_of_singleton|].
  intros ->. apply (Hnt t Hx). by apply list_elem_of_singleton.
Qed.

Lemma queue_last_links s a l' t :
  queue_ok s ((a :: l') ++ [t]) ->
  rd 8 (mem s) (t + thread_next) = Some a /\ rd 8 (mem s) (t + thread_prev) = Some (before a l').
Proof.
  intros Hq. pose proof (qo_ring _ _ Hq) as Hr. destruct (pairs_last a l') as [L HL].
  unfold ring in Hr. cbn [app] in Hr. rewrite pairs_app, HL in Hr. cbn [pairs] in Hr.
  apply Forall_app in Hr as [Hr Hr2]. apply Forall_app in Hr as [_ Hr1].
  apply list.Forall_cons in Hr1 as [[_ H1] _]. apply list.Forall_cons in Hr2 as [[H2 _] _]. by split.
Qed.

(** The last thread of the queue, [t], is dequeued and [t'] is enqueued: [queue.end] is
    still [t], and the new thread is linked behind it. *)
Definition lost_mem m t t' a e w : gmap Z byte := mem_enqueue (unlink_mem m t a e w) t' t a.

Lemma find_ext (f g : Z -> bool) l : (forall x, x ∈ l -> f x = g x) -> List.find f l = List.find g l.
Proof.
  induction l as [|x l IH]; intros H; [done|]. simpl. rewrite (H x) by (apply elem_of_cons; by left).
  rewrite IH; [done|]. intros y Hy. apply H, elem_of_cons. by right.
Qed.

Section lost.
Context (m : gmap Z byte) (a : Z) (l' : list Z) (t t' w : Z) (l := a :: l') (e := before a l').
Context (Hring : ring m (l ++ [t])) (Hnd : NoDup l) (Hap : forall x y, x ∈ l -> y ∈ l -> x <> y -> disjoint_threads x y)
  (Ht : forall x, x ∈ l -> disjoint_threads x t) (Ht' : forall x, x ∈ l ++ [t] -> disjoint_threads x t') (Ha : 0 <= a < 2 ^ 64).

Lemma lost_member x : x ∈ l ->
  (x = a \/ disjoint_threads x a) /\ (x = e \/ disjoint_threads x e) /\ disjoint_threads x t /\ disjoint_threads x t'.
Proof.
  intros Hx. assert (Ia : a ∈ l) by (apply elem_of_cons; by left). pose proof (before_elem a l') as Ie. fold e in Ie.
  split; [destruct (decide (x = a)); [by left|right; by apply Hap]|].
  split; [destruct (decide (x = e)); [by left|right; by apply Hap]|]. split; [by apply Ht|]. apply Ht', elem_of_app. by left.
Qed.

Lemma lost_last : disjoint_threads t t'.
Proof. apply Ht', elem_of_app. right. by apply list_elem_of_singleton. Qed.

Lemma lost_rd (n : nat) x o :
  x ∈ l \/ x = t' -> (n, o) ∈ [(1%nat, thread_blocked); (1%nat, thread_running); (4%nat, thread_lock)] ->
  rd n (lost_mem m t t' a e w) (x + o) = rd n m (x + o).
Proof.
  intros Hx Ho. pose proof lost_last as D0. pose proof (before_elem a l') as Ie. fold e l in Ie.
  assert (Ia : a ∈ l) by (apply elem_of_cons; by left).
  pose proof (lost_member a Ia) as (_ & _ & A3 & A4). pose proof (lost_member e Ie) as (_ & _ & E3 & E4).
  unfold lost_mem, mem_enqueue, unlink_mem, disjoint_threads, sizeof_thread in *.
  destruct Hx as [Hx| ->].
  - destruct (lost_member x Hx) as (D1 & D2 & D3 & D4). unfold disjoint_threads, sizeof_thread in *.
    repeat (apply elem_of_cons in Ho as [[= -> ->]|Ho]); try (by apply elem_of_nil in Ho); by rewrite !rd_wr_ne by lia.
  - repeat (apply elem_of_cons in Ho as [[= -> ->]|Ho]); try (by apply elem_of_nil in Ho); by rewrite !rd_wr_ne by lia.
Qed.

Lemma lost_runnable x : x ∈ l \/ x = t' -> runnable (lost_mem m t t' a e w) x = runnable m x.
Proof.
  intros Hx. unfold runnable. rewrite (lost_rd 1 x thread_blocked), (lost_rd 1 x thread_running), (lost_rd 4 x thread_lock); try done;
    rewrite ?elem_of_cons; tauto.
Qed.

Lemma lost_leads : Forall (leads (lost_mem m t t' a e w)) (ring_pairs l).
Proof.
  pose proof lost_last as D0. pose proof (before_elem a l') as Ie. fold e l in Ie. assert (Ia : a ∈ l) by (apply elem_of_cons; by left).
  pose proof Hring as Hr. unfold ring, l in Hr. cbn [app] in Hr. rewrite pairs_app in Hr. apply Forall_app in Hr as [Hr _].
  destruct (pairs_last a l') as [L HL]. cbn [ring_pairs l]. rewrite HL in Hr |- *. fold e in Hr |- *.
  apply Forall_app in Hr as [HrL _].
  assert (EL1 : L.*1 ++ [e] = l) by (unfold l; rewrite <- (pairs_fst a l' a), HL, fmap_app; done).
  pose proof Hnd as Hnd0. rewrite <- EL1 in Hnd0. apply list.NoDup_app in Hnd0 as (_ & Hne & _).
  pose proof (lost_member a Ia) as (_ & A2 & A3 & A4). pose proof (lost_member e Ie) as (_ & _ & E3 & E4).
  unfold lost_mem, mem_enqueue, unlink_mem, disjoint_threads, sizeof_thread in *. apply Forall_app. split.
  - apply list.Forall_forall. intros [x y] Hxy. destruct (proj1 (list.Forall_forall _ _) HrL _ Hxy) as [R1 _].
    unfold leads in *. cbn [fst snd] in *.
    assert (Ix1 : x ∈ L.*1) by (apply list_elem_of_fmap; by exists (x, y)).
    assert (Hxe : x <> e) by (intros ->; apply (Hne e Ix1); by apply list_elem_of_singleton).
    assert (Ix : x ∈ l) by (rewrite <- EL1; apply elem_of_app; by left).
    destruct (lost_member x Ix) as (D1 & D2 & D3 & D4). unfold disjoint_threads, sizeof_thread in *.
    by rewrite !rd_wr_ne by lia.
  - apply list.Forall_singleton. unfold leads. cbn [fst snd]. do 8 (rewrite rd_wr_ne by lia). rewrite rd_wr_same. f_equal. by apply Z.mod_small.
Qed.

End lost.

(** What both operations leave. *)
Lemma lost_run s a l' t t' (l := a :: l') :
  queue_ok s (l ++ [t]) -> thread_at (mem s) t' -> rd 1 (mem s) (t' + thread_enqueued) = Some 0 ->
  (forall x, x ∈ l ++ [t] -> disjoint_threads x t') ->
  exists s1 s2 w, dequeue_thread t s = Ok true s1 /\ sched_enqueue_thread t' s1 = Ok true s2 /\
    mem s2 = lost_mem (mem s) t t' a (before a l') w /\ gval s2 g_gs_base = gval s g_gs_base.
Proof.
  intros Hq Tt' He' Hd'. set (e := before a l'). pose proof (before_elem a l') as Ie. fold e l in Ie.
  assert (Ia : a ∈ l) by (apply elem_of_cons; by left).
  assert (Hin : forall x, x ∈ l -> x ∈ l ++ [t]) by (intros x Hx; apply elem_of_app; by left).
  assert (It : t ∈ l ++ [t]) by (apply elem_of_app; right; by apply list_elem_of_singleton).
  assert (Hth : forall x, x ∈ l ++ [t] -> thread_at (mem s) x) by (intros x Hx; by apply (qo_threads _ _ Hq)).
  pose proof (queue_last_apart _ _ _ Hq) as Ht.
  pose proof (qo_ends _ _ Hq) as Hends. cbn [app l] in Hends. rewrite last_snoc_before in Hends. destruct Hends as [Hst Hen].
  assert (Hlk : exists w, rd 4 (mem s) (t + thread_lock) = Some w).
  { apply rd_Some. eapply thread_mapped; [by apply Hth|lia|unfold sizeof_thread; lia]. }
  destruct Hlk as [w Hw]. destruct (queue_last_links _ _ _ _ Hq) as [Hta Hte]. fold e in Hte.
  set (w' := fst (CAS w 1 0)). set (s1 := with_mem s (unlink_mem (mem s) t a e w')).
  assert (E1 : dequeue_thread t s = Ok true s1).
  { apply dequeue_eq; auto. by apply (qo_threads _ _ Hq). }
  assert (Hm1 : forall x, thread_at (mem s) x -> thread_at (mem s1) x).
  { intros x (X1 & X2 & X3). split; [done|]. split; [done|]. by do 5 apply mapped_wr. }
  assert (Hle : link_ends s1 t' = (a, t)).
  { unfold link_ends, s1. rewrite !gval_with_mem, Hst, Hen. destruct (Hth a) as (A0 & _); [auto|]. destruct (Hth t) as (T0 & _); [done|].
    unfold NULL. destruct (Z.eqb_spec a 0); [lia|]. by destruct (Z.eqb_spec t 0); [lia|]. }
  pose proof (enqueue_run s1 t') as Hrun. rewrite Hle in Hrun. cbv zeta in Hrun. cbn [fst snd] in Hrun.
  assert (D0 : disjoint_threads t t') by (by apply Hd').
  assert (He1 : rd 1 (mem s1) (t' + thread_enqueued) = Some 0).
  { unfold s1, unlink_mem. cbn [mem with_mem]. pose proof (Hd' a (Hin a Ia)). pose proof (Hd' e (Hin e Ie)).
    unfold disjoint_threads, sizeof_thread in *. by rewrite !rd_wr_ne by lia. }
  destruct Hrun as (s2 & E2 & M2 & _ & _ & G2 & _);
    [unfold s1; rewrite gval_with_mem; apply (qo_lock _ _ Hq)|by apply Hm1|by apply Hm1, Hth, Hin|by apply Hm1, Hth|done|].
  exists s1, s2, w'. split; [done|]. split; [done|]. split; [done|]. rewrite G2 by done. apply gval_with_mem.
Qed.

(** C36: [dequeue_thread] leaves [queue.end] at the thread that it removes: when the
    last thread of the queue is dequeued while another thread [c] of the queue is
    current, and a thread [t'] is enqueued then, [t'] is marked as enqueued but no
    link of the ring leads to it: [get_next_thread] chooses the first runnable of the
    other threads that were in the queue, or none, also when only [t'] is runnable. *)
Theorem dequeue_loses_next_thread s l1 c l2 t t' (cpu := gval s g_gs_base + cpu_current_thread) :
  queue_ok s ((l1 ++ c :: l2) ++ [t]) -> current s c ->
  thread_at (mem s) t' -> rd 1 (mem s) (t' + thread_enqueued) = Some 0 ->
  (forall x, x ∈ (l1 ++ c :: l2) ++ [t] -> disjoint_threads x t') ->
  (forall x, x ∈ (l1 ++ c :: l2) ++ [t; t'] -> cpu + 8 <= x \/ x + sizeof_thread <= cpu) ->
  let r := List.find (runnable (mem s)) (l2 ++ l1) in
  exists s1 s2 s3, dequeue_thread t s = Ok true s1 /\ sched_enqueue_thread t' s1 = Ok true s2 /\
    rd 1 (mem s2) (t' + thread_enqueued) = Some 1 /\ runnable (mem s2) t' = runnable (mem s) t' /\ current s2 c /\
    get_next_thread s2 = Ok (default NULL r) s3 /\ default NULL r <> t'.
Proof.
  intros Hq Hc Tt' He' Hd' Hcpu r.
  assert (Hl : exists a l', l1 ++ c :: l2 = a :: l') by (destruct l1; eexists _, _; done). destruct Hl as (a & l' & El).
  assert (Hrot : forall P, Forall P (ring_pairs (a :: l')) -> Forall P (pairs c (l2 ++ l1) c))
    by (intros P HP; rewrite <- El in HP; by apply ring_rotate).
  assert (Hp : c :: l2 ++ l1 ≡ₚ a :: l') by (rewrite <- El, <- Permutation_middle; apply perm_skip, Permutation_app_comm).
  rewrite El in Hq, Hd', Hcpu. clear El. set (l := a :: l') in *.
  pose proof (before_elem a l') as Ie. fold l in Ie. assert (Ia : a ∈ l) by (apply elem_of_cons; by left).
  assert (Hin : forall x, x ∈ l -> x ∈ l ++ [t]) by (intros x Hx; apply elem_of_app; by left).
  assert (Hth : forall x, x ∈ l ++ [t] -> thread_at (mem s) x) by (intros x Hx; by apply (qo_threads _ _ Hq)).
  assert (Hap : forall x y, x ∈ l -> y ∈ l -> x <> y -> disjoint_threads x y) by (intros x y Hx Hy; apply (qo_disjoint _ _ Hq); auto).
  pose proof (queue_last_apart _ _ _ Hq) as Ht. pose proof (qo_ring _ _ Hq) as Hr.
  pose proof (qo_nodup _ _ Hq) as Hnd. apply list.NoDup_app in Hnd as (Hnd & _).
  assert (Ha : 0 <= a < 2 ^ 64) by (destruct (Hth a) as (A0 & A1 & _); [by apply Hin|]; unfold sizeof_thread in A1; lia).
  destruct (lost_run s a l' t t' Hq Tt' He' Hd') as (s1 & s2 & w & E1 & E2 & M2 & G2).
  assert (Hsame : forall x, x ∈ l \/ x = t' -> runnable (mem s2) x = runnable (mem s) x)
    by (intros x Hx; rewrite M2; by apply (lost_runnable (mem s) a l' t t' w)).
  assert (Hc2 : current s2 c).
  { unfold current. rewrite G2, <- Hc, M2. pose proof (Hcpu a ltac:(apply elem_of_app; by left)).
    pose proof (Hcpu (before a l') ltac:(apply elem_of_app; by left)).
    pose proof (Hcpu t ltac:(apply elem_of_app; right; apply elem_of_cons; by left)).
    pose proof (Hcpu t' ltac:(apply elem_of_app; right; apply elem_of_cons; right; by apply list_elem_of_singleton)).
    unfold lost_mem, mem_enqueue, unlink_mem, sizeof_thread, cpu in *. by rewrite !rd_wr_ne by lia. }
  assert (Hf : List.find (runnable (mem s2)) (l2 ++ l1) = r).
  { apply find_ext. intros x Hx. apply Hsame. left. rewrite <- Hp. by apply elem_of_cons; right. }
  pose proof (next_from s2 c (l2 ++ l1) Hc2) as Hn. rewrite Hf in Hn.
  exists s1, s2. eexists. split; [done|]. split; [done|]. split; [rewrite M2; apply rd_wr_same|].
  split; [apply Hsame; by right|]. split; [done|]. split; [apply Hn|].
  - apply Hrot. rewrite M2. by apply (lost_leads (mem s) a l' t t' w).
  - by rewrite Hp.
  - intros x Hx. rewrite Hp in Hx. rewrite M2. destruct (Hth x (Hin x Hx)) as (X1 & X2 & X3). split; [done|]. split; [done|]. by do 10 apply mapped_wr.
  - destruct r as [x|] eqn:Er; simpl; [|by destruct Tt' as (T0 & _); unfold NULL; lia].
    apply List.find_some in Er as [Hx _]. apply list_elem_of_In in Hx.
    assert (Hxl : x ∈ l) by (rewrite <- Hp; by apply elem_of_cons; right).
    intros ->. specialize (Hd' t' (Hin t' Hxl)). unfold disjoint_threads, sizeof_thread in Hd'. lia.
Qed.

End queue.

(** * Examples *)

(** Threads at [0x1000], [0x2000] and [0x3000]; the processor's structure at
    [0x800], where the first thread is current. *)
Definition sched_machine : kstate :=
  KState (wr 8 (zeros 0x800 (Z.to_nat 0x3000)) 0x808 0x1000) {[ g_gs_base := 0x800 ]} [].

Definition run_enqueues (ts : list Z) (s : kstate) : kstate :=
  fold_left (fun s t => ok_state (sched_enqueue_thread t s) s) ts s.

Lemma sched_machine_empty : queue_ok sched_machine [].
Proof. split; [done|done|by intros t ?%elem_of_nil|by intros t t' ?%elem_of_nil|constructor|done]. Qed.

Lemma sched_machine_thread t : 0x800 <= t -> t + 104 <= 0x3800 -> thread_at (mem sched_machine) t.
Proof.
  intros H1 H2. split; [lia|]. unfold sizeof_thread. split; [lia|]. unfold sched_machine. cbn [mem].
  apply mapped_wr. intros x Hx. apply zeros_mapped. lia.
Qed.

Lemma sched_enqueue_appends_witness :
  exists s', sched_enqueue_thread 0x1000 sched_machine = Ok true s' /\ queue_ok s' [0x1000] /\
     (forall a, (forall x, x ∈ [0x1000] -> ~ (x + thread_prev <= a < x + thread_cr3)) -> a <> 0x1000 + thread_enqueued ->
        mem s' !! a = mem sched_machine !! a) /\
     (forall v, v <> g_queue_start -> v <> g_queue_end -> gval s' v = gval sched_machine v).
Proof.
  apply (sched_enqueue_appends sched_machine [] 0x1000);
    [apply sched_machine_empty|apply sched_machine_thread; lia|vm_compute; reflexivity|by intros x ?%elem_of_nil].
Defined.

(** Two threads in the ring, the first of them current. *)
Definition sched_two_mem : gmap Z byte :=
  let m := wr 8 (zeros 0x800 (Z.to_nat 0x3000)) 0x808 0x1000 in
  let m := wr 8 (wr 8 (wr 8 (wr 8 m 0x1008 0x2000) 0x1010 0x2000) 0x2008 0x1000) 0x2010 0x1000 in
  wr 1 (wr 1 m 0x1051 1) 0x2051 1.
Definition sched_two : kstate :=
  KState sched_two_mem {[ g_gs_base := 0x800; g_queue_start := 0x1000; g_queue_end := 0x2000 ]} [].

Lemma sched_two_queue : queue_ok sched_two [0x1000; 0x2000].
Proof.
  assert (Hm : mapped sched_two_mem 0x800 0x3000).
  { unfold sched_two_mem. do 7 apply mapped_wr. intros x Hx. apply zeros_mapped. lia. }
  split; [done| | | | |done].
  - cbn [ring pairs mem sched_two]. repeat (apply List.Forall_cons || apply List.Forall_nil); split; vm_compute; reflexivity.
  - intros t [->|[->|[]%elem_of_nil]%elem_of_cons]%elem_of_cons; (split; [|vm_compute; reflexivity]);
      (split; [lia|]); unfold sizeof_thread; (split; [lia|]); (eapply mapped_sub; [exact Hm|lia|lia]).
  - intros t t' [->|[->|[]%elem_of_nil]%elem_of_cons]%elem_of_cons [->|[->|[]%elem_of_nil]%elem_of_cons]%elem_of_cons Hne;
      unfold disjoint_threads, sizeof_thread; lia.
  - by apply (bool_decide_unpack _).
Qed.

Lemma get_next_thread_round_robin_witness :
  get_next_thread sched_two = Ok 0x2000 (lock_set sched_two (LM (0x2000 + thread_lock)) 1).
Proof.
  assert (Hf : List.find (runnable (mem sched_two)) ([0x2000] ++ []) = Some 0x2000) by (vm_compute; reflexivity).
  pose proof (get_next_thread_round_robin sched_two [] 0x1000 [0x2000] sched_two_queue) as H. cbv zeta in H.
  rewrite Hf in H. apply H. vm_compute. reflexivity.
Defined.

Lemma sched_two_mapped : mapped sched_two_mem 0x800 0x3000.
Proof. unfold sched_two_mem. do 7 apply mapped_wr. intros x Hx. apply zeros_mapped. lia. Qed.

Lemma dequeue_loses_next_thread_witness :
  exists s1 s2 s3, dequeue_thread 0x2000 sched_two = Ok true s1 /\ sched_enqueue_thread 0x3000 s1 = Ok true s2 /\
    rd 1 (mem s2) (0x3000 + thread_enqueued) = Some 1 /\ runnable (mem s2) 0x3000 = true /\ current s2 0x1000 /\
    get_next_thread s2 = Ok NULL s3 /\ NULL <> 0x3000.
Proof.
  assert (Hr : runnable (mem sched_two) 0x3000 = true) by (vm_compute; reflexivity). rewrite <- Hr. clear Hr.
  apply (dequeue_loses_next_thread sched_two [] 0x1000 [] 0x2000 0x3000); cbn [app].
  - apply sched_two_queue.
  - vm_compute. reflexivity.
  - split; [lia|]. unfold sizeof_thread. split; [lia|]. eapply mapped_sub; [apply sched_two_mapped|lia|lia].
  - vm_compute. reflexivity.
  - intros x Hx. repeat (apply elem_of_cons in Hx as [->|Hx]); [| |by apply elem_of_nil in Hx]; unfold disjoint_threads, sizeof_thread; lia.
  - change (gval sched_two g_gs_base) with 0x800. intros x Hx.
    repeat (apply elem_of_cons in Hx as [->|Hx]); [| | |by apply elem_of_nil in Hx]; unfold sizeof_thread; lia.
Defined.
