(* ===== verification/Smp.v ===== *)
(** The processor registers of [sys/cpu.h] and the start of the cores in
    [sys/smp.c].

    The model-specific and control registers that the sources use are globals of
    the state.  One core runs; what the other cores do after they were sent to
    [core_init] is not part of a run. *)
From S2P Require Import Prelude Machine Lock Str Layout Interfaces PageTable Vmm KheapSpec Heap Vector Lapic Gdt Idt Sched.
Import Lock.Seq.

Definition MSR_EFER : Z := 0xC0000080.
Definition MSR_STAR : Z := 0xC0000081.
Definition MSR_LSTAR : Z := 0xC0000082.
Definition MSR_CSTAR : Z := 0xC0000083.
Definition MSR_FMASK : Z := 0xC0000084.
Definition MSR_FSBASE : Z := 0xC0000100.
Definition MSR_GSBASE : Z := 0xC0000101.
Definition MSR_KGSBASE : Z := 0xC0000102.

(** The register of a number; any other number raises an exception. *)
Definition msr_var (msr : Z) : option gvar :=
  if msr =? MSR_EFER then Some g_efer
  else if msr =? MSR_STAR then Some g_star
  else if msr =? MSR_LSTAR then Some g_lstar
  else if msr =? MSR_CSTAR then Some g_cstar
  else if msr =? MSR_FMASK then Some g_fmask
  else if msr =? MSR_FSBASE then Some g_fs_base
  else if msr =? MSR_GSBASE then Some g_gs_base
  else if msr =? MSR_KGSBASE then Some g_kgs_base
  else if msr =? 0x1b then Some g_apic_base
  else None.

(** The instructions: [edx:eax] to and from the register. *)
Definition wrmsr_insn (msr eax edx : Z) : K unit :=
  match msr_var msr with Some v => gput v (edx * 2 ^ 32 + eax) | None => fault end.
Definition rdmsr_insn (msr : Z) : K (Z * Z) :=
  match msr_var msr with
  | Some v => x ← gget v; mret (x mod 2 ^ 32, x / 2 ^ 32 mod 2 ^ 32)
  | None => fault
  end.

Definition wrmsr (msr val : Z) : K Z :=
  let eax := u32 val in
  let edx := u32 (Z.shiftr val 32) in
  wrmsr_insn msr eax edx ;;
  mret (Z.lor (u64 (Z.shiftl edx 32)) eax).

Definition rdmsr (msr : Z) : K Z :=
  '(eax, edx) ← rdmsr_insn msr;
  mret (Z.lor (u64 (Z.shiftl edx 32)) eax).

Definition read_gs_base : K Z := rdmsr MSR_GSBASE.
Definition read_kgs_base : K Z := rdmsr MSR_KGSBASE.
Definition read_fs_base : K Z := rdmsr MSR_FSBASE.
Definition set_gs_base (addr : Z) : K unit := wrmsr MSR_GSBASE addr ;; mret tt.
Definition set_fs_base (addr : Z) : K unit := wrmsr MSR_FSBASE addr ;; mret tt.
Definition set_kgs_base (addr : Z) : K unit := wrmsr MSR_KGSBASE addr ;; mret tt.

Definition read_cr0 : K Z := gget g_cr0.
Definition write_cr0 (val : Z) : K unit := gput g_cr0 val.
Definition read_cr3 : K Z := gget g_cr3.
Definition write_cr3 (val : Z) : K unit := gput g_cr3 val.
Definition read_cr4 : K Z := gget g_cr4.
Definition write_cr4 (val : Z) : K unit := gput g_cr4 val.

(** [cpu_local_t], with the packed [tss_t] at its end. *)
Abbreviation cpu_kernel_stack := 0 (only parsing).
Abbreviation cpu_number := 24 (only parsing).
Abbreviation cpu_bsp := 40 (only parsing).
Abbreviation cpu_tss := 48 (only parsing).
Abbreviation tss_rsp0 := 4 (only parsing).
Abbreviation tss_ist1 := 36 (only parsing).
Definition sizeof_tss : Z := 104.
Definition sizeof_cpu_local : Z := cpu_tss + sizeof_tss.

(** The value of the register that [syscall] and [sysret] take their segments from. *)
Definition star_value : Z :=
  Z.lor (Z.lor 0 (Z.shiftl (Z.lor 0x30 3) 48)) (Z.shiftl 0x28 32).

Section smp.
Context (HHDM_OFFSET : Z) `{FA : !FrameAllocator HHDM_OFFSET} `{KH : KernelHeap} (mmio_value port_value : list event -> Z -> Z).
(** The static objects and the assembly entry point, the answer of [cpuid] in
    [edx], the members of the bootloader's [struct limine_smp_info], and its answer. *)
Context (FILE cpus gdt gdtr idtr syscall_entry_asm core_init_ptr : Z) (cpuid_edx : Z -> Z).
Context (info_lapic_id info_goto_address info_extra_argument : Z).
Context (cpu_count bsp_lapic_id smp_cpus : Z).

(** [edx && (uint32_t)1 << 11] is a logical and: any feature bit enables it. *)
Definition syscall_setup : K unit :=
  if negb (cpuid_edx 0x80000001 =? 0) then
    efer ← rdmsr MSR_EFER;
    wrmsr MSR_EFER (Z.lor efer 1) ;;
    wrmsr MSR_STAR star_value ;;
    wrmsr MSR_LSTAR syscall_entry_asm ;;
    wrmsr MSR_CSTAR 0 ;;
    wrmsr MSR_FMASK 0x200 ;;
    mret tt
  else
    printf "Syscall is not supported." [] ;;
    kassert false.

Definition sse_setup : K unit :=
  cr0 ← read_cr0;
  write_cr0 (Z.lor (Z.land cr0 (u64 (Z.lnot (Z.shiftl 1 2)))) (Z.shiftl 1 1)) ;;
  cr4 ← read_cr4;
  write_cr4 (Z.lor cr4 (Z.shiftl 3 9)).

Definition core_init (info : Z) : K unit :=
  syscall_setup ;;
  local ← ld 8 (info + info_extra_argument);
  number ← ld 8 (local + cpu_number);
  let number := s32 number in
  vector_replace cpus local (u64 number) ;;
  gdt_load gdt gdtr ;;
  idt_load idtr ;;
  int_stack ← frame_alloc STACK_SIZE;
  kassert (negb (int_stack =? NULL)) ;;
  let stack := u64 (int_stack + HHDM_OFFSET + STACK_SIZE) in
  st 8 (local + cpu_tss + tss_rsp0) stack ;;
  st 8 (local + cpu_kernel_stack) stack ;;
  sched_stack ← frame_alloc STACK_SIZE;
  kassert (negb (sched_stack =? NULL)) ;;
  st 8 (local + cpu_tss + tss_ist1) (u64 (sched_stack + HHDM_OFFSET + STACK_SIZE)) ;;
  gdt_load_tss gdt (local + cpu_tss) ;;
  kernel_pagemap ← gget g_kernel_pagemap;
  vmm_switch_pagemap HHDM_OFFSET kernel_pagemap ;;
  idle_thread ← heap_calloc sizeof_thread;
  st 1 (idle_thread + thread_blocked) 1 ;;
  st 8 (idle_thread + thread_cpu) local ;;
  kernel_process ← gget g_kernel_process;
  st 8 (idle_thread + thread_process) kernel_process ;;
  st 8 (local + cpu_idle_thread) idle_thread ;;
  st 8 (local + cpu_current_thread) idle_thread ;;
  sched_enqueue_thread idle_thread ;;
  set_gs_base local ;;
  sse_setup ;;
  lapic_init HHDM_OFFSET mmio_value port_value ;;
  printf "Processor #%d is running. \n" [number] ;;
  running ← gget g_cpus_running;
  gput g_cpus_running (u64 (running + 1)) ;;
  bsp ← ld 1 (local + cpu_bsp);
  if bsp =? 0 then sched_await HHDM_OFFSET else mret tt.

(** One entry of the bootloader's list. *)
Definition smp_start (i : Z) : K unit :=
  cpu ← ld 8 (smp_cpus + 8 * i);
  local ← heap_calloc sizeof_cpu_local;
  st 8 (cpu + info_extra_argument) local ;;
  st 8 (local + cpu_number) i ;;
  lapic_id ← ld 4 (cpu + info_lapic_id);
  st 8 (local + cpu_lapic_id) lapic_id ;;
  lapic_id ← ld 4 (cpu + info_lapic_id);
  if negb (lapic_id =? bsp_lapic_id) then
    cpu ← ld 8 (smp_cpus + 8 * i);
    st 8 (cpu + info_goto_address) core_init_ptr
  else
    st 1 (local + cpu_bsp) 1 ;;
    core_init cpu.

(** The wait for the other cores. *)
Definition smp_wait (_ : unit) : K (unit + unit) :=
  running ← gget g_cpus_running;
  if running =? cpu_count then mret (inr tt) else asm "pause" 0 ;; mret (inl tt).

Definition smp_init : K unit :=
  vector_create FILE cpus sizeof_cpu_local ;;
  vector_resize cpus cpu_count ;;
  kfor 0 cpu_count smp_start ;;
  kloop smp_wait tt.

End smp.
