(* ===== verification/SmpSpec.v ===== *)
(** The model-specific registers, and the segments of the system call instructions. *)
From S2P Require Import Prelude Machine Lock Str Layout Interfaces Lapic Gdt Smp.

(** A 64-bit value is its two halves. *)
Lemma halves_join x : 0 <= x < 2 ^ 64 -> Z.lor (u64 (Z.shiftl (x / 2 ^ 32) 32)) (x mod 2 ^ 32) = x.
Proof.
  intros Hx. rewrite Z.shiftl_mul_pow2 by lia. rewrite u64_small by zlia. rewrite Z.mul_comm.
  rewrite lor_add_disjoint by zlia. zlia.
Qed.

Lemma wrmsr_eq s msr v val :
  msr_var msr = Some v -> 0 <= val < 2 ^ 64 -> wrmsr msr val s = Ok val (with_glob s v val).
Proof.
  intros Hv Hval. unfold wrmsr, wrmsr_insn. rewrite Hv. rewrite Z.shiftr_div_pow2 by lia.
  unfold u32. rewrite (Z.mod_small (val / 2 ^ 32)) by zlia. rewrite (bind_Ok _ _ s tt (with_glob s v val)).
  - by rewrite halves_join.
  - unfold gput. do 2 f_equal. zlia.
Qed.

Lemma rdmsr_eq s msr v : msr_var msr = Some v -> 0 <= gval s v < 2 ^ 64 -> rdmsr msr s = Ok (gval s v) s.
Proof.
  intros Hv Hr. unfold rdmsr, rdmsr_insn. rewrite Hv.
  rewrite (bind_Ok _ _ s (gval s v mod 2 ^ 32, gval s v / 2 ^ 32 mod 2 ^ 32) s) by done.
  rewrite (Z.mod_small (gval s v / 2 ^ 32)) by zlia. by rewrite halves_join.
Qed.

(** A bitwise or does not leave the width. *)
Lemma lor_range x y n : 0 <= n -> 0 <= x < 2 ^ n -> 0 <= y < 2 ^ n -> 0 <= Z.lor x y < 2 ^ n.
Proof.
  intros Hn Hx Hy. assert (H0 : 0 <= Z.lor x y) by (apply Z.lor_nonneg; lia). split; [done|].
  destruct (Z.eq_dec (Z.lor x y) 0) as [->|Hne]; [lia|]. apply Z.log2_lt_pow2; [lia|].
  rewrite Z.log2_lor by lia.
  assert (Hl : forall z, 0 <= z < 2 ^ n -> 0 < n -> Z.log2 z < n).
  { intros z Hz Hn0. destruct (Z.eq_dec z 0) as [->|]; [done|]. apply Z.log2_lt_pow2; lia. }
  destruct (Z.eq_dec n 0) as [->|]; [assert (x = 0) by lia; assert (y = 0) by lia; by subst|].
  apply Z.max_lub_lt; apply Hl; lia.
Qed.

(** What the processor does with the register (AMD APM 3, SYSCALL and SYSRET, in
    64-bit mode): the selectors that it loads. *)
Definition syscall_cs (star : Z) : Z := Z.land (Z.shiftr star 32) 0xfffc.
Definition syscall_ss (star : Z) : Z := syscall_cs star + 8.
Definition sysret_cs (star : Z) : Z := Z.lor (Z.land (Z.shiftr star 48) 0xffff + 16) 3.
Definition sysret_ss (star : Z) : Z := Z.lor (Z.land (Z.shiftr star 48) 0xffff + 8) 3.

(** C29: a core that has loaded the table of [gdt_init] and run the system call setup
    of [core_init] enters the kernel on [syscall] in 64-bit code and data segments
    of privilege 0, and leaves it on [sysret] to those of privilege 3; the
    instruction is enabled, the entry point is [syscall_entry_asm], and interrupts
    are masked on entry. *)
Theorem syscall_setup_segments s gdt gdtr entry (cpuid_edx : Z -> Z) :
  0 <= gdt < 2 ^ 64 -> mapped (mem s) gdt sizeof_gdt -> mapped (mem s) gdtr 10 ->
  gdt + sizeof_gdt <= gdtr \/ gdtr + 10 <= gdt ->
  cpuid_edx 0x80000001 <> 0 -> 0 <= entry < 2 ^ 64 -> 0 <= gval s g_efer < 2 ^ 64 ->
  exists s', (gdt_init gdt gdtr ;; syscall_setup entry cpuid_edx) s = Ok tt s' /\
    Z.testbit (gval s' g_efer) 0 = true /\ gval s' g_lstar = entry /\ Z.testbit (gval s' g_fmask) 9 = true /\
    (forall sel P, (sel, P) ∈ [(syscall_cs (gval s' g_star), code64 0); (syscall_ss (gval s' g_star), data_segment 0);
         (sysret_cs (gval s' g_star), code64 3); (sysret_ss (gval s' g_star), data_segment 3)] ->
       exists d, descriptor (mem s') gdt sel = Some d /\ P d).
Proof.
  intros Hg Hm Hmr Hap Hid He Hefer. destruct (gdt_init_eq s gdt gdtr Hg Hm Hmr Hap) as (m & E & _ & _ & Hd & _).
  rewrite (bind_Ok _ _ _ _ _ E). clear E. set (s1 := KState m _ _).
  assert (Hefer1 : 0 <= gval s1 g_efer < 2 ^ 64) by exact Hefer.
  pose proof (lor_range (gval s1 g_efer) 1 64 ltac:(lia) Hefer1 ltac:(lia)) as Hor.
  unfold syscall_setup. destruct (Z.eqb_spec (cpuid_edx 0x80000001) 0); [done|]. cbn [negb].
  rewrite (bind_Ok _ _ _ _ _ (rdmsr_eq s1 MSR_EFER g_efer eq_refl Hefer1)).
  rewrite (bind_Ok _ _ _ _ _ (wrmsr_eq _ MSR_EFER g_efer _ eq_refl Hor)).
  rewrite (bind_Ok _ _ _ _ _ (wrmsr_eq _ MSR_STAR g_star star_value eq_refl ltac:(vm_compute; by split))).
  rewrite (bind_Ok _ _ _ _ _ (wrmsr_eq _ MSR_LSTAR g_lstar _ eq_refl He)).
  rewrite (bind_Ok _ _ _ _ _ (wrmsr_eq _ MSR_CSTAR g_cstar 0 eq_refl ltac:(lia))).
  rewrite (bind_Ok _ _ _ _ _ (wrmsr_eq _ MSR_FMASK g_fmask 0x200 eq_refl ltac:(lia))).
  eexists. split; [reflexivity|].
  rewrite gval_with_glob_eq. repeat (rewrite gval_with_glob_ne by done; rewrite ?gval_with_glob_eq).
  split; [by rewrite Z.lor_spec, orb_true_r|]. split; [done|]. split; [done|].
  intros sel P Hin. cbn [mem with_glob s1]. apply gdt_segments; [exact Hd|].
  change (syscall_cs star_value) with 0x28 in Hin. change (syscall_ss star_value) with 0x30 in Hin.
  change (sysret_cs star_value) with (Z.lor 0x40 3) in Hin. change (sysret_ss star_value) with (Z.lor 0x38 3) in Hin.
  repeat (apply elem_of_cons in Hin as [->|Hin]; [repeat (apply elem_of_cons; (by left) || right)|]). by apply elem_of_nil in Hin.
Qed.

Lemma syscall_setup_segments_witness :
  exists s', (gdt_init 0x1000 0x2000 ;; syscall_setup 0xffffffff80001000 (fun _ => 0x2c100800)) gdt_machine = Ok tt s' /\
    Z.testbit (gval s' g_efer) 0 = true /\ gval s' g_lstar = 0xffffffff80001000 /\ Z.testbit (gval s' g_fmask) 9 = true /\
    (forall sel P, (sel, P) ∈ [(syscall_cs (gval s' g_star), code64 0); (syscall_ss (gval s' g_star), data_segment 0);
         (sysret_cs (gval s' g_star), code64 3); (sysret_ss (gval s' g_star), data_segment 3)] ->
       exists d, descriptor (mem s') 0x1000 sel = Some d /\ P d).
Proof.
  apply (syscall_setup_segments gdt_machine 0x1000 0x2000 0xffffffff80001000 (fun _ => 0x2c100800));
    [lia|apply gdt_machine_mapped|apply gdt_machine_mapped|unfold sizeof_gdt; lia|done|lia|done].
Defined.
