(* ===== verification/Asm.v ===== *)
(** The assembly of the kernel: the interrupt stubs of [sys/idt/isr.asm], the entry
    of system calls in [sys/syscalls/syscall_handler.asm], [load_gdt] of
    [memory/gdt/loadgdt.asm] and the [asm] statement of [switch_to_thread].

    A processor is a register file beside the kernel's state, which has the memory
    and the bases of the segments.  The instructions are those that these files
    use; their semantics is that of the processor's manual, without the checks of
    privileges and descriptors.  Of the flags only what [cmp] leaves for [jne] is
    kept beside [rflags] itself. *)
From S2P Require Import Prelude Machine Lock Str Layout Lapic Gdt Idt Sched Smp SmpSpec.

Inductive reg :=
  | rax | rbx | rcx | rdx | rsi | rdi | rbp | rsp
  | r8 | r9 | r10 | r11 | r12 | r13 | r14 | r15.
Inductive sreg := cs | ss | ds | es | fs | gs.

#[export] Instance reg_eq_dec : EqDecision reg.
Proof. solve_decision. Defined.
#[export] Instance sreg_eq_dec : EqDecision sreg.
Proof. solve_decision. Defined.

Record cpu := Cpu { gpr : reg -> Z; sel : sreg -> Z; rip : Z; rflags : Z; zf : bool }.

Definition upd {A} `{EqDecision A} (f : A -> Z) (x : A) (v : Z) : A -> Z :=
  fun y => if decide (x = y) then v else f y.
Definition set_gpr (c : cpu) (r : reg) (v : Z) : cpu := Cpu (upd (gpr c) r v) (sel c) (rip c) (rflags c) (zf c).
Definition set_sel (c : cpu) (r : sreg) (v : Z) : cpu := Cpu (gpr c) (upd (sel c) r v) (rip c) (rflags c) (zf c).
Definition set_rip (c : cpu) (v : Z) : cpu := Cpu (gpr c) (sel c) v (rflags c) (zf c).
Definition set_rflags (c : cpu) (v : Z) : cpu := Cpu (gpr c) (sel c) (rip c) v (zf c).
Definition set_zf (c : cpu) (b : bool) : cpu := Cpu (gpr c) (sel c) (rip c) (rflags c) b.

(** * Instructions *)

Inductive instr :=
  | Ipush (r : reg)                  (* push r *)
  | Ipush_i (v : Z)                  (* push qword v *)
  | Ipush_m (r : reg) (d : Z)        (* push qword [r + d] *)
  | Ipush_gs                         (* push qword [gs:0] *)
  | Ipop (r : reg)                   (* pop r *)
  | Imov_i (r : reg) (v : Z)         (* mov r, v; lea r, [v] *)
  | Imov_i16 (r : reg) (v : Z)       (* mov of the low 16 bits of r *)
  | Imov (r r' : reg)                (* mov r, r' *)
  | Imov_from (r : reg) (g : sreg)   (* mov r, g *)
  | Imov_to (g : sreg) (r : reg)     (* mov g, r *)
  | Iadd_i (r : reg) (v : Z)         (* add r, v *)
  | Iadd (r r' : reg)                (* add r, r' *)
  | Izero (r : reg)                  (* xor r, r *)
  | Icmp_m (r : reg) (d v : Z)       (* cmp qword [r + d], v *)
  | Ijne (n : nat)                   (* jne over the next n instructions *)
  | Ixchg_gs (r : reg)               (* xchg r, [gs:0] *)
  | Imov_gs (r : reg)                (* mov [gs:0], r *)
  | Iadd_gs (v : Z)                  (* add qword [gs:0], v *)
  | Iswapgs
  | Icld
  | Icli
  | Ilgdt (r : reg)                  (* lgdt [r] *)
  | Icall_m (r : reg) (d k : Z)      (* call [r * k + d] *)
  | Iiretq
  | Isysret                          (* o64 sysret *)
  | Iretfq.

Section exec.
(** What runs between [call] and the return: a function of the target and the
    processor.  [return_address] is what [call] pushes, [seg_base] the base of the
    descriptor that a selector names. *)
Variables (run : Z -> cpu -> K cpu) (return_address : Z) (seg_base : Z -> Z).

Definition push (c : cpu) (v : Z) : K cpu :=
  let sp := u64 (gpr c rsp - 8) in
  st 8 sp v ;; mret (set_gpr c rsp sp).

(** The selectors of [fs] and [gs] also load a base. *)
Definition load_base (g : sreg) (v : Z) : K unit :=
  match g with
  | fs => gput g_fs_base (seg_base v)
  | gs => gput g_gs_base (seg_base v)
  | _ => mret tt
  end.

Definition step (i : instr) (c : cpu) : K cpu :=
  match i with
  | Ipush r => push c (gpr c r)
  | Ipush_i v => push c v
  | Ipush_m r d => v ← ld 8 (u64 (gpr c r + d)); push c v
  | Ipush_gs => base ← gget g_gs_base; v ← ld 8 base; push c v
  | Ipop r => v ← ld 8 (gpr c rsp); mret (set_gpr (set_gpr c rsp (u64 (gpr c rsp + 8))) r v)
  | Imov_i r v => mret (set_gpr c r v)
  | Imov_i16 r v => mret (set_gpr c r (gpr c r - u16 (gpr c r) + v))
  | Imov r r' => mret (set_gpr c r (gpr c r'))
  | Imov_from r g => mret (set_gpr c r (sel c g))
  | Imov_to g r => load_base g (u16 (gpr c r)) ;; mret (set_sel c g (u16 (gpr c r)))
  | Iadd_i r v => mret (set_gpr c r (u64 (gpr c r + v)))
  | Iadd r r' => mret (set_gpr c r (u64 (gpr c r + gpr c r')))
  | Izero r => mret (set_gpr c r 0)
  | Icmp_m r d v => x ← ld 8 (u64 (gpr c r + d)); mret (set_zf c (x =? v))
  | Ijne _ => mret c
  | Ixchg_gs r => base ← gget g_gs_base; v ← ld 8 base; st 8 base (gpr c r) ;; mret (set_gpr c r v)
  | Imov_gs r => base ← gget g_gs_base; st 8 base (gpr c r) ;; mret c
  | Iadd_gs v => base ← gget g_gs_base; x ← ld 8 base; st 8 base (u64 (x + v)) ;; mret c
  | Iswapgs => g ← gget g_gs_base; k ← gget g_kgs_base; gput g_gs_base k ;; gput g_kgs_base g ;; mret c
  | Icld => mret (set_rflags c (Z.land (rflags c) (Z.lnot (2 ^ 10))))
  | Icli => mret (set_rflags c (Z.land (rflags c) (Z.lnot (2 ^ 9))))
  | Ilgdt r => asm "lgdt" (gpr c r) ;; mret c
  | Icall_m r d k =>
      target ← ld 8 (u64 (gpr c r * k + d));
      c ← push c return_address;
      run target c
  | Iiretq =>
      let sp := gpr c rsp in
      ip ← ld 8 sp; code ← ld 8 (u64 (sp + 8)); flags ← ld 8 (u64 (sp + 16));
      sp' ← ld 8 (u64 (sp + 24)); stack ← ld 8 (u64 (sp + 32));
      mret (set_rip (set_rflags (set_sel (set_sel (set_gpr c rsp sp') cs (u16 code)) ss (u16 stack)) flags) ip)
  | Isysret =>
      star ← gget g_star;
      let c := set_sel (set_sel c cs (sysret_cs star)) ss (sysret_ss star) in
      mret (set_rip (set_rflags c (Z.lor (Z.land (gpr c r11) 0x3c7fd7) 2)) (gpr c rcx))
  | Iretfq =>
      let sp := gpr c rsp in
      ip ← ld 8 sp; code ← ld 8 (u64 (sp + 8));
      mret (set_rip (set_sel (set_gpr c rsp (u64 (sp + 16))) cs (u16 code)) ip)
  end.

(** Straight-line code with forward jumps: [skip] instructions are passed over. *)
Fixpoint exec (skip : nat) (p : list instr) (c : cpu) : K cpu :=
  match p, skip with
  | [], _ => mret c
  | _ :: p', S skip' => exec skip' p' c
  | i :: p', O =>
      match i with
      | Ijne n => exec (if zf c then O else n) p' c
      | _ => c' ← step i c; exec O p' c'
      end
  end.

End exec.

(** * The code *)

Section code.
(** The addresses of the tables [isr] and [syscall_table]. *)
Variables (isr syscall_table : Z).

Definition saved : list reg := [rax; rbx; rcx; rdx; rsi; rdi; rbp; r8; r9; r10; r11; r12; r13; r14; r15].

(** The vectors for which the stub does not push an error code of its own. *)
Definition stub_has_code (v : Z) : bool :=
  existsb (Z.eqb v) [8; 10; 11; 12; 13; 14; 17; 30].

(** The first part of the stub of vector [v], up to the call of the handler. *)
Definition isr_enter (v : Z) : list instr :=
  (if stub_has_code v then [] else [Ipush_i 0]) ++
  [Icmp_m rsp 16 0x3b; Ijne 1; Iswapgs] ++
  (Ipush <$> saved) ++
  [Imov_from rax ds; Ipush rax; Imov_from rax es; Ipush rax; Icld;
   Imov_i rax 0x30; Imov_to ds rax; Imov_to es rax; Imov_to ss rax;
   Imov_i rdi v; Imov_i rax (v * 8); Imov_i rbx isr; Iadd rbx rax; Imov rsi rsp; Izero rbp].

Definition isr_leave : list instr :=
  [Ipop rax; Imov_to es rax; Ipop rax; Imov_to ds rax] ++
  (Ipop <$> rev saved) ++
  [Iadd_i rsp 8; Icmp_m rsp 8 0x3b; Ijne 1; Iswapgs; Iiretq].

Definition isr_stub (v : Z) : list instr := isr_enter v ++ [Icall_m rbx 0 1] ++ isr_leave.

Definition syscall_enter : list instr :=
  [Iswapgs; Ixchg_gs rsp; Ipush_gs; Imov_gs rsp; Iadd_gs 8;
   Ipush_i 0x43; Ipush_m rsp 8; Ipush r11; Ipush_i 0x3b; Ipush rcx; Ipush_i 0] ++
  (Ipush <$> saved) ++
  [Imov_from r11 ds; Ipush r11; Imov_from r11 es; Ipush r11; Imov rcx r10; Icld;
   Imov_i r11 0x30; Imov_to ds r11; Imov_to es r11].

Definition syscall_leave : list instr :=
  [Ipop r11; Imov_to es r11; Ipop r11; Imov_to ds r11] ++
  (Ipop <$> [r15; r14; r13; r12; r11; r10; r9; r8; rbp; rdi; rsi]) ++
  [Iadd_i rsp 8; Ipop rcx; Ipop rbx; Iadd_i rsp 0x38; Ipop rsp; Icli; Iswapgs; Isysret].

Definition syscall_entry_asm : list instr := syscall_enter ++ [Icall_m rax syscall_table 8] ++ syscall_leave.

(** The statement of [switch_to_thread]: the frame is at [state]. *)
Definition switch_code (state : Z) : list instr :=
  [Imov_i rsp state; Ipop rax; Imov_to es rax; Ipop rax; Imov_to ds rax] ++
  (Ipop <$> rev saved) ++ [Iadd_i rsp 8; Iswapgs; Iiretq].

Definition load_gdt : list instr :=
  [Icli; Ilgdt rdi; Imov_i16 rax 0x30; Imov_to ds rax; Imov_to es rax; Imov_to fs rax; Imov_to gs rax; Imov_to ss rax;
   Ipop rdi; Imov_i rax 0x28; Ipush rax; Ipush rdi; Iretfq].

End code.

(** * What the processor does by itself *)

(** The vectors that come with an error code. *)
Definition has_code (v : Z) : bool :=
  existsb (Z.eqb v) [8; 10; 11; 12; 13; 14; 17; 21; 29; 30].

Definition push_all (c : cpu) (l : list Z) : K cpu :=
  foldl (fun k v => c ← k; push c v) (mret c) l.

(** The delivery of an interrupt through a gate of [idt_init] to the stack [top]:
    the processor aligns it, pushes the interrupted state and masks interrupts. *)
Definition deliver (top err v entry : Z) (c : cpu) : K cpu :=
  let c' := set_gpr c rsp (Z.land top (Z.lnot 0xf)) in
  c' ← push_all c' ([sel c ss; gpr c rsp; rflags c; sel c cs; rip c] ++ (if has_code v then [err] else []));
  mret (set_rip (set_sel (set_rflags c' (Z.land (rflags c) (Z.lnot (2 ^ 9)))) cs 0x28) entry).

(** The instruction [syscall]: [rip] is behind it already. *)
Definition syscall_insn (c : cpu) : K cpu :=
  star ← gget g_star; lstar ← gget g_lstar; mask ← gget g_fmask;
  let c' := set_gpr (set_gpr c rcx (rip c)) r11 (rflags c) in
  let c' := set_sel (set_sel c' cs (syscall_cs star)) ss (syscall_ss star) in
  mret (set_rip (set_rflags c' (Z.land (rflags c) (Z.lnot mask))) lstar).
