(* ===== verification/AsmSpec.v ===== *)
(** What the assembly promises: the interrupt stubs hand a frame with every register
    of the interrupted program to the handler and give the registers back, the
    switch to a thread resumes it where it was interrupted, and a system call
    returns with the caller's registers. *)
From S2P Require Import Prelude Machine Lock Str Layout Lapic Gdt Idt Sched Smp SmpSpec Asm.
#[local] Set Warnings "-clear-no-such-hyp".

(** * Words on the stack *)

Section words.
Implicit Types (m : gmap Z byte) (a w : Z) (l : list Z) (s : kstate) (c : cpu).

(** Consecutive 64-bit words. *)
Definition words_at m a l : Prop := forall i w, l !! i = Some w -> rd 8 m (a + 8 * Z.of_nat i) = Some w.

Lemma words_at_nil m a : words_at m a [].
Proof. by intros i w. Qed.

Lemma words_at_cons m a w l : words_at m a (w :: l) <-> rd 8 m a = Some w /\ words_at m (a + 8) l.
Proof.
  split.
  - intros H. split; [rewrite <- (H 0%nat w eq_refl); f_equal; lia|].
    intros i x Hx. rewrite <- (H (S i) x Hx). f_equal. lia.
  - intros [H1 H2] [|i] x Hx; [injection Hx as <-; rewrite <- H1; f_equal; lia|].
    rewrite <- (H2 i x Hx). f_equal. lia.
Qed.

Lemma words_at_app m a l l' :
  words_at m a (l ++ l') <-> words_at m a l /\ words_at m (a + 8 * Z.of_nat (length l)) l'.
Proof.
  revert a. induction l as [|w l IH]; intros a; simpl.
  - rewrite Z.add_0_r. split; [by split; [apply words_at_nil|]|tauto].
  - rewrite !words_at_cons, IH. replace (a + 8 * Z.of_nat (S (length l))) with (a + 8 + 8 * Z.of_nat (length l)) by lia. tauto.
Qed.

Lemma words_at_agree m m' a l :
  (forall x, a <= x < a + 8 * Z.of_nat (length l) -> m' !! x = m !! x) -> words_at m a l -> words_at m' a l.
Proof.
  intros Hm H i w Hi. rewrite <- (H i w Hi). apply lookup_lt_Some in Hi. apply rd_ext. intros x Hx. apply Hm. lia.
Qed.

(** The stack of [c] begins with the words [l], and there is room from [lo] on. *)
Record stack s c lo l : Prop := {
  sk_words : words_at (mem s) (gpr c rsp) l;
  sk_room : 0 <= lo <= gpr c rsp;
  sk_top : gpr c rsp + 8 * Z.of_nat (length l) < 2 ^ 64;
  sk_mapped : mapped (mem s) lo (gpr c rsp - lo)
}.

(** The registers outside [X] and everything else of the processor are the same. *)
Record only (X : list reg) c c' : Prop := {
  on_gpr : forall r, r ∉ X -> gpr c' r = gpr c r;
  on_sel : sel c' = sel c;
  on_rip : rip c' = rip c;
  on_rflags : rflags c' = rflags c;
  on_zf : zf c' = zf c
}.

Lemma only_refl X c : only X c c.
Proof. by split. Qed.
Lemma only_trans X c c' c'' : only X c c' -> only X c' c'' -> only X c c''.
Proof. intros [A1 A2 A3 A4 A5] [B1 B2 B3 B4 B5]. split; [intros r Hr; by rewrite B1, A1|congruence..]. Qed.
Lemma only_weaken X Y c c' : only X c c' -> X ⊆ Y -> only Y c c'.
Proof. intros [A1 A2 A3 A4 A5] H. split; [intros r Hr; apply A1; set_solver|done..]. Qed.

Lemma upd_same {A} `{EqDecision A} (f : A -> Z) x v : upd f x v x = v.
Proof. unfold upd. by rewrite decide_True. Qed.
Lemma upd_other {A} `{EqDecision A} (f : A -> Z) x y v : x <> y -> upd f x v y = f y.
Proof. intros H. unfold upd. by rewrite decide_False. Qed.

(** Only memory below the stack changed. *)
Definition below s s' lo hi : Prop :=
  glob s' = glob s /\ trace s' = trace s /\ same_outside lo (hi - lo) (mem s) (mem s').

Lemma below_refl s lo hi : below s s lo hi.
Proof. split; [done|]. split; [done|]. apply same_outside_refl. Qed.

Lemma below_trans s s' s'' lo hi hi' :
  below s s' lo hi -> below s' s'' lo hi' -> hi' <= hi -> below s s'' lo hi.
Proof.
  intros (G1 & T1 & D1 & O1) (G2 & T2 & D2 & O2) Hle. split; [congruence|]. split; [congruence|]. split.
  - intros x. by rewrite D2.
  - intros x Hx. rewrite O2 by lia. apply O1. lia.
Qed.

Lemma push_eq c v s lo l :
  stack s c lo l -> lo + 8 <= gpr c rsp -> 0 <= v < 2 ^ 64 ->
  exists s', push c v s = Ok (set_gpr c rsp (gpr c rsp - 8)) s' /\
    stack s' (set_gpr c rsp (gpr c rsp - 8)) lo (v :: l) /\ below s s' lo (gpr c rsp).
Proof.
  intros [Hw Hr Ht Hm] Hlo Hv. set (sp := gpr c rsp) in *.
  assert (Hmap : mapped (mem s) (sp - 8) 8) by (eapply mapped_sub; [exact Hm|lia|lia]).
  exists (with_mem s (wr 8 (mem s) (sp - 8) v)). unfold push. fold sp. rewrite u64_small by lia.
  split; [by rewrite (st_then 8 _ _ _ _ Hmap)|]. split; [|split; [done|split; [done|]]].
  - split; cbn [mem with_mem]; unfold set_gpr; cbn [gpr]; rewrite upd_same.
    + apply words_at_cons. split; [rewrite rd_wr_same; f_equal; apply Z.mod_small; simpl; lia|].
      replace (sp - 8 + 8) with sp by lia. eapply words_at_agree; [|exact Hw]. intros x Hx. apply lookup_wr_out. simpl. lia.
    + lia.
    + simpl length. lia.
    + apply mapped_wr. eapply mapped_sub; [exact Hm|lia|lia].
  - cbn [mem with_mem]. apply (same_outside_wr 8 _ _ v) in Hmap as [D O]. split; [done|].
    intros x Hx. apply O. lia.
Qed.

End words.

(** * Execution *)

Section exec.
Context (run : Z -> cpu -> K cpu) (return_address : Z) (seg_base : Z -> Z).
Local Abbreviation exec := (exec run return_address seg_base).
Local Abbreviation step := (step run return_address seg_base).
Implicit Types (s : kstate) (c : cpu) (p q : list instr) (l : list Z) (rs : list reg).

Definition is_jump (i : instr) : bool := match i with Ijne _ => true | _ => false end.

Lemma exec_cons i p c s c' s' : is_jump i = false -> step i c s = Ok c' s' -> exec 0 (i :: p) c s = exec 0 p c' s'.
Proof. intros Hi H. destruct i; (discriminate || (simpl; by rewrite (bind_Ok _ _ _ _ _ H))). Qed.

Lemma exec_pushes rs p c s lo l :
  stack s c lo l -> lo + 8 * Z.of_nat (length rs) <= gpr c rsp -> rsp ∉ rs ->
  (forall r, r ∈ rs -> 0 <= gpr c r < 2 ^ 64) ->
  exists c' s', exec 0 ((Ipush <$> rs) ++ p) c s = exec 0 p c' s' /\
    stack s' c' lo (rev (gpr c <$> rs) ++ l) /\ only [rsp] c c' /\
    gpr c' rsp = gpr c rsp - 8 * Z.of_nat (length rs) /\ below s s' lo (gpr c rsp).
Proof.
  revert c s l. induction rs as [|r rs IH]; intros c s l Hs Hlo Hn Hr.
  - exists c, s. split; [done|]. split; [done|]. split; [apply only_refl|]. split; [simpl; lia|apply below_refl].
  - simpl length in Hlo. apply not_elem_of_cons in Hn as [Hne Hn].
    destruct (push_eq c (gpr c r) s lo l Hs) as (s1 & E1 & Hs1 & B1); [lia|apply Hr, elem_of_cons; by left|].
    set (c1 := set_gpr c rsp (gpr c rsp - 8)) in *.
    assert (Hsp : gpr c1 rsp = gpr c rsp - 8) by apply upd_same.
    assert (Hother : forall r', r' <> rsp -> gpr c1 r' = gpr c r') by (intros r' Hr'; by apply upd_other).
    assert (Hmap : gpr c1 <$> rs = gpr c <$> rs).
    { apply list_fmap_ext. intros i x Hx. apply Hother. intros ->. by apply Hn, (list_elem_of_lookup_2 _ i). }
    destruct (IH c1 s1 (gpr c r :: l) Hs1) as (c2 & s2 & E2 & Hs2 & O2 & R2 & B2); [lia|done| |].
    { intros r' Hr'. rewrite Hother by (intros ->; done). apply Hr, elem_of_cons. by right. }
    exists c2, s2. split; [|split; [|split; [|split]]].
    + rewrite <- E2. by apply exec_cons.
    + rewrite Hmap in Hs2. cbn [fmap list_fmap rev]. by rewrite <- app_assoc.
    + eapply only_trans; [|exact O2]. split; [|done..]. intros r' Hr'. apply Hother. intros ->. by apply Hr', list_elem_of_singleton.
    + rewrite R2, Hsp. simpl length. lia.
    + eapply below_trans; [exact B1|exact B2|lia].
Qed.

Lemma exec_pops rs p c s lo ws l :
  stack s c lo (ws ++ l) -> length ws = length rs -> NoDup rs -> rsp ∉ rs ->
  exists c', exec 0 ((Ipop <$> rs) ++ p) c s = exec 0 p c' s /\ only (rsp :: rs) c c' /\
    gpr c' rsp = gpr c rsp + 8 * Z.of_nat (length rs) /\ (gpr c' <$> rs) = ws.
Proof.
  revert c lo ws. induction rs as [|r rs IH]; intros c lo [|w ws] Hs Hl Hd Hn; try discriminate.
  - exists c. split; [done|]. split; [apply only_refl|]. split; [simpl; lia|done].
  - apply list.NoDup_cons in Hd as [Hr Hd]. apply not_elem_of_cons in Hn as [Hne Hn]. simpl in Hs.
    destruct Hs as [Hw Hroom Ht Hm]. apply words_at_cons in Hw as [Hw1 Hw2]. simpl length in Ht.
    set (c1 := set_gpr (set_gpr c rsp (gpr c rsp + 8)) r w).
    assert (Hsp : gpr c1 rsp = gpr c rsp + 8) by (unfold c1, set_gpr; cbn [gpr]; rewrite upd_other by done; apply upd_same).
    assert (Hr1 : gpr c1 r = w) by apply upd_same.
    assert (Ho : only [rsp; r] c c1).
    { split; [|done..]. intros r' Hr'. unfold c1, set_gpr. cbn [gpr]. by rewrite !upd_other by set_solver. }
    assert (Hs1 : stack s c1 (gpr c rsp + 8) (ws ++ l)).
    { split; rewrite Hsp; [done|lia|lia|]. rewrite Z.sub_diag. intros x Hx. lia. }
    destruct (IH c1 _ ws Hs1) as (c2 & E2 & O2 & R2 & W2); [by injection Hl|done|done|].
    exists c2. split; [|split; [|split]].
    + rewrite <- E2. apply exec_cons; [done|]. simpl. rewrite (ld_then 8 _ _ _ _ Hw1). by rewrite u64_small by lia.
    + eapply only_trans; [eapply only_weaken; [exact Ho|set_solver]|eapply only_weaken; [exact O2|set_solver]].
    + rewrite R2, Hsp. simpl length. lia.
    + cbn [fmap list_fmap]. f_equal; [|done]. rewrite (on_gpr _ _ _ O2); [done|]. set_solver.
Qed.

(** A segment register goes to the stack through the register [a]. *)
Lemma exec_push_sel a g q c s lo l :
  a <> rsp -> stack s c lo l -> lo + 8 <= gpr c rsp -> 0 <= sel c g < 2 ^ 16 ->
  exists c' s', exec 0 (Imov_from a g :: Ipush a :: q) c s = exec 0 q c' s' /\ stack s' c' lo (sel c g :: l) /\
    only [rsp; a] c c' /\ gpr c' rsp = gpr c rsp - 8 /\ below s s' lo (gpr c rsp).
Proof.
  intros Ha Hs Hlo Hg. set (c1 := set_gpr c a (sel c g)).
  assert (Hsp : gpr c1 rsp = gpr c rsp) by (by apply upd_other).
  assert (Hva : gpr c1 a = sel c g) by apply upd_same.
  assert (Hs1 : stack s c1 lo l) by (destruct Hs; split; by rewrite ?Hsp).
  destruct (push_eq c1 (sel c g) s lo l Hs1) as (s2 & E2 & Hs2 & B2); [by rewrite Hsp|lia|]. rewrite Hsp in *.
  eexists _, s2. split; [|split; [exact Hs2|split; [|split; [apply upd_same|done]]]].
  - rewrite (exec_cons (Imov_from a g) _ c s c1 s) by done. apply exec_cons; [done|].
    change (step (Ipush a) c1 s) with (push c1 (gpr c1 a) s). by rewrite Hva.
  - split; [|done..]. intros r Hr. unfold c1, set_gpr. cbn [gpr]. by rewrite !upd_other by set_solver.
Qed.

(** The registers and data segments go to the stack, through the register [a]. *)
Lemma exec_saves a q c s lo l :
  a <> rsp -> stack s c lo l -> lo + 8 * 17 <= gpr c rsp -> (forall r, 0 <= gpr c r < 2 ^ 64) ->
  (forall g, 0 <= sel c g < 2 ^ 16) ->
  exists c' s', exec 0 ((Ipush <$> saved) ++ [Imov_from a ds; Ipush a; Imov_from a es; Ipush a] ++ q) c s = exec 0 q c' s' /\
    stack s' c' lo (sel c es :: sel c ds :: (gpr c <$> rev saved) ++ l) /\ only [rsp; a] c c' /\
    gpr c' rsp = gpr c rsp - 8 * 17 /\ below s s' lo (gpr c rsp).
Proof.
  intros Ha Hs Hlo Hr Hg.
  destruct (exec_pushes saved ([Imov_from a ds; Ipush a; Imov_from a es; Ipush a] ++ q) c s lo l Hs)
    as (c1 & s1 & E1 & Hs1 & O1 & R1 & B1); [simpl length; lia|unfold saved; set_solver|intros; apply Hr|]. simpl length in R1.
  rewrite E1. simpl app. assert (Hsel : sel c1 = sel c) by apply O1.
  destruct (exec_push_sel a ds (Imov_from a es :: Ipush a :: q) c1 s1 lo _ Ha Hs1) as (c2 & s2 & E2 & Hs2 & O2 & R2 & B2);
    [lia|rewrite Hsel; apply Hg|].
  assert (Hsel2 : sel c2 = sel c) by (rewrite (on_sel _ _ _ O2); apply O1).
  destruct (exec_push_sel a es q c2 s2 lo _ Ha Hs2) as (c3 & s3 & E3 & Hs3 & O3 & R3 & B3); [lia|rewrite Hsel2; apply Hg|].
  exists c3, s3. rewrite Hsel2, Hsel in Hs3. split; [by rewrite E2|]. split; [exact Hs3|].
  split; [eapply only_trans; [eapply only_weaken; [exact O1|set_solver]|by eapply only_trans]|]. split; [lia|].
  eapply below_trans; [exact B1|eapply below_trans; [exact B2|exact B3|lia]|lia].
Qed.

Lemma mov_to_eq g a c v s :
  gpr c a = v -> 0 <= v < 2 ^ 16 -> g <> fs -> g <> gs -> step (Imov_to g a) c s = Ok (set_sel c g v) s.
Proof.
  intros Ha Hv Hf Hg. cbn [Asm.step]. rewrite Ha. unfold u16. rewrite (Z.mod_small v) by lia. by destruct g.
Qed.

(** The way back: the data segments, through [a], and the registers [rs]. *)
Lemma exec_restores a rs q c s lo e d ws l :
  a <> rsp -> stack s c lo (e :: d :: ws ++ l) -> length ws = length rs -> NoDup rs -> rsp ∉ rs ->
  0 <= e < 2 ^ 16 -> 0 <= d < 2 ^ 16 ->
  exists c', exec 0 ([Ipop a; Imov_to es a; Ipop a; Imov_to ds a] ++ (Ipop <$> rs) ++ q) c s = exec 0 q c' s /\
    (forall r, r ∉ rsp :: a :: rs -> gpr c' r = gpr c r) /\ (gpr c' <$> rs) = ws /\
    gpr c' rsp = gpr c rsp + 8 * (2 + Z.of_nat (length rs)) /\
    sel c' es = e /\ sel c' ds = d /\ sel c' cs = sel c cs /\ sel c' ss = sel c ss /\
    rip c' = rip c /\ rflags c' = rflags c /\ zf c' = zf c.
Proof.
  intros Ha Hs Hl Hd Hn He Hdd. change (e :: d :: ws ++ l) with ([e; d] ++ ws ++ l) in Hs.
  destruct Hs as [Hw Hroom Ht Hm]. apply words_at_app in Hw as [Hw1 Hw2].
  apply words_at_cons in Hw1 as [We [Wd _]%words_at_cons]. rewrite !length_app in Ht. simpl length in *.
  set (sp := gpr c rsp) in *.
  set (c1 := set_sel (set_gpr (set_gpr c rsp (sp + 8)) a e) es e).
  set (c2 := set_sel (set_gpr (set_gpr c1 rsp (sp + 16)) a d) ds d).
  assert (H1 : gpr c1 rsp = sp + 8) by (unfold c1, set_sel, set_gpr; cbn [gpr]; rewrite upd_other by done; apply upd_same).
  assert (H2 : gpr c2 rsp = sp + 16) by (unfold c2, set_sel, set_gpr; cbn [gpr]; rewrite upd_other by done; apply upd_same).
  assert (Hs2 : stack s c2 (sp + 16) (ws ++ l)).
  { split; rewrite H2, ?length_app; [exact Hw2|lia|lia|intros x Hx; lia]. }
  destruct (exec_pops rs q c2 s _ ws l Hs2 Hl Hd Hn) as (c3 & E3 & [O1 O2 O3 O4 O5] & R3 & W3).
  exists c3. rewrite <- E3. split; [|split; [|split; [exact W3|split; [lia|]]]].
  - set (q' := (Ipop <$> rs) ++ q). change ([Ipop a; Imov_to es a; Ipop a; Imov_to ds a] ++ q') with (Ipop a :: Imov_to es a :: Ipop a :: Imov_to ds a :: q').
    rewrite (exec_cons (Ipop a) _ c s (set_gpr (set_gpr c rsp (sp + 8)) a e) s); [|done|].
    2: { simpl. fold sp. rewrite (ld_then 8 _ _ _ _ We). by rewrite u64_small by lia. }
    rewrite (exec_cons (Imov_to es a) _ _ s c1 s); [|done|].
    2: { by apply mov_to_eq; [apply upd_same|..]. }
    rewrite (exec_cons (Ipop a) _ c1 s (set_gpr (set_gpr c1 rsp (sp + 16)) a d) s); [|done|].
    2: { cbn [Asm.step]. rewrite H1. rewrite (ld_then 8 _ _ _ _ Wd). rewrite u64_small by lia. by replace (sp + 8 + 8) with (sp + 16) by lia. }
    apply exec_cons; [done|]. by apply mov_to_eq; [apply upd_same|..].
  - intros r Hr. rewrite O1 by set_solver. unfold c2, c1, set_sel, set_gpr. cbn [gpr]. by rewrite !upd_other by set_solver.
  - rewrite O2. unfold c2, c1, set_sel, set_gpr. cbn [sel]. rewrite O3, O4, O5.
    repeat (first [split | rewrite upd_same | rewrite upd_other by done | reflexivity]).
Qed.

(** * Frames *)

(** A processor whose registers hold values of their width. *)
Record cpu_ok c : Prop := {
  co_gpr : forall r, 0 <= gpr c r < 2 ^ 64;
  co_sel : forall g, 0 <= sel c g < 2 ^ 16;
  co_rip : 0 <= rip c < 2 ^ 64;
  co_rflags : 0 <= rflags c < 2 ^ 64
}.

(** [interrupt_frame_t] for a processor and an error code. *)
Definition hw_words c : list Z := [rip c; sel c cs; rflags c; gpr c rsp; sel c ss].
Definition frame_words c err : list Z :=
  sel c es :: sel c ds :: (gpr c <$> rev saved) ++ err :: hw_words c.

(** The state a program sees again. *)
Record resumed c c' : Prop := {
  rs_gpr : forall r, gpr c' r = gpr c r;
  rs_sel : forall g, g ∈ [cs; ss; ds; es] -> sel c' g = sel c g;
  rs_rip : rip c' = rip c;
  rs_rflags : rflags c' = rflags c
}.

Lemma saved_all r : r <> rsp -> r ∈ saved.
Proof. unfold saved. destruct r; try done; intros _; set_solver. Qed.

(** The registers of a list are determined by their values. *)
Lemma fmap_same c c' rs : gpr c' <$> rs = gpr c <$> rs -> forall r, r ∈ rs -> gpr c' r = gpr c r.
Proof.
  induction rs as [|r0 rs IH]; intros E r Hr; [by apply elem_of_nil in Hr|].
  injection E as E1 E2. apply elem_of_cons in Hr as [->|Hr]; [done|by apply IH].
Qed.

(** Everything but the last five words of a frame is popped. *)
Lemma exec_unframe q c s lo c0 err :
  stack s c lo (frame_words c0 err) -> cpu_ok c0 ->
  exists c', exec 0 ([Ipop rax; Imov_to es rax; Ipop rax; Imov_to ds rax] ++ (Ipop <$> rev saved) ++ Iadd_i rsp 8 :: q) c s =
      exec 0 q c' s /\
    stack s c' (gpr c' rsp) (hw_words c0) /\ gpr c' rsp = gpr c rsp + 144 /\
    (forall r, r <> rsp -> gpr c' r = gpr c0 r) /\ sel c' es = sel c0 es /\ sel c' ds = sel c0 ds.
Proof.
  intros Hs [Hg Hsel _ _].
  destruct (exec_restores rax (rev saved) (Iadd_i rsp 8 :: q) c s lo (sel c0 es) (sel c0 ds) (gpr c0 <$> rev saved) (err :: hw_words c0))
    as (c1 & E1 & O1 & W1 & R1 & S1 & S2 & _); [done|exact Hs|done| |unfold saved; simpl; set_solver|apply Hsel|apply Hsel|].
  { unfold saved. simpl. repeat (constructor; [set_solver|]). constructor. }
  simpl length in R1. destruct Hs as [Hw Hroom Ht Hm].
  set (c2 := set_gpr c1 rsp (gpr c rsp + 144)). exists c2.
  assert (R2 : gpr c2 rsp = gpr c rsp + 144) by apply upd_same.
  assert (Hw' : words_at (mem s) (gpr c rsp + 144) (hw_words c0)).
  { change (frame_words c0 err) with ((sel c0 es :: sel c0 ds :: (gpr c0 <$> rev saved) ++ [err]) ++ hw_words c0) in Hw.
    apply words_at_app in Hw as [_ Hw]. exact Hw. }
  change (length (frame_words c0 err)) with 23%nat in Ht.
  split; [|split; [|split; [done|split; [|by split]]]].
  - rewrite E1. apply exec_cons; [done|]. cbn [Asm.step]. rewrite R1. unfold c2. do 2 f_equal. rewrite u64_small by lia. lia.
  - split; rewrite R2; [done|lia|simpl length; lia|intros x Hx; lia].
  - intros r Hr. unfold c2, set_gpr. cbn [gpr]. rewrite upd_other by done.
    apply (fmap_same c0 c1 (rev saved) W1). apply list_elem_of_In, in_rev, list_elem_of_In. rewrite rev_involutive. by apply saved_all.
Qed.

(** [iretq] takes the rest. *)
Lemma iretq_eq c s c0 lo :
  stack s c lo (hw_words c0) -> cpu_ok c0 ->
  exists c', step Iiretq c s = Ok c' s /\ gpr c' rsp = gpr c0 rsp /\ (forall r, r <> rsp -> gpr c' r = gpr c r) /\
    sel c' cs = sel c0 cs /\ sel c' ss = sel c0 ss /\ sel c' ds = sel c ds /\ sel c' es = sel c es /\
    rip c' = rip c0 /\ rflags c' = rflags c0.
Proof.
  intros [Hw Hroom Ht Hm] [Hg Hsel _ _]. simpl length in Ht.
  apply words_at_cons in Hw as [W1 [W2 [W3 [W4 [W5 _]%words_at_cons]%words_at_cons]%words_at_cons]%words_at_cons].
  rewrite <- !Z.add_assoc in *. simpl Z.add in *.
  eexists. split; [|split; [|split]].
  - cbn [Asm.step]. rewrite !u64_small by lia.
    rewrite (ld_then 8 _ _ _ _ W1), (ld_then 8 _ _ _ _ W2), (ld_then 8 _ _ _ _ W3), (ld_then 8 _ _ _ _ W4), (ld_then 8 _ _ _ _ W5).
    reflexivity.
  - apply upd_same.
  - intros r Hr. by apply upd_other.
  - cbn [set_rip set_rflags set_sel set_gpr sel rip rflags]. unfold u16.
    rewrite !(Z.mod_small (sel c0 _)) by apply Hsel.
    repeat (first [split | rewrite upd_same | rewrite upd_other by done | reflexivity]).
Qed.

(** * Interrupts *)

Lemma push_all_run vs (k : K cpu) s0 c s lo l :
  k s0 = Ok c s -> stack s c lo l -> lo + 8 * Z.of_nat (length vs) <= gpr c rsp -> Forall (fun v => 0 <= v < 2 ^ 64) vs ->
  exists c' s', foldl (fun k v => c ← k; push c v) k vs s0 = Ok c' s' /\
    stack s' c' lo (rev vs ++ l) /\ only [rsp] c c' /\ gpr c' rsp = gpr c rsp - 8 * Z.of_nat (length vs) /\
    below s s' lo (gpr c rsp).
Proof.
  revert k s0 c s l. induction vs as [|v vs IH]; intros k s0 c s l Hk Hs Hlo Hv.
  - exists c, s. split; [done|]. split; [done|]. split; [apply only_refl|]. split; [simpl; lia|apply below_refl].
  - apply list.Forall_cons in Hv as [Hv Hvs]. simpl length in Hlo.
    destruct (push_eq c v s lo l Hs) as (s1 & E1 & Hs1 & B1); [lia|done|].
    set (c1 := set_gpr c rsp (gpr c rsp - 8)) in *. assert (Hsp : gpr c1 rsp = gpr c rsp - 8) by apply upd_same.
    destruct (IH (c ← k; push c v) s0 c1 s1 (v :: l)) as (c2 & s2 & E2 & Hs2 & O2 & R2 & B2); [|done|lia|done|].
    { by rewrite (bind_Ok _ _ _ _ _ Hk). }
    exists c2, s2. split; [exact E2|]. split; [simpl; by rewrite <- app_assoc|]. split; [|split].
    + eapply only_trans; [|exact O2]. split; [|done..]. intros r Hr. apply upd_other. set_solver.
    + rewrite R2, Hsp. simpl length. lia.
    + eapply below_trans; [exact B1|exact B2|lia].
Qed.

(** The globals after [swapgs]. *)
Definition swap_state s : kstate :=
  KState (mem s) (<[g_kgs_base := gval s g_gs_base]> (<[g_gs_base := gval s g_kgs_base]> (glob s))) (trace s).
Definition swap_if (b : bool) s : kstate := if b then swap_state s else s.

Lemma swapgs_eq c s : step Iswapgs c s = Ok c (swap_state s).
Proof. done. Qed.

(** [cmp; jne; swapgs] on a word of the stack. *)
Lemma exec_swap_if d x q c s :
  rd 8 (mem s) (gpr c rsp + d) = Some x -> 0 <= gpr c rsp + d < 2 ^ 64 ->
  exec 0 ([Icmp_m rsp d 0x3b; Ijne 1; Iswapgs] ++ q) c s = exec 0 q (set_zf c (x =? 0x3b)) (swap_if (x =? 0x3b) s).
Proof.
  intros Hx Hd. simpl app. rewrite (exec_cons (Icmp_m rsp d 0x3b) _ c s (set_zf c (x =? 0x3b)) s); [|done|].
  - cbn [Asm.exec]. cbn [set_zf zf]. destruct (x =? 0x3b); done.
  - cbn [Asm.step]. rewrite u64_small by done. by rewrite (ld_then 8 _ _ _ _ Hx).
Qed.

Lemma stack_swap b s c lo l : stack s c lo l -> stack (swap_if b s) c lo l.
Proof. intros [A B C D]. by destruct b; split. Qed.

Lemma below_swap b s s' lo hi : below s s' lo hi -> below (swap_if b s) (swap_if b s') lo hi.
Proof.
  intros (G & T & M). destruct b; [|done]. split; [|by split]. unfold swap_if, swap_state. cbn [glob].
  unfold gval. by rewrite G.
Qed.

Section stubs.
Context (isr : Z).

(** The state in which the stub of vector [v] calls the handler: [s] and [c] are
    the interrupted state, [base] the aligned stack. *)
Record entered s c v err lo base c1 s1 : Prop := {
  en_rsp : gpr c1 rsp = base - 184;
  en_stack : stack s1 c1 lo (frame_words c err);
  en_args : gpr c1 rdi = v /\ gpr c1 rsi = gpr c1 rsp;
  en_target : gpr c1 rbx = u64 (isr + 8 * v);
  en_sel : sel c1 ds = 0x30 /\ sel c1 es = 0x30 /\ sel c1 ss = 0x30 /\ sel c1 cs = 0x28;
  en_flags : Z.testbit (rflags c1) 9 = false /\ Z.testbit (rflags c1) 10 = false;
  en_below : below (swap_if (sel c cs =? 0x3b) s) s1 lo base
}.

(** The vectors whose error code the stub knows about. *)
Definition known (v : Z) : Prop := has_code v = stub_has_code v.
Definition code_of (v err : Z) : Z := if has_code v then err else 0.

Lemma deliver_eq top err v entry c s lo (base := Z.land top (Z.lnot 0xf)) :
  cpu_ok c -> 0 <= err < 2 ^ 64 -> 0 <= lo -> lo + 256 <= base -> base < 2 ^ 64 -> mapped (mem s) lo (base - lo) ->
  exists c0 s0, deliver top err v entry c s = Ok c0 s0 /\
    stack s0 c0 lo ((if has_code v then [err] else []) ++ hw_words c) /\
    (forall r, r <> rsp -> gpr c0 r = gpr c r) /\ gpr c0 rsp = base - (if has_code v then 48 else 40) /\
    sel c0 = upd (sel c) cs 0x28 /\ rflags c0 = Z.land (rflags c) (Z.lnot (2 ^ 9)) /\ below s s0 lo base.
Proof.
  intros [Hg Hs Hi Hf] He Hlo Hb Hb2 Hm. unfold deliver, push_all. fold base.
  set (c0 := set_gpr c rsp base). assert (Hsp : gpr c0 rsp = base) by apply upd_same.
  set (vs := [sel c ss; gpr c rsp; rflags c; sel c cs; rip c] ++ (if has_code v then [err] else [])).
  destruct (push_all_run vs (mret c0) s c0 s lo []) as (c1 & s1 & E1 & Hs1 & O1 & R1 & B1); [done| | | |].
  { split; rewrite Hsp; [apply words_at_nil|lia|simpl; lia|done]. }
  { rewrite Hsp. unfold vs. destruct (has_code v); simpl length; lia. }
  { unfold vs. pose proof (Hs ss). pose proof (Hs cs).
    repeat (apply list.Forall_cons; split; [done || lia|]). destruct (has_code v); repeat constructor; lia. }
  rewrite Hsp in *. eexists _, s1. rewrite (bind_Ok _ _ _ _ _ E1). split; [reflexivity|].
  cbn [set_rip set_sel set_rflags sel rflags gpr]. split; [|split; [|split; [|split; [|split; [done|done]]]]].
  - rewrite app_nil_r in Hs1. unfold vs in Hs1. destruct Hs1 as [A B C D]. by destruct (has_code v); split.
  - intros r Hr. rewrite (on_gpr _ _ _ O1) by set_solver. by apply upd_other.
  - rewrite R1. unfold vs. by destruct (has_code v).
  - by rewrite (on_sel _ _ _ O1).
Qed.

(** The end of the entry: flags, segments and arguments. *)
Definition enter_end (v : Z) : list instr :=
  [Icld; Imov_i rax 0x30; Imov_to ds rax; Imov_to es rax; Imov_to ss rax;
   Imov_i rdi v; Imov_i rax (v * 8); Imov_i rbx isr; Iadd rbx rax; Imov rsi rsp; Izero rbp].

Lemma exec_enter_end v q c s :
  exists c', exec 0 (enter_end v ++ q) c s = exec 0 q c' s /\
    gpr c' rsp = gpr c rsp /\ gpr c' rdi = v /\ gpr c' rsi = gpr c rsp /\ gpr c' rbx = u64 (isr + v * 8) /\
    sel c' ds = 0x30 /\ sel c' es = 0x30 /\ sel c' ss = 0x30 /\ sel c' cs = sel c cs /\
    rflags c' = Z.land (rflags c) (Z.lnot (2 ^ 10)).
Proof.
  eexists. split.
  - unfold enter_end. simpl app. do 11 (erewrite exec_cons; [|reflexivity|reflexivity]). reflexivity.
  - repeat split.
Qed.

(** The error code of the vectors without one. *)
Lemma exec_stub_code v err q c0 s0 c lo :
  known v -> stack s0 c0 lo ((if has_code v then [err] else []) ++ hw_words c) -> lo + 8 <= gpr c0 rsp ->
  exists c1 s1, exec 0 ((if stub_has_code v then [] else [Ipush_i 0]) ++ q) c0 s0 = exec 0 q c1 s1 /\
    stack s1 c1 lo (code_of v err :: hw_words c) /\ only [rsp] c0 c1 /\
    gpr c1 rsp = gpr c0 rsp - (if has_code v then 0 else 8) /\ below s0 s1 lo (gpr c0 rsp).
Proof.
  unfold known, code_of. intros <- Hs Hlo. destruct (has_code v).
  - exists c0, s0. split; [done|]. split; [exact Hs|]. split; [apply only_refl|]. split; [lia|apply below_refl].
  - destruct (push_eq c0 0 s0 lo _ Hs) as (s1 & E1 & Hs1 & B1); [lia|lia|].
    exists (set_gpr c0 rsp (gpr c0 rsp - 8)), s1. split; [by apply exec_cons|]. split; [exact Hs1|].
    split; [split; [|done..]; intros r Hr; apply upd_other; set_solver|]. split; [apply upd_same|done].
Qed.

Lemma isr_enter_eq top err v entry c s lo q (base := Z.land top (Z.lnot 0xf)) :
  known v -> cpu_ok c -> 0 <= err < 2 ^ 64 -> 0 <= lo -> lo + 256 <= base -> base < 2 ^ 64 -> mapped (mem s) lo (base - lo) ->
  exists c1 s1, (c0 ← deliver top err v entry c; exec 0 (isr_enter isr v ++ q) c0) s = exec 0 q c1 s1 /\
    entered s c v (code_of v err) lo base c1 s1.
Proof.
  intros Hv Hc He Hlo Hb Hb2 Hm. pose proof Hc as [Hg Hsel _ _].
  destruct (deliver_eq top err v entry c s lo Hc He Hlo Hb Hb2 Hm) as (c0 & s0 & E0 & Hs0 & G0 & R0 & S0 & F0 & B0).
  fold base in R0, B0. rewrite (bind_Ok _ _ _ _ _ E0). unfold isr_enter. rewrite <- !app_assoc.
  destruct (exec_stub_code v err ([Icmp_m rsp 16 0x3b; Ijne 1; Iswapgs] ++ (Ipush <$> saved) ++
      [Imov_from rax ds; Ipush rax; Imov_from rax es; Ipush rax] ++ enter_end v ++ q) c0 s0 c lo Hv Hs0)
    as (c1 & s1 & E1 & Hs1 & O1 & R1 & B1); [rewrite R0; destruct (has_code v); lia|].
  assert (R1' : gpr c1 rsp = base - 48) by (rewrite R1, R0; destruct (has_code v); lia).
  simpl app in E1 |- *. rewrite E1. clear E1.
  pose proof Hs1 as [W1 _ _ _]. apply words_at_cons in W1 as [_ [_ [W1 _]%words_at_cons]%words_at_cons].
  rewrite <- !Z.add_assoc in W1. simpl Z.add in W1.
  pose proof (exec_swap_if 16 (sel c cs) ((Ipush <$> saved) ++ [Imov_from rax ds; Ipush rax; Imov_from rax es; Ipush rax] ++ enter_end v ++ q)
    c1 s1 W1 ltac:(lia)) as E2. simpl app in E2. rewrite E2. clear E2.
  set (b := sel c cs =? 0x3b). set (c2 := set_zf c1 b).
  assert (G2 : forall r, r <> rsp -> gpr c2 r = gpr c r).
  { intros r Hr. unfold c2, set_zf. cbn [gpr]. rewrite (on_gpr _ _ _ O1) by set_solver. by apply G0. }
  assert (S2 : sel c2 = upd (sel c) cs 0x28) by (unfold c2, set_zf; cbn [sel]; by rewrite (on_sel _ _ _ O1)).
  destruct (exec_saves rax (enter_end v ++ q) c2 (swap_if b s1) lo (code_of v err :: hw_words c))
    as (c3 & s3 & E3 & Hs3 & O3 & R3 & B3).
  { done. } { by apply stack_swap; destruct Hs1; split. } { unfold c2. cbn [set_zf gpr]. lia. }
  { intros r. destruct (decide (r = rsp)) as [->|Hr]; [unfold c2; cbn [set_zf gpr]; lia|rewrite G2 by done; apply Hg]. }
  { intros g. rewrite S2. unfold upd. destruct (decide (cs = g)); [lia|apply Hsel]. }
  simpl app in E3. rewrite E3. clear E3.
  destruct (exec_enter_end v q c3 s3) as (c4 & E4 & R4 & A4 & A4' & T4 & D4 & D4' & D4'' & C4 & F4).
  exists c4, s3. split; [exact E4|].
  assert (Rsp : gpr c4 rsp = base - 184) by (rewrite R4, R3; unfold c2; cbn [set_zf gpr]; lia).
  assert (Hfr : sel c2 es :: sel c2 ds :: (gpr c2 <$> rev saved) ++ code_of v err :: hw_words c = frame_words c (code_of v err)).
  { unfold frame_words. rewrite S2. do 3 f_equal. apply list_fmap_ext. intros i r Hr. apply G2. intros ->.
    by apply (list_elem_of_lookup_2 _ i), list_elem_of_In, in_rev in Hr; repeat destruct Hr as [Hr|Hr]. }
  assert (F : rflags c4 = Z.land (Z.land (rflags c) (Z.lnot (2 ^ 9))) (Z.lnot (2 ^ 10))).
  { rewrite F4, (on_rflags _ _ _ O3). unfold c2. cbn [set_zf rflags]. by rewrite (on_rflags _ _ _ O1), F0. }
  split; [done| |by split; [|rewrite A4']|by rewrite T4, (Z.mul_comm v)| | |].
  - rewrite <- Hfr. destruct Hs3 as [X1 X2 X3 X4]. by split; rewrite ?R4.
  - split; [done|]. split; [done|]. split; [done|]. rewrite C4, (on_sel _ _ _ O3), S2. done.
  - rewrite F, !Z.land_spec. rewrite !Z.lnot_spec by lia. rewrite !Z.pow2_bits_eqb by lia. simpl. by rewrite !andb_false_r.
  - eapply below_trans; [apply below_swap; eapply below_trans; [exact B0|exact B1|]|exact B3|].
    + rewrite R0. destruct (has_code v); lia.
    + unfold c2. cbn [set_zf gpr]. lia.
Qed.

(** [iretq] after everything else of the frame was restored. *)
Lemma iretq_resumes c s c0 lo :
  stack s c lo (hw_words c0) -> cpu_ok c0 -> (forall r, r <> rsp -> gpr c r = gpr c0 r) ->
  sel c es = sel c0 es -> sel c ds = sel c0 ds ->
  exists c', exec 0 [Iiretq] c s = Ok c' s /\ resumed c0 c'.
Proof.
  intros Hs Hc Hg He Hd. destruct (iretq_eq c s c0 lo Hs Hc) as (c' & E & R & G & S1 & S2 & S3 & S4 & I & F).
  exists c'. split; [by rewrite (exec_cons Iiretq [] _ _ _ _ eq_refl E)|]. split; [| |done|done].
  - intros r. destruct (decide (r = rsp)) as [->|Hr]; [done|]. by rewrite G, Hg.
  - intros g Hin. repeat (apply elem_of_cons in Hin as [->|Hin]); [congruence..|by apply elem_of_nil in Hin].
Qed.

Lemma isr_leave_eq c s c0 lo err :
  stack s c lo (frame_words c0 err) -> cpu_ok c0 ->
  exists c', exec 0 isr_leave c s = Ok c' (swap_if (sel c0 cs =? 0x3b) s) /\ resumed c0 c'.
Proof.
  intros Hs Hc. unfold isr_leave.
  destruct (exec_unframe [Icmp_m rsp 8 0x3b; Ijne 1; Iswapgs; Iiretq] c s lo c0 err Hs Hc) as (c1 & E1 & Hs1 & R1 & G1 & S1 & S2).
  rewrite E1. pose proof Hs1 as [W _ T _]. apply words_at_cons in W as [_ [W _]%words_at_cons].
  destruct Hs as [_ Hr _ _]. simpl length in T.
  pose proof (exec_swap_if 8 (sel c0 cs) [Iiretq] c1 s W ltac:(lia)) as E2. simpl app in E2. rewrite E2.
  apply (iretq_resumes _ _ c0 (gpr c1 rsp)); [apply stack_swap; by destruct Hs1; split|done|exact G1|exact S1|exact S2].
Qed.

Lemma switch_code_eq c s c0 state err :
  words_at (mem s) state (frame_words c0 err) -> 0 <= state -> state + 184 < 2 ^ 64 -> cpu_ok c0 ->
  exists c', exec 0 (switch_code state) c s = Ok c' (swap_state s) /\ resumed c0 c'.
Proof.
  intros Hw H0 Ht Hc. unfold switch_code. set (c1 := set_gpr c rsp state).
  assert (Hs : stack s c1 state (frame_words c0 err)).
  { assert (E : gpr c1 rsp = state) by apply upd_same. split; rewrite E; [done|lia|exact Ht|intros x Hx; lia]. }
  destruct (exec_unframe [Iswapgs; Iiretq] c1 s state c0 err Hs Hc) as (c2 & E2 & Hs2 & R2 & G2 & S1 & S2).
  change ([Imov_i rsp state; Ipop rax; Imov_to es rax; Ipop rax; Imov_to ds rax] ++ (Ipop <$> rev saved) ++ [Iadd_i rsp 8; Iswapgs; Iiretq])
    with (Imov_i rsp state :: [Ipop rax; Imov_to es rax; Ipop rax; Imov_to ds rax] ++ (Ipop <$> rev saved) ++ Iadd_i rsp 8 :: [Iswapgs; Iiretq]).
  rewrite (exec_cons (Imov_i rsp state) _ c s c1 s) by done. rewrite E2.
  rewrite (exec_cons Iswapgs _ c2 s c2 (swap_state s)) by done.
  apply (iretq_resumes _ _ c0 (gpr c2 rsp)); [apply (stack_swap true); by destruct Hs2; split|done|exact G2|exact S1|exact S2].
Qed.

(** C15: a switch of threads: the stub of the interrupt leaves a frame of 23 words at
    the address it gives the handler, and whenever [switch_to_thread] runs on a
    frame with these words, the interrupted program goes on with its registers,
    segments and flags, with the bases of [gs] exchanged. *)
Theorem context_switch_resumes top err v entry c s lo (base := Z.land top (Z.lnot 0xf)) :
  known v -> cpu_ok c -> 0 <= err < 2 ^ 64 -> 0 <= lo -> lo + 256 <= base -> base < 2 ^ 64 -> mapped (mem s) lo (base - lo) ->
  exists c1 s1, (c0 ← deliver top err v entry c; exec 0 (isr_enter isr v) c0) s = Ok c1 s1 /\ gpr c1 rdi = v /\
    forall c2 s2 state, 0 <= state -> state + 184 < 2 ^ 64 ->
      (forall i, 0 <= i < 23 -> rd 8 (mem s2) (state + 8 * i) = rd 8 (mem s1) (gpr c1 rsi + 8 * i)) ->
      exists c', exec 0 (switch_code state) c2 s2 = Ok c' (swap_state s2) /\ resumed c c'.
Proof.
  intros Hv Hc He Hlo Hb Hb2 Hm.
  destruct (isr_enter_eq top err v entry c s lo [] Hv Hc He Hlo Hb Hb2 Hm) as (c1 & s1 & E1 & [_ [W _ _ _] [A1 A2] _ _ _ _]).
  rewrite app_nil_r in E1. exists c1, s1. split; [exact E1|]. split; [exact A1|]. intros c2 s2 state H0 Ht Hcopy.
  apply (switch_code_eq c2 s2 c state (code_of v err)); [|done|done|done].
  intros i w Hi. pose proof (lookup_lt_Some _ _ _ Hi) as Hl. change (length _) with 23%nat in Hl.
  rewrite Hcopy by lia. rewrite A2. by apply W.
Qed.

(** * The handlers *)

(** A function that follows the calling convention, seen from its caller's stack
    pointer: it returns with the stack as it was, and leaves what is above it. *)
Record returned c1 s1 c2 s2 (hi : Z) : Prop := {
  rt_rsp : gpr c2 rsp = gpr c1 rsp + 8;
  rt_stack : forall x, gpr c1 rsp + 8 <= x < hi -> mem s2 !! x = mem s1 !! x;
  rt_gs : gval s2 g_gs_base = gval s1 g_gs_base /\ gval s2 g_kgs_base = gval s1 g_kgs_base
}.

(** The handler has been called: behind its return address is the frame. *)
Definition called s c v err lo base c1 s1 : Prop :=
  exists c0 s0, entered s c v err lo base c0 s0 /\ push c0 return_address s0 = Ok c1 s1.

Lemma swap_if_gs b s : gval (swap_if b s) g_gs_base = (if b then gval s g_kgs_base else gval s g_gs_base).
Proof. destruct b; [|done]. unfold swap_if, swap_state, gval. cbn [glob]. by rewrite lookup_insert_ne, lookup_insert_eq by done. Qed.
Lemma swap_if_kgs b s : gval (swap_if b s) g_kgs_base = (if b then gval s g_gs_base else gval s g_kgs_base).
Proof. destruct b; [|done]. unfold swap_if, swap_state, gval. cbn [glob]. by rewrite lookup_insert_eq. Qed.

Lemma isr_call_eq s c v err lo base c1 s1 target q :
  entered s c v err lo base c1 s1 -> 0 <= return_address < 2 ^ 64 -> lo + 192 <= base -> base < 2 ^ 64 ->
  0 <= isr -> 0 <= v -> isr + 8 * v + 8 <= 2 ^ 64 -> rd 8 (mem s) (isr + 8 * v) = Some target ->
  isr + 8 * v + 8 <= lo \/ base <= isr + 8 * v ->
  exists c2 s2, exec 0 (Icall_m rbx 0 1 :: q) c1 s1 = (c3 ← run target c2; exec 0 q c3) s2 /\ called s c v err lo base c2 s2 /\
    gpr c2 rsp = base - 192 /\ words_at (mem s2) (base - 184) (frame_words c err) /\ glob s2 = glob s1.
Proof.
  intros He Hra Hlo Hb H0 Hv Hi Ht Hd. pose proof He as [R Hs _ T _ _ (_ & _ & _ & O)].
  destruct (push_eq c1 return_address s1 lo _ Hs) as (s2 & E2 & Hs2 & B2); [lia|done|].
  exists (set_gpr c1 rsp (gpr c1 rsp - 8)), s2. split; [|split; [|split; [|split]]].
  - cbn [Asm.exec Asm.step]. rewrite T, Z.mul_1_r, Z.add_0_r, u64_u64, u64_small by lia.
    assert (Ht1 : rd 8 (mem s1) (isr + 8 * v) = Some target).
    { rewrite <- Ht. transitivity (rd 8 (mem (swap_if (sel c cs =? 0x3b) s)) (isr + 8 * v)); [|by destruct (_ =? _)].
      apply rd_ext. intros x Hx. apply O. simpl in Hx. lia. }
    unfold mbind, K_bind, ld. rewrite Ht1. rewrite E2. reflexivity.
  - by exists c1, s1.
  - unfold set_gpr. cbn [gpr]. rewrite upd_same. lia.
  - destruct Hs2 as [W _ _ _]. unfold set_gpr in W. cbn [gpr] in W. rewrite upd_same in W.
    apply words_at_cons in W as [_ W]. by replace (base - 184) with (gpr c1 rsp - 8 + 8) by lia.
  - apply B2.
Qed.

(** A handler that follows the calling convention. *)
Definition conforms s c v err lo base target : Prop :=
  forall c1 s1, called s c v err lo base c1 s1 -> exists c2 s2, run target c1 s1 = Ok c2 s2 /\ returned c1 s1 c2 s2 base.

Lemma swap_if_twice b s : gval (swap_if b (swap_if b s)) g_gs_base = gval s g_gs_base /\ gval (swap_if b (swap_if b s)) g_kgs_base = gval s g_kgs_base.
Proof. rewrite (swap_if_gs b (swap_if b s)), (swap_if_kgs b (swap_if b s)), !swap_if_gs, !swap_if_kgs. by destruct b. Qed.

(** [gval] of the states around the handler. *)
Lemma swap_if_ext b s s' :
  gval s' g_gs_base = gval s g_gs_base -> gval s' g_kgs_base = gval s g_kgs_base ->
  gval (swap_if b s') g_gs_base = gval (swap_if b s) g_gs_base /\ gval (swap_if b s') g_kgs_base = gval (swap_if b s) g_kgs_base.
Proof. intros H1 H2. rewrite !swap_if_gs, !swap_if_kgs. by destruct b; rewrite H1, H2. Qed.

(** C10: an interrupt: the delivery by the processor, the stub of a vector whose error
    code it knows about and a handler that follows the calling convention bring
    back the interrupted program with every register, its code, stack and data
    segments, its flags and both bases of [gs]. *)
Theorem isr_stub_resumes top err v entry c s lo target (base := Z.land top (Z.lnot 0xf)) :
  known v -> cpu_ok c -> 0 <= err < 2 ^ 64 -> 0 <= lo -> lo + 256 <= base -> base < 2 ^ 64 -> mapped (mem s) lo (base - lo) ->
  0 <= return_address < 2 ^ 64 -> 0 <= isr -> 0 <= v -> isr + 8 * v + 8 <= 2 ^ 64 -> rd 8 (mem s) (isr + 8 * v) = Some target ->
  isr + 8 * v + 8 <= lo \/ base <= isr + 8 * v ->
  conforms s c v (code_of v err) lo base target ->
  exists c' s', (c0 ← deliver top err v entry c; exec 0 (isr_stub isr v) c0) s = Ok c' s' /\ resumed c c' /\
    gval s' g_gs_base = gval s g_gs_base /\ gval s' g_kgs_base = gval s g_kgs_base.
Proof.
  intros Hv Hc He Hlo Hb Hb2 Hm Hra Hi0 Hv0 Hi Ht Hd Hh.
  destruct (isr_enter_eq top err v entry c s lo ([Icall_m rbx 0 1] ++ isr_leave) Hv Hc He Hlo Hb Hb2 Hm) as (c1 & s1 & E1 & En). fold base in En.
  destruct (isr_call_eq _ _ _ _ _ _ _ _ target isr_leave En Hra) as (c2 & s2 & E2 & Ca & R2 & W2 & G2); [lia|done..|].
  destruct (Hh c2 s2 Ca) as (c3 & s3 & E3 & [R3 M3 [GS KGS]]).
  assert (Hs : stack s3 c3 (base - 184) (frame_words c (code_of v err))).
  { split; rewrite R3, R2; [|lia|simpl length; lia|intros x Hx; lia].
    replace (base - 192 + 8) with (base - 184) by lia. eapply words_at_agree; [|exact W2]. simpl length. intros x Hx. apply M3. rewrite R2. lia. }
  destruct (isr_leave_eq c3 s3 c _ _ Hs Hc) as (c4 & E4 & Hr).
  exists c4, (swap_if (sel c cs =? 0x3b) s3). split; [|split; [exact Hr|]].
  - unfold isr_stub. rewrite E1. simpl app. rewrite E2, (bind_Ok _ _ _ _ _ E3). exact E4.
  - destruct (en_below _ _ _ _ _ _ _ _ En) as (G1 & _ & _).
    assert (Hg : forall g, gval s2 g = gval (swap_if (sel c cs =? 0x3b) s) g) by (intros g; unfold gval; by rewrite G2, G1).
    destruct (swap_if_ext (sel c cs =? 0x3b) (swap_if (sel c cs =? 0x3b) s) s3) as [-> ->]; [by rewrite GS, Hg|by rewrite KGS, Hg|].
    apply swap_if_twice.
Qed.

End stubs.

(** Memberships of registers in lists, decided by evaluation or from the facts about
    the register alone. *)
Ltac regs :=
  first
    [ apply (bool_decide_unpack _); reflexivity
    | repeat match goal with
        | H : ?P |- _ => lazymatch P with _ ∉ _ => fail | _ ∈ _ => fail | _ <> _ => fail | _ => clear H end
        end; set_solver ].

(** * Loading the descriptors *)

Definition load_segments : list instr :=
  [Icli; Ilgdt rdi; Imov_i16 rax 0x30; Imov_to ds rax; Imov_to es rax; Imov_to fs rax; Imov_to gs rax; Imov_to ss rax].

(** The state with the descriptors loaded. *)
Definition gdt_loaded c s : kstate :=
  KState (mem s) (<[g_gs_base := seg_base 0x30]> (<[g_fs_base := seg_base 0x30]> (glob s))) (trace s ++ [EvAsm "lgdt" (gpr c rdi)]).

Lemma exec_load_segments q c s :
  exists c', exec 0 (load_segments ++ q) c s = exec 0 q c' (gdt_loaded c s) /\ (forall r, r <> rax -> gpr c' r = gpr c r) /\
    (forall g, g ∈ [ss; ds; es; fs; gs] -> sel c' g = 0x30) /\ Z.testbit (rflags c') 9 = false.
Proof.
  set (ax := gpr c rax - u16 (gpr c rax) + 0x30).
  assert (Hax : u16 ax = 0x30).
  { unfold ax, u16. pose proof (Z.div_mod (gpr c rax) (2 ^ 16)). replace (_ - _ + _) with (0x30 + (gpr c rax / 2 ^ 16) * 2 ^ 16) by lia.
    by rewrite Z.mod_add by lia. }
  eexists. split; [|split; [|split]].
  - unfold load_segments. simpl app. do 3 (erewrite exec_cons; [|reflexivity|reflexivity]).
    do 5 (erewrite exec_cons; [|reflexivity|cbn [Asm.step set_sel set_gpr set_rflags gpr]; rewrite upd_same; fold ax; rewrite Hax; reflexivity]). reflexivity.
  - intros r Hr. cbn [set_sel set_gpr set_rflags gpr]. by apply upd_other.
  - intros g Hin. cbn [set_sel set_gpr set_rflags sel]. repeat (apply elem_of_cons in Hin as [->|Hin]; [reflexivity|]). by apply elem_of_nil in Hin.
  - cbn [set_sel set_gpr set_rflags rflags]. rewrite Z.land_spec, Z.lnot_spec, Z.pow2_bits_eqb by lia. by rewrite andb_false_r.
Qed.

(** The far return to the caller. *)
Lemma exec_far_return c s lo ra l :
  stack s c lo (ra :: l) -> lo + 8 <= gpr c rsp ->
  exists c' s', exec 0 [Ipop rdi; Imov_i rax 0x28; Ipush rax; Ipush rdi; Iretfq] c s = Ok c' s' /\ rip c' = ra /\
    gpr c' rsp = gpr c rsp + 8 /\ sel c' = upd (sel c) cs 0x28 /\ (forall r, r ∉ [rax; rdi; rsp] -> gpr c' r = gpr c r) /\
    rflags c' = rflags c /\ glob s' = glob s /\ trace s' = trace s.
Proof.
  intros Hs Hlo. pose proof Hs as [Hw Hroom Ht Hm]. apply words_at_cons in Hw as [Hw _]. simpl length in Ht.
  destruct (exec_pops [rdi] [Imov_i rax 0x28; Ipush rax; Ipush rdi; Iretfq] c s lo [ra] l Hs) as (c1 & E1 & O1 & R1 & W1);
    [done|repeat constructor; set_solver|set_solver|]. injection W1 as W1. simpl length in R1.
  set (c2 := set_gpr c1 rax 0x28). assert (R2 : gpr c2 rsp = gpr c rsp + 8) by (unfold c2, set_gpr; cbn [gpr]; rewrite upd_other by done; lia).
  assert (Hs2 : stack s c2 lo []).
  { split; rewrite R2; [apply words_at_nil|lia|simpl; lia|]. intros x Hx. destruct (decide (x < gpr c rsp)); [apply Hm; lia|].
    apply ((proj1 (rd_mapped 8 (mem s) (gpr c rsp))) (mk_is_Some _ _ Hw)). lia. }
  destruct (exec_pushes [rax; rdi] [Iretfq] c2 s lo [] Hs2) as (c3 & s3 & E3 & Hs3 & O3 & R3 & B3); [simpl length; lia|set_solver| |].
  { apply rd_range in Hw. intros r Hr. repeat (apply elem_of_cons in Hr as [->|Hr]); [by unfold c2; simpl| |by apply elem_of_nil in Hr].
    change (gpr c2 rdi) with (gpr c1 rdi). by rewrite W1. }
  destruct Hs3 as [W3 Hr3 Ht3 _]. simpl length in *. apply words_at_cons in W3 as [V1 [V2 _]%words_at_cons].
  change (gpr c2 rdi) with (gpr c1 rdi) in V1. rewrite W1 in V1. change (gpr c2 rax) with 0x28 in V2.
  eexists _, s3. split; [|split; [|split; [|split; [|split; [|split]]]]].
  - etransitivity; [exact E1|]. rewrite (exec_cons (Imov_i rax 0x28) _ c1 s c2 s) by done.
    etransitivity; [exact E3|]. erewrite exec_cons; [reflexivity|done|].
    cbn [Asm.step]. rewrite !u64_small by lia. rewrite (ld_then 8 _ _ _ _ V1), (ld_then 8 _ _ _ _ V2). reflexivity.
  - reflexivity.
  - cbn [set_rip set_sel set_gpr gpr]. rewrite upd_same. lia.
  - cbn [set_rip set_sel set_gpr sel]. rewrite (on_sel _ _ _ O3). unfold c2, set_gpr. cbn [sel]. by rewrite (on_sel _ _ _ O1).
  - intros r Hr. cbn [set_rip set_sel set_gpr gpr]. rewrite upd_other by set_solver. rewrite (on_gpr _ _ _ O3) by set_solver.
    unfold c2, set_gpr. cbn [gpr]. rewrite upd_other by set_solver. apply O1. set_solver.
  - cbn [set_rip set_sel set_gpr rflags]. rewrite (on_rflags _ _ _ O3). apply O1.
  - split; apply B3.
Qed.

(** [load_gdt] gives the descriptor table to the processor and returns to its caller
    with the kernel's segments, over a far return that it builds on the stack. *)
Theorem load_gdt_returns c s lo ra l :
  stack s c lo (ra :: l) -> lo + 8 <= gpr c rsp ->
  exists c' s', exec 0 load_gdt c s = Ok c' s' /\ rip c' = ra /\ gpr c' rsp = gpr c rsp + 8 /\
    sel c' cs = 0x28 /\ (forall g, g ∈ [ss; ds; es; fs; gs] -> sel c' g = 0x30) /\
    (forall r, r ∉ [rax; rdi; rsp] -> gpr c' r = gpr c r) /\ Z.testbit (rflags c') 9 = false /\
    trace s' = trace s ++ [EvAsm "lgdt" (gpr c rdi)].
Proof.
  intros [Hw Hroom Ht Hm] Hlo.
  destruct (exec_load_segments [Ipop rdi; Imov_i rax 0x28; Ipush rax; Ipush rdi; Iretfq] c s) as (c1 & E1 & G1 & S1 & F1).
  assert (Hs : stack (gdt_loaded c s) c1 lo (ra :: l)) by (split; rewrite G1 by done; done).
  destruct (exec_far_return c1 (gdt_loaded c s) lo ra l Hs) as (c2 & s2 & E2 & I2 & R2 & S2 & G2 & F2 & _ & T2); [by rewrite G1|].
  exists c2, s2. split; [change load_gdt with (load_segments ++ [Ipop rdi; Imov_i rax 0x28; Ipush rax; Ipush rdi; Iretfq]); by rewrite E1|].
  split; [done|]. split; [by rewrite R2, G1|]. split; [by rewrite S2|]. split; [|split; [|split]].
  - intros g Hg. rewrite S2, upd_other; [by apply S1|set_solver].
  - intros r Hr. rewrite G2 by done. apply G1. set_solver.
  - by rewrite F2.
  - by rewrite T2.
Qed.

(** * System calls *)

Section syscalls.
Context (syscall_table kb ktop lo : Z).

(** The word at [gs:0] of the kernel holds the kernel's stack. *)
Record has_stack s : Prop := {
  hs_word : rd 8 (mem s) kb = Some ktop;
  hs_kb : 0 <= kb < 2 ^ 64;
  hs_apart : kb + 8 <= lo \/ ktop <= kb;
  hs_room : 0 <= lo /\ lo + 256 <= ktop /\ ktop < 2 ^ 64;
  hs_mapped : mapped (mem s) lo (ktop - lo)
}.

(** The state after the stack was switched. *)
Lemma exec_stack_switch q c s :
  has_stack s -> gval s g_kgs_base = kb -> 0 <= gpr c rsp < 2 ^ 64 ->
  exists c' s', exec 0 ([Iswapgs; Ixchg_gs rsp; Ipush_gs; Imov_gs rsp; Iadd_gs 8] ++ q) c s = exec 0 q c' s' /\
    only [rsp] c c' /\ gpr c' rsp = ktop - 8 /\
    stack s' c' lo [gpr c rsp] /\ has_stack s' /\ glob s' = glob (swap_state s) /\
    (forall x, x < lo \/ ktop <= x -> x < kb \/ kb + 8 <= x -> mem s' !! x = mem s !! x).
Proof.
  intros [Hw Hkb Ha (H0 & Hr & Ht) Hm] Hk Hsp. set (u := gpr c rsp) in *.
  assert (Hgs : forall m, gget g_gs_base (with_mem (swap_state s) m) = Ok kb (with_mem (swap_state s) m)).
  { intros m. unfold gget. f_equal. rewrite <- Hk. apply (swap_if_gs true). }
  assert (Mk : mapped (mem s) kb 8) by (apply (rd_mapped 8); by eexists).
  assert (Ms : mapped (mem s) (ktop - 8) 8) by (eapply mapped_sub; [exact Hm|lia|lia]).
  set (m1 := wr 8 (mem s) kb u). set (m2 := wr 8 m1 (ktop - 8) u). set (m3 := wr 8 m2 kb (ktop - 8)). set (m4 := wr 8 m3 kb ktop).
  set (c1 := set_gpr c rsp ktop). set (c2 := set_gpr c1 rsp (ktop - 8)).
  assert (E2 : gpr c2 rsp = ktop - 8) by apply upd_same.
  exists c2, (with_mem (swap_state s) m4). split; [|split; [|split; [done|split; [|split; [|split; [done|]]]]]].
  - simpl app. rewrite (exec_cons Iswapgs _ c s c (with_mem (swap_state s) (mem s))) by done.
    rewrite (exec_cons (Ixchg_gs rsp) _ _ _ c1 (with_mem (swap_state s) m1)); [|done|].
    2: { cbn [Asm.step]. rewrite (bind_Ok _ _ _ _ _ (Hgs _)), (ld_then 8 kb ktop) by done. by rewrite (st_then 8) by done. }
    rewrite (exec_cons Ipush_gs _ _ _ c2 (with_mem (swap_state s) m2)); [|done|].
    2: { cbn [Asm.step]. rewrite (bind_Ok _ _ _ _ _ (Hgs _)). rewrite (ld_then 8 kb u).
         - unfold push. change (gpr c1 rsp) with ktop. rewrite u64_small by lia. rewrite (st_then 8); [done|]. by apply mapped_wr.
         - cbn [mem with_mem]. unfold m1. rewrite rd_wr_same. f_equal. apply Z.mod_small. simpl. lia. }
    rewrite (exec_cons (Imov_gs rsp) _ _ _ c2 (with_mem (swap_state s) m3)); [|done|].
    2: { cbn [Asm.step]. rewrite (bind_Ok _ _ _ _ _ (Hgs _)), E2. rewrite (st_then 8); [done|]. by do 2 apply mapped_wr. }
    apply exec_cons; [done|]. cbn [Asm.step]. rewrite (bind_Ok _ _ _ _ _ (Hgs _)). rewrite (ld_then 8 kb (ktop - 8)).
    + rewrite u64_small by lia. replace (ktop - 8 + 8) with ktop by lia. rewrite (st_then 8); [done|]. by do 3 apply mapped_wr.
    + cbn [mem with_mem]. unfold m3. rewrite rd_wr_same. f_equal. apply Z.mod_small. simpl. lia.
  - split; [|done..]. intros r Hrr. unfold c2, c1, set_gpr. cbn [gpr]. by rewrite !upd_other by regs.
  - split; rewrite E2; [|lia|simpl length; lia|].
    + apply words_at_cons. split; [|apply words_at_nil]. cbn [mem with_mem]. unfold m4, m3, m2.
      rewrite !rd_wr_ne by (simpl; lia). rewrite rd_wr_same. f_equal. apply Z.mod_small. simpl. lia.
    + cbn [mem with_mem]. do 4 apply mapped_wr. eapply mapped_sub; [exact Hm|lia|lia].
  - split; [|done|done|done|].
    + cbn [mem with_mem]. unfold m4. rewrite rd_wr_same. f_equal. apply Z.mod_small. simpl. lia.
    + cbn [mem with_mem]. by do 4 apply mapped_wr.
  - intros x Hx1 Hx2. cbn [mem with_mem]. unfold m4, m3, m2, m1. by rewrite !lookup_wr_out by (simpl; lia).
Qed.

(** One push of any kind. *)
Lemma exec_push i v q c s l :
  is_jump i = false -> step i c s = push c v s -> stack s c lo l -> lo + 8 <= gpr c rsp -> 0 <= v < 2 ^ 64 ->
  exists c' s', exec 0 (i :: q) c s = exec 0 q c' s' /\ stack s' c' lo (v :: l) /\ only [rsp] c c' /\
    gpr c' rsp = gpr c rsp - 8 /\ below s s' lo (gpr c rsp).
Proof.
  intros Hi Hst Hs Hlo Hv. destruct (push_eq c v s lo l Hs Hlo Hv) as (s1 & E1 & Hs1 & B1).
  eexists _, s1. split; [apply exec_cons; [done|by rewrite Hst]|]. split; [exact Hs1|].
  split; [split; [|done..]; intros r Hr; apply upd_other; regs|]. split; [apply upd_same|done].
Qed.

(** The part of the frame that the processor would have pushed. *)
Definition sys_hw c : list Z := [0; gpr c rcx; 0x3b; gpr c r11; gpr c rsp; 0x43; gpr c rsp].
Definition sys_words c : list Z := sel c es :: sel c ds :: (gpr c <$> rev saved) ++ sys_hw c.

Lemma exec_sys_hw q c s u :
  stack s c lo [u] -> lo + 48 <= gpr c rsp -> (forall r, 0 <= gpr c r < 2 ^ 64) -> 0 <= u < 2 ^ 64 ->
  exists c' s', exec 0 ([Ipush_i 0x43; Ipush_m rsp 8; Ipush r11; Ipush_i 0x3b; Ipush rcx; Ipush_i 0] ++ q) c s = exec 0 q c' s' /\
    stack s' c' lo [0; gpr c rcx; 0x3b; gpr c r11; u; 0x43; u] /\ only [rsp] c c' /\
    gpr c' rsp = gpr c rsp - 48 /\ below s s' lo (gpr c rsp).
Proof.
  intros Hs Hlo Hg Hu. simpl app.
  destruct (exec_push (Ipush_i 0x43) 0x43 (Ipush_m rsp 8 :: Ipush r11 :: Ipush_i 0x3b :: Ipush rcx :: Ipush_i 0 :: q) c s _ eq_refl eq_refl Hs)
    as (c1 & s1 & E1 & Hs1 & O1 & R1 & B1); [lia|lia|].
  destruct (exec_push (Ipush_m rsp 8) u (Ipush r11 :: Ipush_i 0x3b :: Ipush rcx :: Ipush_i 0 :: q) c1 s1 [0x43; u] eq_refl)
    as (c2 & s2 & E2 & Hs2 & O2 & R2 & B2); [|exact Hs1|lia|done|].
  { destruct Hs1 as [W1 Hroom Ht _]. apply words_at_cons in W1 as [_ [W1 _]%words_at_cons]. simpl length in Ht.
    cbn [Asm.step]. rewrite u64_small by lia. by rewrite (ld_then 8 _ _ _ _ W1). }
  assert (G2 : forall r, r <> rsp -> gpr c2 r = gpr c r).
  { intros r Hr. by rewrite (on_gpr _ _ _ O2), (on_gpr _ _ _ O1) by regs. }
  destruct (exec_pushes [r11] (Ipush_i 0x3b :: Ipush rcx :: Ipush_i 0 :: q) c2 s2 lo _ Hs2)
    as (c3 & s3 & E3 & Hs3 & O3 & R3 & B3); [simpl length; lia|regs|intros r ->%list_elem_of_singleton; rewrite G2 by done; apply Hg|].
  destruct (exec_push (Ipush_i 0x3b) 0x3b (Ipush rcx :: Ipush_i 0 :: q) c3 s3 _ eq_refl eq_refl Hs3)
    as (c4 & s4 & E4 & Hs4 & O4 & R4 & B4); [simpl length in *; lia|lia|].
  assert (G4 : forall r, r <> rsp -> gpr c4 r = gpr c r).
  { intros r Hr. by rewrite (on_gpr _ _ _ O4), (on_gpr _ _ _ O3), G2 by regs. }
  destruct (exec_pushes [rcx] (Ipush_i 0 :: q) c4 s4 lo _ Hs4)
    as (c5 & s5 & E5 & Hs5 & O5 & R5 & B5); [simpl length in *; lia|regs|intros r ->%list_elem_of_singleton; rewrite G4 by done; apply Hg|].
  destruct (exec_push (Ipush_i 0) 0 q c5 s5 _ eq_refl eq_refl Hs5)
    as (c6 & s6 & E6 & Hs6 & O6 & R6 & B6); [simpl length in *; lia|lia|].
  simpl length in *. exists c6, s6. simpl fmap in *. simpl app in *.
  split; [by rewrite E1, E2, E3, E4, E5, E6|]. split; [by rewrite G4, G2 in Hs6 by done|].
  split; [repeat (eapply only_trans; [eassumption|]); apply only_refl|]. split; [lia|].
  eapply below_trans; [exact B1|eapply below_trans; [exact B2|eapply below_trans; [exact B3|eapply below_trans;
    [exact B4|eapply below_trans; [exact B5|exact B6|lia]|lia]|lia]|lia]|lia].
Qed.

(** The state in which the entry calls the function of the table; [c] and [s] are
    those behind the instruction [syscall]. *)
Record sys_entered s c c1 s1 : Prop := {
  se_rsp : gpr c1 rsp = ktop - 192;
  se_stack : stack s1 c1 lo (sys_words c);
  se_gpr : forall r, r ∉ [rsp; rcx; r11] -> gpr c1 r = gpr c r;
  se_rcx : gpr c1 rcx = gpr c r10;
  se_sel : sel c1 ds = 0x30 /\ sel c1 es = 0x30 /\ sel c1 cs = sel c cs /\ sel c1 ss = sel c ss;
  se_has : has_stack s1;
  se_glob : glob s1 = glob (swap_state s);
  se_mem : forall x, x < lo \/ ktop <= x -> x < kb \/ kb + 8 <= x -> mem s1 !! x = mem s !! x
}.

(** The end of the entry. *)
Lemma exec_sys_end q c s :
  exists c', exec 0 ([Imov rcx r10; Icld; Imov_i r11 0x30; Imov_to ds r11; Imov_to es r11] ++ q) c s = exec 0 q c' s /\
    (forall r, r ∉ [rcx; r11] -> gpr c' r = gpr c r) /\ gpr c' rcx = gpr c r10 /\
    sel c' ds = 0x30 /\ sel c' es = 0x30 /\ sel c' cs = sel c cs /\ sel c' ss = sel c ss.
Proof.
  eexists. split; [|split].
  - simpl app. do 5 (erewrite exec_cons; [|reflexivity|reflexivity]). reflexivity.
  - intros r Hr. cbn [set_sel set_gpr set_rflags gpr]. by rewrite !upd_other by regs.
  - repeat split.
Qed.

Lemma has_stack_below s s' : has_stack s -> below s s' lo (ktop - 8) -> has_stack s'.
Proof.
  intros [Hw Hk Ha (H0 & Hr & Ht) Hm] (_ & _ & D & O). split; try done.
  - rewrite <- Hw. apply rd_ext. intros x Hx. apply O. simpl in Hx. lia.
  - intros x Hx. apply D. by apply Hm.
Qed.

Lemma syscall_enter_eq q c s :
  has_stack s -> gval s g_kgs_base = kb -> cpu_ok c ->
  exists c1 s1, exec 0 (syscall_enter ++ q) c s = exec 0 q c1 s1 /\ sys_entered s c c1 s1.
Proof.
  intros Hh Hk [Hg Hsel _ _]. pose proof Hh as [_ _ Ha (H0 & Hroom & Ht) _]. unfold syscall_enter.
  set (p3 := [Imov rcx r10; Icld; Imov_i r11 0x30; Imov_to ds r11; Imov_to es r11] ++ q).
  set (p2 := (Ipush <$> saved) ++ [Imov_from r11 ds; Ipush r11; Imov_from r11 es; Ipush r11] ++ p3).
  set (p1 := [Ipush_i 0x43; Ipush_m rsp 8; Ipush r11; Ipush_i 0x3b; Ipush rcx; Ipush_i 0] ++ p2).
  destruct (exec_stack_switch p1 c s Hh Hk (Hg rsp)) as (c1 & s1 & E1 & O1 & R1 & Hs1 & Hh1 & G1 & M1).
  assert (Hg1 : forall r, 0 <= gpr c1 r < 2 ^ 64).
  { intros r. destruct (decide (r = rsp)) as [->|Hr]; [lia|rewrite (on_gpr _ _ _ O1) by regs; apply Hg]. }
  destruct (exec_sys_hw p2 c1 s1 _ Hs1) as (c2 & s2 & E2 & Hs2 & O2 & R2 & B2); [lia|exact Hg1|apply Hg|].
  assert (G2 : forall r, r <> rsp -> gpr c2 r = gpr c r).
  { intros r Hr. by rewrite (on_gpr _ _ _ O2), (on_gpr _ _ _ O1) by regs. }
  assert (S2 : sel c2 = sel c) by (rewrite (on_sel _ _ _ O2); apply O1).
  rewrite !(on_gpr _ _ _ O1) in Hs2 by regs.
  destruct (exec_saves r11 p3 c2 s2 lo _ (ltac:(done) : r11 <> rsp) Hs2) as (c3 & s3 & E3 & Hs3 & O3 & R3 & B3).
  { lia. } { intros r. destruct (decide (r = rsp)) as [->|Hr]; [lia|rewrite G2 by done; apply Hg]. } { by rewrite S2. }
  destruct (exec_sys_end q c3 s3) as (c4 & E4 & G4 & C4 & D4 & D5 & D6 & D7).
  exists c4, s3. split.
  { change (exec 0 ([Iswapgs; Ixchg_gs rsp; Ipush_gs; Imov_gs rsp; Iadd_gs 8] ++ p1) c s = exec 0 q c4 s3).
    rewrite E1. unfold p1. rewrite E2. unfold p2. rewrite E3. unfold p3. by rewrite E4. }
  assert (R4 : gpr c4 rsp = ktop - 192) by (rewrite G4 by regs; lia).
  assert (Hfr : sel c2 es :: sel c2 ds :: (gpr c2 <$> rev saved) ++ sys_hw c = sys_words c).
  { unfold sys_words. rewrite S2. do 3 f_equal. apply list_fmap_ext. intros i r Hr. apply G2. intros ->.
    by apply (list_elem_of_lookup_2 _ i), list_elem_of_In, in_rev in Hr; repeat destruct Hr as [Hr|Hr]. }
  assert (B : below s1 s3 lo (ktop - 8)) by (eapply below_trans; [rewrite R1 in B2; exact B2|exact B3|lia]).
  split; [done| | | | | | |].
  - rewrite <- Hfr. destruct Hs3 as [X1 X2 X3 X4]. rewrite <- G4 in X1, X2, X3, X4 by regs. by split.
  - intros r Hr. rewrite G4 by regs. rewrite (on_gpr _ _ _ O3) by regs. apply G2. regs.
  - rewrite C4, (on_gpr _ _ _ O3) by regs. by apply G2.
  - rewrite D6, D7, (on_sel _ _ _ O3), S2. done.
  - by eapply has_stack_below.
  - destruct B as (-> & _ & _). exact G1.
  - intros x X1 X2. destruct B as (_ & _ & _ & O). rewrite O by lia. by apply M1.
Qed.

Lemma stack_advance s c c' lo0 ws l :
  stack s c lo0 (ws ++ l) -> gpr c' rsp = gpr c rsp + 8 * Z.of_nat (length ws) -> stack s c' (gpr c' rsp) l.
Proof.
  intros [Hw Hroom Ht Hm] E. apply words_at_app in Hw as [_ Hw]. rewrite length_app in Ht.
  split; rewrite E; [exact Hw|lia|lia|intros x Hx; lia].
Qed.

Lemma exec_drop k q c s lo0 ws l :
  stack s c lo0 (ws ++ l) -> k = 8 * Z.of_nat (length ws) ->
  exists c', exec 0 (Iadd_i rsp k :: q) c s = exec 0 q c' s /\ only [rsp] c c' /\ stack s c' (gpr c' rsp) l.
Proof.
  intros Hs ->. set (k := 8 * Z.of_nat (length ws)). pose proof Hs as [_ Hroom Ht _]. rewrite length_app in Ht.
  exists (set_gpr c rsp (gpr c rsp + k)). split; [|split].
  - apply exec_cons; [done|]. cbn [Asm.step]. by rewrite u64_small by (unfold k; lia).
  - split; [|done..]. intros r Hr. apply upd_other. regs.
  - eapply stack_advance; [exact Hs|]. apply upd_same.
Qed.

Lemma swap_star s : gval (swap_state s) g_star = gval s g_star.
Proof. unfold swap_state, gval. cbn [glob]. by rewrite !lookup_insert_ne by done. Qed.

(** The last four instructions. *)
Lemma exec_sysret c s u lo0 l :
  stack s c lo0 (u :: l) -> 
  exists c', exec 0 [Ipop rsp; Icli; Iswapgs; Isysret] c s = Ok c' (swap_state s) /\
    (forall r, r <> rsp -> gpr c' r = gpr c r) /\ gpr c' rsp = u /\ rip c' = gpr c rcx /\
    rflags c' = Z.lor (Z.land (gpr c r11) 0x3c7fd7) 2 /\ sel c' ds = sel c ds /\ sel c' es = sel c es /\
    sel c' cs = sysret_cs (gval s g_star) /\ sel c' ss = sysret_ss (gval s g_star).
Proof.
  intros [Hw _ Ht _]. apply words_at_cons in Hw as [Hw _]. eexists. split; [|split].
  - erewrite exec_cons; [|done|]. 2: { cbn [Asm.step]. rewrite (ld_then 8 _ _ _ _ Hw). reflexivity. }
    do 3 (erewrite exec_cons; [|reflexivity|reflexivity]). reflexivity.
  - intros r Hr. cbn [set_rip set_rflags set_sel set_gpr gpr]. by rewrite !upd_other by done.
  - rewrite <- (swap_star s). repeat split.
Qed.

Definition sys_restored : list reg := [r15; r14; r13; r12; r11; r10; r9; r8; rbp; rdi; rsi].

Lemma sys_regs r : r ∈ [rsp; rax; rdx; rcx; rbx] ++ sys_restored.
Proof. apply (bool_decide_unpack _). by destruct r. Qed.

Lemma syscall_leave_eq c s c0 lo0 :
  stack s c lo0 (sys_words c0) -> cpu_ok c0 ->
  exists c', exec 0 syscall_leave c s = Ok c' (swap_state s) /\
    (forall r, r ∉ [rax; rdx] -> gpr c' r = gpr c0 r) /\ gpr c' rax = gpr c rax /\ gpr c' rdx = gpr c rdx /\
    rip c' = gpr c0 rcx /\ rflags c' = Z.lor (Z.land (gpr c0 r11) 0x3c7fd7) 2 /\
    sel c' ds = sel c0 ds /\ sel c' es = sel c0 es /\
    sel c' cs = sysret_cs (gval s g_star) /\ sel c' ss = sysret_ss (gval s g_star).
Proof.
  intros Hs [Hg Hsel _ _]. unfold syscall_leave.
  change (sys_words c0) with ([sel c0 es; sel c0 ds] ++ (gpr c0 <$> sys_restored) ++ [gpr c0 rdx] ++ (gpr c0 <$> [rcx; rbx]) ++ (gpr c0 rax :: removelast (sys_hw c0)) ++ [gpr c0 rsp]) in Hs.
  assert (Hnd : NoDup sys_restored) by (unfold sys_restored; repeat (constructor; [regs|]); constructor).
  destruct (exec_restores r11 sys_restored ([Iadd_i rsp 8; Ipop rcx; Ipop rbx; Iadd_i rsp 0x38; Ipop rsp; Icli; Iswapgs; Isysret])
    c s lo0 (sel c0 es) (sel c0 ds) _ _ (ltac:(done) : r11 <> rsp) Hs) as (c1 & E1 & G1 & W1 & R1 & S1 & S2 & _);
    [done|exact Hnd|unfold sys_restored; regs|apply Hsel|apply Hsel|].
  rewrite app_assoc in Hs. apply (stack_advance _ _ c1) in Hs; [|rewrite R1; done].
  destruct (exec_drop 8 ((Ipop <$> [rcx; rbx]) ++ [Iadd_i rsp 0x38; Ipop rsp; Icli; Iswapgs; Isysret]) c1 s _ _ _ Hs eq_refl) as (c2 & E2 & O2 & Hs2).
  destruct (exec_pops [rcx; rbx] [Iadd_i rsp 0x38; Ipop rsp; Icli; Iswapgs; Isysret] c2 s _ _ _ Hs2) as (c3 & E3 & O3 & R3 & W3);
    [done|repeat (constructor; [regs|]); constructor|regs|].
  apply (stack_advance _ _ c3) in Hs2; [|exact R3].
  destruct (exec_drop 0x38 [Ipop rsp; Icli; Iswapgs; Isysret] c3 s _ _ _ Hs2 eq_refl) as (c4 & E4 & O4 & Hs4).
  destruct (exec_sysret c4 s _ _ _ Hs4) as (c5 & E5 & G5 & R5 & I5 & F5 & D5 & D6 & D7 & D8).
  assert (Hold : forall r, r ∉ [rsp; rcx; rbx] -> gpr c4 r = gpr c1 r).
  { intros r Hr. by rewrite (on_gpr _ _ _ O4), (on_gpr _ _ _ O3), (on_gpr _ _ _ O2) by regs. }
  assert (Hres : forall r, r ∈ sys_restored -> gpr c4 r = gpr c0 r).
  { intros r Hr. rewrite Hold by (unfold sys_restored in Hr; regs). by apply (fmap_same c0 c1 sys_restored W1). }
  assert (Hcb : forall r, r ∈ [rcx; rbx] -> gpr c4 r = gpr c0 r).
  { intros r Hr. rewrite (on_gpr _ _ _ O4) by regs. by apply (fmap_same c0 c3 [rcx; rbx] W3). }
  assert (Hsl : sel c4 = sel c1) by (rewrite (on_sel _ _ _ O4), (on_sel _ _ _ O3); apply O2).
  exists c5. split; [|split; [|split; [|split; [|split; [|split; [|split; [|split; [|done]]]]]]]].
  - transitivity (exec 0 [Ipop rsp; Icli; Iswapgs; Isysret] c4 s); [|exact E5]. rewrite <- E4, <- E3, <- E2. exact E1.
  - intros r Hr. destruct (decide (r = rsp)) as [->|Hn]; [done|]. rewrite G5 by done.
    destruct (decide (r ∈ [rcx; rbx])); [by apply Hcb|]. apply Hres.
    destruct (proj1 (elem_of_app _ _ _) (sys_regs r)); [regs|done].
  - rewrite G5, Hold by regs. apply G1. unfold sys_restored. regs.
  - rewrite G5, Hold by regs. apply G1. unfold sys_restored. regs.
  - rewrite I5. apply Hcb. regs.
  - rewrite F5, Hres; [done|]. unfold sys_restored. regs.
  - by rewrite D5, Hsl.
  - by rewrite D6, Hsl.
Qed.

(** The function of the table has been called. *)
Definition sys_called s c c1 s1 : Prop :=
  exists c0 s0, sys_entered s c c0 s0 /\ push c0 return_address s0 = Ok c1 s1.

(** What it has to leave alone beside the stack of its caller. *)
Definition sys_returned c1 s1 c2 s2 : Prop :=
  returned c1 s1 c2 s2 ktop /\ gval s2 g_star = gval s1 g_star /\ rd 8 (mem s2) kb = rd 8 (mem s1) kb.

Lemma sys_call_eq s c c1 s1 target q :
  sys_entered s c c1 s1 -> 0 <= return_address < 2 ^ 64 ->
  0 <= syscall_table -> 0 <= gpr c rax -> syscall_table + 8 * gpr c rax + 8 <= 2 ^ 64 ->
  rd 8 (mem s) (syscall_table + 8 * gpr c rax) = Some target ->
  syscall_table + 8 * gpr c rax + 8 <= lo \/ ktop <= syscall_table + 8 * gpr c rax ->
  syscall_table + 8 * gpr c rax + 8 <= kb \/ kb + 8 <= syscall_table + 8 * gpr c rax ->
  exists c2 s2, exec 0 (Icall_m rax syscall_table 8 :: q) c1 s1 = (c3 ← run target c2; exec 0 q c3) s2 /\ sys_called s c c2 s2 /\
    gpr c2 rsp = ktop - 200 /\ words_at (mem s2) (ktop - 192) (sys_words c) /\ glob s2 = glob s1 /\ rd 8 (mem s2) kb = Some ktop /\
    (forall r, r <> rsp -> gpr c2 r = gpr c1 r).
Proof.
  intros He Hra H0 Ha Hi Ht Hd Hd2. pose proof He as [R Hs G _ _ Hh _ M].
  pose proof Hh as [_ _ _ (L0 & L1 & L2) _].
  destruct (push_eq c1 return_address s1 lo _ Hs) as (s2 & E2 & Hs2 & B2); [lia|done|].
  exists (set_gpr c1 rsp (gpr c1 rsp - 8)), s2. split; [|split; [|split; [|split; [|split; [|split]]]]].
  - cbn [Asm.exec Asm.step]. rewrite G by regs. rewrite u64_small by lia.
    replace (gpr c rax * 8 + syscall_table) with (syscall_table + 8 * gpr c rax) by lia.
    assert (Ht1 : rd 8 (mem s1) (syscall_table + 8 * gpr c rax) = Some target).
    { rewrite <- Ht. apply rd_ext. intros x Hx. simpl in Hx. apply M; lia. }
    unfold mbind, K_bind, ld. rewrite Ht1. rewrite E2. reflexivity.
  - by exists c1, s1.
  - unfold set_gpr. cbn [gpr]. rewrite upd_same. lia.
  - destruct Hs2 as [W _ _ _]. unfold set_gpr in W. cbn [gpr] in W. rewrite upd_same in W.
    apply words_at_cons in W as [_ W]. by replace (ktop - 192) with (gpr c1 rsp - 8 + 8) by lia.
  - apply B2.
  - apply (hs_word s2). eapply has_stack_below; [exact Hh|]. eapply below_trans; [|apply below_refl|reflexivity].
    destruct B2 as (X1 & X2 & X3 & X4). split; [done|]. split; [done|]. split; [done|]. intros x Hx. apply X4. lia.
  - intros r Hr. by apply upd_other.
Qed.

(** The state behind the instruction [syscall]. *)
Definition after_syscall s c : cpu :=
  let c' := set_gpr (set_gpr c rcx (rip c)) r11 (rflags c) in
  let c' := set_sel (set_sel c' cs 0x28) ss 0x30 in
  set_rip (set_rflags c' (Z.land (rflags c) (Z.lnot (gval s g_fmask)))) (gval s g_lstar).

Lemma syscall_insn_eq c s : gval s g_star = star_value -> syscall_insn c s = Ok (after_syscall s c) s.
Proof. intros H. unfold syscall_insn, gget, mbind, K_bind. rewrite H. reflexivity. Qed.

Lemma after_syscall_ok s c : cpu_ok c -> 0 <= gval s g_lstar < 2 ^ 64 -> cpu_ok (after_syscall s c).
Proof.
  intros [Hg Hsel Hi Hf] Hl. split; cbn [after_syscall set_rip set_rflags set_sel set_gpr gpr sel rip rflags].
  - intros r. unfold upd. repeat case_decide; done.
  - intros g. unfold upd. repeat case_decide; done || lia.
  - done.
  - rewrite <- (Z.mod_small (rflags c) (2 ^ 64)) by done. rewrite <- (Z.land_ones _ 64), Z.land_comm, Z.land_assoc, Z.land_ones by lia.
    apply Z.mod_pos_bound. lia.
Qed.

(** C9: a system call: the instruction [syscall], the entry of the kernel and a
    function of the table that follows the calling convention bring the program
    back behind the instruction, on its own stack, in user mode, with every
    register but [rax], [rdx], [rcx] and [r11]; the function gets the fourth
    argument in [rcx], its result is returned in [rax], the segment bases are
    back and the word at [gs:0] holds the kernel's stack for the next call. *)
Theorem syscall_roundtrip c s target :
  cpu_ok c -> has_stack s -> gval s g_kgs_base = kb -> gval s g_star = star_value -> 0 <= gval s g_lstar < 2 ^ 64 ->
  0 <= return_address < 2 ^ 64 -> 0 <= syscall_table -> syscall_table + 8 * gpr c rax + 8 <= 2 ^ 64 ->
  rd 8 (mem s) (syscall_table + 8 * gpr c rax) = Some target ->
  syscall_table + 8 * gpr c rax + 8 <= lo \/ ktop <= syscall_table + 8 * gpr c rax ->
  syscall_table + 8 * gpr c rax + 8 <= kb \/ kb + 8 <= syscall_table + 8 * gpr c rax ->
  (forall c1 s1, sys_called s (after_syscall s c) c1 s1 -> gpr c1 rcx = gpr c r10 ->
     (forall r, r ∈ [rdi; rsi; rdx; r8; r9] -> gpr c1 r = gpr c r) ->
     exists c2 s2, run target c1 s1 = Ok c2 s2 /\ sys_returned c1 s1 c2 s2) ->
  exists c1 s1 c2 s2 c' s', sys_called s (after_syscall s c) c1 s1 /\ run target c1 s1 = Ok c2 s2 /\
    (c0 ← syscall_insn c; exec 0 (syscall_entry_asm syscall_table) c0) s = Ok c' s' /\
    (forall r, r ∉ [rax; rdx; rcx; r11] -> gpr c' r = gpr c r) /\ gpr c' rax = gpr c2 rax /\
    rip c' = rip c /\ rflags c' = Z.lor (Z.land (rflags c) 0x3c7fd7) 2 /\
    sel c' cs = 0x43 /\ sel c' ss = 0x3b /\ sel c' ds = sel c ds /\ sel c' es = sel c es /\
    gval s' g_gs_base = gval s g_gs_base /\ gval s' g_kgs_base = kb /\ rd 8 (mem s') kb = Some ktop.
Proof.
  intros Hc Hh Hk Hst Hl Hra Ht0 Hi Ht Hd Hd2 Hrun. set (a := after_syscall s c).
  assert (Ga : forall r, r ∉ [rcx; r11] -> gpr a r = gpr c r).
  { intros r Hr. unfold a, after_syscall. cbn [set_rip set_rflags set_sel set_gpr gpr]. by rewrite !upd_other by regs. }
  destruct (syscall_enter_eq ([Icall_m rax syscall_table 8] ++ syscall_leave) a s Hh Hk (after_syscall_ok s c Hc Hl)) as (c0 & s0 & E0 & En).
  destruct (sys_call_eq s a c0 s0 target syscall_leave En Hra Ht0) as (c1 & s1 & E1 & Ca & R1 & W1 & G1 & K1 & Gc); [|by rewrite Ga by regs..|].
  { rewrite Ga by regs. apply Hc. }
  assert (Gs : forall r, r ∉ [rsp; rcx; r11] -> gpr c1 r = gpr c r).
  { intros r Hr. rewrite Gc by regs. rewrite (se_gpr _ _ _ _ En) by done. apply Ga. regs. }
  destruct (Hrun c1 s1 Ca) as (c2 & s2 & E2 & [R2 M2 [GS KGS]] & Hstar & Hkb).
  { rewrite Gc, (se_rcx _ _ _ _ En) by done. apply Ga. regs. } { intros r Hr. apply Gs. regs. }
  pose proof Hh as [_ _ _ (L0 & L1 & L2) _].
  assert (Hs : stack s2 c2 (ktop - 192) (sys_words a)).
  { split; rewrite R2, R1; [|lia|simpl length; lia|intros x Hx; lia].
    replace (ktop - 200 + 8) with (ktop - 192) by lia. eapply words_at_agree; [|exact W1]. simpl length. intros x Hx. apply M2. rewrite R1. lia. }
  destruct (syscall_leave_eq c2 s2 a _ Hs (after_syscall_ok s c Hc Hl)) as (c3 & E3 & G3 & A3 & _ & I3 & F3 & D3 & D4 & D5 & D6).
  assert (Hg1 : forall g, gval s1 g = gval (swap_state s) g) by (intros g; unfold gval; by rewrite G1, (se_glob _ _ _ _ En)).
  rewrite Hstar, Hg1, swap_star, Hst in D5, D6.
  exists c1, s1, c2, s2, c3, (swap_state s2). split; [exact Ca|]. split; [exact E2|].
  split; [|split; [|split; [done|]]].
  - rewrite (bind_Ok _ _ _ _ _ (syscall_insn_eq c s Hst)). fold a. unfold syscall_entry_asm. rewrite E0. simpl app.
    rewrite E1, (bind_Ok _ _ _ _ _ E2). exact E3.
  - intros r Hr. rewrite G3 by regs. apply Ga. regs.
  - split; [done|]. split; [done|]. split; [done|]. split; [done|]. split; [done|]. split; [done|].
    change (swap_state s2) with (swap_if true s2). change (swap_state s) with (swap_if true s) in Hg1.
    rewrite (swap_if_gs true s2), (swap_if_kgs true s2), KGS, GS, !Hg1, (swap_if_kgs true s), (swap_if_gs true s).
    split; [done|]. split; [done|]. by rewrite <- K1, <- Hkb.
Qed.

End syscalls.

End exec.

(** * Examples *)

(** A program in the kernel with a stack from [0x1000] to [0x1200], the table [isr]
    at [0x1200] with a handler for the timer, the system calls' table at [0x1400]
    with the first one, and the word of [gs:0] at [0x1500]. *)
Definition asm_cpu : cpu :=
  Cpu (fun r => if decide (r = rax) then 0 else if decide (r = rsp) then 0x8000 else 0x1234)
      (fun g => if decide (g = cs) then 0x28 else 0x30) 0x4000 0x202 false.
Definition asm_machine : kstate :=
  KState (wr 8 (wr 8 (wr 8 (zeros 0x1000 (Z.to_nat 0x600)) 0x1300 0x9000) 0x1400 0x9100) 0x1500 0x1200)
    (<[g_kgs_base := 0x1500]> {[ g_star := star_value ]}) [].

(** A handler that spoils registers and returns. *)
Definition asm_handler (_ : Z) (c : cpu) : K cpu :=
  mret (set_gpr (set_gpr (set_gpr c rax 42) r15 0) rsp (u64 (gpr c rsp + 8))).

Lemma asm_cpu_ok : cpu_ok asm_cpu.
Proof. split; [intros []|intros []| |]; simpl; lia. Qed.

Ltac asm_rd := unfold asm_machine; cbn [mem]; match goal with |- rd _ _ ?a = _ => let b := eval vm_compute in a in change a with b end; mem_rd.

Ltac asm_lia := change (Z.land 0x1200 (Z.lnot 0xf)) with 0x1200; change (gpr asm_cpu rax) with 0; lia.

Lemma asm_mapped : mapped (mem asm_machine) 0x1000 0x200.
Proof. unfold asm_machine. cbn [mem]. do 3 apply mapped_wr. intros x Hx. apply zeros_mapped. lia. Qed.

Lemma push_rsp c v s c' s' : push c v s = Ok c' s' -> gpr c' rsp = u64 (gpr c rsp - 8).
Proof. unfold push, mbind, K_bind. destruct (st 8 _ v s); [|done..]. intros [= <- <-]. apply upd_same. Qed.

Lemma asm_handler_returns a c s hi :
  0 <= gpr c rsp -> gpr c rsp + 8 < 2 ^ 64 ->
  exists c' s', asm_handler a c s = Ok c' s' /\ returned c s c' s' hi /\ s' = s.
Proof.
  intros H0 H1. eexists _, s. split; [reflexivity|]. split; [|done]. split; [|done|done].
  unfold set_gpr. cbn [gpr]. rewrite upd_same. apply u64_small. lia.
Qed.

Lemma isr_stub_resumes_witness :
  exists c' s', (c0 ← deliver 0x1200 0 32 0x5000 asm_cpu; exec asm_handler 0x6000 (fun _ => 0) 0 (isr_stub 0x1200 32) c0) asm_machine = Ok c' s' /\
    resumed asm_cpu c' /\ gval s' g_gs_base = 0 /\ gval s' g_kgs_base = 0x1500.
Proof.
  apply (isr_stub_resumes asm_handler 0x6000 (fun _ => 0) 0x1200 0x1200 0 32 0x5000 asm_cpu asm_machine 0x1000 0x9000);
    [reflexivity|apply asm_cpu_ok|lia|lia|asm_lia|asm_lia|apply asm_mapped|lia|lia|lia|lia|asm_rd|asm_lia|].
  intros c1 s1 (c0 & s0 & [R _ _ _ _ _ _] & Hp). apply push_rsp in Hp. rewrite R in Hp. change (gpr c1 rsp = 0x1140) in Hp.
  destruct (asm_handler_returns 0x9000 c1 s1 0x1200) as (c2 & s2 & E2 & R2 & _); [lia|lia|]. by exists c2, s2.
Defined.

Lemma context_switch_resumes_witness :
  exists c1 s1, (c0 ← deliver 0x1200 0 32 0x5000 asm_cpu; exec asm_handler 0x6000 (fun _ => 0) 0 (isr_enter 0x1200 32) c0) asm_machine = Ok c1 s1 /\
    gpr c1 rdi = 32 /\
    forall c2 s2 state, 0 <= state -> state + 184 < 2 ^ 64 ->
      (forall i, 0 <= i < 23 -> rd 8 (mem s2) (state + 8 * i) = rd 8 (mem s1) (gpr c1 rsi + 8 * i)) ->
      exists c', exec asm_handler 0x6000 (fun _ => 0) 0 (switch_code state) c2 s2 = Ok c' (swap_state s2) /\ resumed asm_cpu c'.
Proof.
  apply (context_switch_resumes asm_handler 0x6000 (fun _ => 0) 0x1200 0x1200 0 32 0x5000 asm_cpu asm_machine 0x1000);
    [reflexivity|apply asm_cpu_ok|lia|lia|asm_lia|asm_lia|apply asm_mapped].
Defined.

Lemma syscall_roundtrip_witness :
  exists c' s', (c0 ← syscall_insn asm_cpu; exec asm_handler 0x6000 (fun _ => 0) 0 (syscall_entry_asm 0x1400) c0) asm_machine = Ok c' s' /\
    gpr c' r15 = 0x1234 /\ gpr c' rsp = 0x8000 /\ rip c' = 0x4000 /\ rd 8 (mem s') 0x1500 = Some 0x1200.
Proof.
  destruct (syscall_roundtrip asm_handler 0x6000 (fun _ => 0) 0x1400 0x1500 0x1200 0x1000 asm_cpu asm_machine 0x9100)
    as (c1 & s1 & c2 & s2 & c' & s' & _ & _ & E & G & _ & I & _ & _ & _ & _ & _ & _ & _ & K);
    [apply asm_cpu_ok| |done|done|done|lia|lia|asm_lia|asm_rd|asm_lia|asm_lia| |].
  - split; [asm_rd|lia|lia|lia|apply asm_mapped].
  - intros c1 s1 (c0 & s0 & [R _ _ _ _ _ _ _] & Hp) _ _. apply push_rsp in Hp. rewrite R in Hp. change (gpr c1 rsp = 0x1138) in Hp.
    destruct (asm_handler_returns 0x9100 c1 s1 0x1200) as (c2 & s2 & E2 & R2 & ->); [lia|lia|]. by exists c2, s1.
  - exists c', s'. split; [exact E|]. split; [apply (G r15), (bool_decide_unpack _); reflexivity|].
    split; [apply (G rsp), (bool_decide_unpack _); reflexivity|]. split; [exact I|exact K].
Defined.
