(* ===== verification/SmpRace.v ===== *)
(** The cores start: [smp_init] goes through the list of cores and, in the order of the
    list, hands every other core its entry point and runs [core_init] itself where it
    is its own turn; [cpus_running++] of [core_init] is a load and a store, which those
    of other cores can come between.  The state of this interleaving is the counter,
    the index of the loop and how far every core of the list is; [bsp] is the place
    of the core that boots, which waits for the counter behind the loop. *)
From S2P Require Import Prelude Machine Smp.

(** Without an entry point, before the increment, between its load, which gave [v], and
    its store, behind it; and, for the core that boots, behind the wait. *)
Inductive progress := Parked | Starting | Loaded (v : Z) | Counted | Through.

#[export] Instance progress_eq_dec : EqDecision progress.
Proof. solve_decision. Defined.

Record cores := Cores { cpus_running : Z; next_cpu : nat; at_core : list progress }.

(** [cpus_running++] on one core. *)
Inductive count_step : cores -> cores -> Prop :=
  | step_load c k ps i : ps !! i = Some Starting -> count_step (Cores c k ps) (Cores c k (<[i := Loaded c]> ps))
  | step_store c k ps i v : ps !! i = Some (Loaded v) -> count_step (Cores c k ps) (Cores (u64 (v + 1)) k (<[i := Counted]> ps)).

Section race.
Context (bsp : nat) (cpu_count : Z).

(** The loop of [smp_init]: a round for another core sets its entry point; the round of
    the core that boots calls [core_init] and ends when that has returned; behind the
    loop the core waits for the counter. *)
Inductive smp_step : cores -> cores -> Prop :=
  | step_start c k ps : k <> bsp -> ps !! k = Some Parked -> smp_step (Cores c k ps) (Cores c (S k) (<[k := Starting]> ps))
  | step_init c ps : ps !! bsp = Some Parked -> smp_step (Cores c bsp ps) (Cores c bsp (<[bsp := Starting]> ps))
  | step_return c ps : ps !! bsp = Some Counted -> smp_step (Cores c bsp ps) (Cores c (S bsp) ps)
  | step_leave k ps : Z.of_nat k = cpu_count -> ps !! bsp = Some Counted ->
      smp_step (Cores cpu_count k ps) (Cores cpu_count k (<[bsp := Through]> ps)).

Inductive core_step (x y : cores) : Prop :=
  | core_counts (H : count_step x y)
  | core_boots (H : smp_step x y).

Definition boot (n : nat) : cores := Cores 0 0 (replicate n Parked).

(** The cores that have counted themselves. *)
Definition counted (p : progress) : bool := match p with Counted | Through => true | _ => false end.
Definition number (ps : list progress) : Z := Z.of_nat (length (filter (fun p => counted p = true) ps)).

Lemma number_insert ps i p p' :
  ps !! i = Some p -> number (<[i := p']> ps) = number ps - (if counted p then 1 else 0) + (if counted p' then 1 else 0).
Proof.
  unfold number. revert i. induction ps as [|q ps IH]; intros [|i] H; [done|done| |].
  - injection H as ->. cbn [list_insert insert]. rewrite !filter_cons.
    destruct (counted p), (counted p'); repeat case_decide; try done; cbn [length]; lia.
  - change (<[S i := p']> (q :: ps)) with (q :: <[i := p']> ps). specialize (IH i H). rewrite !filter_cons. destruct (decide (counted q = true)); cbn [length]; lia.
Qed.

Lemma number_bound ps : 0 <= number ps <= Z.of_nat (length ps).
Proof. unfold number. pose proof (length_filter (fun p => counted p = true) ps). lia. Qed.

Lemma number_all ps : number ps = Z.of_nat (length ps) -> forall i p, ps !! i = Some p -> counted p = true.
Proof.
  unfold number. induction ps as [|q ps IH]; intros H i p Hi; [done|]. rewrite filter_cons in H.
  pose proof (length_filter (fun p => counted p = true) ps). destruct (decide (counted q = true)) as [Hq|Hq]; simpl in H; [|lia].
  destruct i as [|i]; [by injection Hi as <-|]. apply (IH ltac:(lia) i p Hi).
Qed.

(** The counter, and every value that was loaded from it, is at most the number of
    cores that have counted themselves. *)
Definition race_inv (n : nat) (x : cores) : Prop :=
  length (at_core x) = n /\ 0 <= cpus_running x <= number (at_core x) /\
  (forall i v, at_core x !! i = Some (Loaded v) -> 0 <= v <= number (at_core x)) /\
  ((exists i, at_core x !! i = Some Through) -> cpu_count <= number (at_core x)).

Lemma number_replicate n p : counted p = false -> number (replicate n p) = 0.
Proof.
  intros Hp. unfold number. induction n as [|n IH]; [done|]. rewrite replicate_S, filter_cons, decide_False by (by rewrite Hp). done.
Qed.

Lemma boot_inv n : race_inv n (boot n).
Proof.
  unfold boot. split; [apply length_replicate|]. simpl. rewrite number_replicate by done. split; [lia|]. split.
  - intros i v [? _]%lookup_replicate. done.
  - intros (i & [? _]%lookup_replicate). done.
Qed.

(** A core that goes on keeps the invariant when the counter does, and what it has loaded. *)
Lemma race_inv_move n c c' k k' ps i p p' :
  race_inv n (Cores c k ps) -> ps !! i = Some p -> number ps <= number (<[i := p']> ps) ->
  0 <= c' <= number (<[i := p']> ps) ->
  (forall v, p' = Loaded v -> 0 <= v <= number (<[i := p']> ps)) ->
  (p' = Through -> cpu_count <= number (<[i := p']> ps)) ->
  race_inv n (Cores c' k' (<[i := p']> ps)).
Proof.
  intros (Hl & Hc & Hv & Ht) Hi Hle Hc' Hv' Ht'. simpl in *. pose proof (lookup_lt_Some _ _ _ Hi) as Hlt.
  split; [simpl; by rewrite length_insert|]. split; [done|]. split; simpl.
  - intros j w [(<- & -> & _)|[_ Hj]]%list_lookup_insert_Some; [by apply Hv'|]. pose proof (Hv j w Hj). lia.
  - intros (j & [(<- & Hp & _)|[_ Hj]]%list_lookup_insert_Some); [by apply Ht'|]. specialize (Ht (ex_intro _ j Hj)). lia.
Qed.

Lemma race_step_inv n x y : Z.of_nat n < 2 ^ 64 -> race_inv n x -> core_step x y -> race_inv n y.
Proof.
  intros Hn Hx Hst. pose proof Hx as (Hl & Hc & Hv & Ht). pose proof (number_bound (at_core x)) as Hb.
  destruct Hst as [Hst|Hst].
  - destruct Hst as [c k ps i Hi|c k ps i v Hi]; simpl in *; pose proof (number_insert ps i _ (Loaded c) Hi) as Hk;
      pose proof (number_insert ps i _ Counted Hi) as Hk'; simpl in Hk, Hk'.
    + eapply race_inv_move; [exact Hx|exact Hi|lia|lia| |done]. intros v [= <-]. lia.
    + pose proof (Hv i v Hi). pose proof (number_bound (<[i := Counted]> ps)) as Hb'. rewrite length_insert in Hb'.
      eapply race_inv_move; [exact Hx|exact Hi|lia| |done|done]. rewrite u64_small; lia.
  - destruct Hst as [c k ps Hk Hi|c ps Hi|c ps Hi|k ps Hk Hi]; simpl in *.
    + pose proof (number_insert ps k _ Starting Hi) as E. simpl in E. eapply race_inv_move; [exact Hx|exact Hi|lia|lia|done|done].
    + pose proof (number_insert ps bsp _ Starting Hi) as E. simpl in E. eapply race_inv_move; [exact Hx|exact Hi|lia|lia|done|done].
    + done.
    + pose proof (number_insert ps bsp _ Through Hi) as E. simpl in E. eapply race_inv_move; [exact Hx|exact Hi|lia|lia|done|lia].
Qed.

Lemma race_inv_reachable n x : Z.of_nat n < 2 ^ 64 -> rtc core_step (boot n) x -> race_inv n x.
Proof.
  intros Hn Hr. pose proof (boot_inv n) as Hi. revert Hi. induction Hr as [x|x y z Hxy Hyz IH]; intros Hi; [done|].
  apply IH. by eapply race_step_inv.
Qed.

(** The steps of a core, as steps of the whole. *)
Lemma do_load c k ps i : ps !! i = Some Starting -> core_step (Cores c k ps) (Cores c k (<[i := Loaded c]> ps)).
Proof. intros H. by apply core_counts, step_load. Qed.
Lemma do_store c k ps i v c' :
  ps !! i = Some (Loaded v) -> u64 (v + 1) = c' -> core_step (Cores c k ps) (Cores c' k (<[i := Counted]> ps)).
Proof. intros H <-. by apply core_counts, step_store. Qed.

(** The core behind the first ones of a part of the list. *)
Lemma part_lookup l j (p p' : progress) r : (l ++ replicate j p' ++ p :: r) !! (length l + j)%nat = Some p.
Proof. rewrite app_assoc. apply list_lookup_middle. by rewrite length_app, length_replicate. Qed.
Lemma part_insert l j (p p' q : progress) r :
  <[(length l + j)%nat := q]> (l ++ replicate j p' ++ p :: r) = l ++ replicate j p' ++ q :: r.
Proof.
  rewrite !app_assoc, insert_app_r_alt by (rewrite length_app, length_replicate; lia).
  by rewrite length_app, length_replicate, Nat.sub_diag.
Qed.

(** Every core of a part of the list does the same step, one after the other. *)
Lemma all_step p p' (g : nat -> Z) (f : nat -> nat) l r m :
  (forall j r', (j < m)%nat ->
     core_step (Cores (g j) (f j) (l ++ replicate j p' ++ p :: r')) (Cores (g (S j)) (f (S j)) (l ++ replicate j p' ++ p' :: r'))) ->
  rtc core_step (Cores (g 0%nat) (f 0%nat) (l ++ replicate m p ++ r)) (Cores (g m) (f m) (l ++ replicate m p' ++ r)).
Proof.
  intros Hs. enough (H : forall j n, (j + n = m)%nat ->
    rtc core_step (Cores (g j) (f j) (l ++ replicate j p' ++ replicate n p ++ r)) (Cores (g m) (f m) (l ++ replicate m p' ++ r)))
    by (apply (H 0%nat m); lia).
  intros j n. revert j. induction n as [|n IH]; intros j Hj.
  - rewrite Nat.add_0_r in Hj. subst j. apply rtc_refl.
  - rewrite replicate_S. cbn [app]. eapply rtc_l; [apply Hs; lia|].
    replace (l ++ replicate j p' ++ p' :: replicate n p ++ r) with (l ++ replicate (S j) p' ++ replicate n p ++ r)
      by (change (replicate (S j) p') with (p' :: replicate j p'); by rewrite replicate_cons_app, <- app_assoc).
    apply IH. lia.
Qed.

(** A part of the list without the core that boots gets its entry points. *)
Lemma all_start l m r c : (bsp < length l \/ length l + m <= bsp)%nat ->
  rtc core_step (Cores c (length l) (l ++ replicate m Parked ++ r)) (Cores c (length l + m) (l ++ replicate m Starting ++ r)).
Proof.
  intros Hb. pose proof (all_step Parked Starting (fun _ => c) (fun j => length l + j)%nat l r m) as H. cbn beta in H.
  rewrite Nat.add_0_r in H. apply H. intros j r' Hj. rewrite <- (part_insert l j Parked Starting Starting r'), Nat.add_succ_r.
  apply core_boots, step_start; [lia|]. apply part_lookup.
Qed.

(** All cores of a part load the same value. *)
Lemma all_load l m r c k :
  rtc core_step (Cores c k (l ++ replicate m Starting ++ r)) (Cores c k (l ++ replicate m (Loaded c) ++ r)).
Proof.
  apply (all_step Starting (Loaded c) (fun _ => c) (fun _ => k)). intros j r' _.
  rewrite <- (part_insert l j Starting (Loaded c) (Loaded c) r'). apply do_load, part_lookup.
Qed.

(** They all store the same value then. *)
Lemma all_store l m r c k : 0 <= c < 2 ^ 64 - 1 -> (0 < m)%nat ->
  rtc core_step (Cores c k (l ++ replicate m (Loaded c) ++ r)) (Cores (c + 1) k (l ++ replicate m Counted ++ r)).
Proof.
  intros Hc Hm. destruct m as [|m]; [lia|].
  apply (all_step (Loaded c) Counted (fun j => match j with O => c | S _ => c + 1 end) (fun _ => k)). intros j r' _.
  rewrite <- (part_insert l j (Loaded c) Counted Counted r'). eapply do_store; [apply part_lookup|apply u64_small; lia].
Qed.

(** A run in which the cores that may race all do: first the one that boots and those
    before it, then those behind it. *)
Lemma lossy_run n : (bsp < n)%nat ->
  rtc core_step (boot n) (Cores (if decide (S bsp = n) then 1 else 2) n (replicate n Counted)).
Proof.
  intros Hb. assert (Hn : exists m, n = (bsp + S m)%nat) by (exists (n - S bsp)%nat; lia). destruct Hn as [m ->].
  transitivity (Cores 0 bsp (replicate bsp Starting ++ Parked :: replicate m Parked)).
  { unfold boot. rewrite replicate_add. apply (all_start [] bsp (replicate (S m) Parked) 0). right. simpl. lia. }
  assert (Hat : forall p q r, (replicate bsp p ++ q :: r : list progress) !! bsp = Some q) by (intros p q r; apply (part_lookup [])).
  assert (Hin : forall p q q' r, <[bsp := q']> (replicate bsp p ++ q :: r : list progress) = replicate bsp p ++ q' :: r)
    by (intros p q q' r; apply (part_insert [])).
  assert (Hsn : forall p r, replicate bsp p ++ p :: r = [] ++ replicate (S bsp) p ++ r :> list progress)
    by (intros p r; change (replicate (S bsp) p) with (p :: replicate bsp p); by rewrite replicate_cons_app, <- app_assoc).
  eapply rtc_l; [apply core_boots, step_init, Hat|]. rewrite Hin, Hsn.
  etransitivity; [apply all_load|]. etransitivity; [apply all_store; lia|].
  eapply rtc_l; [apply core_boots, step_return; rewrite <- Hsn; apply Hat|]. cbn [app].
  rewrite <- (app_nil_r (replicate m Parked)). pose proof (all_start (replicate (S bsp) Counted) m [] (0 + 1)) as H.
  rewrite !length_replicate in H. etransitivity; [apply H; lia|].
  etransitivity; [apply all_load|]. rewrite <- !Nat.add_succ_comm. cbn [Nat.add].
  destruct m as [|m].
  - rewrite decide_True by lia. simpl. rewrite app_nil_r, Nat.add_0_r. apply rtc_refl.
  - rewrite decide_False by lia. etransitivity; [apply all_store; lia|]. rewrite app_nil_r.
    change (Cores (0 + 1 + 1)) with (Cores 2). rewrite <- replicate_add. apply rtc_refl.
Qed.

End race.

(** C18: the wait of [smp_init] is never over too early: in every interleaving of the
    increments, once the core that boots is through the loop, every core has
    counted itself. *)
Theorem smp_wait_sound bsp n x i :
  Z.of_nat n < 2 ^ 64 -> rtc (core_step bsp (Z.of_nat n)) (boot n) x -> at_core x !! i = Some Through ->
  forall j p, at_core x !! j = Some p -> p = Counted \/ p = Through.
Proof.
  intros Hn Hr Hi j p Hj. destruct (race_inv_reachable bsp (Z.of_nat n) n x Hn Hr) as (Hl & _ & _ & Ht).
  specialize (Ht (ex_intro _ i Hi)). pose proof (number_bound (at_core x)). rewrite Hl in *.
  pose proof (number_all (at_core x) ltac:(lia) j p Hj) as Hp. destruct p; (done || by (left + right)).
Qed.

Lemma two_cores_through : rtc (core_step 0 2) (boot 2) (Cores 2 2 [Through; Counted]).
Proof.
  eapply rtc_l; [apply core_boots, (step_init 0 2 0 [Parked; Parked]); reflexivity|].
  eapply rtc_l; [apply (do_load 0 2 0 0 [Starting; Parked] 0); reflexivity|].
  eapply rtc_l; [apply (do_store 0 2 0 0 [Loaded 0; Parked] 0 0); reflexivity|].
  eapply rtc_l; [apply core_boots, (step_return 0 2 1 [Counted; Parked]); reflexivity|].
  eapply rtc_l; [apply core_boots, (step_start 0 2 1 1 [Counted; Parked]); [done|reflexivity]|].
  eapply rtc_l; [apply (do_load 0 2 1 2 [Counted; Starting] 1); reflexivity|].
  eapply rtc_l; [apply (do_store 0 2 1 2 [Counted; Loaded 1] 1 1); reflexivity|].
  eapply rtc_l; [apply core_boots, (step_leave 0 2 2 [Counted; Counted]); reflexivity|]. apply rtc_refl.
Qed.

Lemma smp_wait_sound_witness :
  (Cores 2 2 [Through; Counted]).(at_core) !! 1%nat = Some Counted /\ (Counted = Counted \/ Counted = Through).
Proof.
  split; [reflexivity|].
  apply (smp_wait_sound 0 2 (Cores 2 2 [Through; Counted]) 0 ltac:(lia) two_cores_through eq_refl 1 Counted). reflexivity.
Defined.

(** * Lost increments *)

(** Every core has counted itself and the counter is too small: no step is left, and
    the core that boots waits for ever. *)
Definition waits_forever bsp n x : Prop :=
  rtc (core_step bsp (Z.of_nat n)) (boot n) x /\ Forall (eq Counted) (at_core x) /\ cpus_running x < Z.of_nat n /\
  forall y, ~ core_step bsp (Z.of_nat n) x y.

(** The runs in which no two cores count themselves at the same time. *)
Definition one_core_runs : list cores :=
  [Cores 0 0 [Parked]; Cores 0 0 [Starting]; Cores 0 0 [Loaded 0]; Cores 1 0 [Counted]; Cores 1 1 [Counted]; Cores 1 1 [Through]].
Definition two_core_runs : list cores :=
  [Cores 0 0 [Parked; Parked]; Cores 0 0 [Starting; Parked]; Cores 0 0 [Loaded 0; Parked]; Cores 1 0 [Counted; Parked];
   Cores 1 1 [Counted; Parked]; Cores 1 2 [Counted; Starting]; Cores 1 2 [Counted; Loaded 1]; Cores 2 2 [Counted; Counted];
   Cores 2 2 [Through; Counted]].

#[export] Instance cores_eq_dec : EqDecision cores.
Proof. solve_decision. Defined.

Ltac step_cases :=
  repeat match goal with
    | H : core_step _ _ _ _ |- _ => destruct H as [H|H]
    | H : count_step _ _ |- _ => inversion H; clear H; subst
    | H : smp_step _ _ _ _ |- _ => inversion H; clear H; subst
    | H : (_ :: _) !! ?i = Some _ |- _ => first [is_var i; destruct i as [|i]|idtac]; simpl in H; try discriminate H
    | H : Some _ = Some _ |- _ => injection H as H; subst
    | H : [] !! _ = Some _ |- _ => discriminate H
    end.

(** Every run of these machines goes through the states of a list. *)
Lemma runs_closed bsp n (l : list cores) x :
  boot n ∈ l -> (forall x y, x ∈ l -> core_step bsp (Z.of_nat n) x y -> y ∈ l) -> rtc (core_step bsp (Z.of_nat n)) (boot n) x -> x ∈ l.
Proof. intros Hb Hs Hr. revert Hb. induction Hr as [x|x y z Hxy Hyz IH]; intros Hx; [done|]. by apply IH, (Hs x). Qed.

Lemma one_core_ends x : ~ waits_forever 0 1 x.
Proof.
  intros (Hr & Hf & Hc & _). apply (runs_closed _ _ one_core_runs) in Hr; [|by apply (bool_decide_unpack _)|].
  - repeat (apply elem_of_cons in Hr as [->|Hr]); try (apply list.Forall_cons in Hf as [Hf _]; discriminate Hf);
      [simpl in Hc; lia|simpl in Hc; lia|by apply elem_of_nil in Hr].
  - clear. intros x y Hx Hs. repeat (apply elem_of_cons in Hx as [->|Hx]); try (by apply elem_of_nil in Hx);
      step_cases; try done; try lia; by apply (bool_decide_unpack _).
Qed.

Lemma two_cores_end x : ~ waits_forever 0 2 x.
Proof.
  intros (Hr & Hf & Hc & _). apply (runs_closed _ _ two_core_runs) in Hr; [|by apply (bool_decide_unpack _)|].
  - repeat (apply elem_of_cons in Hr as [->|Hr]); try (by apply elem_of_nil in Hr); try (simpl in Hc; lia);
      simpl in Hf; repeat (apply list.Forall_cons in Hf as [? Hf]); discriminate.
  - clear. intros x y Hx Hs. repeat (apply elem_of_cons in Hx as [->|Hx]); try (by apply elem_of_nil in Hx);
      step_cases; try done; try lia; by apply (bool_decide_unpack _).
Qed.

(** C38: the increments of two cores can be lost, and the order of the list of cores
    says when: there is a run after which every core has counted itself, the counter
    is less than their number and the core that boots waits for ever, exactly when
    there are three cores or more, or two of which the one that boots is the second.
    (With two cores and the one that boots first, [smp_init] has counted that core
    before it starts the other.) *)
Theorem smp_lost_update bsp n :
  (bsp < n)%nat -> Z.of_nat n < 2 ^ 64 ->
  (exists x, waits_forever bsp n x) <-> (3 <= n)%nat \/ n = 2%nat /\ bsp = 1%nat.
Proof.
  intros Hb Hn. split.
  - intros [x Hx]. destruct (decide (3 <= n)%nat) as [|H3]; [by left|right]. assert (H : n = 1%nat \/ n = 2%nat) by lia.
    destruct H as [->| ->].
    + assert (bsp = 0%nat) as -> by lia. by apply one_core_ends in Hx.
    + split; [done|]. destruct bsp as [|[|bsp]]; [by apply two_cores_end in Hx|done|lia].
  - intros H. eexists. split; [by apply lossy_run|]. cbn [at_core cpus_running]. split; [by apply Forall_replicate|].
    assert (Hc : (if decide (S bsp = n) then 1 else 2) < Z.of_nat n) by (case_decide; lia). split; [done|].
    intros y [Hy|Hy]; inversion Hy; subst; repeat match goal with H : replicate _ _ !! _ = Some _ |- _ => apply lookup_replicate in H as [H ?] end;
      try done; lia.
Qed.

Lemma smp_lost_update_witness : (exists x, waits_forever 0 4 x) /\ (exists x, waits_forever 1 2 x) /\ ~ (exists x, waits_forever 0 2 x).
Proof.
  split; [apply (smp_lost_update 0 4); [lia|lia|by left; lia]|].
  split; [apply (smp_lost_update 1 2); [lia|lia|by right]|].
  intros H. apply (smp_lost_update 0 2) in H; lia.
Defined.

(** One at a time the increments count every core, and the wait ends. *)
Theorem smp_serial bsp n :
  (bsp < n)%nat -> Z.of_nat n < 2 ^ 64 ->
  exists x, rtc (core_step bsp (Z.of_nat n)) (boot n) x /\ cpus_running x = Z.of_nat n /\ at_core x !! bsp = Some Through.
Proof.
  intros Hb Hn.
  assert (H : forall m k, (k + m)%nat = n -> rtc (core_step bsp (Z.of_nat n))
     (Cores (Z.of_nat k) k (replicate k Counted ++ replicate m Parked)) (Cores (Z.of_nat n) n (replicate n Counted))).
  { induction m as [|m IH]; intros k Hk; [rewrite Nat.add_0_r in Hk; subst k; rewrite app_nil_r; apply rtc_refl|].
    pose proof (fun p => part_lookup [] k p Counted (replicate m Parked)) as Hl. cbn [app length Nat.add] in Hl.
    pose proof (fun p q => part_insert [] k p Counted q (replicate m Parked)) as Hi. cbn [app length Nat.add] in Hi.
    assert (Hc : forall j, rtc (core_step bsp (Z.of_nat n))
        (Cores (Z.of_nat k) j (replicate k Counted ++ Starting :: replicate m Parked))
        (Cores (Z.of_nat (S k)) j (replicate k Counted ++ Counted :: replicate m Parked))).
    { intros j. eapply rtc_l; [apply do_load, Hl|]. rewrite Hi.
      eapply rtc_l; [eapply (do_store _ _ _ _ _ _ (Z.of_nat k) (Z.of_nat (S k))); [apply Hl|rewrite u64_small; lia]|].
      rewrite Hi. apply rtc_refl. }
    etransitivity; [|apply (IH (S k)); lia]. change (replicate (S k) Counted) with (Counted :: replicate k Counted).
    rewrite replicate_cons_app, <- app_assoc. cbn [app replicate].
    destruct (decide (k = bsp)) as [->|Hne].
    - eapply rtc_l; [apply core_boots, step_init, Hl|]. rewrite Hi. eapply rtc_r; [apply Hc|]. apply core_boots, step_return, Hl.
    - eapply rtc_l; [apply core_boots, step_start; [done|apply Hl]|]. rewrite Hi. apply Hc. }
  exists (Cores (Z.of_nat n) n (<[bsp := Through]> (replicate n Counted))). split; [|split; [done|]].
  - etransitivity; [apply (H n 0%nat); lia|]. apply rtc_once, core_boots, step_leave; [done|by apply lookup_replicate_2].
  - apply list_lookup_insert_eq. by rewrite length_replicate.
Qed.
