(* ===== verification/Exceptions.v ===== *)
(** Exceptions: the delivery by the processor, the stub and [exception_handler] of
    [sys/idt/idt.c] together.  The report has the name of the exception and the
    registers of the program that caused it. *)
From S2P Require Import Prelude Machine Lock Str Layout Lapic Stdio Gdt Idt Sched Smp SmpSpec Asm AsmSpec.

(** The strings of [exception_names]. *)
Definition exception_names : list string := [
  "Division By Zero"; "Debug"; "NMI"; "Breakpoint"; "Overflow"; "Bound Range Exceeded"; "Invalid Opcode";
  "Device Not Available"; "Double Fault"; "???"; "Invalid TSS"; "Segment Not Present"; "Stack-Segment Fault";
  "General Protection Fault"; "Page Fault"; "???"; "x87 Exception"; "Alignment Check"; "Machine Check";
  "SIMD Exception"; "Virtualisation"; "???"; "???"; "???"; "???"; "???"; "???"; "???"; "???"; "???"; "Security"
]%string.

(** The entry of the vector [v] in the table at [a]: a pointer to the string [x].  The
    entry and the string are apart from the stack between [lo] and [hi]. *)
Definition outside (lo hi a n : Z) : Prop := a + n <= lo \/ hi <= a.
Record name_at (m : gmap Z byte) (lo hi a v : Z) (p : Z) (x : string) : Prop := {
  na_entry : rd 8 m (a + 8 * v) = Some p;
  na_string : cstr m p (String.list_byte_of_string x);
  na_apart : outside lo hi (a + 8 * v) 8 /\ outside lo hi p (Z.of_nat (String.length x) + 1)
}.

Lemma string_length x : length (String.list_byte_of_string x) = String.length x.
Proof. unfold String.list_byte_of_string. rewrite length_map. induction x as [|a x IH]; [done|]. simpl. by rewrite IH. Qed.

Section exceptions.
Context (run : Z -> cpu -> K cpu) (ra : Z) (seg_base : Z -> Z) (isr names cRED cNONE : Z).
Implicit Types (s : kstate) (c : cpu).

(** The registers in the order of the report. *)
Definition reported c err : list Z :=
  (gpr c <$> [rax; rbx; rcx; rdx; rsi; rdi; rbp; rsp; r8; r9; r10; r11; r12; r13; r14; r15]) ++
  [rip c; rflags c; sel c cs; sel c ss; sel c es; sel c ds; err].

(** The formats of the two calls of [printf]. *)
Definition head_format : string := "%s\nEXCEPTION RECIVED: %s on core #%d%s\n".
Definition regs_format : string := "  RAX=%x  RBX=%x\n  RCX=%x  RDX=%x\n  RSI=%x  RDI=%x\n  RBP=%x  RSP=%x\n  R08=%x  R09=%x\n  R10=%x  R11=%x\n  R12=%x  R13=%x\n  R14=%x  R15=%x\n  RIP=%x  RFLAGS=%x\n  CS=%x SS=%x ES=%x DS=%x\n  ERR=%x".

Lemma ld_all_eq s addrs vs : Forall2 (fun a v => rd 8 (mem s) a = Some v) addrs vs -> ld_all addrs s = Ok vs s.
Proof.
  induction 1 as [|a v addrs vs Ha _ IH]; [done|]. simpl. rewrite (ld_then 8 _ _ _ _ Ha). by rewrite (bind_Ok _ _ _ _ _ IH).
Qed.

Lemma report_regs s c err state :
  words_at (mem s) state (frame_words c err) -> ld_all (map (Z.add state) frame_offsets) s = Ok (reported c err) s.
Proof.
  intros Hw. apply ld_all_eq. unfold frame_offsets, reported. simpl.
  repeat (constructor; [match goal with |- rd 8 _ (state + ?o) = Some ?v => apply (Hw (Z.to_nat (o / 8)) v); reflexivity end|]). constructor.
Qed.

Lemma outside_rd s s' lo hi a (n : nat) : below s s' lo hi -> outside lo hi a (Z.of_nat n) -> rd n (mem s') a = rd n (mem s) a.
Proof. intros (_ & _ & _ & Ho) Ha. apply rd_ext. intros x Hx. apply Ho. unfold outside in Ha. lia. Qed.

(** C17: an exception in the kernel: the processor, the stub and [exception_handler]
    print the name of the exception and the registers of the program at the point
    where it happened, with the error code, and stop the core. *)
Theorem exception_reports top err v entry c s lo number p x (base := Z.land top (Z.lnot 0xf)) :
  0 <= v -> known v -> cpu_ok c -> sel c cs <> 0x3b -> 0 <= err < 2 ^ 64 ->
  0 <= lo -> lo + 256 <= base -> base < 2 ^ 64 -> mapped (mem s) lo (base - lo) ->
  exception_names !! Z.to_nat v = Some x -> name_at (mem s) lo base names v p x -> outside lo base (gval s g_gs_base + 24) 8 ->
  rd 8 (mem s) (gval s g_gs_base + 24) = Some number ->
  exists c1 s1, (c0 ← deliver top err v entry c; exec run ra seg_base 0 (isr_enter isr v) c0) s = Ok c1 s1 /\
    cstr (mem s1) p (String.list_byte_of_string x) /\
    exception_handler names cRED cNONE (gpr c1 rdi) (gpr c1 rsi) s1 =
      Ok tt (KState (mem s1) (glob s) (trace s ++ [EvPrintf head_format [cRED; p; number; cNONE];
        EvPrintf regs_format (reported c (code_of v err)); EvAsm "cli; hlt" 0])).
Proof.
  intros Hv Hk Hc Hcs He Hlo Hb Hb2 Hm Hx [Hp Hstr [Hn1 Hn2]] Ho Hnum.
  destruct (isr_enter_eq run ra seg_base isr top err v entry c s lo [] Hk Hc He Hlo Hb Hb2 Hm)
    as (c1 & s1 & E1 & [_ [W _ _ _] [A1 A2] _ _ _ B]). fold base in B. rewrite app_nil_r in E1.
  destruct (Z.eqb_spec (sel c cs) 0x3b) as [N|_]; [done|]. simpl in B. pose proof B as (G & T & _ & Hout).
  apply lookup_lt_Some in Hx. change (length exception_names) with 31%nat in Hx.
  exists c1, s1. split; [exact E1|]. split.
  - destruct Hstr as [Hs0 Hz]. split; [|done]. eapply bytes_at_agree; [|exact Hs0]. intros y Hy. apply Hout. unfold outside in Hn2.
    rewrite length_app in Hy. simpl in Hy. rewrite string_length in Hy. lia.
  - unfold exception_handler. rewrite A1, A2. destruct (Z.ltb_spec v 31) as [_|]; [|lia].
    rewrite (ld_then 8 _ p); [|erewrite outside_rd; [exact Hp|exact B|exact Hn1]].
    rewrite (bind_Ok _ _ s1 (gval s1 g_gs_base) s1) by done.
    assert (Eg : gval s1 g_gs_base = gval s g_gs_base) by (unfold gval; by rewrite G).
    rewrite Eg, (ld_then 8 _ number); [|erewrite outside_rd; [exact Hnum|exact B|exact Ho]].
    unfold printf at 1, emit at 1. rewrite (bind_Ok _ _ s1 tt _) by reflexivity.
    erewrite (bind_Ok (ld_all _)); [|apply report_regs; exact W].
    rewrite <- G, <- T. unfold printf, asm, mbind, K_bind. unfold emit. cbn [mem glob trace]. by rewrite <- !app_assoc.
Qed.

End exceptions.

(** A page fault on the machine of the examples: the entry of its name at [0x1000]
    above the tables, the string behind it, and the number of the core. *)
Definition exception_machine : kstate :=
  KState (wr 3 (wr 8 (wr 8 (mem asm_machine) 0x1570 0x15a0) 0x15a0 0x7561462065676150) 0x15a8 0x746c) (<[g_gs_base := 0x1500]> (glob asm_machine)) [].

Ltac exception_rd :=
  unfold exception_machine, asm_machine; cbn [mem];
  match goal with |- rd _ _ ?a = _ => let b := eval vm_compute in a in change a with b end; mem_rd.

Lemma exception_reports_witness :
  exists c1 s1, (c0 ← deliver 0x1200 2 14 0x5000 asm_cpu; exec asm_handler 0x6000 (fun _ => 0) 0 (isr_enter 0x1200 14) c0) exception_machine = Ok c1 s1 /\
    cstr (mem s1) 0x15a0 (String.list_byte_of_string "Page Fault") /\
    exception_handler 0x1500 1 2 (gpr c1 rdi) (gpr c1 rsi) s1 =
      Ok tt (KState (mem s1) (glob exception_machine) ([] ++ [EvPrintf head_format [1; 0x15a0; 0; 2];
        EvPrintf regs_format (reported asm_cpu 2); EvAsm "cli; hlt" 0])).
Proof.
  apply (exception_reports asm_handler 0x6000 (fun _ => 0) 0x1200 0x1500 1 2 0x1200 2 14 0x5000 asm_cpu exception_machine 0x1000 0 0x15a0 "Page Fault");
    [lia|reflexivity|apply asm_cpu_ok|discriminate|lia|lia|asm_lia|asm_lia| |reflexivity| | |].
  - do 3 apply mapped_wr. apply asm_mapped.
  - split; [exception_rd| |].
    + split; [|by apply (bool_decide_unpack _)]. unfold exception_machine. cbn [mem].
      generalize (wr 8 (mem asm_machine) 0x1570 0x15a0). intros m. simpl.
      repeat (apply bytes_at_cons; split; [repeat (rewrite lookup_wr_out by lia); rewrite lookup_wr_in by lia; vm_compute; reflexivity|]). by apply bytes_at_nil.
    + split; right; asm_lia.
  - right. change (gval exception_machine g_gs_base) with 0x1500. asm_lia.
  - change (gval exception_machine g_gs_base) with 0x1500. exception_rd.
Defined.
