(* ===== verification/Termination.v ===== *)
(** Termination of the loops of [lib/str.c] that have no bound of their own.

    [strlen], [strchr] and [strtok] go on until they read their end, and [itoa] until
    nothing is left of the number; the model gives them fuel.  From every address
    there is a terminator or an address that is not mapped, and the scans reach it. *)
From S2P Require Import Prelude Machine Str.

Section scans.
Implicit Types (s : kstate) (m : gmap Z byte) (p q : Z) (l : list byte).

Lemma mapped_cons m a n : is_Some (m !! a) -> mapped m (a + 1) n -> mapped m a (1 + n).
Proof. intros Ha H x Hx. destruct (decide (x = a)) as [->|]; [done|]. apply H. lia. Qed.

Lemma not_mapped_all s a : ~ mapped (mem s) a (Z.of_nat (S (size (mem s)))).
Proof. intros H. apply mapped_size in H; lia. Qed.

(** A bound that the loop cannot exhaust. *)
Lemma scan_ends {A} (f : nat -> K A) (P : nat -> kstate -> Prop) s :
  (forall n, f n s = NoFuel -> P n s) -> ~ P (S (size (mem s))) s -> scan f s <> NoFuel.
Proof. intros Hf HP H. by apply HP, Hf. Qed.

(** The bytes from [p] on up to the first terminator or unmapped address. *)
Definition run_at m p l : Prop := bytes_at m p l /\ Byte.x00 ∉ l.

Lemma run_ends s p : exists l, run_at (mem s) p l /\
  (mem s !! (p + Z.of_nat (length l)) = Some Byte.x00 \/ mem s !! (p + Z.of_nat (length l)) = None).
Proof.
  enough (H : forall n p, (exists l, run_at (mem s) p l /\
      (mem s !! (p + Z.of_nat (length l)) = Some Byte.x00 \/ mem s !! (p + Z.of_nat (length l)) = None)) \/
      mapped (mem s) p (Z.of_nat n)).
  { destruct (H (S (size (mem s))) p) as [|Hm]; [done|]. by apply not_mapped_all in Hm. }
  clear p. intros n. induction n as [|n IH]; intros p; [right; intros x Hx; lia|].
  destruct (mem s !! p) as [b|] eqn:Eb.
  - destruct (decide (b = Byte.x00)) as [->|Hb].
    { left. exists []. split; [split; [apply bytes_at_nil|by apply not_elem_of_nil]|]. simpl. rewrite Z.add_0_r. by left. }
    destruct (IH (p + 1)) as [(l & [Hl Hz] & He)|Hm].
    + left. exists (b :: l). split; [split; [by apply bytes_at_cons|apply not_elem_of_cons; by split]|].
      simpl length. by replace (p + Z.of_nat (S (length l))) with (p + 1 + Z.of_nat (length l)) by lia.
    + right. rewrite Nat2Z.inj_succ, <- Z.add_1_l. by apply mapped_cons.
  - left. exists []. split; [split; [apply bytes_at_nil|by apply not_elem_of_nil]|]. simpl. rewrite Z.add_0_r. by right.
Qed.

Lemma run_cons m p b l : run_at m p (b :: l) -> m !! p = Some b /\ b <> Byte.x00 /\ run_at m (p + 1) l.
Proof. intros [H1%bytes_at_cons H2%not_elem_of_cons]. split; [apply H1|]. split; [by intros ->; destruct H2|]. split; [apply H1|apply H2]. Qed.

Lemma run_length s p l : run_at (mem s) p l -> (length l <= size (mem s))%nat.
Proof. intros [H _]. pose proof (mapped_size (mem s) p (Z.of_nat (length l)) ltac:(lia) (bytes_at_mapped _ _ _ H)). lia. Qed.

Lemma run_cstr m p l : run_at m p l -> m !! (p + Z.of_nat (length l)) = Some Byte.x00 -> cstr m p l.
Proof.
  intros [H1 H2] He. split; [|done]. apply bytes_at_app. split; [done|]. apply bytes_at_cons. split; [done|apply bytes_at_nil].
Qed.

Lemma ld_none s a : mem s !! a = None -> ld 1 a s = Fault.
Proof. intros H. unfold ld, rd. simpl. by rewrite H. Qed.

(** * [strlen] *)

(** The counter of [strlen] is an [int]: it overflows behind [2^31 - 1] bytes. *)
Lemma strlen_loop_run fuel p ct l s :
  run_at (mem s) (p + ct) l -> (length l < fuel)%nat -> 0 <= ct <= 2 ^ 31 - 1 ->
  strlen_loop fuel p ct s =
    if 2 ^ 31 <=? ct + Z.of_nat (length l) then Fault
    else strlen_loop (fuel - length l) p (ct + Z.of_nat (length l)) s.
Proof.
  revert fuel ct. induction l as [|b l IH]; intros fuel ct Hr Hf Hct.
  - simpl length. rewrite Nat.sub_0_r, Z.add_0_r. by destruct (Z.leb_spec (2 ^ 31) ct); [lia|].
  - destruct fuel as [|fuel]; [simpl in Hf; lia|]. apply run_cons in Hr as (Hb & Hne & Hr). cbn [strlen_loop].
    rewrite (bind_Ok _ _ _ _ _ (ld_byte _ _ _ Hb)). destruct (Z.eqb_spec (byte_Z b) 0) as [E|]; [by apply byte_Z_x00 in E|].
    simpl length in *. destruct (Z.eqb_spec ct (2 ^ 31 - 1)) as [->|Hc]; [destruct (Z.leb_spec (2 ^ 31) (2 ^ 31 - 1 + Z.of_nat (S (length l)))); [done|lia]|].
    rewrite IH; [|by replace (p + (ct + 1)) with (p + ct + 1) by lia|lia|lia].
    replace (ct + 1 + Z.of_nat (length l)) with (ct + Z.of_nat (S (length l))) by lia. done.
Qed.

Lemma strlen_run p l s :
  run_at (mem s) p l ->
  (mem s !! (p + Z.of_nat (length l)) = Some Byte.x00 ->
     strlen p s = if 2 ^ 31 <=? Z.of_nat (length l) then Fault else Ok (Z.of_nat (length l)) s) /\
  (mem s !! (p + Z.of_nat (length l)) = None -> strlen p s = Fault).
Proof.
  intros Hr. pose proof (run_length _ _ _ Hr) as Hl. unfold strlen, scan.
  rewrite (strlen_loop_run _ p 0 l); [|by rewrite Z.add_0_r|lia|lia]. rewrite Z.add_0_l.
  destruct (S (size (mem s)) - length l)%nat as [|k] eqn:Ek; [lia|]. cbn [strlen_loop]. split; intros He.
  - destruct (Z.leb_spec (2 ^ 31) (Z.of_nat (length l))); [done|]. by rewrite (bind_Ok _ _ _ _ _ (ld_byte _ _ _ He)).
  - destruct (_ <=? _); [done|]. unfold mbind, K_bind. by rewrite ld_none.
Qed.

(** * [strchr] *)

Lemma strchr_loop_nofuel fuel p c s : strchr_loop fuel p c s = NoFuel -> mapped (mem s) p (Z.of_nat fuel).
Proof.
  revert p. induction fuel as [|fuel IH]; intros p; [intros _ x Hx; simpl in Hx; lia|].
  simpl strchr_loop. unfold mbind, K_bind, ld. destruct (rd 1 (mem s) p) as [b|] eqn:E; [|done].
  destruct (b =? c); [done|]. destruct (b =? 0); [done|]. intros H%IH. rewrite Nat2Z.inj_succ, <- Z.add_1_l.
  apply mapped_cons; [|done]. apply rd1_byte in E as [-> _]. eauto.
Qed.

Lemma strchr_loop_none fuel p c l s :
  run_at (mem s) p l -> (length l < fuel)%nat -> mem s !! (p + Z.of_nat (length l)) = None ->
  strchr_loop fuel p (byte_Z c) s = match find_byte c l with Some i => Ok (p + Z.of_nat i) s | None => Fault end.
Proof.
  revert p fuel. induction l as [|b l IH]; intros p [|fuel] Hr Hf He; simpl in Hf; try lia.
  - simpl in *. rewrite Z.add_0_r in He. unfold mbind, K_bind. by rewrite ld_none.
  - apply run_cons in Hr as (Hb & Hne & Hr). cbn [strchr_loop find_byte]. rewrite (bind_Ok _ _ _ _ _ (ld_byte _ _ _ Hb)).
    destruct (decide (b = c)) as [->|Hc]; [by rewrite Z.eqb_refl, Z.add_0_r|].
    destruct (Z.eqb_spec (byte_Z b) (byte_Z c)) as [E%byte_Z_inj|_]; [done|].
    destruct (Z.eqb_spec (byte_Z b) 0) as [E%byte_Z_x00|_]; [done|].
    rewrite IH; [|done|lia|by replace (p + 1 + Z.of_nat (length l)) with (p + Z.of_nat (length (b :: l))) by (simpl; lia)].
    destruct (find_byte c l); simpl; [|done]. f_equal. lia.
Qed.

Lemma strchr_ends p c s : strchr p c s <> NoFuel.
Proof. apply (scan_ends _ (fun n s => mapped (mem s) p (Z.of_nat n))); [intros n; apply strchr_loop_nofuel|apply not_mapped_all]. Qed.

Lemma strchr_loop_pure fuel p c s r s' : strchr_loop fuel p c s = Ok r s' -> s' = s.
Proof.
  revert p. induction fuel as [|fuel IH]; intros p; [done|].
  simpl. unfold mbind, K_bind, ld. destruct (rd 1 (mem s) p); [|done].
  repeat case_match; [by intros [= _ ->]..|]. apply IH.
Qed.

(** * [strtok] *)

(** Each round of [strtok] moves its position by one byte. *)
Lemma strtok_loop_nofuel fuel token delim s :
  strtok_loop fuel token delim s = NoFuel -> mapped (mem s) (gval s g_strtok_s) (Z.of_nat fuel).
Proof.
  revert s. induction fuel as [|fuel IH]; intros s; [intros _ x Hx; simpl in Hx; lia|].
  simpl strtok_loop. set (p := gval s g_strtok_s).
  rewrite (bind_Ok _ _ s p s) by done. unfold ld, mbind at 1, K_bind at 1.
  destruct (rd 1 (mem s) p) as [c|] eqn:E; [|done]. destruct (c =? 0); [done|].
  unfold mbind at 1, K_bind at 1. pose proof (strchr_ends delim c s) as Ht.
  destruct (strchr delim c s) as [r s1| | |] eqn:Er; [|done..]. apply strchr_loop_pure in Er as ->.
  destruct (negb (r =? NULL)).
  - intros H. exfalso. revert H. unfold mbind, K_bind, st. by destruct (rd 1 (mem s) p).
  - rewrite (bind_Ok _ _ s tt (with_glob s g_strtok_s (p + 1))) by done.
    intros H%IH. rewrite gval_with_glob_eq in H. rewrite Nat2Z.inj_succ, <- Z.add_1_l.
    apply mapped_cons; [|done]. apply rd1_byte in E as [-> _]. eauto.
Qed.

Lemma strtok_ends p delim s : strtok p delim s <> NoFuel.
Proof.
  unfold strtok. assert (Hs : forall q s, scan (fun fuel => strtok_loop fuel q delim) s <> NoFuel)
    by (intros q s'; apply (scan_ends _ (fun n s => mapped (mem s) (gval s g_strtok_s) (Z.of_nat n))); [intros n; apply strtok_loop_nofuel|apply not_mapped_all]).
  destruct (negb (p =? NULL)); unfold mbind, K_bind, gput, gget; cbn; destruct (_ =? NULL); try done; apply Hs.
Qed.

(** * [itoa] *)

(** A division by at least two halves the number. *)
Lemma itoa_loop_nofuel fuel ptr num base s :
  2 <= base -> 0 <= num < 2 ^ Z.of_nat fuel -> (0 < fuel)%nat -> itoa_loop fuel ptr num base s <> NoFuel.
Proof.
  intros Hb. revert ptr num s. induction fuel as [|fuel IH]; intros ptr num s Hn Hf; [lia|].
  simpl. destruct (base =? 0); [done|]. destruct (repr !! _); [|done].
  unfold mbind, K_bind, st. destruct (rd 1 (mem s) (ptr - 1)); [|done].
  destruct (Z.eqb_spec (num / base) 0) as [|Hne]; [done|].
  rewrite Nat2Z.inj_succ, Z.pow_succ_r in Hn by lia.
  assert (num / base < 2 ^ Z.of_nat fuel) by (apply Z.div_lt_upper_bound; nia).
  assert (0 <= num / base) by (apply Z.div_pos; lia).
  apply IH; [lia|]. destruct fuel; [simpl in *; lia|lia].
Qed.

Lemma itoa_ends buffer num base s : 2 <= u64 base -> 0 <= num < 2 ^ 64 -> itoa buffer num base s <> NoFuel.
Proof.
  intros Hb Hn. unfold itoa. unfold mbind, K_bind, st. destruct (rd 1 (mem s) (buffer + 49)); [|done].
  apply itoa_loop_nofuel; [done..|lia].
Qed.

Lemma itoa_returns buffer num base s :
  3 <= base <= 16 -> 0 <= num < 2 ^ 64 -> mapped (mem s) buffer 50 ->
  exists q m', itoa buffer num base s = Ok q (with_mem s m') /\ buffer <= q < buffer + 49.
Proof.
  intros Hb Hn Hm. assert (H3 : 2 ^ 64 <= 3 ^ 49) by (vm_compute; discriminate).
  pose proof (Z.pow_le_mono_l 3 base (Z.of_nat 49) ltac:(lia)).
  destruct (itoa_eq buffer buffer 48 num base s) as (q & ds & m' & E & _ & _ & _ & Hl & Hp & _);
    [lia|lia|lia|lia|by replace (buffer + 50 - buffer) with 50 by lia|].
  exists q, m'. split; [done|lia].
Qed.

End scans.

(** C24: the loops of [lib/str.c] without a bound of their own end.  From every address
    a string runs up to a terminator or to an address that is not mapped.  In the
    first case [strlen] returns its length, or overflows its [int] behind [2^31 - 1]
    bytes, and [strchr] returns the place of the character or [NULL]; in the second
    [strlen] faults, and so does [strchr] unless it meets the character before.
    [strtok] ends for every string, delimiter and remembered position.  [itoa] ends
    in every base from two on, and returns a pointer into its buffer in the bases
    from 3 to 16. *)
Theorem string_scans_end s p (c : byte) (delim buffer num base : Z) :
  2 <= u64 base -> 0 <= num < 2 ^ 64 ->
  (exists l, run_at (mem s) p l /\
     ((mem s !! (p + Z.of_nat (length l)) = Some Byte.x00 /\
       strlen p s = (if 2 ^ 31 <=? Z.of_nat (length l) then Fault else Ok (Z.of_nat (length l)) s) /\
       strchr p (byte_Z c) s = Ok (strchr_result p c l) s) \/
      (mem s !! (p + Z.of_nat (length l)) = None /\ strlen p s = Fault /\
       strchr p (byte_Z c) s = match find_byte c l with Some i => Ok (p + Z.of_nat i) s | None => Fault end))) /\
  strtok p delim s <> NoFuel /\ itoa buffer num base s <> NoFuel /\
  (3 <= base <= 16 -> mapped (mem s) buffer 50 ->
   exists q m', itoa buffer num base s = Ok q (with_mem s m') /\ buffer <= q < buffer + 49).
Proof.
  intros Hb Hn. split; [|split; [apply strtok_ends|split; [by apply itoa_ends|intros; by apply itoa_returns]]].
  destruct (run_ends s p) as (l & Hr & He). exists l. split; [done|]. destruct (strlen_run p l s Hr) as [S1 S2].
  destruct He as [He|He]; [left|right]; (split; [done|]); (split; [auto|]).
  - apply strchr_eq. by apply run_cstr.
  - pose proof (run_length _ _ _ Hr). apply strchr_loop_none; [done|lia|done].
Qed.

(** The string ["ab"] at [200] and the buffer of [itoa] at [64]. *)
Definition scan_state : kstate := KState (put_bytes (zeros 64 50) 200 (str_ab ++ [Byte.x00])) ∅ [].

Lemma string_scans_end_witness :
  (strlen 200 scan_state = Ok 2 scan_state /\ strlen 300 scan_state = Fault) /\
  (exists l, run_at (mem scan_state) 200 l /\
     ((mem scan_state !! (200 + Z.of_nat (length l)) = Some Byte.x00 /\
       strlen 200 scan_state = (if 2 ^ 31 <=? Z.of_nat (length l) then Fault else Ok (Z.of_nat (length l)) scan_state) /\
       strchr 200 (byte_Z Byte.x62) scan_state = Ok (strchr_result 200 Byte.x62 l) scan_state) \/
      (mem scan_state !! (200 + Z.of_nat (length l)) = None /\ strlen 200 scan_state = Fault /\
       strchr 200 (byte_Z Byte.x62) scan_state = match find_byte Byte.x62 l with Some i => Ok (200 + Z.of_nat i) scan_state | None => Fault end))) /\
  exists q m', itoa 64 255 16 scan_state = Ok q (with_mem scan_state m') /\ 64 <= q < 64 + 49.
Proof.
  assert (Hm : mapped (mem scan_state) 64 50).
  { intros x Hx. unfold scan_state, put_bytes. cbn [mem]. apply lookup_union_is_Some. right. apply zeros_mapped. lia. }
  destruct (string_scans_end scan_state 200 Byte.x62 200 64 255 16) as (H1 & _ & _ & H2); [vm_compute; discriminate|lia|].
  split; [split; vm_compute; reflexivity|]. split; [exact H1|]. by apply H2; [lia|].
Defined.
