(* ===== verification/Env.v ===== *)
(** What the file system and the system calls take from outside the sources: the
    constants and the [struct stat] of the C library's headers, and the addresses
    that the linker gives to the kernel's functions, static variables and string
    literals. *)
From S2P Require Import Prelude Machine KheapSpec.

(** The C library, with what POSIX says about it: the members of [struct stat] do
    not overlap, and the type macros tell regular files from directories. *)
Class LibC := {
  sizeof_stat : Z;
  off_st_ino : Z;
  off_st_mode : Z;
  off_st_nlink : Z;
  off_st_size : Z;
  off_st_blksize : Z;
  off_st_blocks : Z;
  width_st_mode : nat;
  width_st_nlink : nat;
  S_IFREG : Z;
  S_IFDIR : Z;
  S_ISREG : Z -> bool;
  S_ISDIR : Z -> bool;
  AT_FDCWD : Z;
  EBADF : Z;
  ENOENT : Z;
  ENOMEM : Z;
  EINVAL : Z;
  O_CREAT : Z;
  SEEK_SET : Z;
  SEEK_CUR : Z;
  SEEK_END : Z;
  MAP_ANON : Z;
  MAP_FIXED : Z;
  MAP_FAILED : Z;

  libc_stat_apart :
    seps [(off_st_ino, 8); (off_st_mode, Z.of_nat width_st_mode); (off_st_nlink, Z.of_nat width_st_nlink);
          (off_st_size, 8); (off_st_blksize, 8); (off_st_blocks, 8)];
  libc_stat_inside off w :
    (off, w) ∈ [(off_st_ino, 8); (off_st_mode, Z.of_nat width_st_mode); (off_st_nlink, Z.of_nat width_st_nlink);
                (off_st_size, 8); (off_st_blksize, 8); (off_st_blocks, 8)] -> 0 <= off /\ off + w <= sizeof_stat;
  libc_stat_size : 0 <= sizeof_stat < 2 ^ 16 /\ sizeof_stat mod 8 = 0;
  libc_types : S_ISREG S_IFREG = true /\ S_ISDIR S_IFREG = false /\ S_ISDIR S_IFDIR = true /\ S_ISREG S_IFDIR = false;
  libc_whence : SEEK_SET <> SEEK_CUR /\ SEEK_SET <> SEEK_END /\ SEEK_CUR <> SEEK_END
}.

(** The structure and the file types of [lib/stat.h], with the error numbers and
    flags that are usual on this machine: one C library for which the laws hold. *)
#[refine] Definition stat_h : LibC := {|
  sizeof_stat := 112;
  off_st_ino := 8;
  off_st_mode := 16;
  off_st_nlink := 20;
  off_st_size := 40;
  off_st_blksize := 96;
  off_st_blocks := 104;
  width_st_mode := 4;
  width_st_nlink := 4;
  S_IFREG := 0x8000;
  S_IFDIR := 0x4000;
  S_ISREG mode := Z.land mode 0xf000 =? 0x8000;
  S_ISDIR mode := Z.land mode 0xf000 =? 0x4000;
  AT_FDCWD := -100;
  EBADF := 9;
  ENOENT := 2;
  ENOMEM := 12;
  EINVAL := 22;
  O_CREAT := 0x40;
  SEEK_SET := 0;
  SEEK_CUR := 1;
  SEEK_END := 2;
  MAP_ANON := 0x20;
  MAP_FIXED := 0x10;
  MAP_FAILED := 2 ^ 64 - 1
|}.
Proof.
  - simpl. repeat (split; [intros r Hr; repeat (apply elem_of_cons in Hr as [->|Hr]; [unfold apart; simpl; lia|]); by apply elem_of_nil in Hr|]). done.
  - intros off w Hr. repeat (apply elem_of_cons in Hr as [[= -> ->]|Hr]; [simpl; lia|]). by apply elem_of_nil in Hr.
  - done.
  - done.
  - done.
Defined.

(** The addresses of the linked kernel. *)
Record image := {
  sym_tmpfs : Z;
  sym_tmpfs_mount : Z;
  sym_tmpfs_create : Z;
  sym_tmpfs_read : Z;
  sym_tmpfs_write : Z;
  sym_ext2fs : Z;
  sym_ext2fs_mount : Z;
  sym_ext2fs_create : Z;
  sym_ext2fs_read : Z;
  sym_ext2fs_write : Z;
  sym_filesystems : Z;
  sym_basename : Z;
  lit_empty : Z;      (* "" *)
  lit_dot : Z;        (* ".", in fs/vfs.c *)
  lit_str_dot : Z;    (* ".", in lib/str.c *)
  lit_dotdot : Z;     (* ".." *)
  lit_slash : Z;      (* "/" *)
  lit_tmpfs : Z;      (* "tmpfs" *)
  lit_ext2fs : Z;     (* "ext2fs" *)
  lit_ustar : Z;      (* "ustar" *)
  lit_init : Z        (* "/usr/bin/init" *)
}.
