(* ===== verification/Vfs.v ===== *)
(** The virtual file system of [fs/vfs.h] and [fs/vfs.c]: the tree of nodes, path
    lookup and the descriptors of a process.  The operations that call a file
    system are in [VfsOps].

    A [vfs_node_t] has its members at the offsets below; the C library's
    [struct stat] is in the middle of it. *)
From S2P Require Import Prelude Machine Lock Str Layout Interfaces KheapSpec Heap Vector Hashmap Lapic Sched Env.
Import Lock.Seq.

Abbreviation node_name := 0 (only parsing).
Abbreviation node_parent := 8 (only parsing).
Abbreviation node_children := 16 (only parsing).
Abbreviation node_fs := 24 (only parsing).
Abbreviation node_mountpoint := 56 (only parsing).
Abbreviation node_link := 64 (only parsing).
Abbreviation node_data := 72 (only parsing).
Abbreviation node_st := 80 (only parsing).
Definition node_offset `{LibC} : Z := node_st + sizeof_stat.
Definition node_lock `{LibC} : Z := node_offset + 8.
Definition sizeof_vfs_node `{LibC} : Z := node_lock + 16.

(** [vfs_fs_t] *)
Abbreviation fs_mount := 0 (only parsing).
Abbreviation fs_create := 8 (only parsing).
Abbreviation fs_read := 16 (only parsing).
Abbreviation fs_write := 24 (only parsing).
Abbreviation fs_inode_number := 32 (only parsing).

Abbreviation process_current_filde := 40 (only parsing).

Section vfs.
Context `{KH : KernelHeap} (heap_free : Z -> K unit) `{LC : LibC} (im : image).

(** [errno = e] *)
Definition set_errno (e : Z) : K unit :=
  thread ← get_current_thread;
  st 4 (thread + thread_errno) (u32 e).

(** [n + 1] on an [int]: the sum past [INT_MAX] is undefined. *)
Definition int_succ (n : Z) : K Z := if n =? 2 ^ 31 - 1 then fault else mret (n + 1).

(** One call of [reduce_node]; [inl] is its call of itself. *)
Definition reduce_step (node : Z) : K (Z + Z) :=
  mountpoint ← ld 8 (node + node_mountpoint);
  if negb (mountpoint =? NULL) then
    mountpoint ← ld 8 (node + node_mountpoint); mret (inl mountpoint)
  else
    link ← ld 8 (node + node_link);
    if negb (link =? NULL) then link ← ld 8 (node + node_link); mret (inl link)
    else mret (inr node).
Definition reduce_node (node : Z) : K Z := kloop reduce_step node.

Definition vfs_create_node (parent name fs : Z) (dir : bool) : K Z :=
  node ← heap_calloc sizeof_vfs_node;
  kassert (negb (node =? NULL)) ;;
  n ← strlen name;
  size ← int_succ n;
  copy ← heap_alloc (u64 size);
  st 8 (node + node_name) copy ;;
  copy ← ld 8 (node + node_name);
  kassert (negb (copy =? NULL)) ;;
  copy ← ld 8 (node + node_name);
  n ← strlen name;
  size ← int_succ n;
  memcpy copy name (u64 size) ;;
  st 8 (node + node_fs) fs ;;
  (if dir : bool then
     children ← heap_alloc sizeof_hashmap;
     st 8 (node + node_children) children ;;
     children ← ld 8 (node + node_children);
     hashmap_create children 256 ;; mret tt
   else mret tt) ;;
  parent ← (if parent =? NULL then gget g_root else mret parent);
  (if negb (parent =? NULL) then
     st 8 (node + node_parent) parent ;;
     children ← ld 8 (parent + node_children);
     ok ← hashmap_set children name node;
     kassert ok
   else mret tt) ;;
  mret node.

(** Both nodes are created under the name ["."]. *)
Definition create_dot (parent node : Z) : K unit :=
  fs ← ld 8 (node + node_fs);
  dot ← vfs_create_node node (lit_dot im) fs false;
  fs ← ld 8 (node + node_fs);
  dotdot ← vfs_create_node node (lit_dot im) fs false;
  st 8 (dot + node_link) node ;;
  st 8 (dotdot + node_link) parent ;;
  children ← ld 8 (node + node_children);
  hashmap_set children (lit_dot im) dot ;;
  children ← ld 8 (node + node_children);
  hashmap_set children (lit_dotdot im) dotdot ;;
  mret tt.

(** The leading slashes: [inr None] is a path of slashes only, [inr (Some i)] the
    index behind them. *)
Definition skip_slashes (path path_len index : Z) : K (Z + option Z) :=
  c ← ld 1 (path + index);
  if negb (c =? slash) then mret (inr (Some index))
  else if index =? u64 (path_len - 1) then mret (inr None)
  else mret (inl (u64 (index + 1))).

(** The path without leading slashes and without one trailing slash. *)
Definition path_copy (path path_len index : Z) : K Z :=
  c ← ld 1 (path + (path_len - 1));
  let amount := u64 (index + (if c =? slash then 1 else 0)) in
  if negb (amount =? 0) then
    new_path ← heap_alloc (u64 (path_len - amount + 1));
    memcpy new_path (path + index) (u64 (path_len - amount)) ;;
    st 1 (u64 (new_path + (path_len - amount))) 0 ;;
    mret new_path
  else strdup path.

(** One component of the path; the loop variables are [segment], [current_node]
    and [parent_node], and the result is the pair that [path_to_node] returns. *)
Definition walk (new_path : Z) (x : Z * Z * Z) : K ((Z * Z * Z) + (Z * Z)) :=
  let '(segment, current_node, parent_node) := x in
  if segment =? NULL then mret (inr (parent_node, current_node))
  else
    children ← ld 8 (current_node + node_children);
    current_node ← hashmap_get children segment;
    segment ← strtok NULL (lit_slash im);
    if negb (current_node =? NULL) then
      children ← ld 8 (current_node + node_children);
      mret (inl (segment, current_node, if negb (children =? NULL) then current_node else parent_node))
    else
      heap_free new_path ;;
      mret (inr (if negb (segment =? NULL) then (NULL, NULL) else (parent_node, NULL))).

Definition path_to_node (parent path : Z) : K (Z * Z) :=
  empty ← (if path =? NULL then mret true else n ← strlen path; mret (n =? 0));
  if empty : bool then mret (NULL, NULL)
  else
    n ← strlen path;
    let path_len := u64 n in
    parent_node ← (if parent =? NULL then gget g_root else mret parent);
    parent_node ← reduce_node parent_node;
    c ← ld 1 path;
    current_node ← (if c =? slash then root ← gget g_root; reduce_node root else mret parent_node);
    r ← kloop (skip_slashes path path_len) 0;
    match r with
    | None => mret (parent_node, current_node)
    | Some index =>
        new_path ← path_copy path path_len index;
        segment ← strtok new_path (lit_slash im);
        kloop (walk new_path) (segment, current_node, parent_node)
    end.

Definition get_node (parent path : Z) : K Z :=
  '(_, result) ← path_to_node parent path; mret result.

Definition path_to_parent (parent path : Z) : K Z :=
  '(parent, _) ← path_to_node parent path;
  if parent =? NULL then mret NULL else mret parent.

Definition fd_to_node (fd : Z) : K Z :=
  thread ← get_current_thread;
  process ← ld 8 (thread + thread_process);
  result ← (if fd =? AT_FDCWD then ld 8 (process + process_cwd)
            else fildes ← ld 8 (process + process_fildes); vector_get fildes (u64 fd));
  (if result =? NULL then set_errno EBADF else mret tt) ;;
  mret result.

Definition node_to_fd (node : Z) : K Z :=
  thread ← get_current_thread;
  process ← ld 8 (thread + thread_process);
  fildes ← ld 8 (process + process_fildes);
  result ← vector_get_index fildes node;
  (if result =? -1 then set_errno ENOENT else mret tt) ;;
  mret result.

(** The node is copied into the table of the process. *)
Definition vfs_open (parent path : Z) : K Z :=
  spinlock_acquire (LG g_vfs_lock) ;;
  thread ← get_current_thread;
  process ← ld 8 (thread + thread_process);
  '(_, node) ← path_to_node parent path;
  if node =? NULL then
    spinlock_release (LG g_vfs_lock) ;;
    set_errno ENOENT ;;
    mret NULL
  else
    fildes ← ld 8 (process + process_fildes);
    filde ← ld 4 (process + process_current_filde);
    node ← vector_replace fildes node (u64 (s32 filde));
    filde ← ld 4 (process + process_current_filde);
    filde ← int_succ (s32 filde);
    st 4 (process + process_current_filde) (u32 filde) ;;
    spinlock_release (LG g_vfs_lock) ;;
    mret node.

End vfs.
