(* ===== verification/Tmpfs.v ===== *)
(** The file systems that can be mounted: the memory file system of [fs/tmpfs.c],
    and the stubs of [fs/ext2fs.c]. *)
From S2P Require Import Prelude Machine Lock Str Layout Interfaces Pmm KheapSpec Heap Vector Hashmap Lapic Sched Env Vfs.
Import Lock.Seq.

Section tmpfs.
Context `{KH : KernelHeap} `{LC : LibC} (im : image).

Definition tmpfs_funcs : Z := sym_tmpfs im.

Definition tmpfs_create (parent name mode : Z) : K Z :=
  let fs := tmpfs_funcs in
  node ← vfs_create_node parent name fs (S_ISDIR mode);
  (if S_ISREG mode then
     new_data ← heap_calloc FRAME_SIZE;
     kassert (negb (new_data =? NULL)) ;;
     st 8 (node + node_data) new_data
   else mret tt) ;;
  let stp := node + node_st in
  st 8 (stp + off_st_blksize) FRAME_SIZE ;;
  blksize ← ld 8 (stp + off_st_blksize);
  st 8 (stp + off_st_size) blksize ;;
  st 8 (stp + off_st_blocks) 1 ;;
  st width_st_mode (stp + off_st_mode) mode ;;
  st width_st_nlink (stp + off_st_nlink) 1 ;;
  fs ← ld 8 (node + node_fs);
  ino ← ld 8 (fs + fs_inode_number);
  st 8 (fs + fs_inode_number) (u64 (ino + 1)) ;;
  st 8 (stp + off_st_ino) ino ;;
  mret node.

(** The difference that bounds [count] is unsigned: it wraps for an [offset] behind
    the end of the file. *)
Definition tmpfs_read (node buff count offset : Z) : K Z :=
  size ← ld 8 (node + node_st + off_st_size);
  let max := u64 (size - offset) in
  let count := if max <? count then max else count in
  spinlock_acquire (LM (node + node_lock)) ;;
  data ← ld 8 (node + node_data);
  memcpy buff (u64 (data + offset)) count ;;
  spinlock_release (LM (node + node_lock)) ;;
  pos ← ld 4 (node + node_offset);
  st 4 (node + node_offset) (u32 (s32 pos + count)) ;;
  mret (s32 count).

(** The size of the file is only updated when blocks are added. *)
Definition tmpfs_write (node buff count offset : Z) : K Z :=
  let page := u64 (offset + count) / FRAME_SIZE in
  spinlock_acquire (LM (node + node_lock)) ;;
  blocks ← ld 8 (node + node_st + off_st_blocks);
  (if s64 blocks <=? s64 page then
     data ← ld 8 (node + node_data);
     new ← heap_realloc data (u64 ((page + 1) * FRAME_SIZE));
     kassert (negb (new =? NULL)) ;;
     st 8 (node + node_data) new ;;
     st 8 (node + node_st + off_st_blocks) (u64 (page + 1)) ;;
     st 8 (node + node_st + off_st_size) (u64 (offset + count))
   else mret tt) ;;
  data ← ld 8 (node + node_data);
  memcpy (u64 (data + offset)) buff count ;;
  spinlock_release (LM (node + node_lock)) ;;
  mret (s32 count).

Definition tmpfs_mount (node dev name : Z) : K Z :=
  let fs := tmpfs_funcs in
  ret ← tmpfs_create node name S_IFDIR;
  st 8 (node + node_fs) fs ;;
  mret ret.

(** [fs/ext2fs.c] *)
Definition ext2fs_funcs : Z := sym_ext2fs im.
Definition ext2fs_mount (node dev name : Z) : K Z := mret NULL.
Definition ext2fs_create (parent name mode : Z) : K Z := mret NULL.
Definition ext2fs_read (node buff count offset : Z) : K Z := mret NULL.
Definition ext2fs_write (node buff count offset : Z) : K Z := mret NULL.
Definition ext2fs_init : K unit := mret tt.

End tmpfs.
