(* ===== verification/VfsOps.v ===== *)
(** The operations of [fs/vfs.c] that call a file system through the pointers of
    its [vfs_fs_t], and the start of the file system. *)
From S2P Require Import Prelude Machine Lock Str Layout Interfaces Pmm KheapSpec Heap Vector Hashmap Lapic Sched Env Vfs Tmpfs.
Import Lock.Seq.

Section vfs_ops.
Context `{KH : KernelHeap} (heap_free : Z -> K unit) `{LC : LibC} (im : image).

(** Calls through the pointers of a [vfs_fs_t]: a pointer that is not one of the
    functions of the sources is a jump to nowhere. *)
Definition call_mount (fp node dev name : Z) : K Z :=
  if fp =? sym_tmpfs_mount im then tmpfs_mount im node dev name
  else if fp =? sym_ext2fs_mount im then ext2fs_mount node dev name
  else fault.
Definition call_create (fp parent name mode : Z) : K Z :=
  if fp =? sym_tmpfs_create im then tmpfs_create im parent name mode
  else if fp =? sym_ext2fs_create im then ext2fs_create parent name mode
  else fault.
Definition call_read (fp node buff count offset : Z) : K Z :=
  if fp =? sym_tmpfs_read im then tmpfs_read node buff count offset
  else if fp =? sym_ext2fs_read im then ext2fs_read node buff count offset
  else fault.
Definition call_write (fp node buff count offset : Z) : K Z :=
  if fp =? sym_tmpfs_write im then tmpfs_write node buff count offset
  else if fp =? sym_ext2fs_write im then ext2fs_write node buff count offset
  else fault.

Definition vfs_mount (parent source target fs_name : Z) : K bool :=
  spinlock_acquire (LG g_vfs_lock) ;;
  fs ← hashmap_get (sym_filesystems im) fs_name;
  dev ← (if negb (source =? NULL) then '(_, dev) ← path_to_node heap_free im parent source; mret dev
         else mret NULL);
  '(target_parent, target_node) ← path_to_node heap_free im parent target;
  fp ← ld 8 (fs + fs_mount);
  name ← basename (lit_str_dot im) target;
  mount_node ← call_mount fp target_node dev name;
  st 8 (target_node + node_mountpoint) mount_node ;;
  create_dot im target_parent mount_node ;;
  spinlock_release (LG g_vfs_lock) ;;
  mret true.

Definition vfs_create (parent path mode : Z) : K Z :=
  '(p2n_parent, p2n_result) ← path_to_node heap_free im parent path;
  if p2n_parent =? NULL then mret NULL
  else if negb (p2n_result =? NULL) then mret NULL
  else
    target_fs ← ld 8 (p2n_parent + node_fs);
    fp ← ld 8 (target_fs + fs_create);
    name ← basename (lit_str_dot im) path;
    node ← call_create fp p2n_parent name mode;
    if node =? NULL then mret NULL
    else
      (if S_ISDIR mode then create_dot im p2n_parent node else mret tt) ;;
      mret node.

Definition vfs_write (node buff count offset : Z) : K Z :=
  fs ← ld 8 (node + node_fs);
  fp ← ld 8 (fs + fs_write);
  call_write fp node buff count offset.

Definition vfs_read (node buff count offset : Z) : K Z :=
  fs ← ld 8 (node + node_fs);
  fp ← ld 8 (fs + fs_read);
  call_read fp node buff count offset.

Definition add_filesystem (fs fs_name : Z) : K unit :=
  spinlock_acquire (LG g_vfs_lock) ;;
  ok ← hashmap_set (sym_filesystems im) fs_name fs;
  kassert ok ;;
  spinlock_release (LG g_vfs_lock).

Definition vfs_init : K unit :=
  root ← vfs_create_node NULL (lit_empty im) NULL true;
  gput g_root root ;;
  hashmap_create (sym_filesystems im) 64 ;;
  ok ← hashmap_set (sym_filesystems im) (lit_tmpfs im) (tmpfs_funcs im);
  kassert ok ;;
  ok ← hashmap_set (sym_filesystems im) (lit_ext2fs im) (ext2fs_funcs im);
  kassert ok ;;
  root ← gget g_root;
  vfs_mount root NULL (lit_slash im) (lit_tmpfs im) ;;
  mret tt.

End vfs_ops.
