(* ===== verification/TmpfsSpec.v ===== *)
(** Files of the memory file system: what [tmpfs_write] stores, [tmpfs_read] reads. *)
From S2P Require Import Prelude Machine Lock Str Layout Interfaces Pmm KheapSpec Heap Vector VectorSpec Hashmap Lapic Sched Env Vfs Tmpfs.
Import Lock.Seq.

Section files.
Context `{KH : KernelHeap} `{LC : LibC}.
Implicit Types (s : kstate) (blocks ext : list (Z * Z)) (node data k size nb pos lk : Z).

(** The regular file at [node]: its contents are the block at [data] of [k] bytes,
    of which [nb] pages are counted; [size] is its length, [pos] the file offset
    and [lk] the word of its lock. *)
Record file s blocks ext node data k size nb pos lk : Prop := {
  fl_data : rd 8 (mem s) (node + node_data) = Some data;
  fl_size : rd 8 (mem s) (node + node_st + off_st_size) = Some size;
  fl_blocks : rd 8 (mem s) (node + node_st + off_st_blocks) = Some nb;
  fl_pos : rd 4 (mem s) (node + node_offset) = Some pos;
  fl_lock : rd 4 (mem s) (node + node_lock) = Some lk;
  fl_block : (data, k) ∈ blocks /\ nb * FRAME_SIZE <= k /\ 0 <= nb < 2 ^ 40;
  fl_node x : node <= x < node + sizeof_vfs_node -> in_regions (blocks ++ ext) x /\ ~ (data <= x < data + k);
  fl_pos_node : 0 < node
}.

(** The places of the members. *)
Lemma node_layout :
  0 <= off_st_size /\ off_st_size + 8 <= sizeof_stat /\ 0 <= off_st_blocks /\ off_st_blocks + 8 <= sizeof_stat /\
  (off_st_size + 8 <= off_st_blocks \/ off_st_blocks + 8 <= off_st_size).
Proof.
  destruct (libc_stat_inside off_st_size 8) as [H1 H2]; [do 3 (apply elem_of_cons; right); apply elem_of_cons; by left|].
  destruct (libc_stat_inside off_st_blocks 8) as [H3 H4]; [do 5 (apply elem_of_cons; right); apply elem_of_cons; by left|].
  do 4 (split; [done|]). pose proof libc_stat_apart as Hs. cbn [seps] in Hs.
  destruct Hs as (_ & _ & _ & Hs & _). specialize (Hs (off_st_blocks, 8)). unfold apart in Hs. simpl in Hs.
  destruct Hs; [do 1 (apply elem_of_cons; right); apply elem_of_cons; by left|lia|lia].
Qed.

Ltac node_lia := pose proof node_layout; unfold sizeof_vfs_node, node_lock, node_offset in *; lia.

(** A file in a state that agrees on the node. *)
Lemma file_ext s s' blocks blocks' ext node data k size nb pos lk :
  file s blocks ext node data k size nb pos lk ->
  (forall x, node <= x < node + sizeof_vfs_node -> mem s' !! x = mem s !! x) ->
  (forall r, r ∈ blocks -> r ∈ blocks') ->
  file s' blocks' ext node data k size nb pos lk.
Proof.
  intros [F1 F2 F3 F4 F5 F6 F7 F8] Hx Hb.
  assert (R : forall (j : nat) a, node <= a -> a + Z.of_nat j <= node + sizeof_vfs_node -> rd j (mem s') a = rd j (mem s) a)
    by (intros j a A1 A2; apply rd_ext; intros x X; apply Hx; lia).
  split; rewrite ?R by node_lia; try done.
  - destruct F6 as (B1 & B2). split; [by apply Hb|done].
  - intros x X. destruct (F7 x X) as [(r & Hr & Hin) Hno]. split; [|done]. exists r. split; [|done].
    apply elem_of_app. apply elem_of_app in Hr as [Hr|Hr]; [left; by apply Hb|by right].
Qed.

(** A store to the client's own bytes keeps the heap in order. *)
Lemma own_write s blocks ext (n : nat) a v :
  (forall x, a <= x < a + Z.of_nat n -> in_regions (blocks ++ ext) x) -> mapped (mem s) a (Z.of_nat n) ->
  let s' := with_mem s (wr n (mem s) a v) in
  (heap_inv s blocks ext -> heap_inv s' blocks ext) /\ (forall j, heap_ready s blocks ext j -> heap_ready s' blocks ext j).
Proof.
  intros Hown Hm s'. apply hk_write; [by apply same_dom_wr|]. intros x Hx. apply lookup_wr_out. intros Hin. by apply Hx, Hown.
Qed.

(** Taking and releasing the lock of the node. *)
Lemma file_lock s blocks ext node data k size nb pos lk y :
  file s blocks ext node data k size nb pos lk -> 0 <= y < 2 ^ 32 ->
  let s' := with_mem s (wr 4 (mem s) (node + node_lock) y) in
  file s' blocks ext node data k size nb pos y /\
  (heap_inv s blocks ext -> heap_inv s' blocks ext) /\ (forall j, heap_ready s blocks ext j -> heap_ready s' blocks ext j) /\
  (forall x, ~ (node <= x < node + sizeof_vfs_node) -> mem s' !! x = mem s !! x).
Proof.
  intros [F1 F2 F3 F4 F5 F6 F7 F8] Hy s'. unfold s'. split.
  - split; cbn [mem with_mem]; rewrite ?rd_wr_ne by node_lia; try done. rewrite rd_wr_same. f_equal. by apply Z.mod_small.
  - destruct (own_write s blocks ext 4 (node + node_lock) y) as [W1 W2].
    + intros x X. apply F7. node_lia.
    + by apply (rd_Some_mapped 4 _ _ lk).
    + do 2 (split; [done|]). intros x X. apply lookup_wr_out. node_lia.
Qed.

(** The place of the file's bytes. *)
Lemma file_range s blocks ext node data k size nb pos lk :
  heap_inv s blocks ext -> file s blocks ext node data k size nb pos lk ->
  0 < data /\ 0 <= k /\ data + k < 2 ^ 64 /\ mapped (mem s) data k.
Proof. intros Hh Hf. destruct (fl_block _ _ _ _ _ _ _ _ _ _ Hf) as [Hb _]. by apply (hk_range _ _ _ _ _ Hh Hb). Qed.

(** A buffer of a client: its bytes are not the heap's, and not the node's. *)
Record buffer s blocks ext node data k buff n : Prop := {
  bf_pos : 0 < buff /\ 0 <= n;
  bf_mapped : mapped (mem s) buff n;
  bf_own x : buff <= x < buff + n -> in_regions (blocks ++ ext) x /\ ~ (node <= x < node + sizeof_vfs_node) /\ ~ (data <= x < data + k)
}.

(** * Reading *)

(** A file, whoever owns its memory: the members that [tmpfs_read] uses, and the [k]
    bytes at [data]. *)
Record file_at s node data k size pos lk : Prop := {
  at_data : rd 8 (mem s) (node + node_data) = Some data;
  at_size : rd 8 (mem s) (node + node_st + off_st_size) = Some size;
  at_pos : rd 4 (mem s) (node + node_offset) = Some pos;
  at_lock : rd 4 (mem s) (node + node_lock) = Some lk;
  at_mapped : 0 < data /\ 0 <= k /\ data + k < 2 ^ 64 /\ mapped (mem s) data k;
  at_apart x : node <= x < node + sizeof_vfs_node -> ~ (data <= x < data + k)
}.

Lemma file_at_ext s s' node data k size pos lk :
  file_at s node data k size pos lk -> same_dom (mem s) (mem s') ->
  (forall x, node <= x < node + sizeof_vfs_node -> mem s' !! x = mem s !! x) -> file_at s' node data k size pos lk.
Proof.
  intros [F1 F2 F3 F4 (M1 & M2 & M3 & M4) F6] Hd Hx.
  assert (R : forall (j : nat) a, node <= a -> a + Z.of_nat j <= node + sizeof_vfs_node -> rd j (mem s') a = rd j (mem s) a)
    by (intros j a A1 A2; apply rd_ext; intros x X; apply Hx; lia).
  split; rewrite ?R by node_lia; try done. do 3 (split; [done|]). intros x X. by apply Hd, M4.
Qed.

(** A store to one of the two members that change. *)
Lemma file_at_lock s node data k size pos lk y :
  file_at s node data k size pos lk -> 0 <= y < 2 ^ 32 ->
  file_at (with_mem s (wr 4 (mem s) (node + node_lock) y)) node data k size pos y.
Proof.
  intros [F1 F2 F3 F4 (M1 & M2 & M3 & M4) F6] Hy. split; cbn [mem with_mem]; rewrite ?rd_wr_ne by node_lia; try done.
  - rewrite rd_wr_same. f_equal. by apply Z.mod_small.
  - do 3 (split; [done|]). by apply mapped_wr.
Qed.

Lemma file_at_pos s node data k size pos lk y :
  file_at s node data k size pos lk -> 0 <= y < 2 ^ 32 ->
  file_at (with_mem s (wr 4 (mem s) (node + node_offset) y)) node data k size y lk.
Proof.
  intros [F1 F2 F3 F4 (M1 & M2 & M3 & M4) F6] Hy. split; cbn [mem with_mem]; rewrite ?rd_wr_ne by node_lia; try done.
  - rewrite rd_wr_same. f_equal. by apply Z.mod_small.
  - do 3 (split; [done|]). by apply mapped_wr.
Qed.

(** What a read of [n] bytes leaves. *)
Record read_at s s' node data k size pos buff offset n : Prop := {
  ra_file : file_at s' node data k size (pos + n) 0;
  ra_dom : same_dom (mem s) (mem s');
  ra_state : s' = with_mem s (mem s');
  ra_bytes i : 0 <= i < n -> mem s' !! (buff + i) = mem s !! (data + offset + i);
  ra_out x : ~ (node + node_offset <= x < node + node_offset + 4) -> ~ (node + node_lock <= x < node + node_lock + 4) ->
    ~ (buff <= x < buff + n) -> mem s' !! x = mem s !! x
}.

Lemma tmpfs_read_at s node data k size pos buff count offset (n := Z.min count (size - offset)) :
  file_at s node data k size pos 0 ->
  0 <= offset <= size -> size <= k -> 0 <= count < 2 ^ 31 -> pos + count < 2 ^ 31 ->
  0 < buff -> mapped (mem s) buff n ->
  (forall x, buff <= x < buff + n -> ~ (node <= x < node + sizeof_vfs_node) /\ ~ (data <= x < data + k)) ->
  exists s', tmpfs_read node buff count offset s = Ok n s' /\ read_at s s' node data k size pos buff offset n.
Proof.
  intros Hf Hoff Hk Hc Hp B1 B3 B4. destruct (at_mapped _ _ _ _ _ _ _ Hf) as (R1 & R2 & R3 & R4).
  pose proof (file_at_lock _ _ _ _ _ _ _ 1 Hf ltac:(lia)) as Hf1.
  set (s1 := with_mem s (wr 4 (mem s) (node + node_lock) 1)) in *.
  assert (Hpos : 0 <= pos) by (pose proof (rd_range _ _ _ _ (at_pos _ _ _ _ _ _ _ Hf)); lia).
  assert (Hn : 0 <= n <= count /\ n <= size - offset) by lia.
  destruct (memcpy_eq s1 buff (data + offset) n) as (m2 & E2 & [D2 O2] & C2).
  { unfold NULL. lia. } { unfold NULL. lia. } { lia. }
  { by apply mapped_wr. }
  { apply mapped_wr. eapply mapped_sub; [exact R4|lia|lia]. }
  { destruct (decide (n = 0)); [lia|]. destruct (decide (buff <= data + offset)); [by left|right].
    destruct (decide (data + offset + n <= buff)); [done|]. exfalso. destruct (B4 buff) as (_ & Hno); [lia|]. apply Hno. lia. }
  set (s2 := with_mem s1 m2).
  assert (Hf2 : file_at s2 node data k size pos 1).
  { eapply file_at_ext; [exact Hf1|exact D2|]. intros x X. apply O2. intros Hin. by destruct (B4 x Hin). }
  pose proof (file_at_lock _ _ _ _ _ _ _ 0 Hf2 ltac:(lia)) as Hf3.
  set (s3 := with_mem s2 (wr 4 (mem s2) (node + node_lock) 0)) in *.
  assert (Hout : forall x, ~ (node + node_offset <= x < node + node_offset + 4) -> ~ (node + node_lock <= x < node + node_lock + 4) ->
    wr 4 (mem s3) (node + node_offset) (pos + n) !! x = m2 !! x /\ mem s1 !! x = mem s !! x).
  { intros x X X'. split; [|apply lookup_wr_out; lia]. rewrite lookup_wr_out by lia. cbn [mem with_mem s3]. by rewrite lookup_wr_out by lia. }
  exists (with_mem s3 (wr 4 (mem s3) (node + node_offset) (pos + n))). split.
  - unfold tmpfs_read. rewrite (ld_then 8 _ _ _ _ (at_size _ _ _ _ _ _ _ Hf)).
    assert (Hsz : size < 2 ^ 64) by (pose proof (rd_range _ _ _ _ (at_size _ _ _ _ _ _ _ Hf)); lia).
    rewrite (u64_small (size - offset)) by lia.
    replace (if size - offset <? count then size - offset else count) with n by (unfold n; destruct (Z.ltb_spec (size - offset) count); lia).
    rewrite (bind_Ok _ _ s tt s1) by (apply acquire_free, Hf).
    rewrite (ld_then 8 _ _ _ _ (at_data _ _ _ _ _ _ _ Hf1)). rewrite u64_small by lia.
    rewrite (bind_Ok _ _ _ _ _ E2). fold s2. rewrite (bind_Ok _ _ s2 tt s3) by (apply release_held, Hf2).
    rewrite (ld_then 4 _ _ _ _ (at_pos _ _ _ _ _ _ _ Hf3)). rewrite (s32_small pos), (u32_small (pos + n)) by lia.
    rewrite st_then by (by apply (rd_Some_mapped 4 _ _ pos), Hf3). rewrite s32_small by lia. done.
  - split; [by apply (file_at_pos s3 _ _ _ _ pos); [|lia]| |done| |].
    + cbn [mem with_mem]. unfold s3. cbn [mem with_mem]. apply same_dom_wr; [apply same_dom_wr|].
      * intros x. cbn [mem with_mem s2]. rewrite (D2 x). revert x. by apply same_dom_wr, (rd_Some_mapped 4 _ _ 0), Hf.
      * apply (rd_Some_mapped 4 _ _ 0), Hf.
      * apply (rd_Some_mapped 4 _ _ pos), Hf.
    + intros i Hi. destruct (B4 (buff + i) ltac:(lia)) as (Hno & _). cbn [mem with_mem]. rewrite (proj1 (Hout (buff + i) ltac:(node_lia) ltac:(node_lia))), C2 by done.
      assert (X : ~ (node <= data + offset + i < node + sizeof_vfs_node)) by (intros X; apply (at_apart _ _ _ _ _ _ _ Hf _ X); lia).
      apply Hout; node_lia.
    + intros x X1 X2 X3. cbn [mem with_mem]. rewrite (proj1 (Hout x X1 X2)). rewrite O2 by lia. by apply Hout.
Qed.

Lemma file_file_at s blocks ext node data k size nb pos lk :
  heap_inv s blocks ext -> file s blocks ext node data k size nb pos lk -> file_at s node data k size pos lk.
Proof.
  intros Hh Hf. pose proof (file_range _ _ _ _ _ _ _ _ _ _ Hh Hf). destruct Hf as [F1 F2 F3 F4 F5 F6 F7 F8].
  split; try done. intros x X. by apply F7.
Qed.

Lemma tmpfs_read_eq s blocks ext node data k size nb pos buff count offset (n := Z.min count (size - offset)) :
  file s blocks ext node data k size nb pos 0 -> heap_inv s blocks ext ->
  0 <= offset <= size -> size <= k -> 0 <= count < 2 ^ 31 -> pos + count < 2 ^ 31 ->
  buffer s blocks ext node data k buff n ->
  exists s', tmpfs_read node buff count offset s = Ok n s' /\
    file s' blocks ext node data k size nb (pos + n) 0 /\ heap_inv s' blocks ext /\ same_globals s s' /\
    (forall i, 0 <= i < n -> mem s' !! (buff + i) = mem s !! (data + offset + i)) /\
    (forall x, ~ (node <= x < node + sizeof_vfs_node) -> ~ (buff <= x < buff + n) -> mem s' !! x = mem s !! x).
Proof.
  intros Hf Hh Hoff Hk Hc Hp [[B1 B2] B3 B4]. pose proof (file_file_at _ _ _ _ _ _ _ _ _ _ Hh Hf) as Ha.
  destruct (tmpfs_read_at s node data k size pos buff count offset) as (s' & E & [A1 A2 A3 A4 A5]); try done.
  { intros x X. by destruct (B4 x X) as (_ & ? & ?). }
  assert (Hg : s' = with_mem s (mem s')) by done. exists s'. split; [done|].
  split; [|split; [|split; [by rewrite Hg|split; [done|intros x X1 X2; apply A5; node_lia]]]].
  - destruct Hf as [F1 F2 F3 F4 F5 F6 F7 F8], A1. split; try done. rewrite (rd_ext 8 (mem s)); [done|].
    intros x X. apply A5; try node_lia. intros Hin. destruct (B4 x Hin) as (_ & Hno & _). node_lia.
  - rewrite Hg. apply hk_write; [done| |done]. intros x X. apply A5; intros Hin; apply X.
    + apply (fl_node _ _ _ _ _ _ _ _ _ _ Hf). node_lia.
    + apply (fl_node _ _ _ _ _ _ _ _ _ _ Hf). node_lia.
    + by destruct (B4 x Hin).
Qed.

(** * Writing *)

(** The pages a write needs. *)
Definition page_of offset count : Z := (offset + count) / FRAME_SIZE.

(** The part of [tmpfs_write] that makes room. *)
Definition tmpfs_room node offset count : K unit :=
  blocks ← ld 8 (node + node_st + off_st_blocks);
  let page := u64 (offset + count) / FRAME_SIZE in
  if s64 blocks <=? s64 page then
    data ← ld 8 (node + node_data);
    new ← heap_realloc data (u64 ((page + 1) * FRAME_SIZE));
    kassert (negb (new =? NULL)) ;;
    st 8 (node + node_data) new ;;
    st 8 (node + node_st + off_st_blocks) (u64 (page + 1)) ;;
    st 8 (node + node_st + off_st_size) (u64 (offset + count))
  else mret tt.

(** The file after the room was made. *)
Definition grown size nb offset count : Z * Z :=
  if nb <=? page_of offset count then (offset + count, page_of offset count + 1) else (size, nb).

Lemma file_grow s blocks ext node data k size nb pos lk p k' offset count :
  file s blocks ext node data k size nb pos lk -> heap_inv s ((p, k') :: blocks) ext ->
  (page_of offset count + 1) * FRAME_SIZE <= k' -> 0 <= offset + count < 2 ^ 40 ->
  let m1 := wr 8 (mem s) (node + node_data) p in
  let m2 := wr 8 m1 (node + node_st + off_st_blocks) (page_of offset count + 1) in
  let s' := with_mem s (wr 8 m2 (node + node_st + off_st_size) (offset + count)) in
  file s' ((p, k') :: blocks) ext node p k' (offset + count) (page_of offset count + 1) pos lk /\
  heap_inv s' ((p, k') :: blocks) ext /\ (forall x, ~ (node <= x < node + sizeof_vfs_node) -> mem s' !! x = mem s !! x).
Proof.
  intros Hf Hh Hk Hoc m1 m2 s'. pose proof Hf as [F1 F2 F3 F4 F5 F6 F7 F8].
  destruct (hk_range _ _ _ p k' Hh) as (P1 & P2 & P3 & P4); [apply elem_of_cons; by left|].
  assert (Hpg : 0 <= page_of offset count < 2 ^ 40) by (unfold page_of, FRAME_SIZE; zlia).
  assert (Ho : forall x, ~ (node <= x < node + sizeof_vfs_node) -> mem s' !! x = mem s !! x).
  { intros x X. unfold s', m2, m1. cbn [mem with_mem]. rewrite !lookup_wr_out by node_lia. done. }
  assert (Hin : forall x, node <= x < node + sizeof_vfs_node -> in_regions (((p, k') :: blocks) ++ ext) x /\ ~ (p <= x < p + k')).
  { intros x X. destruct (F7 x X) as [Hr _]. split; [|by apply (fresh_outside s blocks ext)].
    destruct Hr as (r & Hr & Hx). exists r. split; [apply elem_of_cons; by right|done]. }
  split; [|split; [|done]].
  - split; unfold s', m2, m1; cbn [mem with_mem]; try done.
    + do 2 (rewrite rd_wr_ne by node_lia). rewrite rd_wr_same. f_equal. apply Z.mod_small. simpl. lia.
    + rewrite rd_wr_same. f_equal. apply Z.mod_small. simpl. lia.
    + rewrite rd_wr_ne by node_lia. rewrite rd_wr_same. f_equal. apply Z.mod_small. simpl. lia.
    + do 3 (rewrite rd_wr_ne by node_lia). done.
    + do 3 (rewrite rd_wr_ne by node_lia). done.
    + split; [apply elem_of_cons; by left|]. split; [lia|]. unfold page_of, FRAME_SIZE. zlia.
  - apply hk_write; [| |done].
    + unfold m2, m1. repeat (apply (same_dom_wr _ _ 8); [|by eapply (rd_Some_mapped 8)]). done.
    + intros x X. apply Ho. intros Hx. by apply X, Hin.
Qed.

Lemma tmpfs_room_eq s blocks ext node data k size nb pos offset count (n := (page_of offset count + 1) * FRAME_SIZE) :
  file s blocks ext node data k size nb pos 1 -> heap_inv s blocks ext -> 0 <= offset + count < 2 ^ 40 ->
  (nb <= page_of offset count -> heap_ready s blocks ext n /\ k <= n) ->
  exists s2 blocks' data' k', tmpfs_room node offset count s = Ok tt s2 /\
    file s2 blocks' ext node data' k' (fst (grown size nb offset count)) (snd (grown size nb offset count)) pos 1 /\
    heap_inv s2 blocks' ext /\ (forall r, r ∈ blocks -> r ∈ blocks') /\ same_globals s s2 /\ k <= k' /\
    (forall i, 0 <= i < k -> mem s2 !! (data' + i) = mem s !! (data + i)) /\
    (forall x, in_regions (blocks ++ ext) x -> ~ (node <= x < node + sizeof_vfs_node) -> mem s2 !! x = mem s !! x) /\
    (data' = data /\ k' = k \/ forall x, in_regions (blocks ++ ext) x -> ~ (data' <= x < data' + k')).
Proof.
  intros Hf Hh Hoc Hroom. pose proof (fl_block _ _ _ _ _ _ _ _ _ _ Hf) as (Hb & Hkb & Hnb).
  assert (Hpg : 0 <= page_of offset count < 2 ^ 40) by (unfold page_of, FRAME_SIZE; zlia).
  unfold tmpfs_room. rewrite (ld_then 8 _ _ _ _ (fl_blocks _ _ _ _ _ _ _ _ _ _ Hf)).
  rewrite (u64_small (offset + count)) by lia. fold (page_of offset count).
  replace (s64 nb) with nb by ulia. replace (s64 (page_of offset count)) with (page_of offset count) by ulia.
  unfold grown. destruct (Z.leb_spec nb (page_of offset count)) as [Hle|Hgt].
  2:{ exists s, blocks, data, k. do 5 (split; [done|]). split; [lia|]. do 2 (split; [done|]). by left. }
  destruct (Hroom Hle) as [Hready Hkn].
  destruct (hk_realloc _ _ _ data k n Hready Hb) as (p & k' & s1 & E1 & Hk' & Hh1 & Hkept & Hg1 & Hcp);
    [unfold n, FRAME_SIZE; lia|done|].
  destruct (hk_range _ _ _ p k' Hh1) as (P1 & P2 & P3 & P4); [apply elem_of_cons; by left|].
  assert (Hf1 : file s1 blocks ext node data k size nb pos 1).
  { eapply file_ext; [exact Hf| |done]. intros x X. apply Hkept. by apply (fl_node _ _ _ _ _ _ _ _ _ _ Hf). }
  destruct (file_grow _ _ _ _ _ _ _ _ _ _ _ _ offset count Hf1 Hh1 Hk' Hoc) as (Hf2 & Hh2 & Ho2).
  pose proof (fun x => fresh_outside _ _ _ _ _ x Hh1) as Hfresh.
  eexists _, _, p, k'. split; [|split; [exact Hf2|split; [exact Hh2|split; [|split; [exact Hg1|split; [lia|split; [|split; [|by right]]]]]]]].
  - rewrite (ld_then 8 _ _ _ _ (fl_data _ _ _ _ _ _ _ _ _ _ Hf)). fold n.
    rewrite (u64_small n) by (unfold n, FRAME_SIZE; lia). rewrite (bind_Ok _ _ _ _ _ E1).
    destruct (Z.eqb_spec p NULL) as [E0|_]; [unfold NULL in E0; lia|].
    rewrite (bind_Ok _ _ _ tt s1) by done. rewrite (u64_small (page_of offset count + 1)) by lia.
    destruct Hf1 as [F1 F2 F3 F4 F5 F6 F7 F8].
    rewrite st_then by (by eapply (rd_Some_mapped 8)).
    rewrite st_then by (cbn [mem with_mem]; apply mapped_wr; by eapply (rd_Some_mapped 8)).
    cbn [mem with_mem]. rewrite with_mem_mem. rewrite st_ok by (cbn [mem with_mem]; do 2 apply mapped_wr; by eapply (rd_Some_mapped 8)).
    done.
  - intros r Hr. apply elem_of_cons. by right.
  - intros i Hi. rewrite Ho2; [by apply Hcp|]. intros X. apply (Hfresh (p + i)); [by apply (fl_node _ _ _ _ _ _ _ _ _ _ Hf1)|lia].
  - intros x X1 X2. rewrite Ho2 by done. by apply Hkept.
Qed.

Lemma tmpfs_write_eq s blocks ext node data k size nb pos buff l offset (count := Z.of_nat (length l)) (n := (page_of offset count + 1) * FRAME_SIZE) :
  file s blocks ext node data k size nb pos 0 -> heap_inv s blocks ext ->
  0 <= offset -> offset + count < 2 ^ 31 -> bytes_at (mem s) buff l -> buffer s blocks ext node data k buff count ->
  (nb <= page_of offset count -> heap_ready s blocks ext n /\ k <= n) ->
  exists s' blocks' data' k', tmpfs_write node buff count offset s = Ok count s' /\
    file s' blocks' ext node data' k' (fst (grown size nb offset count)) (snd (grown size nb offset count)) pos 0 /\
    heap_inv s' blocks' ext /\ (forall r, r ∈ blocks -> r ∈ blocks') /\ same_globals s s' /\
    bytes_at (mem s') (data' + offset) l /\
    (forall i, 0 <= i < k -> ~ (offset <= i < offset + count) -> mem s' !! (data' + i) = mem s !! (data + i)) /\
    (forall x, in_regions (blocks ++ ext) x -> ~ (node <= x < node + sizeof_vfs_node) -> ~ (data <= x < data + k) ->
       mem s' !! x = mem s !! x) /\
    offset + count <= k' /\ k <= k' /\ (data' = data /\ k' = k \/ forall x, in_regions (blocks ++ ext) x -> ~ (data' <= x < data' + k')).
Proof.
  intros Hf Hh Hoff Hc Hl [[B1 B2] B3 B4] Hroom.
  destruct (file_lock _ _ _ _ _ _ _ _ _ _ 1 Hf ltac:(lia)) as (Hf1 & Hh1 & Hr1 & Ho1). specialize (Hh1 Hh).
  set (s1 := with_mem s (wr 4 (mem s) (node + node_lock) 1)) in *.
  destruct (tmpfs_room_eq s1 blocks ext node data k size nb pos offset count Hf1 Hh1)
    as (s2 & blocks' & data' & k' & E2 & Hf2 & Hh2 & Hbl & Hg2 & Hkk & Hcp & Ho2 & Hdk);
    [lia|intros Hle; destruct (Hroom Hle) as [X1 X2]; by split; [apply Hr1|]|].
  destruct (file_range _ _ _ _ _ _ _ _ _ _ Hh2 Hf2) as (R1 & R2 & R3 & R4).
  assert (Hfit : offset + count <= k').
  { destruct (fl_block _ _ _ _ _ _ _ _ _ _ Hf2) as (_ & X & _). unfold grown in X.
    destruct (Z.leb_spec nb (page_of offset count)); simpl in X; unfold page_of, FRAME_SIZE in *; zlia. }
  assert (Hno' : forall x, buff <= x < buff + count -> ~ (data' <= x < data' + k')).
  { intros x X. destruct (B4 x X) as (X1 & X2 & X3). destruct Hdk as [[-> ->]|Hfr]; [done|by apply Hfr]. }
  assert (Hb2 : forall x, buff <= x < buff + count -> mem s2 !! x = mem s !! x).
  { intros x X. destruct (B4 x X) as (X1 & X2 & X3). rewrite Ho2 by done. by apply Ho1. }
  destruct (memcpy_eq s2 (data' + offset) buff count) as (m3 & E3 & [D3 O3] & C3).
  { unfold NULL. lia. } { unfold NULL. lia. } { lia. } { eapply mapped_sub; [exact R4|lia|lia]. }
  { intros x X. rewrite Hb2 by done. by apply B3. }
  { destruct (decide (count = 0)); [lia|]. destruct (decide (data' + offset <= buff)); [by left|right].
    destruct (decide (buff + count <= data' + offset)); [done|]. exfalso. apply (Hno' (data' + offset)); lia. }
  set (s3 := with_mem s2 m3).
  assert (Hf3 : file s3 blocks' ext node data' k' (fst (grown size nb offset count)) (snd (grown size nb offset count)) pos 1).
  { eapply file_ext; [exact Hf2| |done]. intros x X. apply O3. intros Hin. destruct (fl_node _ _ _ _ _ _ _ _ _ _ Hf2 x X). lia. }
  assert (Hh3 : heap_inv s3 blocks' ext).
  { apply hk_write; [exact D3| |exact Hh2]. intros x X. apply O3. intros Hin. apply X. exists (data', k').
    split; [apply elem_of_app; left; apply Hf2|simpl; lia]. }
  destruct (file_lock _ _ _ _ _ _ _ _ _ _ 0 Hf3 ltac:(lia)) as (Hf4 & Hh4 & _ & Ho4). specialize (Hh4 Hh3).
  assert (Hdn : forall i, 0 <= i < k' -> ~ (node <= data' + i < node + sizeof_vfs_node)).
  { intros i Hi X. destruct (fl_node _ _ _ _ _ _ _ _ _ _ Hf2 _ X). lia. }
  eexists _, blocks', data', k'. split; [|split; [exact Hf4|split; [exact Hh4|split; [done|split; [exact Hg2|split; [|split; [|split; [|done]]]]]]]].
  - unfold tmpfs_write. rewrite (bind_Ok _ _ s tt s1) by (apply acquire_free, Hf).
    unfold tmpfs_room in E2. rewrite (ld_then 8 _ _ _ _ (fl_blocks _ _ _ _ _ _ _ _ _ _ Hf1)) in E2.
    rewrite (ld_then 8 _ _ _ _ (fl_blocks _ _ _ _ _ _ _ _ _ _ Hf1)).
    rewrite (bind_Ok _ _ _ _ _ E2). rewrite (ld_then 8 _ _ _ _ (fl_data _ _ _ _ _ _ _ _ _ _ Hf2)). rewrite u64_small by lia.
    rewrite (bind_Ok _ _ _ _ _ E3). fold s3. rewrite (bind_Ok _ _ s3 _ _ (release_held (LM (node + node_lock)) s3 (fl_lock _ _ _ _ _ _ _ _ _ _ Hf3))).
    by rewrite s32_small by lia.
  - intros i b Hi. pose proof (lookup_lt_Some _ _ _ Hi). rewrite Ho4 by (rewrite <- Z.add_assoc; apply Hdn; lia).
    cbn [mem with_mem s3]. rewrite C3, Hb2 by lia. by apply Hl.
  - intros i Hi Hno. rewrite Ho4 by (apply Hdn; lia). cbn [mem with_mem s3]. rewrite O3, Hcp by lia. apply Ho1.
    intros X. destruct (fl_node _ _ _ _ _ _ _ _ _ _ Hf _ X). lia.
  - intros x X1 X2 X3. rewrite Ho4 by done. cbn [mem with_mem s3].
    rewrite O3, Ho2 by (done || (destruct Hdk as [[-> ->]|Hfr]; [lia|intros Hin; apply (Hfr x X1); lia])). by apply Ho1.
Qed.

(** * Properties *)

(** C14: a file returns what was written to it when the write adds blocks to it or ends
    before its recorded size: after [tmpfs_write] of the bytes [l] at an offset, a
    [tmpfs_read] of as many bytes at that offset delivers [l].  (A write that appends
    within the last block does neither: see [tmpfs_append_invisible].  A write that
    adds blocks needs room on the heap for contents that are not larger than the
    space that the file gets.)  The bytes
    before and behind the written ones, the memory of the other clients and the
    order of the heap are kept, also when the contents move to a larger block. *)
Theorem tmpfs_write_read s blocks ext node data k size nb pos src dst l offset
    (count := Z.of_nat (length l)) (n := (page_of offset count + 1) * FRAME_SIZE) :
  file s blocks ext node data k size nb pos 0 -> heap_inv s blocks ext ->
  0 <= offset -> offset + count < 2 ^ 31 -> pos + count < 2 ^ 31 -> size <= k ->
  bytes_at (mem s) src l -> buffer s blocks ext node data k src count -> buffer s blocks ext node data k dst count ->
  (nb <= page_of offset count -> heap_ready s blocks ext n /\ k <= n) ->
  (nb <= page_of offset count \/ offset + count <= size) ->
  exists s1 s2 blocks' data' k',
    tmpfs_write node src count offset s = Ok count s1 /\ tmpfs_read node dst count offset s1 = Ok count s2 /\
    bytes_at (mem s2) dst l /\
    file s2 blocks' ext node data' k' (fst (grown size nb offset count)) (snd (grown size nb offset count)) (pos + count) 0 /\
    heap_inv s2 blocks' ext /\ same_globals s s2 /\
    (forall i, 0 <= i < k -> ~ (offset <= i < offset + count) -> mem s1 !! (data' + i) = mem s !! (data + i)) /\
    (forall x, in_regions (blocks ++ ext) x -> ~ (node <= x < node + sizeof_vfs_node) -> ~ (data <= x < data + k) ->
       ~ (dst <= x < dst + count) -> mem s2 !! x = mem s !! x).
Proof.
  intros Hf Hh Hoff Hc Hp Hsz Hl Hsrc Hdst Hroom Hend.
  destruct (tmpfs_write_eq s blocks ext node data k size nb pos src l offset Hf Hh Hoff Hc Hl Hsrc Hroom)
    as (s1 & blocks' & data' & k' & E1 & Hf1 & Hh1 & Hbl & Hg1 & Hl1 & Hkeep & Ho1 & Hfit & Hkk & Hdk).
  change (Z.of_nat (length l)) with count in E1, Hf1, Hkeep, Hfit. set (size' := fst (grown size nb offset count)) in *.
  assert (Hc0 : 0 <= count) by lia.
  assert (Hs' : offset + count <= size' /\ size' <= k').
  { unfold size', grown in *. destruct (Z.leb_spec nb (page_of offset count)); simpl; lia. }
  assert (Hn : Z.min count (size' - offset) = count) by lia. destruct Hdst as [[D1 D2] D3 D4].
  assert (Hd1 : forall x, dst <= x < dst + count -> mem s1 !! x = mem s !! x).
  { intros x X. destruct (D4 x X) as (X1 & X2 & X3). by apply Ho1. }
  assert (Hno : forall x, dst <= x < dst + count -> ~ (data' <= x < data' + k')).
  { intros x X. destruct (D4 x X) as (X1 & X2 & X3). destruct Hdk as [[-> ->]|Hfr]; [done|by apply Hfr]. }
  destruct (tmpfs_read_eq s1 blocks' ext node data' k' size' (snd (grown size nb offset count)) pos dst count offset)
    as (s2 & E2 & Hf2 & Hh2 & Hg2 & Hc2 & Ho2); try done; try lia.
  { split; rewrite ?Hn; [done| |].
    - intros x X. rewrite Hd1 by done. by apply D3.
    - intros x X. destruct (D4 x X) as ((r & Hr & Hin) & X2 & X3). split; [|split; [done|by apply Hno]].
      exists r. split; [|done]. apply elem_of_app. apply elem_of_app in Hr as [Hr|Hr]; [left; by apply Hbl|by right]. }
  rewrite Hn in *. exists s1, s2, blocks', data', k'. split; [done|]. split; [done|].
  split; [|split; [done|split; [done|split; [by transitivity s1|split; [done|]]]]].
  - intros i b Hi. pose proof (lookup_lt_Some _ _ _ Hi). rewrite Hc2 by lia. by apply Hl1.
  - intros x X1 X2 X3 X4. rewrite Ho2 by done. by apply Ho1.
Qed.

(** C35: a write inside the last block does not make the file longer.  It is stored
    and its length is returned, but the recorded size stays, and a read at the old
    end of the file delivers nothing. *)
Theorem tmpfs_append_invisible s blocks ext node data k size nb pos src dst l (count := Z.of_nat (length l)) :
  file s blocks ext node data k size nb pos 0 -> heap_inv s blocks ext ->
  0 <= size -> size + count < 2 ^ 31 -> pos + count < 2 ^ 31 -> size <= k -> page_of size count < nb ->
  bytes_at (mem s) src l -> buffer s blocks ext node data k src count -> buffer s blocks ext node data k dst 0 ->
  exists s1 s2 data', tmpfs_write node src count size s = Ok count s1 /\
    rd 8 (mem s1) (node + node_data) = Some data' /\ bytes_at (mem s1) (data' + size) l /\
    tmpfs_read node dst count size s1 = Ok 0 s2.
Proof.
  intros Hf Hh Hoff Hc Hp Hsz Hnb Hl Hsrc Hdst.
  destruct (tmpfs_write_eq s blocks ext node data k size nb pos src l size Hf Hh Hoff Hc Hl Hsrc)
    as (s1 & blocks' & data' & k' & E1 & Hf1 & Hh1 & Hbl & Hg1 & Hl1 & Hkeep & Ho1 & Hfit & Hkk & Hdk).
  { change (Z.of_nat (length l)) with count. lia. }
  change (Z.of_nat (length l)) with count in E1, Hf1, Hkeep, Hfit. unfold grown in Hf1.
  destruct (Z.leb_spec nb (page_of size count)) as [Hle|_]; [lia|]. cbn [fst snd] in Hf1. destruct Hdst as [[D1 D2] D3 D4].
  destruct (tmpfs_read_eq s1 blocks' ext node data' k' size nb pos dst count size) as (s2 & E2 & _); try done; try lia.
  { replace (Z.min count (size - size)) with 0 by lia. split; [done| |]; intros x X; lia. }
  replace (Z.min count (size - size)) with 0 in E2 by lia. exists s1, s2, data'. split; [done|]. split; [apply Hf1|done].
Qed.

End files.
