(* ===== verification/TmpfsWitness.v ===== *)
(** The theorems about files of the memory file system on a small state: an empty
    file whose node is at [0x9000] and whose contents are the block at [0x11130],
    a source buffer at [0x9200] and a destination at [0x9300]. *)
From S2P Require Import Prelude Machine Lock Str Layout Interfaces Pmm PmmSpec Kheap KheapSpec KheapProps KheapFree KheapWitness.
From S2P Require Import Heap KheapHeap Vector VectorSpec VectorWitness Env Vfs Tmpfs TmpfsSpec.

#[local] Existing Instance kheap_heap.
#[local] Instance small_kernel_heap : KernelHeap := kheap_heap 0x10000 0x8000.
#[local] Existing Instance stat_h.

Definition file_mem : gmap Z byte :=
  wr 8 (wr 8 (small_heap_mem ∪ zeros 0x9000 0x400) 0x9048 0x11130) 0x9200 0x1122334455667788.
Definition file_state : kstate := small_state file_mem.
Definition file_ext_regions : list (Z * Z) := [(0x9000, 216); (0x9200, 8); (0x9300, 8)].
Definition file_bytes : list byte := Z_byte <$> [0x88; 0x77; 0x66; 0x55; 0x44; 0x33; 0x22; 0x11].

Lemma file_mem_heap : has_small_heap file_mem.
Proof.
  intros x Hx. unfold file_mem. rewrite !lookup_wr_out by lia. destruct small_heap_mapped as [M1 M2].
  assert (Hs : is_Some (small_heap_mem !! x)) by (destruct Hx; [apply M2; lia|apply M1; lia]). destruct Hs as [b Hb].
  rewrite (lookup_union_Some_l _ _ x b) by exact Hb. symmetry. exact Hb.
Qed.

Lemma file_client : client_inv 0x10000 0x8000 file_state small_free vec_blocks file_ext_regions.
Proof.
  apply small_client; [apply file_mem_heap|]. intros r Hr.
  repeat (apply elem_of_cons in Hr as [->|Hr]); [simpl; lia|simpl; lia|simpl; lia|by apply elem_of_nil in Hr].
Qed.

Lemma file_in_ext a n x : (a, n) ∈ file_ext_regions -> a <= x < a + n -> in_regions (vec_blocks ++ file_ext_regions) x.
Proof. intros Hin Hx. exists (a, n). split; [apply elem_of_app; by right|done]. Qed.

(** The members of the node; the ones in [struct stat] are at computed offsets. *)
Ltac file_rd :=
  cbn [file_state small_state mem]; unfold file_mem, small_heap_mem, frame_heap_mem;
  match goal with |- rd _ _ ?a = _ => let b := eval vm_compute in a in change a with b end; mem_rd.

Lemma file_file : file file_state vec_blocks file_ext_regions 0x9000 0x11130 0xed0 0 0 0 0.
Proof.
  split; [file_rd|file_rd|file_rd|file_rd|file_rd| | |lia].
  - split; [apply elem_of_cons; by left|]. unfold FRAME_SIZE. lia.
  - intros x Hx. change sizeof_vfs_node with 216 in Hx. split; [|lia].
    apply (file_in_ext 0x9000 216); [apply elem_of_cons; by left|lia].
Qed.

Lemma file_buffer buff n :
  (buff, 8) ∈ file_ext_regions -> 0x9200 <= buff <= 0x93f8 -> 0 <= n <= 8 ->
  buffer file_state vec_blocks file_ext_regions 0x9000 0x11130 0xed0 buff n.
Proof.
  intros Hin Hb Hn. split; [lia| |].
  - intros x Hx. cbn [mem file_state small_state]. unfold file_mem. apply (mapped_wr 8 _ _ _ 0x9000 0x400); [|lia].
    apply mapped_wr. intros y Hy. apply lookup_union_is_Some. right. apply zeros_mapped. lia.
  - intros x Hx. change sizeof_vfs_node with 216. split; [|lia]. apply (file_in_ext buff 8); [done|lia].
Qed.

Lemma file_source : bytes_at (mem file_state) 0x9200 file_bytes.
Proof.
  cbn [file_state small_state mem]. unfold file_mem. generalize (wr 8 (small_heap_mem ∪ zeros 0x9000 0x400) 0x9048 0x11130). intros m.
  unfold file_bytes. cbn [fmap list_fmap].
  repeat (apply bytes_at_cons; split; [rewrite lookup_wr_in by lia; vm_compute; reflexivity|]). apply bytes_at_nil.
Qed.

(** Room for the first page: two frames, from the frame allocator. *)
Lemma file_room : heap_ready file_state vec_blocks file_ext_regions 0x1000.
Proof.
  exists small_free. split; [apply file_client|]. split; [lia|]. right. split; [repeat constructor|]. exists 2.
  assert (Hg : grow_frames 0x1000 = 2) by done. rewrite Hg.
  assert (Hb : forall g, 1 <= g < 6 -> used file_state g = used small_heap g).
  { intros g Hg'. unfold used, bit. cbn [mem file_state small_state small_heap]. change (gval _ g_bitmap) with 0x10000.
    change (gval small_heap g_bitmap) with 0x10000. replace (g / 8) with 0 by zlia. rewrite file_mem_heap by lia. reflexivity. }
  split; [|vm_compute; by split]. split; [lia|]. split; [done|]. split.
  - intros g Hg'. rewrite Hb, small_heap_used by lia. by apply Z.eqb_neq; lia.
  - intros g Hg' Hrun. assert (g = 1) as -> by lia. specialize (Hrun 1 ltac:(lia)). by rewrite Hb, small_heap_used in Hrun by lia.
Qed.

Lemma tmpfs_write_read_witness :
  exists s1 s2 blocks' data' k',
    tmpfs_write 0x9000 0x9200 8 0 file_state = Ok 8 s1 /\ tmpfs_read 0x9000 0x9300 8 0 s1 = Ok 8 s2 /\
    bytes_at (mem s2) 0x9300 file_bytes /\
    file s2 blocks' file_ext_regions 0x9000 data' k' (fst (grown 0 0 0 8)) (snd (grown 0 0 0 8)) (0 + 8) 0 /\
    heap_inv s2 blocks' file_ext_regions /\ same_globals file_state s2 /\
    (forall i, 0 <= i < 0xed0 -> ~ (0 <= i < 0 + 8) -> mem s1 !! (data' + i) = mem file_state !! (0x11130 + i)) /\
    (forall x, in_regions (vec_blocks ++ file_ext_regions) x -> ~ (0x9000 <= x < 0x9000 + sizeof_vfs_node) ->
       ~ (0x11130 <= x < 0x11130 + 0xed0) -> ~ (0x9300 <= x < 0x9300 + 8) -> mem s2 !! x = mem file_state !! x).
Proof.
  apply (tmpfs_write_read file_state vec_blocks file_ext_regions 0x9000 0x11130 0xed0 0 0 0 0x9200 0x9300 file_bytes 0).
  - apply file_file.
  - exists small_free. apply file_client.
  - lia.
  - done.
  - done.
  - lia.
  - apply file_source.
  - apply file_buffer; [do 1 (apply elem_of_cons; right); apply elem_of_cons; by left|lia|simpl; lia].
  - apply file_buffer; [do 2 (apply elem_of_cons; right); apply elem_of_cons; by left|lia|simpl; lia].
  - intros _. split; [apply file_room|vm_compute; discriminate].
  - left. vm_compute. discriminate.
Defined.

Lemma tmpfs_append_invisible_witness :
  exists s s1 s2 data', tmpfs_write 0x9000 0x9200 8 8 s = Ok 8 s1 /\
    rd 8 (mem s1) (0x9000 + node_data) = Some data' /\ bytes_at (mem s1) (data' + 8) file_bytes /\
    tmpfs_read 0x9000 0x9300 8 8 s1 = Ok 0 s2.
Proof.
  destruct (tmpfs_write_eq file_state vec_blocks file_ext_regions 0x9000 0x11130 0xed0 0 0 0 0x9200 file_bytes 0)
    as (s & blocks' & data' & k' & _ & Hf & Hh & Hbl & _ & _ & _ & Ho & Hfit & Hkk & Hdk).
  { apply file_file. } { exists small_free. apply file_client. } { lia. } { done. } { apply file_source. }
  { apply file_buffer; [do 1 (apply elem_of_cons; right); apply elem_of_cons; by left|lia|simpl; lia]. }
  { intros _. split; [apply file_room|vm_compute; discriminate]. }
  change (fst (grown 0 0 0 (Z.of_nat (length file_bytes)))) with 8 in Hf.
  change (snd (grown 0 0 0 (Z.of_nat (length file_bytes)))) with 1 in Hf.
  assert (Hsrc : buffer file_state vec_blocks file_ext_regions 0x9000 0x11130 0xed0 0x9200 8)
    by (apply file_buffer; [do 1 (apply elem_of_cons; right); apply elem_of_cons; by left|lia|lia]).
  assert (Hk : forall x, 0x9200 <= x < 0x9208 -> mem s !! x = mem file_state !! x).
  { intros x Hx. destruct (bf_own _ _ _ _ _ _ _ _ Hsrc x) as (X1 & X2 & X3); [lia|]. by apply Ho. }
  exists s. apply (tmpfs_append_invisible s blocks' file_ext_regions 0x9000 data' k' 8 1 0 0x9200 0x9300 file_bytes);
    [exact Hf|exact Hh|lia|done|done|simpl in Hfit; destruct (fl_block _ _ _ _ _ _ _ _ _ _ Hf); unfold FRAME_SIZE in *; lia|done| | |].
  - eapply bytes_at_agree; [|apply file_source]. intros x Hx. apply Hk. simpl in Hx. lia.
  - split; [simpl; lia| |].
    + intros x Hx. rewrite Hk by (simpl in Hx; lia). apply (bf_mapped _ _ _ _ _ _ _ _ Hsrc). simpl in Hx. lia.
    + intros x Hx. destruct (bf_own _ _ _ _ _ _ _ _ Hsrc x) as ((r & Hr & X1) & X2 & X3); [simpl in Hx; lia|].
      split; [|split; [done|]].
      * exists r. split; [|done]. apply elem_of_app. apply elem_of_app in Hr as [Hr|Hr]; [left; by apply Hbl|by right].
      * destruct Hdk as [[-> ->]|Hfr]; [done|]. apply Hfr. by exists r.
  - split; [lia| |]; intros x Hx; lia.
Defined.
