(* ===== verification/Acpi.v ===== *)
(** The firmware tables of [acpi/acpi.c] and [acpi/tables/madt.c], and the I/O
    interrupt controllers of [dev/apic/ioapic.c] that they describe.

    The tables are read from memory.  Members: [rsdp_descriptor_t] has [oem_id] at
    9, [revision] at 15, [rsdt_address] at 16 and [xsdt_address] at 24; a table
    header has [length] at 4 and takes 36 bytes; the entries of the MADT begin at
    44. *)
From S2P Require Import Prelude Machine Lock Str Layout Interfaces KheapSpec Heap Vector Lapic.
Import Lock.Seq.

Definition sizeof_rsdt : Z := 36.
Definition sizeof_madt : Z := 44.
Definition sizeof_madt_lapic : Z := 8.
Definition sizeof_madt_ioapic : Z := 12.
Definition sizeof_madt_iso : Z := 10.

(** The address is only read for revision 2 and later. *)
Definition use_xsdt : K bool :=
  rsdp ← gget g_rsdp;
  revision ← ld 1 (rsdp + 15);
  if 2 <=? revision then xsdt_address ← ld 8 (rsdp + 24); mret (negb (xsdt_address =? 0))
  else mret false.

Section acpi.
Context (HHDM_OFFSET : Z) `{KH : KernelHeap} (FILE : Z) (mmio_value : list event -> Z -> Z).
(** The vectors of [acpi/tables/madt.c] and the literal ["APIC"]. *)
Context (madt_lapics madt_ioapics madt_isos lit_APIC : Z).

(** The [i]-th pointer of the table: 64 bits in an XSDT, 32 bits in an RSDT. *)
Definition sdt_pointer (i : Z) : K Z :=
  rsdt ← gget g_rsdt;
  x ← use_xsdt;
  p ← (if x : bool then ld 8 (rsdt + sizeof_rsdt + 8 * i) else ld 4 (rsdt + sizeof_rsdt + 4 * i));
  mret (u64 (p + HHDM_OFFSET)).

(** One round of the search; the loop variables are [i] and [index]. *)
Definition find_sdt (signature entry_count : Z) (x : Z * Z) : K ((Z * Z) + Z) :=
  let '(i, index) := x in
  if entry_count <=? i then
    printf "Cannot find  %s" [signature] ;; mret (inr NULL)
  else
    sdt ← sdt_pointer i;
    c ← memcmp sdt signature 4;
    if negb (c =? 0) then mret (inl (i + 1, index))
    else if 0 <? index then mret (inl (i + 1, index - 1))
    else printf "Found %s at %x\n" [signature; sdt] ;; mret (inr sdt).

Definition acpi_find_sdt (signature index : Z) : K Z :=
  rsdt ← gget g_rsdt;
  length ← ld 4 (rsdt + 4);
  x ← use_xsdt;
  kloop (find_sdt signature (u64 (length - sizeof_rsdt) / (if x : bool then 8 else 4))) (0, index).

(** One entry of the MADT; the loop variable is [offset]. *)
Definition madt_entry (madt offset : Z) : K (Z + unit) :=
  length ← ld 4 (madt + 4);
  if u64 (length - sizeof_madt - offset) <? 2 then mret (inr tt)
  else
    let header := madt + sizeof_madt + offset in
    id ← ld 1 header;
    (if id =? 0 then
       apic_id ← ld 1 (header + 3); processor_id ← ld 1 (header + 2);
       printf "Found local LAPIC id: %d (%d)\n" [apic_id; processor_id] ;;
       vector_push madt_lapics header
     else if id =? 1 then
       hid ← ld 1 header;
       printf "Found IO APIC id: %d\n" [hid] ;;
       vector_push madt_ioapics header
     else if id =? 2 then
       irq_source ← ld 1 (header + 3); gsi ← ld 4 (header + 4);
       printf "Found ISO IRQ %d redirected to GSI %d\n" [irq_source; gsi] ;;
       vector_push madt_isos header
     else mret tt) ;;
    hlen ← ld 1 (header + 1);
    mret (inl (u64 (offset + MAX hlen 2))).

Definition madt_init : K unit :=
  madt ← acpi_find_sdt lit_APIC 0;
  kassert (negb (madt =? NULL)) ;;
  vector_create FILE madt_lapics sizeof_madt_lapic ;;
  vector_create FILE madt_ioapics sizeof_madt_ioapic ;;
  vector_create FILE madt_isos sizeof_madt_iso ;;
  kloop (madt_entry madt) 0.

(** [rsdp_address] is the bootloader's answer. *)
Definition acpi_init (rsdp_address : Z) : K unit :=
  kassert (negb (rsdp_address =? NULL)) ;;
  gput g_rsdp rsdp_address ;;
  x ← use_xsdt;
  rsdp ← gget g_rsdp;
  (if x : bool then a ← ld 8 (rsdp + 24); gput g_rsdt (u64 (a + HHDM_OFFSET))
   else a ← ld 4 (rsdp + 16); gput g_rsdt (u64 (a + HHDM_OFFSET))) ;;
  revision ← ld 1 (rsdp + 15);
  printf "ACPI version: %d \n" [revision] ;;
  printf "OEM ID: %s \n" [rsdp + 9] ;;
  rsdt ← gget g_rsdt;
  printf "RSDT at %x\n" [rsdt] ;;
  x ← use_xsdt;
  (if x : bool then printf "Using XSDT.\n" [] else mret tt) ;;
  madt_init.

(** * The I/O interrupt controllers *)

(** Writes to and reads from the registers of a device. *)
Definition ioapic_read (ioapic_address reg : Z) : K Z :=
  emit (EvMmio (u64 (ioapic_address + HHDM_OFFSET)) (u32 reg)) ;;
  mmio_read mmio_value (u64 (ioapic_address + HHDM_OFFSET + 0x10)).

Definition ioapic_write (ioapic_address reg data : Z) : K unit :=
  emit (EvMmio (u64 (ioapic_address + HHDM_OFFSET)) (u32 reg)) ;;
  emit (EvMmio (u64 (ioapic_address + HHDM_OFFSET + 0x10)) data).

Definition ioapic_gsi_count (ioapic : Z) : K Z :=
  address ← ld 4 (ioapic + 4);
  v ← ioapic_read address 1;
  mret (Z.shiftr (Z.land v 0xff0000) 16).

Definition gsi_search (gsi i : Z) : K (Z + Z) :=
  items ← ld 8 madt_ioapics;
  if items <=? i then
    printf "Cannot find an IOAPIC from the given GSI\n" [] ;; halt
  else
    io_apic ← vector_get madt_ioapics i;
    gsib ← ld 4 (io_apic + 8);
    found ← (if gsib <=? gsi
             then gsib ← ld 4 (io_apic + 8); count ← ioapic_gsi_count io_apic; mret (gsi <? u64 (gsib + count))
             else mret false);
    if found : bool then mret (inr io_apic) else mret (inl (i + 1)).
Definition ioapic_from_gsi (gsi : Z) : K Z := kloop (gsi_search gsi) 0.

Definition ioapic_redirect_gsi (lapic_id gsi vector flags : Z) : K unit :=
  let ioredtbl_data := Z.lor (Z.lor (u64 (Z.shiftl lapic_id 56)) vector) flags in
  ioapic ← ioapic_from_gsi gsi;
  gsib ← ld 4 (ioapic + 8);
  let ioredtbl := u32 (u32 (u32 (gsi - gsib) * 2) + 0x10) in
  address ← ld 4 (ioapic + 4);
  ioapic_write address ioredtbl (u32 ioredtbl_data) ;;
  address ← ld 4 (ioapic + 4);
  ioapic_write address (u64 (ioredtbl + 1)) (u32 (Z.shiftr ioredtbl_data 32)).

(** The search for an override of the interrupt; [inr] is the override, if any. *)
Definition iso_search (irq i : Z) : K (Z + option Z) :=
  items ← ld 8 madt_isos;
  if items <=? i then mret (inr None)
  else
    iso ← vector_get madt_isos i;
    irq_source ← ld 1 (iso + 3);
    if irq_source =? irq then mret (inr (Some iso)) else mret (inl (i + 1)).

(** The flags of the override are combined with the entry as they are. *)
Definition ioapic_redirect_irq (lapic_id irq vector flags : Z) : K unit :=
  r ← kloop (iso_search irq) 0;
  match r with
  | Some iso =>
      gsi ← ld 4 (iso + 4);
      iso_flags ← ld 2 (iso + 8);
      ioapic_redirect_gsi lapic_id gsi vector (Z.lor iso_flags flags)
  | None => ioapic_redirect_gsi lapic_id irq vector flags
  end.

End acpi.
