(* ===== verification/AcpiSpec.v ===== *)
(** The search for a firmware table, against a reference definition. *)
From S2P Require Import Prelude Machine Lock Str Layout Interfaces KheapSpec Heap Vector Lapic Acpi.

(** The [index]-th table with the signature, of the tables with their signatures in
    the order of the list. *)
Definition nth_table (sig : list byte) (index : nat) (ts : list (Z * list byte)) : Z :=
  default NULL (fst <$> filter (fun t => snd t = sig) ts !! index).

Section acpi_proofs.
Context (HHDM_OFFSET : Z).
Implicit Types (s : kstate) (sig : list byte) (ts : list (Z * list byte)).

(** The root table lists the tables [ts] (their addresses in the direct map, and the
    signatures they begin with); [x] tells an XSDT from an RSDT. *)
Record root_table s (x : bool) ts : Prop := {
  rt_rsdp : exists revision xsdt, rd 1 (mem s) (gval s g_rsdp + 15) = Some revision /\ rd 8 (mem s) (gval s g_rsdp + 24) = Some xsdt /\
              x = (2 <=? revision) && negb (xsdt =? 0);
  rt_length : rd 4 (mem s) (gval s g_rsdt + 4) = Some (sizeof_rsdt + (if x then 8 else 4) * Z.of_nat (length ts));
  rt_entry i t : ts !! i = Some t -> exists p, (if x then rd 8 (mem s) (gval s g_rsdt + sizeof_rsdt + 8 * Z.of_nat i)
                                              else rd 4 (mem s) (gval s g_rsdt + sizeof_rsdt + 4 * Z.of_nat i)) = Some p /\
                                   fst t = u64 (p + HHDM_OFFSET) /\ bytes_at (mem s) (fst t) (snd t) /\ length (snd t) = 4%nat
}.

Lemma use_xsdt_eq s x ts : root_table s x ts -> use_xsdt s = Ok x s.
Proof.
  intros Hr. destruct (rt_rsdp _ _ _ Hr) as (rev & xa & R1 & R2 & ->). unfold use_xsdt.
  rewrite (bind_Ok _ _ s (gval s g_rsdp) s) by done. rewrite (ld_then 1 _ _ _ _ R1). destruct (2 <=? rev); [|done].
  by rewrite (ld_then 8 _ _ _ _ R2).
Qed.

Lemma sdt_pointer_eq s x ts i t :
  root_table s x ts -> ts !! i = Some t -> sdt_pointer HHDM_OFFSET (Z.of_nat i) s = Ok (fst t) s.
Proof.
  intros Hr Ht. destruct (rt_entry _ _ _ Hr i t Ht) as (p & Hp & E & _). unfold sdt_pointer.
  rewrite (bind_Ok _ _ s (gval s g_rsdt) s) by done. rewrite (bind_Ok _ _ _ _ _ (use_xsdt_eq _ _ _ Hr)).
  rewrite (bind_Ok _ _ s p s); [by rewrite E|]. by destruct x; apply ld_ok.
Qed.

(** The last message of the search. *)
Definition search_event (sigp r : Z) : event :=
  if r =? NULL then EvPrintf "Cannot find  %s" [sigp] else EvPrintf "Found %s at %x\n" [sigp; r].

Lemma find_sdt_runs s x ts sigp sig rest pre index :
  root_table s x ts -> bytes_at (mem s) sigp sig -> length sig = 4%nat -> ts = pre ++ rest ->
  (forall t, t ∈ ts -> fst t <> NULL) ->
  exists j, (j <= S (length rest))%nat /\
    runs (find_sdt HHDM_OFFSET sigp (Z.of_nat (length ts))) j (Z.of_nat (length pre), Z.of_nat index) s
      (nth_table sig index rest)
      (KState (mem s) (glob s) (trace s ++ [search_event sigp (nth_table sig index rest)])).
Proof.
  intros Hr Hb Hs. revert pre index. induction rest as [|t rest IH]; intros pre index -> Hnz.
  - exists 1%nat. split; [lia|]. constructor. unfold find_sdt. rewrite app_nil_r, Z.leb_refl. done.
  - assert (Ht : (pre ++ t :: rest) !! length pre = Some t) by (rewrite lookup_app_r, Nat.sub_diag by lia; done).
    destruct (rt_entry _ _ _ Hr _ _ Ht) as (p & _ & _ & Htb & Htl).
    assert (Hstep : find_sdt HHDM_OFFSET sigp (Z.of_nat (length (pre ++ t :: rest))) (Z.of_nat (length pre), Z.of_nat index) s =
      if decide (snd t = sig) then
        if 0 <? Z.of_nat index then Ok (inl (Z.of_nat (length pre) + 1, Z.of_nat index - 1)) s
        else Ok (inr (fst t)) (KState (mem s) (glob s) (trace s ++ [EvPrintf "Found %s at %x\n" [sigp; fst t]]))
      else Ok (inl (Z.of_nat (length pre) + 1, Z.of_nat index)) s).
    { unfold find_sdt. destruct (Z.leb_spec (Z.of_nat (length (pre ++ t :: rest))) (Z.of_nat (length pre))) as [Hle|_];
        [rewrite length_app in Hle; simpl in Hle; lia|].
      rewrite (bind_Ok _ _ _ _ _ (sdt_pointer_eq _ _ _ _ _ Hr Ht)).
      pose proof (memcmp_eq s (fst t) sigp (snd t) sig Htb Hb ltac:(by rewrite Htl, Hs)) as Em. rewrite Htl in Em.
      rewrite (bind_Ok _ _ _ _ _ Em). pose proof (lex_0 (snd t) sig ltac:(by rewrite Htl, Hs)) as Hlex.
      destruct (Z.eqb_spec (lex (snd t) sig) 0) as [E|E]; case_decide; try tauto. cbn [negb]. by destruct (0 <? Z.of_nat index). }
    assert (Hi : Z.of_nat (length pre) + 1 = Z.of_nat (length (pre ++ [t]))) by (rewrite length_app; simpl; lia).
    assert (Hl : pre ++ t :: rest = (pre ++ [t]) ++ rest) by (by rewrite <- app_assoc).
    unfold nth_table. case_decide as Hd.
    + rewrite filter_cons_True by done. destruct index as [|index].
      * exists 1%nat. split; [lia|]. constructor. rewrite Hstep. simpl. unfold search_event.
        destruct (Z.eqb_spec (fst t) NULL) as [E|_]; [|done]. exfalso. eapply Hnz; [|exact E]. apply elem_of_app. right. apply elem_of_cons. by left.
      * destruct (IH (pre ++ [t]) index Hl) as (j & Hj & Hrun); [done|]. exists (S j). split; [simpl; lia|].
        eapply runs_next; [rewrite Hstep; destruct (Z.ltb_spec 0 (Z.of_nat (S index))); [reflexivity|lia]|].
        rewrite Hi. replace (Z.of_nat (S index) - 1) with (Z.of_nat index) by lia. exact Hrun.
    + rewrite filter_cons_False by done. destruct (IH (pre ++ [t]) index Hl) as (j & Hj & Hrun); [done|].
      exists (S j). split; [simpl; lia|]. eapply runs_next; [exact Hstep|]. rewrite Hi. exact Hrun.
Qed.

(** C31: [acpi_find_sdt] agrees with the reference definition: it returns the
    [index]-th table of the root table with the given signature, and a null pointer
    when there are not that many, for an RSDT of 32-bit as for an XSDT of 64-bit
    pointers; it changes nothing but the log. *)
Theorem acpi_find_sdt_nth s x ts sigp sig index :
  root_table s x ts -> bytes_at (mem s) sigp sig -> length sig = 4%nat -> (forall t, t ∈ ts -> fst t <> NULL) ->
  acpi_find_sdt HHDM_OFFSET sigp (Z.of_nat index) s =
    Ok (nth_table sig index ts) (KState (mem s) (glob s) (trace s ++ [search_event sigp (nth_table sig index ts)])).
Proof.
  intros Hr Hb Hs Hnz. unfold acpi_find_sdt. rewrite (bind_Ok _ _ s (gval s g_rsdt) s) by done.
  rewrite (ld_then 4 _ _ _ _ (rt_length _ _ _ Hr)). rewrite (bind_Ok _ _ _ _ _ (use_xsdt_eq _ _ _ Hr)).
  pose proof (rd_range _ _ _ _ (rt_length _ _ _ Hr)) as Hrange. change (2 ^ (8 * Z.of_nat 4)) with (2 ^ 32) in Hrange. unfold sizeof_rsdt in *.
  replace (u64 (36 + (if x then 8 else 4) * Z.of_nat (length ts) - 36) / (if x then 8 else 4)) with (Z.of_nat (length ts)).
  2:{ rewrite u64_small by (destruct x; lia). destruct x; zlia. }
  destruct (find_sdt_runs s x ts sigp sig ts [] index Hr Hb Hs eq_refl Hnz) as (j & Hj & Hrun).
  apply (kloop_runs _ j); [exact Hrun|]. destruct x; lia.
Qed.

End acpi_proofs.

(** An RSDT at 0x100 with two tables, at 0x200 and 0x300. *)
Definition acpi_state : kstate :=
  let m := zeros 0x40 (Z.to_nat 0x300) in
  let m := wr 4 (wr 4 (wr 4 m 0x104 44) 0x124 0x200) 0x128 0x300 in
  let m := put_bytes m 0x200 [Byte.x46; Byte.x41; Byte.x43; Byte.x50] in
  let m := put_bytes m 0x300 [Byte.x41; Byte.x50; Byte.x49; Byte.x43] in
  KState (put_bytes m 0x40 [Byte.x41; Byte.x50; Byte.x49; Byte.x43]) {[ g_rsdp := 0x60; g_rsdt := 0x100 ]} [].

Lemma acpi_find_sdt_nth_witness :
  acpi_find_sdt 0 0x40 0 acpi_state =
    Ok 0x300 (KState (mem acpi_state) (glob acpi_state) (trace acpi_state ++ [EvPrintf "Found %s at %x\n" [0x40; 0x300]])).
Proof.
  apply (acpi_find_sdt_nth 0 acpi_state false
    [(0x200, [Byte.x46; Byte.x41; Byte.x43; Byte.x50]); (0x300, [Byte.x41; Byte.x50; Byte.x49; Byte.x43])]
    0x40 [Byte.x41; Byte.x50; Byte.x49; Byte.x43] 0).
  - split.
    + exists 0, 0. split; [vm_compute; reflexivity|]. split; [vm_compute; reflexivity|done].
    + vm_compute. reflexivity.
    + intros [|[|i]] t Ht; [| |done]; injection Ht as <-.
      * exists 0x200. split; [vm_compute; reflexivity|]. split; [done|]. split; [|done].
        repeat (apply bytes_at_cons; split; [vm_compute; reflexivity|]). apply bytes_at_nil.
      * exists 0x300. split; [vm_compute; reflexivity|]. split; [done|]. split; [|done].
        repeat (apply bytes_at_cons; split; [vm_compute; reflexivity|]). apply bytes_at_nil.
  - repeat (apply bytes_at_cons; split; [vm_compute; reflexivity|]). apply bytes_at_nil.
  - done.
  - intros t Ht. repeat (apply elem_of_cons in Ht as [->|Ht]; [done|]). by apply elem_of_nil in Ht.
Defined.
