(* ===== verification/Drivers.v ===== *)
(** The remaining drivers: the start of the interval timer of [dev/pit.c], the
    keyboard of [dev/ps2/ps2.c] and [dev/ps2/ps2kb.c], and the frame buffer of
    [dev/fb.c]. *)
From S2P Require Import Prelude Machine Lock Str Layout Interfaces KheapSpec Heap Vector Lapic Acpi.

(** [static const char keymap[]]: 58 characters. *)
Definition keymap : list Z :=
  [0; 27; 49; 50; 51; 52; 53; 54; 55; 56; 57; 48;
   45; 61; 8; 9; 113; 119; 101; 114; 116; 121; 117; 105;
   111; 112; 91; 93; 10; 0; 97; 115; 100; 102; 103; 104;
   106; 107; 108; 59; 39; 96; 0; 92; 122; 120; 99; 118;
   98; 110; 109; 44; 46; 47; 0; 0; 0; 32].

Section drivers.
Context (HHDM_OFFSET : Z) `{KH : KernelHeap} (mmio_value port_value : list event -> Z -> Z).
Context (madt_ioapics madt_isos isr pit_ptr ps2kb_handler_ptr : Z).

Local Abbreviation inb := (inb port_value).
Local Abbreviation redirect_irq := (ioapic_redirect_irq HHDM_OFFSET mmio_value madt_ioapics madt_isos).

Definition pit_init : K unit :=
  st 8 (isr + 8 * 32) pit_ptr ;;
  redirect_irq 0 0 32 0 ;;
  pit_set_reload_value pit_divisor ;;
  printf "PIT initialized.\n" [].

(** The busy wait of [sleep]: [ticks] is advanced by the timer interrupt. *)
Definition sleep_wait (etick : Z) (_ : unit) : K (unit + unit) :=
  ticks ← gget g_ticks;
  mret (if ticks <? etick then inl tt else inr tt).
Definition sleep (ms : Z) : K unit :=
  ticks ← gget g_ticks;
  kloop (sleep_wait (u64 (ticks + ms))) tt.

Definition ps2_read_wait (_ : unit) : K (unit + unit) :=
  status ← inb 0x64;
  mret (if Z.land status 1 =? 0 then inl tt else inr tt).
Definition ps2_read : K Z :=
  kloop ps2_read_wait tt ;;
  inb 0x60.

Definition ps2_write_wait (_ : unit) : K (unit + unit) :=
  status ← inb 0x64;
  mret (if negb (Z.land status 2 =? 0) then inl tt else inr tt).
Definition ps2_write (port value : Z) : K unit :=
  kloop ps2_write_wait tt ;;
  outb port value.

(** [c] is printed as a string of one character; an index behind the table is
    out of bounds. *)
Definition ps2kb_handler : K unit :=
  scancode ← ps2_read;
  (if scancode <? 0x57 then
     match keymap !! Z.to_nat scancode with
     | Some c => printf "%s" [c]
     | None => fault
     end
   else mret tt) ;;
  lapic_eoi HHDM_OFFSET.

Definition ps2kb_init : K unit :=
  st 8 (isr + 8 * 33) ps2kb_handler_ptr ;;
  redirect_irq 0 1 33 0 ;;
  inb 0x60 ;;
  mret tt.

Definition ps2_init : K unit :=
  ps2_write 0x64 0xad ;;
  ps2_write 0x64 0xa7 ;;
  inb 0x60 ;;
  ps2_write 0x64 0x20 ;;
  ps2_write 0x64 0xae ;;
  ps2kb_init.

(** The members of the bootloader's frame buffer. *)
Record framebuffer := Framebuffer { fb_base : Z; fb_width : Z; fb_height : Z; fb_pitch : Z; fb_bpp : Z }.
Context (fb : framebuffer).

Definition fb_address : Z := fb_base fb.

Definition fb_info : K unit :=
  printf "Our frame buffer is at virtual address: %x\n" [fb_address] ;;
  printf "Resolution: %dx%d\n" [fb_width fb; fb_height fb] ;;
  printf "Depth: %d\n" [fb_bpp fb] ;;
  printf "\n" [].

(** [where] is an [unsigned]. *)
Definition plot_pixel (screen x y colour : Z) : K unit :=
  let where_ := u32 (x * (fb_bpp fb / 8) + y * fb_pitch fb) in
  st 1 (screen + where_) (Z.land colour 255) ;;
  st 1 (screen + u32 (where_ + 1)) (Z.land (Z.shiftr colour 8) 255) ;;
  st 1 (screen + u32 (where_ + 2)) (Z.land (Z.shiftr colour 16) 255).

Definition fb_colour_background : K unit :=
  kfor 0 (fb_width fb) (fun x =>
    kfor 0 (fb_height fb) (fun y => plot_pixel fb_address x y 0x8c4c4c)).

End drivers.
