(* ===== verification/Syscalls.v ===== *)
(** The system calls of [sys/syscalls/syscalls.c]; [Asm] has the code that calls
    them. *)
From S2P Require Import Prelude Machine Lock Str Layout Interfaces PageTable Vmm Pmm KheapSpec Heap Vector Hashmap Lapic Sched Smp Stdio Env Vfs Tmpfs VfsOps.
Import Lock.Seq.

Definition USER_SPACE_END : Z := 0x00007FFFFFFFFFFF.

(** A sum of type [off_t]: outside its range it is undefined. *)
Definition off_add (a b : Z) : K Z :=
  if (- 2 ^ 63 <=? a + b) && (a + b <? 2 ^ 63) then mret (a + b) else fault.

Section syscalls.
Context (HHDM_OFFSET : Z) `{FA : !FrameAllocator HHDM_OFFSET} `{KH : KernelHeap} (heap_free : Z -> K unit) `{LC : LibC} (im : image).
(** [printf], with the arguments that [va_arg] reads. *)
Context (kprintf : Z -> list Z -> K unit).

Definition syscall_set_fs_base (pointer : Z) : K Z :=
  set_fs_base pointer ;; mret 0.

(** The node is used without a test for a null pointer. *)
Definition syscall_seek (fd offset whence : Z) : K Z :=
  node ← fd_to_node fd;
  new_off ← (if whence =? SEEK_SET then mret (Some offset)
             else if whence =? SEEK_CUR then pos ← ld 4 (node + node_offset); o ← off_add (s32 pos) offset; mret (Some o)
             else if whence =? SEEK_END then size ← ld 8 (node + node_st + off_st_size); o ← off_add (s64 size) offset; mret (Some o)
             else mret None);
  match new_off with
  | None => set_errno EINVAL ;; mret (-1)
  | Some new_off =>
      if new_off <? 0 then set_errno EINVAL ;; mret (-1)
      else st 4 (node + node_offset) (u32 new_off) ;; mret new_off
  end.

Definition syscall_read (fd buf count : Z) : K Z :=
  node ← fd_to_node fd;
  if node =? NULL then set_errno ENOENT ;; mret (-1)
  else
    pos ← ld 4 (node + node_offset);
    vfs_read im node buf count (u64 (s32 pos)).

(** The path that is created is the address of the function [basename]. *)
Definition syscall_openat (dirfd pathname flags mode : Z) : K Z :=
  dir ← fd_to_node dirfd;
  node ← vfs_open heap_free im dir pathname;
  if negb (node =? NULL) then node_to_fd node
  else if Z.land flags O_CREAT =? 0 then set_errno ENOENT ;; mret (-1)
  else
    parent ← path_to_parent heap_free im dir pathname;
    if parent =? NULL then set_errno ENOENT ;; mret (-1)
    else
      new_pathname ← strdup pathname;
      if new_pathname =? NULL then set_errno ENOMEM ;; mret (-1)
      else
        node ← vfs_create heap_free im parent (sym_basename im) S_IFREG;
        node_to_fd node.

(** Where an anonymous mapping goes; [None] is an invalid request. *)
Definition mmap_address (proc hint length flags pages : Z) : K (option Z) :=
  if negb (Z.land flags MAP_FIXED =? 0) then
    if (USER_SPACE_END <? hint) || (length =? 0) || (hint =? NULL) then set_errno EINVAL ;; mret None
    else mret (Some hint)
  else
    virt ← ld 8 (proc + process_anon_base);
    base ← ld 8 (proc + process_anon_base);
    st 8 (proc + process_anon_base) (u64 (base + u64 (pages * FRAME_SIZE))) ;;
    mret (Some virt).

Definition syscall_mmap (hint length prot flags fd offset : Z) : K Z :=
  thread ← get_current_thread;
  proc ← ld 8 (thread + thread_process);
  if Z.land flags MAP_ANON =? 0 then printf "Not implemented.\n" [] ;; mret MAP_FAILED
  else
    let pages := ALIGN_UP length FRAME_SIZE / FRAME_SIZE in
    virt ← mmap_address proc hint length flags pages;
    match virt with
    | None => mret MAP_FAILED
    | Some virt =>
        phys ← frame_calloc pages;
        if phys =? NULL then mret MAP_FAILED
        else
          pagemap ← ld 8 (proc + process_pagemap);
          vmm_map_pages HHDM_OFFSET pagemap phys virt
            (Z.lor (Z.lor (Z.lor (u64 prot) PTE_PRESENT) PTE_WRITABLE) PTE_USER) pages ;;
          mret virt
    end.

(** The string of the caller is the format. *)
Definition syscall_log (str : Z) : K unit := kprintf str [].

Definition syscall_exit_thread : K unit := dequeue_and_die HHDM_OFFSET heap_free.

End syscalls.
