(* ===== verification/SyscallsSpec.v ===== *)
(** The outcomes of [lseek]: the new position, the errors, and the overflow. *)
From S2P Require Import Prelude Machine Lock Str Layout Interfaces KheapSpec Heap Vector Lapic Sched Env Vfs Syscalls.

Section seek.
Context `{LC : LibC}.
Implicit Types (s : kstate).

(** The position a call asks for, from the current position and the file's size. *)
Definition seek_target (whence offset pos size : Z) : option Z :=
  if whence =? SEEK_SET then Some offset
  else if whence =? SEEK_CUR then Some (pos + offset)
  else if whence =? SEEK_END then Some (size + offset)
  else None.

(** A failed call: -1, and [errno] is [EINVAL]; nothing else changes. *)
Definition seek_fails s thread (o : outcome Z) : Prop :=
  exists s', o = Ok (-1) s' /\ rd 4 (mem s') (thread + thread_errno) = Some (u32 EINVAL) /\
    same_outside (thread + thread_errno) 4 (mem s) (mem s') /\ same_globals s s'.

(** A successful one: the position is stored, in 32 bits, and nothing else changes. *)
Definition seek_stores s node (target : Z) (o : outcome Z) : Prop :=
  exists s', o = Ok target s' /\ rd 4 (mem s') (node + node_offset) = Some (u32 target) /\
    same_outside (node + node_offset) 4 (mem s) (mem s') /\ same_globals s s'.

Lemma current_thread_eq s cpu thread :
  gval s g_gs_base = cpu -> rd 8 (mem s) (cpu + cpu_current_thread) = Some thread -> get_current_thread s = Ok thread s.
Proof.
  intros Hc Hr. unfold get_current_thread, this_cpu. rewrite (bind_Ok _ _ s cpu s) by (unfold gget; by rewrite Hc).
  by apply (ld_ok 8).
Qed.

Lemma fd_to_node_cwd s thread process node :
  get_current_thread s = Ok thread s -> rd 8 (mem s) (thread + thread_process) = Some process ->
  rd 8 (mem s) (process + process_cwd) = Some node -> node <> NULL -> fd_to_node AT_FDCWD s = Ok node s.
Proof.
  intros Ht Hp Hn Hne. unfold fd_to_node. rewrite (bind_Ok _ _ _ _ _ Ht), (bind_Ok _ _ _ _ _ (ld_ok 8 _ _ _ Hp)).
  rewrite Z.eqb_refl, (bind_Ok _ _ _ _ _ (ld_ok 8 _ _ _ Hn)), (proj2 (Z.eqb_neq _ _) Hne). done.
Qed.

Lemma set_errno_eq s thread e :
  get_current_thread s = Ok thread s -> mapped (mem s) (thread + thread_errno) 4 ->
  set_errno e s = Ok tt (with_mem s (wr 4 (mem s) (thread + thread_errno) (u32 e))).
Proof. intros Ht Hm. unfold set_errno. rewrite (bind_Ok _ _ _ _ _ Ht). by apply st_ok. Qed.

Lemma rd_wr4_u32 m a x : rd 4 (wr 4 m a (u32 x)) a = Some (u32 x).
Proof. rewrite rd_wr_same. f_equal. apply Z.mod_mod. done. Qed.

Lemma seek_fails_eq s thread :
  get_current_thread s = Ok thread s -> mapped (mem s) (thread + thread_errno) 4 ->
  seek_fails s thread ((set_errno EINVAL ;; mret (-1)) s).
Proof.
  intros Ht Hm. eexists. rewrite (bind_Ok _ _ _ _ _ (set_errno_eq _ _ EINVAL Ht Hm)).
  split; [reflexivity|]. split; [apply rd_wr4_u32|]. split; [|done]. by apply (same_outside_wr 4).
Qed.

Lemma seek_stores_eq s node target :
  mapped (mem s) (node + node_offset) 4 ->
  seek_stores s node target ((st 4 (node + node_offset) (u32 target) ;; mret target) s).
Proof.
  intros Hm. eexists. rewrite (bind_Ok _ _ _ _ _ (st_ok 4 _ (u32 target) _ Hm)).
  split; [reflexivity|]. split; [apply rd_wr4_u32|]. split; [|done]. by apply (same_outside_wr 4).
Qed.

(** The end of the call, from a target of type [off_t]. *)
Definition seek_finish (node target : Z) : K Z :=
  if target <? 0 then set_errno EINVAL ;; mret (-1)
  else st 4 (node + node_offset) (u32 target) ;; mret target.

Lemma seek_finish_eq s thread node target :
  get_current_thread s = Ok thread s -> mapped (mem s) (thread + thread_errno) 4 -> mapped (mem s) (node + node_offset) 4 ->
  if decide (target < 0) then seek_fails s thread (seek_finish node target s)
  else seek_stores s node target (seek_finish node target s).
Proof.
  intros Ht He Hn. unfold seek_finish. destruct (decide (target < 0)).
  - rewrite (proj2 (Z.ltb_lt target 0)) by done. by apply seek_fails_eq.
  - rewrite (proj2 (Z.ltb_ge target 0)) by lia. by apply seek_stores_eq.
Qed.

(** A position relative to a member of the node. *)
Lemma seek_sum_eq s n a x (f : Z -> Z) offset :
  rd n (mem s) a = Some x ->
  (p ← ld n a; o ← off_add (f p) offset; mret (Some o)) s =
    if decide (f x + offset < - 2 ^ 63 \/ 2 ^ 63 <= f x + offset) then Fault else Ok (Some (f x + offset)) s.
Proof.
  intros Hx. rewrite (bind_Ok _ _ _ _ _ (ld_ok n _ _ _ Hx)). unfold off_add. destruct (decide _) as [Hr|Hr].
  - destruct (Z.leb_spec (- 2 ^ 63) (f x + offset)), (Z.ltb_spec (f x + offset) (2 ^ 63)); simpl; (done || lia).
  - by rewrite (proj2 (Z.leb_le _ _)), (proj2 (Z.ltb_lt _ _)) by lia.
Qed.

End seek.

(** C32: [lseek] on an open descriptor has three outcomes.  An unknown [whence] or a
    negative target fails with [EINVAL] and leaves the position of the node; a target
    that fits 63 bits is returned, and the node keeps its low 32 bits, so that a
    position from [2^31] on is lost; a sum that overflows [off_t] is undefined.
    Nothing but [errno] or the position of the node changes. *)
Theorem syscall_seek_outcome `{LC : LibC} s s1 fd offset whence node thread pos size
    (target := seek_target whence offset (s32 pos) (s64 size)) :
  fd_to_node fd s = Ok node s1 -> get_current_thread s1 = Ok thread s1 ->
  mapped (mem s1) (thread + thread_errno) 4 -> - 2 ^ 63 <= offset < 2 ^ 63 ->
  rd 4 (mem s1) (node + node_offset) = Some pos -> rd 8 (mem s1) (node + node_st + off_st_size) = Some size ->
  match target with
  | None => seek_fails s1 thread (syscall_seek fd offset whence s)
  | Some o =>
      if decide (o < - 2 ^ 63 \/ 2 ^ 63 <= o) then syscall_seek fd offset whence s = Fault
      else if decide (o < 0) then seek_fails s1 thread (syscall_seek fd offset whence s)
      else seek_stores s1 node o (syscall_seek fd offset whence s)
  end.
Proof.
  intros Hfd Ht He Ho Hp Hs. unfold target, seek_target, syscall_seek. rewrite (bind_Ok _ _ _ _ _ Hfd).
  pose proof (seek_finish_eq s1 thread node) as Hend. assert (Hn : mapped (mem s1) (node + node_offset) 4) by by apply (rd_Some_mapped 4) in Hp.
  pose proof (seek_sum_eq s1 4 _ _ s32 offset Hp) as Hcur. pose proof (seek_sum_eq s1 8 _ _ s64 offset Hs) as Hsz.
  destruct (whence =? SEEK_SET); [|destruct (whence =? SEEK_CUR); [|destruct (whence =? SEEK_END)]].
  - rewrite (bind_Ok _ _ s1 (Some offset) s1) by done. rewrite decide_False by lia. by apply Hend.
  - destruct (decide (s32 pos + offset < _ \/ _)); [by unfold mbind at 1, K_bind at 1; rewrite Hcur|].
    rewrite (bind_Ok _ _ _ _ _ Hcur). by apply Hend.
  - destruct (decide (s64 size + offset < _ \/ _)); [by unfold mbind at 1, K_bind at 1; rewrite Hsz|].
    rewrite (bind_Ok _ _ _ _ _ Hsz). by apply Hend.
  - rewrite (bind_Ok _ _ s1 None s1) by done. by apply seek_fails_eq.
Qed.

#[local] Existing Instance stat_h.

(** A core at [0x100], its thread at [0x200] of the process at [0x300], whose working
    directory is the node at [0x400] with 100 bytes. *)
Definition seek_machine : kstate :=
  let m := wr 8 (wr 8 (wr 8 (zeros 0x100 (Z.to_nat 0x500)) 0x108 0x200) 0x230 0x300) 0x318 0x400 in
  KState (wr 8 m (0x400 + node_st + off_st_size) 100) {[ g_gs_base := 0x100 ]} [].

Lemma syscall_seek_outcome_witness :
  seek_stores seek_machine 0x400 105 (syscall_seek AT_FDCWD 5 SEEK_END seek_machine) /\
  seek_fails seek_machine 0x200 (syscall_seek AT_FDCWD (-101) SEEK_END seek_machine).
Proof.
  assert (Hm : mapped (mem seek_machine) (0x200 + thread_errno) 4).
  { apply (rd_mapped 4). exists 0. vm_compute. reflexivity. }
  assert (Ht : get_current_thread seek_machine = Ok 0x200 seek_machine).
  { apply (current_thread_eq _ 0x100); [done|vm_compute; reflexivity]. }
  assert (Hfd : fd_to_node AT_FDCWD seek_machine = Ok 0x400 seek_machine).
  { apply (fd_to_node_cwd _ 0x200 0x300); [done|vm_compute; reflexivity|vm_compute; reflexivity|done]. }
  assert (Hp : rd 4 (mem seek_machine) (0x400 + node_offset) = Some 0) by (vm_compute; reflexivity).
  assert (Hs : rd 8 (mem seek_machine) (0x400 + node_st + off_st_size) = Some 100) by (vm_compute; reflexivity).
  split.
  - assert (E : seek_target SEEK_END 5 (s32 0) (s64 100) = Some 105) by (vm_compute; reflexivity).
    pose proof (syscall_seek_outcome _ _ _ 5 SEEK_END _ _ _ _ Hfd Ht Hm ltac:(lia) Hp Hs) as H. cbv zeta in H.
    rewrite E in H. rewrite !decide_False in H by lia. exact H.
  - assert (E : seek_target SEEK_END (-101) (s32 0) (s64 100) = Some (-1)) by (vm_compute; reflexivity).
    pose proof (syscall_seek_outcome _ _ _ (-101) SEEK_END _ _ _ _ Hfd Ht Hm ltac:(lia) Hp Hs) as H. cbv zeta in H.
    rewrite E in H. rewrite decide_False, decide_True in H by lia. exact H.
Defined.
