(* ===== verification/Initramfs.v ===== *)
(** The unpacking of the boot archive in [fs/initramfs.c].

    A [struct tar_header] has [filename] at 0, [mode] at 100 (8 bytes), [size] at
    124 (12 bytes), [typeflag] at 156 and [magic] at 257. *)
From S2P Require Import Prelude Machine Lock Str Layout Interfaces Pmm KheapSpec Heap Vector Hashmap Lapic Sched Env Vfs Tmpfs VfsOps.

Abbreviation tar_filename := 0 (only parsing).
Abbreviation tar_mode := 100 (only parsing).
Abbreviation tar_size := 124 (only parsing).
Abbreviation tar_typeflag := 156 (only parsing).
Abbreviation tar_magic := 257 (only parsing).
Definition TAR_FILE_TYPE_NORMAL : Z := 48.
Definition TAR_FILE_TYPE_DIRECTORY : Z := 53.

(** A plain [char] is signed. *)
Definition s8 (c : Z) : Z := (c + 128) mod 256 - 128.

(** The character is read before [len] is tested. *)
Fixpoint oct2int_loop (len : nat) (str value : Z) : K Z :=
  c ← ld 1 str;
  if c =? 0 then mret value
  else match len with
       | O => mret value
       | S len' => oct2int_loop len' (str + 1) (u64 (u64 (value * 8) + (s8 c - 48)))
       end.
Definition oct2int (str len : Z) : K Z := oct2int_loop (Z.to_nat len) str 0.

Section initramfs.
Context (HHDM_OFFSET : Z) `{KH : KernelHeap} (heap_free : Z -> K unit) `{LC : LibC} (im : image).

(** The file or directory of one header. *)
Definition tar_unpack (current_file size name : Z) : K unit :=
  typeflag ← ld 1 (current_file + tar_typeflag);
  root ← gget g_root;
  if typeflag =? TAR_FILE_TYPE_NORMAL then
    node ← vfs_create heap_free im root name S_IFREG;
    kassert (negb (node =? NULL)) ;;
    fs ← ld 8 (node + node_fs);
    fp ← ld 8 (fs + fs_write);
    n ← call_write im fp node (u64 (current_file + 512)) size 0;
    kassert (n =? s32 size)
  else if typeflag =? TAR_FILE_TYPE_DIRECTORY then
    node ← vfs_create heap_free im root name S_IFDIR;
    kassert (negb (node =? NULL))
  else mret tt.

(** One header of the archive; its frames are freed behind it. *)
Definition tar_entry (current_file : Z) : K (Z + unit) :=
  c ← memcmp (current_file + tar_magic) (lit_ustar im) 5;
  if negb (c =? 0) then mret (inr tt)
  else
    size ← oct2int (current_file + tar_size) 12;
    mode ← oct2int (current_file + tar_mode) 8;
    tar_unpack current_file size (current_file + tar_filename) ;;
    pmm_free (u64 (current_file - HHDM_OFFSET)) (u64 (512 + ALIGN_UP size 512) / FRAME_SIZE) ;;
    mret (inl (u64 (current_file + 512 + ALIGN_UP size 512))).

(** The bootloader's modules: their number, and the address of the first one. *)
Definition initramfs_init (modules : option (Z * Z)) : K unit :=
  match modules with
  | None => kassert false
  | Some (module_count, address) =>
      if module_count =? 0 then kassert false
      else kloop tar_entry address
  end.

End initramfs.
