(* ===== verification/InitramfsSpec.v ===== *)
(** The numbers of the archive headers. *)
From S2P Require Import Prelude Machine Lock Str Layout Interfaces Pmm KheapSpec Heap Vector Hashmap Lapic Sched Env Vfs Tmpfs VfsOps Initramfs.

(** The character of an octal digit. *)
Definition oct_byte (d : Z) : byte := Z_byte (48 + d).

Lemma oct_byte_Z d : 0 <= d < 8 -> byte_Z (oct_byte d) = 48 + d /\ s8 (byte_Z (oct_byte d)) = 48 + d.
Proof. intros Hd. unfold oct_byte. rewrite byte_Z_Z_byte. rewrite Z.mod_small by lia. split; [done|]. unfold s8. zlia. Qed.

Lemma oct2int_loop_eq ds n str s x :
  Forall (fun d => 0 <= d < 8) ds -> bytes_at (mem s) str (oct_byte <$> ds) ->
  (length ds = n /\ is_Some (mem s !! (str + Z.of_nat n)) \/
   (length ds < n)%nat /\ mem s !! (str + Z.of_nat (length ds)) = Some Byte.x00) ->
  oct2int_loop n str (u64 x) s = Ok (u64 (foldl (fun acc d => acc * 8 + d) x ds)) s.
Proof.
  intros Hd. revert n str x. induction Hd as [|d ds Hd Hds IH]; intros n str x Hb Hend.
  - cbn [foldl]. destruct Hend as [[<- [b E]]|[Hlt E]]; cbn [length] in *; rewrite Z.add_0_r in E.
    + unfold oct2int_loop. rewrite (bind_Ok _ _ _ _ _ (ld_byte _ _ _ E)). by destruct (byte_Z b =? 0).
    + destruct n as [|n]; [lia|]. cbn [oct2int_loop]. by rewrite (bind_Ok _ _ _ _ _ (ld_byte _ _ _ E)).
  - rewrite fmap_cons in Hb. apply bytes_at_cons in Hb as [Hc Hb]. destruct (oct_byte_Z d Hd) as [E1 E2].
    destruct n as [|n]; [simpl in Hend; lia|]. cbn [oct2int_loop]. rewrite (bind_Ok _ _ _ _ _ (ld_byte _ _ _ Hc)).
    rewrite E2, E1. destruct (Z.eqb_spec (48 + d) 0) as [E|_]; [lia|].
    replace (u64 (u64 (u64 x * 8) + (48 + d - 48))) with (u64 (x * 8 + d)).
    + cbn [foldl]. apply IH; [done|]. cbn [length] in Hend. replace (str + 1 + Z.of_nat n) with (str + Z.of_nat (S n)) by lia.
      replace (str + 1 + Z.of_nat (length ds)) with (str + Z.of_nat (S (length ds))) by lia.
      destruct Hend as [[Hl Hm]|[Hl Hm]]; [left|right]; (split; [lia|done]).
    + rewrite u64_add_l. replace (48 + d - 48) with d by lia. unfold u64.
      by rewrite (Zplus_mod (x mod 2 ^ 64 * 8)), Zmult_mod_idemp_l, <- Zplus_mod.
Qed.

(** The numbers of a [tar] header are read back as they were written.  A field of
    [len] characters that holds octal digits, up to its end or a null character,
    gives the number that the digits stand for; the 12 digits of a size and the 8
    of a mode never overflow. *)
Theorem oct2int_reads_octal ds len str s :
  Forall (fun d => 0 <= d < 8) ds -> bytes_at (mem s) str (oct_byte <$> ds) -> (length ds <= len)%nat -> (len <= 12)%nat ->
  (length ds = len /\ is_Some (mem s !! (str + Z.of_nat len)) \/
   (length ds < len)%nat /\ mem s !! (str + Z.of_nat (length ds)) = Some Byte.x00) ->
  oct2int str (Z.of_nat len) s = Ok (val_digits 8 ds) s /\ val_digits 8 ds < 8 ^ 12.
Proof.
  intros Hd Hb Hl Hlen Hend. pose proof (val_digits_bound 8 ds ltac:(lia) Hd) as Hv.
  assert (Hp : 8 ^ Z.of_nat (length ds) <= 8 ^ 12) by (apply Z.pow_le_mono_r; lia). split; [|lia].
  unfold oct2int. rewrite Nat2Z.id. change 0 with (u64 0). rewrite (oct2int_loop_eq ds len str s 0 Hd Hb Hend).
  fold (val_digits 8 ds). rewrite u64_small; [done|]. change (8 ^ 12) with 68719476736 in Hp. lia.
Qed.

(** The size field of a file of 1000 bytes. *)
Definition tar_state : kstate := KState (put_bytes ∅ 0x100 ((oct_byte <$> [0; 0; 0; 0; 0; 0; 0; 1; 7; 5; 0]) ++ [Byte.x00])) ∅ [].

Lemma oct2int_reads_octal_witness :
  oct2int 0x100 12 tar_state = Ok 1000 tar_state /\ 1000 < 8 ^ 12.
Proof.
  apply (oct2int_reads_octal [0; 0; 0; 0; 0; 0; 0; 1; 7; 5; 0] 12 0x100 tar_state).
  - repeat constructor; lia.
  - repeat (apply bytes_at_cons; split; [vm_compute; reflexivity|]). apply bytes_at_nil.
  - simpl. lia.
  - lia.
  - right. split; [simpl; lia|vm_compute; reflexivity].
Defined.
