(* ===== verification/Elf.v ===== *)
(** The program loader of [lib/elf.c]. *)
From S2P Require Import Prelude Machine Lock Str Layout Interfaces PageTable Vmm Pmm KheapSpec Heap Vector Hashmap Lapic Sched Env Vfs Tmpfs VfsOps.

(** The structures and constants of the C library's [elf.h]. *)
Record elf_h := {
  sizeof_Ehdr : Z;
  off_e_machine : Z;
  off_e_version : Z;
  off_e_entry : Z;
  off_e_phoff : Z;
  off_e_phentsize : Z;
  off_e_phnum : Z;
  sizeof_Phdr : Z;
  off_p_type : Z;
  off_p_offset : Z;
  off_p_vaddr : Z;
  off_p_filesz : Z;
  off_p_memsz : Z;
  EI_CLASS : Z;
  EI_DATA : Z;
  ELFCLASS64 : Z;
  ELFDATA2LSB : Z;
  EM_X86_64 : Z;
  EV_CURRENT : Z;
  PT_LOAD : Z;
  PT_INTERP : Z;
  PT_PHDR : Z
}.

Section elf.
Context (HHDM_OFFSET : Z) `{FA : !FrameAllocator HHDM_OFFSET} `{KH : KernelHeap} `{LC : LibC} (im : image) (eh : elf_h).
(** The string [ELFMAG], and the local variables whose address is taken. *)
Context (lit_ELFMAG elf_header program_header : Z).

Definition check_headers (header : Z) : K bool :=
  c ← memcmp header lit_ELFMAG 4;
  if negb (c =? 0) then mret false
  else
    class ← ld 1 (header + EI_CLASS eh);
    if negb (class =? ELFCLASS64 eh) then mret false
    else
      data ← ld 1 (header + EI_DATA eh);
      if negb (data =? ELFDATA2LSB eh) then mret false
      else
        machine ← ld 2 (header + off_e_machine eh);
        if negb (machine =? EM_X86_64 eh) then mret false
        else
          version ← ld 4 (header + off_e_version eh);
          mret (version =? EV_CURRENT eh).

(** A segment that is loaded: frames for it, and its bytes from the file. *)
Definition load_segment (pagemap node : Z) : K bool :=
  p_vaddr ← ld 8 (program_header + off_p_vaddr eh);
  p_memsz ← ld 8 (program_header + off_p_memsz eh);
  let unaligned := Z.land p_vaddr (FRAME_SIZE - 1) in
  let pages := ALIGN_UP (u64 (p_memsz + unaligned)) FRAME_SIZE / FRAME_SIZE in
  phys ← frame_calloc pages;
  if phys =? NULL then mret false
  else
    vmm_map_pages HHDM_OFFSET pagemap phys p_vaddr (Z.lor (Z.lor PTE_PRESENT PTE_WRITABLE) PTE_USER) pages ;;
    p_filesz ← ld 8 (program_header + off_p_filesz eh);
    p_offset ← ld 8 (program_header + off_p_offset eh);
    n ← vfs_read im node (u64 (phys + unaligned + HHDM_OFFSET)) p_filesz p_offset;
    kassert (negb (n =? 0)) ;;
    mret true.

(** The path of the interpreter. *)
Definition load_interp (node ld_path : Z) : K unit :=
  p_filesz ← ld 8 (program_header + off_p_filesz eh);
  p_offset ← ld 8 (program_header + off_p_offset eh);
  path ← heap_calloc (u64 (p_filesz + 1));
  kassert (negb (path =? NULL)) ;;
  n ← vfs_read im node path p_filesz p_offset;
  kassert (negb (n =? 0)) ;;
  if negb (ld_path =? NULL) then st 8 ld_path path else mret tt.

(** One program header; the loop variable is its number, and [inr] is the result
    of the loop: whether all headers were processed. *)
Definition elf_phdr (pagemap node aux ld_path i : Z) : K (Z + bool) :=
  phnum ← ld 2 (elf_header + off_e_phnum eh);
  if phnum <=? i then mret (inr true)
  else
    phoff ← ld 8 (elf_header + off_e_phoff eh);
    phentsize ← ld 2 (elf_header + off_e_phentsize eh);
    n ← vfs_read im node program_header (sizeof_Phdr eh) (u64 (phoff + i * phentsize));
    if n <=? 0 then mret (inr false)
    else
      p_type ← ld 4 (program_header + off_p_type eh);
      if p_type =? PT_LOAD eh then
        ok ← load_segment pagemap node;
        mret (if ok : bool then inl (i + 1) else inr false)
      else if p_type =? PT_INTERP eh then load_interp node ld_path ;; mret (inl (i + 1))
      else if p_type =? PT_PHDR eh then
        p_vaddr ← ld 8 (program_header + off_p_vaddr eh);
        st 8 (aux + 8) p_vaddr ;; mret (inl (i + 1))
      else mret (inl (i + 1)).

Definition elf_load (pagemap node aux ld_path : Z) : K bool :=
  n ← vfs_read im node elf_header (sizeof_Ehdr eh) 0;
  if n <=? 0 then mret false
  else
    ok ← check_headers elf_header;
    if negb ok then mret false
    else
      done ← kloop (elf_phdr pagemap node aux ld_path) 0;
      if negb done then mret false
      else
        entry ← ld 8 (elf_header + off_e_entry eh);
        st 8 aux entry ;;
        phentsize ← ld 2 (elf_header + off_e_phentsize eh);
        st 8 (aux + 16) phentsize ;;
        phnum ← ld 2 (elf_header + off_e_phnum eh);
        st 8 (aux + 24) phnum ;;
        mret true.

End elf.
