(* ===== verification/Kernel.v ===== *)
(** The start of the kernel and its first thread, [kernel.c]: the components put
    together in the order of the source.

    [machine] collects what the components take as parameters: the bootloader's
    answers, the devices, the addresses of static objects, local variables and
    functions, and the constants of other headers. *)
From S2P Require Import Prelude Machine Lock Str Layout Interfaces PageTable Vmm Pmm Kheap KheapSpec Heap Vector Hashmap Lapic Stdio Gdt Idt Sched Smp Acpi Drivers Env Vfs Tmpfs VfsOps Initramfs Elf.

Record machine := {
  (* the bootloader *)
  b_memmap_usable : Z;
  b_memmap : list memmap_entry;
  b_physical_base : Z;
  b_virtual_base : Z;
  b_kernel_end : Z;
  b_framebuffer : framebuffer;
  b_rsdp : Z;
  b_cpu_count : Z;
  b_bsp_lapic_id : Z;
  b_cpus : Z;
  b_info_lapic_id : Z;
  b_info_goto_address : Z;
  b_info_extra_argument : Z;
  b_modules : option (Z * Z);
  (* the processor and the devices *)
  d_mmio : list event -> Z -> Z;
  d_port : list event -> Z -> Z;
  d_cpuid_edx : Z -> Z;
  d_flanterm_fb_init : Z -> Z -> Z -> Z -> K Z;
  (* static objects, functions and literals *)
  a_FILE : Z;
  a_free_list : Z;
  a_gdt : Z;
  a_gdtr : Z;
  a_idt : Z;
  a_idtr : Z;
  a_isr : Z;
  a_isr_stubs : Z;
  a_processes_vector : Z;
  a_cpus : Z;
  a_madt_lapics : Z;
  a_madt_ioapics : Z;
  a_madt_isos : Z;
  a_lit_APIC : Z;
  a_lit_ELFMAG : Z;
  a_cRED : Z;
  a_cNONE : Z;
  f_exception_handler : Z;
  f_isr_generic : Z;
  f_syscall_entry_asm : Z;
  f_core_init : Z;
  f_pit : Z;
  f_ps2kb_handler : Z;
  f_sched_vector : Z;
  f_kernel_thread : Z;
  (* local variables whose address is taken *)
  l_elf_header : Z;
  l_program_header : Z;
  l_init_aux : Z;
  l_ld_aux : Z;
  l_ld_path : Z;
  l_argv : Z;
  l_envp : Z;
  (* other headers *)
  c_elf : elf_h;
  c_AT_ENTRY : Z;
  c_AT_PHDR : Z;
  c_AT_PHENT : Z;
  c_AT_PHNUM : Z
}.

Section kernel.
Context (HHDM_OFFSET : Z) `{FA : !FrameAllocator HHDM_OFFSET} `{KH : KernelHeap} (heap_free : Z -> K unit) `{LC : LibC} (im : image) (b : machine).

Definition start : K unit :=
  serial_init ;;
  printf "%sHello world! %s\n" [a_cRED b; a_cNONE b] ;;
  fb_info (b_framebuffer b) ;;
  gdt_init (a_gdt b) (a_gdtr b) ;;
  idt_init (a_idt b) (a_isr b) (a_isr_stubs b) (a_idtr b) (f_exception_handler b) (f_isr_generic b) ;;
  pmm_init HHDM_OFFSET (b_memmap_usable b) (b_memmap b) ;;
  vmm_init HHDM_OFFSET (b_physical_base b) (b_virtual_base b) (b_kernel_end b) ;;
  kheap_init HHDM_OFFSET (a_free_list b) ;;
  console_init (d_flanterm_fb_init b) (fb_base (b_framebuffer b)) (fb_width (b_framebuffer b))
    (fb_height (b_framebuffer b)) (fb_pitch (b_framebuffer b)) ;;
  acpi_init HHDM_OFFSET (a_FILE b) (a_madt_lapics b) (a_madt_ioapics b) (a_madt_isos b) (a_lit_APIC b) (b_rsdp b) ;;
  smp_init HHDM_OFFSET (d_mmio b) (d_port b) (a_FILE b) (a_cpus b) (a_gdt b) (a_gdtr b) (a_idtr b)
    (f_syscall_entry_asm b) (f_core_init b) (d_cpuid_edx b) (b_info_lapic_id b) (b_info_goto_address b)
    (b_info_extra_argument b) (b_cpu_count b) (b_bsp_lapic_id b) (b_cpus b) ;;
  pit_init HHDM_OFFSET (d_mmio b) (a_madt_ioapics b) (a_madt_isos b) (a_isr b) (f_pit b) ;;
  ps2_init HHDM_OFFSET (d_mmio b) (d_port b) (a_madt_ioapics b) (a_madt_isos b) (a_isr b) (f_ps2kb_handler b) ;;
  vfs_init heap_free im ;;
  sched_init HHDM_OFFSET (a_processes_vector b) (a_FILE b) sizeof_vfs_node (a_isr b) (a_idt b) (f_sched_vector b) (f_kernel_thread b).

Definition kernel_thread : K unit :=
  printf "%sHello world from kernel thread!%s\n" [a_cRED b; a_cNONE b] ;;
  initramfs_init HHDM_OFFSET heap_free im (b_modules b) ;;
  printf "\nNothing to be done now...\n" [] ;;
  root ← gget g_root;
  init_node ← vfs_open heap_free im root (lit_init im);
  kassert (negb (init_node =? NULL)) ;;
  user_pagemap ← vmm_new_pagemap HHDM_OFFSET;
  ok ← elf_load HHDM_OFFSET im (c_elf b) (a_lit_ELFMAG b) (l_elf_header b) (l_program_header b)
         user_pagemap init_node (l_init_aux b) (l_ld_path b);
  kassert ok ;;
  root ← gget g_root;
  ld_path ← ld 8 (l_ld_path b);
  ld_node ← vfs_open heap_free im root ld_path;
  kassert (negb (ld_node =? NULL)) ;;
  ok ← elf_load HHDM_OFFSET im (c_elf b) (a_lit_ELFMAG b) (l_elf_header b) (l_program_header b)
         user_pagemap ld_node (l_ld_aux b) NULL;
  kassert ok ;;
  user_proc ← sched_process (a_processes_vector b) (a_FILE b) sizeof_vfs_node user_pagemap;
  st 8 (l_argv b) (lit_init im) ;;
  st 8 (l_argv b + 8) NULL ;;
  st 8 (l_envp b) NULL ;;
  entry ← ld 8 (l_ld_aux b);
  sched_user_thread HHDM_OFFSET (a_FILE b) (c_AT_ENTRY b) (c_AT_PHDR b) (c_AT_PHENT b) (c_AT_PHNUM b)
    entry NULL user_proc (l_argv b) (l_envp b) (l_init_aux b) ;;
  dequeue_and_die HHDM_OFFSET heap_free.

End kernel.
