(* ===== verification/Structs.v ===== *)
(** The layout of the C structures.

    A structure is the list of its members as the source declares it, each with the
    size and the alignment of its type; [layout] places the members as the System V
    ABI does, or one behind the other for a structure that is packed.  The components
    write the offsets of members as numbers: the theorems of [StructsSpec] say that
    they are the ones of the declarations below. *)
From S2P Require Import Prelude Machine KheapSpec Env.

(** * Types *)

Record ctype := CType { ty_size : Z; ty_align : Z }.
Definition c_int8 : ctype := CType 1 1.
Definition c_int16 : ctype := CType 2 2.
Definition c_int32 : ctype := CType 4 4.
Definition c_int64 : ctype := CType 8 8.
Definition c_bool : ctype := CType 1 1.
Definition c_ptr : ctype := CType 8 8.
Definition c_array (n : Z) (t : ctype) : ctype := CType (n * ty_size t) (ty_align t).

Record struct := Struct { packed : bool; members : list (string * ctype) }.

(** The first multiple of [a] from [x] on. *)
Definition round_up (x a : Z) : Z := (x + a - 1) / a * a.

Definition place (pk : bool) (x : Z) (t : ctype) : Z := if pk then x else round_up x (ty_align t).

(** The offsets of the members of [l] from [x] on, and the end of the last one. *)
Fixpoint layout (pk : bool) (x : Z) (l : list (string * ctype)) : list (string * Z) * Z :=
  match l with
  | [] => ([], x)
  | (name, t) :: l' =>
      let off := place pk x t in
      let '(offs, e) := layout pk (off + ty_size t) l' in
      ((name, off) :: offs, e)
  end.

Definition alignof (s : struct) : Z :=
  if packed s then 1 else foldr (fun m a => Z.max (ty_align m.2) a) 1 (members s).
Definition sizeof (s : struct) : Z := round_up (layout (packed s) 0 (members s)).2 (alignof s).
Definition c_struct (s : struct) : ctype := CType (sizeof s) (alignof s).

Fixpoint assoc (name : string) (l : list (string * Z)) : option Z :=
  match l with
  | [] => None
  | (n, x) :: l' => if String.eqb name n then Some x else assoc name l'
  end.
Definition offsetof (s : struct) (name : string) : option Z := assoc name (layout (packed s) 0 (members s)).1.

(** [CONTAINER_OF]: the structure around the member [name] at [p]. *)
Definition CONTAINER_OF (p : Z) (s : struct) (name : string) : option Z :=
  (fun off => u64 (p - off)) <$> offsetof s name.

(** * The declarations *)

#[local] Notation "n ∷ t" := (@pair string ctype n t) (at level 60).

(** [lib/lock.h], [lib/vector.h], [lib/hashmap.h], [memory/kheap.h], [memory/vmm.h] *)
Definition spinlock_t : struct := Struct false ["lock" ∷ c_int32; "file" ∷ c_ptr].
Definition vector_t : struct :=
  Struct false ["items" ∷ c_int64; "item_size" ∷ c_int64; "capacity" ∷ c_int64; "lock" ∷ c_struct spinlock_t; "data" ∷ c_ptr].
Definition hashmap_entry_t : struct :=
  Struct false ["next" ∷ c_ptr; "key_length" ∷ c_int64; "key" ∷ c_ptr; "val" ∷ c_ptr].
Definition hashmap_t : struct := Struct false ["entries" ∷ c_ptr; "entry_count" ∷ c_int64; "items" ∷ c_int64].
Definition dll_t : struct := Struct false ["next" ∷ c_ptr; "prev" ∷ c_ptr].
Definition alloc_node_t : struct := Struct false ["node" ∷ c_struct dll_t; "size" ∷ c_int64; "cBlock" ∷ c_ptr].
Definition pagemap_t : struct := Struct false ["top" ∷ c_ptr].

(** [sys/cpu.h] *)
Definition tss_t : struct :=
  Struct true ["rsvd0" ∷ c_int32; "rsp0" ∷ c_int64; "rsp1" ∷ c_int64; "rsp2" ∷ c_int64; "rsvd1" ∷ c_int64;
    "ist1" ∷ c_int64; "ist2" ∷ c_int64; "ist3" ∷ c_int64; "ist4" ∷ c_int64; "ist5" ∷ c_int64; "ist6" ∷ c_int64;
    "ist7" ∷ c_int64; "rsvd2" ∷ c_int64; "iopb" ∷ c_int32].
Definition interrupt_frame : struct :=
  Struct true ["es" ∷ c_int64; "ds" ∷ c_int64; "r15" ∷ c_int64; "r14" ∷ c_int64; "r13" ∷ c_int64; "r12" ∷ c_int64;
    "r11" ∷ c_int64; "r10" ∷ c_int64; "r9" ∷ c_int64; "r8" ∷ c_int64; "rbp" ∷ c_int64; "rdi" ∷ c_int64;
    "rsi" ∷ c_int64; "rdx" ∷ c_int64; "rcx" ∷ c_int64; "rbx" ∷ c_int64; "rax" ∷ c_int64; "err" ∷ c_int64;
    "rip" ∷ c_int64; "cs" ∷ c_int64; "rflags" ∷ c_int64; "rsp" ∷ c_int64; "ss" ∷ c_int64].
Definition cpu_local : struct :=
  Struct false ["kernel_stack" ∷ c_ptr; "current_thread" ∷ c_ptr; "idle_thread" ∷ c_ptr; "cpu_number" ∷ c_int64;
    "lapic_id" ∷ c_int64; "bsp" ∷ c_bool; "active" ∷ c_bool; "lapic_freq" ∷ c_int32; "tss" ∷ c_struct tss_t].

(** [proc/sched.h] *)
Definition process_t : struct :=
  Struct false ["pid" ∷ c_int64; "pagemap" ∷ c_ptr; "threads" ∷ c_ptr; "cwd" ∷ c_ptr; "fildes" ∷ c_ptr;
    "current_filde" ∷ c_int32; "thread_stack_top" ∷ c_int64; "anon_base" ∷ c_int64].
Definition thread : struct :=
  Struct false ["errno" ∷ c_int32; "prev" ∷ c_ptr; "next" ∷ c_ptr; "cr3" ∷ c_int64; "cpu" ∷ c_ptr; "running" ∷ c_bool;
    "process" ∷ c_ptr; "lock" ∷ c_struct spinlock_t; "state" ∷ c_ptr; "timeslice" ∷ c_int8; "enqueued" ∷ c_bool;
    "blocked" ∷ c_bool; "gs_base" ∷ c_ptr; "fs_base" ∷ c_ptr].
Definition sched_queue_t : struct := Struct false ["start" ∷ c_ptr; "end" ∷ c_ptr; "lock" ∷ c_struct spinlock_t].

(** [memory/gdt/gdt.h], [sys/idt/idt.h] *)
Definition gdt_entry_t : struct :=
  Struct true ["limit" ∷ c_int16; "baselow16" ∷ c_int16; "basemid8" ∷ c_int8; "access" ∷ c_int8; "granularity" ∷ c_int8;
    "basehigh8" ∷ c_int8].
Definition gdt_register_t : struct := Struct true ["limit" ∷ c_int16; "base" ∷ c_int64].
Definition idtptr_t : struct := Struct true ["limit" ∷ c_int16; "base" ∷ c_int64].
Definition idt_gate_t : struct :=
  Struct true ["offset_low16" ∷ c_int16; "selector" ∷ c_int16; "ist" ∷ c_int8; "flags" ∷ c_int8;
    "offset_mid16" ∷ c_int16; "offset_high32" ∷ c_int32; "reserved" ∷ c_int32].

(** [lib/elf.h] *)
Definition auxval : struct :=
  Struct false ["at_entry" ∷ c_int64; "at_phdr" ∷ c_int64; "at_phent" ∷ c_int64; "at_phnum" ∷ c_int64].

(** [fs/vfs.h], [fs/vfs.c]; the structure [stat] is the C library's. *)
Definition vfs_fs : struct :=
  Struct false ["mount" ∷ c_ptr; "create" ∷ c_ptr; "read" ∷ c_ptr; "write" ∷ c_ptr; "inode_number" ∷ c_int64].
Definition vfs_node `{LibC} : struct :=
  Struct false ["name" ∷ c_ptr; "parent" ∷ c_ptr; "children" ∷ c_ptr; "fs" ∷ c_ptr; "pid" ∷ c_int32; "seek" ∷ c_int64;
    "file_size" ∷ c_int64; "mountpoint" ∷ c_ptr; "link" ∷ c_ptr; "data" ∷ c_ptr; "st" ∷ CType sizeof_stat 8;
    "offset" ∷ c_int32; "lock" ∷ c_struct spinlock_t].
Definition path_to_node_t : struct := Struct false ["parent" ∷ c_ptr; "result" ∷ c_ptr].

(** [lib/stat.h] *)
Definition off_t : ctype := c_int64.
Definition dev_t : ctype := c_int64.
Definition ino_t : ctype := c_int64.
Definition mode_t : ctype := c_int32.
Definition nlink_t : ctype := c_int32.
Definition blksize_t : ctype := c_int64.
Definition blkcnt_t : ctype := c_int64.
Definition uid_t : ctype := c_int32.
Definition gid_t : ctype := c_int32.
Definition time_t : ctype := c_int64.
Definition timespec : struct := Struct false ["tv_sec" ∷ time_t; "tv_nsec" ∷ c_int64].
Definition stat : struct :=
  Struct false ["st_dev" ∷ dev_t; "st_ino" ∷ ino_t; "st_mode" ∷ mode_t; "st_nlink" ∷ nlink_t; "st_uid" ∷ uid_t;
    "st_gid" ∷ gid_t; "st_rdev" ∷ dev_t; "st_size" ∷ off_t; "st_atim" ∷ c_struct timespec; "st_mtim" ∷ c_struct timespec;
    "st_ctim" ∷ c_struct timespec; "st_blksize" ∷ blksize_t; "st_blocks" ∷ blkcnt_t].

(** [fs/initramfs.c] *)
Definition tar_header : struct :=
  Struct false ["filename" ∷ c_array 100 c_int8; "mode" ∷ c_array 8 c_int8; "uid" ∷ c_array 8 c_int8; "gid" ∷ c_array 8 c_int8;
    "size" ∷ c_array 12 c_int8; "mtime" ∷ c_array 12 c_int8; "chksum" ∷ c_array 8 c_int8; "typeflag" ∷ c_int8;
    "link_name" ∷ c_array 100 c_int8; "magic" ∷ c_array 6 c_int8; "version" ∷ c_array 2 c_int8; "uname" ∷ c_array 32 c_int8;
    "gname" ∷ c_array 32 c_int8; "dev_major" ∷ c_array 8 c_int8; "dev_minor" ∷ c_array 8 c_int8; "prefix" ∷ c_array 155 c_int8].

(** [acpi/acpi.h], [acpi/tables/madt.h]; a flexible array has no elements. *)
Definition rsdp_descriptor_t : struct :=
  Struct false ["signature" ∷ c_array 8 c_int8; "checksum" ∷ c_int8; "oem_id" ∷ c_array 6 c_int8; "revision" ∷ c_int8;
    "rsdt_address" ∷ c_int32; "length" ∷ c_int32; "xsdt_address" ∷ c_int64; "extended_checksum" ∷ c_int8;
    "reserved" ∷ c_array 3 c_int8].
Definition acpi_sdt_header : struct :=
  Struct false ["signature" ∷ c_array 4 c_int8; "length" ∷ c_int32; "revision" ∷ c_int8; "checksum" ∷ c_int8;
    "oem_id" ∷ c_array 6 c_int8; "oem_table_id" ∷ c_array 6 c_int8; "oem_revision" ∷ c_int32; "creator_id" ∷ c_int32;
    "creator_revision" ∷ c_int32].
Definition rsdt_t : struct := Struct false ["header" ∷ c_struct acpi_sdt_header; "data" ∷ c_array 0 c_int8].
Definition madt_t : struct :=
  Struct true ["header" ∷ c_struct acpi_sdt_header; "local_controller_address" ∷ c_int32; "flags" ∷ c_int32; "data" ∷ c_array 0 c_int8].
Definition madt_header_t : struct := Struct true ["id" ∷ c_int8; "length" ∷ c_int8].
Definition madt_lapic_t : struct :=
  Struct true ["header" ∷ c_struct madt_header_t; "processor_id" ∷ c_int8; "apic_id" ∷ c_int8; "flags" ∷ c_int32].
Definition madt_ioapic_t : struct :=
  Struct true ["header" ∷ c_struct madt_header_t; "apic_id" ∷ c_int8; "reserved" ∷ c_int8; "address" ∷ c_int32; "gsib" ∷ c_int32].
Definition madt_iso_t : struct :=
  Struct true ["header" ∷ c_struct madt_header_t; "bus_source" ∷ c_int8; "irq_source" ∷ c_int8; "gsi" ∷ c_int32; "flags" ∷ c_int16].
Definition madt_nmi_t : struct :=
  Struct true ["header" ∷ c_struct madt_header_t; "processor" ∷ c_int8; "flags" ∷ c_int16; "lint" ∷ c_int8].

(** [fs/ext2fs.c] *)
Definition ext2fs_superblock : struct :=
  Struct true ["inode_num" ∷ c_int32; "block_num" ∷ c_int32; "rsvd_num" ∷ c_int32; "unallocb" ∷ c_int32; "unalloci" ∷ c_int32;
    "sb" ∷ c_int32; "log2_blksize" ∷ c_int32; "log2_fragsize" ∷ c_int32; "blocks_per_group" ∷ c_int32;
    "frags_per_group" ∷ c_int32; "inodes_per_group" ∷ c_int32; "last_mnt" ∷ c_int32; "last_written" ∷ c_int32;
    "last_check_mounts" ∷ c_int16; "mounts_allowed_before_check" ∷ c_int16; "ext2_sig" ∷ c_int16; "fss_tate" ∷ c_int16;
    "errorr_action" ∷ c_int16; "minor_version" ∷ c_int16; "last_fsck" ∷ c_int32; "forced_fsck_time" ∷ c_int32;
    "osid" ∷ c_int32; "major_version" ∷ c_int32; "uid" ∷ c_int16; "gid" ∷ c_int16; "first" ∷ c_int32;
    "inode_size" ∷ c_int16; "bg_sb" ∷ c_int16; "optional_features" ∷ c_int32; "required_features" ∷ c_int32;
    "readonly_features" ∷ c_int32; "uuid" ∷ c_array 16 c_int8; "name" ∷ c_array 16 c_int8;
    "lastmountedpath" ∷ c_array 64 c_int8; "comp_algo" ∷ c_int32; "blocks_prealloc_files" ∷ c_int8;
    "blocks_prealloc_dirs" ∷ c_int8; "unused" ∷ c_int16; "journal_id" ∷ c_array 16 c_int8; "journal_inode" ∷ c_int32;
    "journal_dev" ∷ c_int32; "head_orphan_inode_list" ∷ c_int32].
Definition ext2fs_block_group_desc : struct :=
  Struct true ["usage_bitmap" ∷ c_int32; "inode_bitmap" ∷ c_int32; "inode_table" ∷ c_int32; "unalloc_blocks" ∷ c_int16;
    "unalloc_inodes" ∷ c_int16; "dirs" ∷ c_int16; "unused" ∷ c_array 14 c_int8].
Definition ext2fs_inode : struct :=
  Struct true ["perms" ∷ c_int16; "uid" ∷ c_int16; "size_low" ∷ c_int32; "last_acc" ∷ c_int32; "create_time" ∷ c_int32;
    "last_mod" ∷ c_int32; "del_time" ∷ c_int32; "gid" ∷ c_int16; "hardlinks" ∷ c_int16; "sectors" ∷ c_int32;
    "flags" ∷ c_int32; "ossv1" ∷ c_int32; "blocks" ∷ c_array 15 c_int32; "generation_num" ∷ c_int32; "eab" ∷ c_int32;
    "size_high" ∷ c_int32; "frag_addr" ∷ c_int32; "ossv2" ∷ c_array 3 c_int32].
Definition ext2fs_dir_entry : struct :=
  Struct true ["inode" ∷ c_int32; "entry_size" ∷ c_int16; "name_length" ∷ c_int8; "type" ∷ c_int8; "name" ∷ c_array 0 c_int8].
Definition ext2fs_t : struct :=
  Struct false ["root" ∷ c_struct ext2fs_inode; "sb" ∷ c_struct ext2fs_superblock; "block_size" ∷ c_int32; "frag_size" ∷ c_int32].

(** * The modes of [lib/stat.h] *)

(** The macros on modes, on an [int]. *)
Definition GETMODE (m : Z) : Z := Z.land 0xfff m.
Definition GETTYPE (m : Z) : Z := Z.land (Z.shiftr m 12) 0xf.
Definition MAKETYPE (m : Z) : Z := Z.shiftl (Z.land m 0xf) 12.

(** [S_IFMT] and the types, [S_IF...]. *)
Definition S_IFMT : Z := 0x0f000.
Definition file_types : list (string * Z) :=
  [("S_IFBLK", 0x06000); ("S_IFCHR", 0x02000); ("S_IFIFO", 0x01000); ("S_IFREG", 0x08000); ("S_IFDIR", 0x04000);
   ("S_IFLNK", 0x0a000); ("S_IFSOCK", 0x0c000)]%string.

(** The permissions: [S_IRWX] of a class and its bits; then the other bits. *)
Definition permissions : list (Z * list Z) :=
  [(448, [256; 128; 64]); (56, [32; 16; 8]); (7, [4; 2; 1])].
Definition S_ISUID : Z := 2048.
Definition S_ISGID : Z := 1024.
Definition S_ISVTX : Z := 512.
