(* ===== verification/StructsSpec.v ===== *)
(** The layout of the structures: members are placed apart, aligned and inside; the
    operations write the members of the declarations; and the modes of [lib/stat.h]. *)
From S2P Require Import Prelude Machine Lock Str Layout KheapSpec Kheap KheapProps Env Structs Gdt Idt Sched SchedSpec Smp Vfs Asm AsmSpec.

Section layout.
Implicit Types (s : struct) (l : list (string * ctype)) (t : ctype) (x a : Z).

Record wf_type t : Prop := {
  wt_size : 0 <= ty_size t;
  wt_align : 0 < ty_align t;
  wt_multiple : ty_size t mod ty_align t = 0
}.
Definition wf_struct s : Prop := Forall (fun m => wf_type m.2) (members s).

Lemma round_up_spec x a : 0 < a -> x <= round_up x a < x + a /\ round_up x a mod a = 0.
Proof.
  intros Ha. unfold round_up. split; [|by apply Z.mod_mul; lia].
  pose proof (Z.div_mod (x + a - 1) a). pose proof (Z.mod_pos_bound (x + a - 1) a). nia.
Qed.

Lemma place_ge pk x t : 0 < ty_align t -> x <= place pk x t.
Proof. intros H. unfold place. destruct pk; [lia|]. apply round_up_spec. done. Qed.

(** Where the member at each place of the list is. *)
Lemma layout_lookup pk l x i name t :
  Forall (fun m => wf_type m.2) l -> l !! i = Some (name, t) ->
  exists off, (layout pk x l).1 !! i = Some (name, off) /\ x <= off /\ off + ty_size t <= (layout pk x l).2 /\
    (pk = false -> off mod ty_align t = 0).
Proof.
  revert x i. induction l as [|[n0 t0] l IH]; intros x i Hwf Hi; [done|]. apply list.Forall_cons in Hwf as [[W1 W2 W3] Hwf]. simpl in *.
  pose proof (place_ge pk x t0 W2) as Hp. set (off0 := place pk x t0) in *.
  assert (He : forall y, Forall (fun m => wf_type m.2) l -> y <= (layout pk y l).2).
  { clear. induction l as [|[n1 t1] l IH]; intros y H; [simpl; lia|]. apply list.Forall_cons in H as [[W1 W2 W3] H]. simpl in *.
    specialize (IH (place pk y t1 + ty_size t1) H). pose proof (place_ge pk y t1 W2). destruct (layout _ _ l). simpl in *. lia. }
  specialize (He (off0 + ty_size t0) Hwf). specialize (IH (off0 + ty_size t0)).
  destruct (layout pk (off0 + ty_size t0) l) as [offs e] eqn:E. simpl in *. destruct i as [|i].
  - injection Hi as -> ->. exists off0. split; [done|]. split; [done|]. split; [lia|]. intros ->. unfold off0. simpl. by apply round_up_spec.
  - destruct (IH i Hwf Hi) as (off & H1 & H2 & H3 & H4). exists off. split; [done|]. split; [lia|]. by split.
Qed.

(** Members are in the order of the declaration. *)
Lemma layout_order pk l x i j name t name' t' off off' :
  Forall (fun m => wf_type m.2) l -> (i < j)%nat -> l !! i = Some (name, t) -> l !! j = Some (name', t') ->
  (layout pk x l).1 !! i = Some (name, off) -> (layout pk x l).1 !! j = Some (name', off') -> off + ty_size t <= off'.
Proof.
  revert x i j. induction l as [|[n0 t0] l IH]; intros x i j Hwf Hij Hi Hj Oi Oj; [done|].
  apply list.Forall_cons in Hwf as [Hwf0 Hwf]. simpl in *. set (off0 := place pk x t0) in *.
  destruct j as [|j]; [lia|]. destruct (layout_lookup pk l (off0 + ty_size t0) j name' t' Hwf Hj) as (o & H1 & H2 & _).
  specialize (IH (off0 + ty_size t0)). destruct (layout pk (off0 + ty_size t0) l) as [offs e] eqn:E. simpl in *.
  destruct i as [|i].
  - injection Hi as -> ->. injection Oi as <-. rewrite Oj in H1. injection H1 as <-. done.
  - by apply (IH i j Hwf); [lia|..].
Qed.

Lemma alignof_pos s : 0 < alignof s.
Proof. unfold alignof. destruct (packed s); [lia|]. induction (members s); simpl; lia. Qed.

(** The offset of a member. *)
Definition member_at s (i : nat) (off : Z) (t : ctype) : Prop :=
  exists name, members s !! i = Some (name, t) /\ (layout (packed s) 0 (members s)).1 !! i = Some (name, off).

Lemma member_inside s i off t : wf_struct s -> member_at s i off t -> 0 <= off /\ off + ty_size t <= sizeof s.
Proof.
  intros Hwf (name & Hi & Ho). destruct (layout_lookup (packed s) (members s) 0 i name t Hwf Hi) as (o & H1 & H2 & H3 & _).
  rewrite H1 in Ho. injection Ho as ->. split; [done|]. unfold sizeof.
  pose proof (round_up_spec (layout (packed s) 0 (members s)).2 (alignof s) (alignof_pos s)). lia.
Qed.

Lemma members_apart s i j off t off' t' :
  wf_struct s -> i <> j -> member_at s i off t -> member_at s j off' t' -> off + ty_size t <= off' \/ off' + ty_size t' <= off.
Proof.
  intros Hwf Hij (n & Hi & Oi) (n' & Hj & Oj). destruct (Nat.lt_total i j) as [H|[H|H]]; [left|done|right].
  - by eapply layout_order; [exact Hwf|exact H|..].
  - by eapply layout_order; [exact Hwf|exact H|..].
Qed.

(** The members of a structure are inside it, aligned unless it is packed, and
    apart: a store to one of them changes neither the others nor what is outside
    the structure. *)
Theorem struct_member_store s i off t m a v :
  wf_struct s -> member_at s i off t ->
  let m' := wr (Z.to_nat (ty_size t)) m (a + off) v in
  0 <= off /\ off + ty_size t <= sizeof s /\ (packed s = false -> off mod ty_align t = 0) /\
  rd (Z.to_nat (ty_size t)) m' (a + off) = Some (v mod 2 ^ (8 * ty_size t)) /\
  (forall j off' t', j <> i -> member_at s j off' t' ->
     rd (Z.to_nat (ty_size t')) m' (a + off') = rd (Z.to_nat (ty_size t')) m (a + off')) /\
  (forall x, x < a \/ a + sizeof s <= x -> m' !! x = m !! x).
Proof.
  intros Hwf Hm. cbv zeta. destruct (member_inside s i off t Hwf Hm) as [H0 H1]. pose proof Hm as (name & Hi & Ho).
  destruct (layout_lookup (packed s) (members s) 0 i name t Hwf Hi) as (o & E & _ & _ & Hal). rewrite Ho in E. injection E as <-.
  assert (Hsz : forall k n' u, members s !! k = Some (n', u) -> 0 <= ty_size u).
  { intros k n' u Hk. apply (wt_size u). by apply (proj1 (Forall_lookup _ _) Hwf k (n', u)). }
  split; [done|]. split; [done|]. split; [done|]. pose proof (Hsz _ _ _ Hi) as Hs. split; [|split].
  - rewrite rd_wr_same. by rewrite Z2Nat.id by done.
  - intros j off' t' Hj Hm'. pose proof (members_apart s i j _ _ _ _ Hwf (not_eq_sym Hj) Hm Hm') as Hap.
    destruct Hm' as (n' & Hj' & _). pose proof (Hsz _ _ _ Hj'). apply rd_wr_ne. rewrite !Z2Nat.id by done. lia.
  - intros x Hx. apply lookup_wr_out. rewrite Z2Nat.id by done. lia.
Qed.

End layout.

(** Every member of [thread_t] is well formed; it has its lock inside. *)
Lemma thread_wf : wf_struct thread.
Proof. unfold wf_struct, thread. simpl. repeat (apply list.Forall_cons; split; [by split|]). by apply list.Forall_nil. Qed.

(** [CONTAINER_OF] undoes taking the address of a member; [kheap.c] goes from a link of
    the free list to its block without a change, since [node] is the first member. *)
Lemma container_of_member s name off a :
  offsetof s name = Some off -> 0 <= a < 2 ^ 64 -> CONTAINER_OF (u64 (a + off)) s name = Some a.
Proof. intros H Ha. unfold CONTAINER_OF. rewrite H. simpl. f_equal. unfold u64. rewrite Zminus_mod_idemp_l. replace (a + off - off) with a by lia. by apply Z.mod_small. Qed.

Lemma container_of_block p : 0 <= p < 2 ^ 64 -> CONTAINER_OF p alloc_node_t "node" = Some p.
Proof. intros Hp. unfold CONTAINER_OF. change (offsetof alloc_node_t "node") with (Some 0). simpl. rewrite Z.sub_0_r. f_equal. by apply Z.mod_small. Qed.

(** * Members in memory *)

(** [p->name] of the structure [st] at [p]. *)
Definition member_size (st : struct) (name : string) : option Z := assoc name (prod_map id ty_size <$> members st).
Definition member (m : gmap Z byte) (st : struct) (p : Z) (name : string) : option Z :=
  off ← offsetof st name;
  n ← member_size st name;
  rd (Z.to_nat n) m (p + off).

Lemma member_rd (n : nat) off m st p name v :
  offsetof st name = Some off -> member_size st name = Some (Z.of_nat n) -> rd n m (p + off) = Some v -> member m st p name = Some v.
Proof. intros H1 H2 H3. unfold member. rewrite H1. simpl. rewrite H2. simpl. by rewrite Nat2Z.id. Qed.

(** [c] returns [a] and leaves these members of structures with these values. *)
Definition sets {A} (c : K A) (a : A) s (fields : list (Z * struct * string * Z)) : Prop :=
  exists s', c s = Ok a s' /\ Forall (fun f => let '(p, st, name, v) := f in member (mem s') st p name = Some v) fields.

Lemma round_up_multiple x a : 0 < a -> x mod a = 0 -> round_up x a = x.
Proof.
  intros Ha Hx. apply Z.mod_divide in Hx as [k ->]; [|lia]. unfold round_up. replace (k * a + a - 1) with ((a - 1) + k * a) by lia.
  rewrite Z.div_add, Z.div_small by lia. lia.
Qed.

#[local] Arguments round_up : simpl never.
#[local] Arguments Z.add : simpl never.

(** The layout of a node: everything behind [st] moves with its size. *)
Lemma vfs_node_layout `{LC : LibC} :
  layout false 0 (members vfs_node) =
  ([("name", 0); ("parent", 8); ("children", 16); ("fs", 24); ("pid", 32); ("seek", 40); ("file_size", 48); ("mountpoint", 56);
    ("link", 64); ("data", 72); ("st", 80); ("offset", node_offset); ("lock", node_lock)]%string, sizeof_vfs_node).
Proof.
  destruct libc_stat_size as [_ Hz]. unfold sizeof_vfs_node, node_lock, node_offset, vfs_node. generalize dependent sizeof_stat. intros z Hz.
  simpl. change (sizeof spinlock_t) with 16. change (alignof spinlock_t) with 8.
  repeat match goal with
    | |- context [round_up 0 ?a] => change (round_up 0 a) with 0
    | |- context [round_up (Zpos ?p) ?a] => let v := eval vm_compute in (round_up (Zpos p) a) in change (round_up (Zpos p) a) with v
    | |- context [Zpos ?p + Zpos ?q] => let v := eval vm_compute in (Zpos p + Zpos q) in change (Zpos p + Zpos q) with v
    | |- context [0 + Zpos ?q] => change (0 + Zpos q) with (Zpos q)
    end.
  apply Z.mod_divide in Hz as [k ->]; [|lia]. rewrite (round_up_multiple (80 + k * 8) 4); [|lia|].
  2: { apply Z.mod_divide; [lia|]. exists (20 + 2 * k). lia. }
  replace (round_up (80 + k * 8 + 4) 8) with (80 + k * 8 + 8); [reflexivity|].
  unfold round_up. replace (80 + k * 8 + 4 + 8 - 1) with (3 + (11 + k) * 8) by lia. rewrite Z.div_add by lia. change (3 / 8) with 0. lia.
Qed.

(** The structure of [lib/stat.h] is one that the laws of the C library allow. *)
Lemma stat_h_layout :
  offsetof stat <$> ["st_ino"; "st_mode"; "st_nlink"; "st_size"; "st_blksize"; "st_blocks"]%string =
    Some <$> [@off_st_ino stat_h; @off_st_mode stat_h; @off_st_nlink stat_h; @off_st_size stat_h; @off_st_blksize stat_h; @off_st_blocks stat_h] /\
  sizeof stat = @sizeof_stat stat_h /\
  assoc "S_IFREG" file_types = Some (@S_IFREG stat_h) /\ assoc "S_IFDIR" file_types = Some (@S_IFDIR stat_h).
Proof. repeat split; vm_compute; reflexivity. Qed.

(** * What the operations write *)

Ltac field n off := eapply (member_rd n off); [reflexivity|reflexivity|].
Ltac field_rd := rewrite ?rd_wr_ne by lia; rewrite rd_wr_same; f_equal; try (apply Z.mod_small; simpl; lia).

Lemma put_entry_sets s a e :
  entry_ok e -> mapped (mem s) a 8 ->
  sets (put_entry a e) tt s
    [(a, gdt_entry_t, "limit", limit e); (a, gdt_entry_t, "baselow16", baselow16 e); (a, gdt_entry_t, "basemid8", basemid8 e);
     (a, gdt_entry_t, "access", access e); (a, gdt_entry_t, "granularity", granularity e); (a, gdt_entry_t, "basehigh8", basehigh8 e)]%string.
Proof.
  intros (H1 & H2 & H3 & H4 & H5 & H6) Hm. eexists. split.
  - unfold put_entry. do 5 (rewrite st_then by (repeat apply mapped_wr; eapply mapped_sub; [exact Hm|lia|lia])).
    rewrite st_ok by (repeat apply mapped_wr; eapply mapped_sub; [exact Hm|lia|lia]). reflexivity.
  - cbn [mem with_mem]. repeat apply List.Forall_cons; [..|apply List.Forall_nil].
    + field 2%nat 0. rewrite Z.add_0_r. field_rd.
    + field 2%nat 2. field_rd.
    + field 1%nat 4. field_rd.
    + field 1%nat 5. field_rd.
    + field 1%nat 6. field_rd.
    + field 1%nat 7. field_rd.
Qed.

Lemma encode_sets s idt vector p flags (g := idt + 16 * vector) :
  0 <= p < 2 ^ 64 -> 0 <= flags < 2 ^ 8 -> mapped (mem s) g 16 ->
  sets (encode_idt_entry idt vector p flags) tt s
    [(g, idt_gate_t, "offset_low16", p mod 2 ^ 16); (g, idt_gate_t, "selector", 0x28); (g, idt_gate_t, "ist", 0);
     (g, idt_gate_t, "flags", flags); (g, idt_gate_t, "offset_mid16", p / 2 ^ 16 mod 2 ^ 16);
     (g, idt_gate_t, "offset_high32", p / 2 ^ 32); (g, idt_gate_t, "reserved", 0)]%string.
Proof.
  intros Hp Hf Hm. eexists. split.
  - unfold encode_idt_entry. fold g. do 6 (rewrite st_then by (repeat apply mapped_wr; eapply mapped_sub; [exact Hm|lia|lia])).
    rewrite st_ok by (repeat apply mapped_wr; eapply mapped_sub; [exact Hm|lia|lia]). reflexivity.
  - cbn [mem with_mem]. repeat apply List.Forall_cons; [..|apply List.Forall_nil].
    + field 2%nat 0. rewrite Z.add_0_r. field_rd. apply Z.mod_mod. lia.
    + field 2%nat 2. field_rd.
    + field 1%nat 4. field_rd.
    + field 1%nat 5. field_rd.
    + field 2%nat 6. field_rd. unfold u16. rewrite Z.shiftr_div_pow2 by lia. apply Z.mod_mod. lia.
    + field 4%nat 8. field_rd. unfold u32. rewrite Z.shiftr_div_pow2 by lia.
      change (2 ^ (8 * Z.of_nat 4)) with (2 ^ 32). rewrite Z.mod_mod by lia. apply Z.mod_small.
      split; [apply Z.div_pos; lia|apply Z.div_lt_upper_bound; lia].
    + field 4%nat 12. field_rd.
Qed.

Lemma gdt_load_sets s gdt gdtr :
  0 <= gdt < 2 ^ 64 -> mapped (mem s) gdtr 10 ->
  sets (gdt_load gdt gdtr) tt s [(gdtr, gdt_register_t, "limit", 11 * sizeof gdt_entry_t - 1); (gdtr, gdt_register_t, "base", gdt)]%string.
Proof.
  intros Hg Hm. destruct (gdt_load_eq s gdt gdtr Hg Hm) as (m' & E & _ & R1 & R2). eexists. split; [exact E|].
  repeat apply List.Forall_cons; [..|apply List.Forall_nil]; [field 2%nat 0; by rewrite Z.add_0_r|by field 8%nat 2].
Qed.

Lemma add_block_sets s free_list bs live c k :
  heap_ok free_list (mem s) bs live -> 0 < c -> 0 <= k -> c + (24 + k) < 2 ^ 64 -> mapped (mem s) c (24 + k) ->
  (forall r, r ∈ regions free_list bs live -> apart r (c, 24 + k)) ->
  sets (add_block free_list c (24 + k)) tt s
    [(c, alloc_node_t, "size", k); (c, dll_t, "next", free_list); (c, dll_t, "prev", before free_list bs.*1);
     (before free_list bs.*1, dll_t, "next", c); (free_list, dll_t, "prev", c)]%string.
Proof.
  intros Hh Hc Hk Hck Hm Hap. destruct (add_block_eq free_list s bs live c k Hh Hc Hk Hck Hm Hap) as (m' & E & Hh' & _).
  eexists. split; [exact E|]. cbn [mem with_mem].
  pose proof (hp_links _ _ _ _ Hh') as Hl. rewrite fmap_app in Hl. cbn [fmap list_fmap] in Hl. rewrite pairs_app in Hl.
  destruct (pairs_last free_list bs.*1) as [L HL]. rewrite HL in Hl. apply Forall_app in Hl as [Hl1 Hl2]. apply Forall_app in Hl1 as [_ Hl1].
  apply list.Forall_cons in Hl1 as [[L1 L2] _]. apply list.Forall_cons in Hl2 as [[L3 L4] _]. cbn [fst snd] in *.
  repeat apply List.Forall_cons; [..|apply List.Forall_nil].
  - field 8%nat 16. apply (hp_sizes _ _ _ _ Hh' (c, k)). rewrite !elem_of_app, list_elem_of_singleton. tauto.
  - field 8%nat 0. by rewrite Z.add_0_r.
  - by field 8%nat 8.
  - field 8%nat 0. by rewrite Z.add_0_r.
  - by field 8%nat 8.
Qed.

Lemma enqueue_sets s ts t (t0 := fst (ends ts t)) (e := snd (ends ts t)) :
  queue_ok s ts -> thread_at (mem s) t -> rd 1 (mem s) (t + thread_enqueued) = Some 0 -> (forall x, x ∈ ts -> disjoint_threads x t) ->
  sets (sched_enqueue_thread t) true s
    [(t, thread, "enqueued", 1); (t, thread, "prev", e); (t, thread, "next", t0); (e, thread, "next", t); (t0, thread, "prev", t)]%string.
Proof.
  intros Hq Ht He Hd. destruct (enqueue_eq s ts t Hq Ht He) as (s' & E & M & _). fold t0 e in M. exists s'. split; [done|]. rewrite M.
  assert (Hr : forall x, thread_at (mem s) x -> 0 < x < 2 ^ 64) by (intros x (X1 & X2 & _); unfold sizeof_thread in X2; lia).
  assert (Hin : forall x, x ∈ ts -> 0 < x < 2 ^ 64) by (intros x Hx; by apply Hr, (qo_threads _ _ Hq)).
  destruct (enqueue_links (mem s) t e t0) as [[F1 F2] [F3 F4]]; cbn [fst snd] in *.
  1-4: unfold t0, e, ends; destruct ts as [|a ts]; cbn [fst snd]; try (by apply Hr).
  - apply Hin, before_elem.
  - apply Hin, elem_of_cons. by left.
  - by left.
  - right. pose proof (before_elem a ts) as Ie. assert (Ia : a ∈ a :: ts) by (apply elem_of_cons; by left).
    split; [by apply Hd|]. split; [by apply Hd|]. destruct (decide (before a ts = a)); [by left|right; by apply (qo_disjoint _ _ Hq)].
  - repeat apply List.Forall_cons; [..|apply List.Forall_nil].
    + field 1%nat 81. unfold mem_enqueue. by rewrite rd_wr_same.
    + by field 8%nat 8.
    + by field 8%nat 16.
    + by field 8%nat 16.
    + by field 8%nat 8.
Qed.

Lemma dequeue_sets s t next prev w :
  thread_at (mem s) t -> thread_at (mem s) next -> thread_at (mem s) prev -> disjoint_threads next t -> disjoint_threads prev t ->
  rd 1 (mem s) (t + thread_enqueued) = Some 1 -> rd 8 (mem s) (t + thread_next) = Some next ->
  rd 8 (mem s) (t + thread_prev) = Some prev -> rd 4 (mem s) (t + thread_lock) = Some w -> next = prev \/ disjoint_threads next prev ->
  sets (dequeue_thread t) true s
    [(t, thread, "running", 0); (t, thread, "enqueued", 0); (prev, thread, "next", next); (next, thread, "prev", prev)]%string.
Proof.
  intros Tt Tn Tp Dn Dp He Hn Hp Hw Hnp. eexists. split; [by apply (dequeue_eq s t next prev w)|].
  destruct Tn as (N0 & N1 & _), Tp as (P0 & P1 & _). unfold disjoint_threads, sizeof_thread in *. cbn [mem with_mem]. unfold unlink_mem.
  repeat apply List.Forall_cons; [..|apply List.Forall_nil].
  - field 1%nat 40. field_rd.
  - field 1%nat 81. field_rd.
  - field 8%nat 16. field_rd.
  - field 8%nat 8. field_rd.
Qed.

(** C19: the operations write the members that the declarations name.  The layout rules
    of the ABI give every member of a structure its offset, and at these offsets are:
    after [put_entry] the fields of a descriptor, after [encode_idt_entry] those of a
    gate, after [gdt_load] those of the operand of [lgdt], after [add_block] the size
    and the links of a block and of its neighbours, and after [sched_enqueue_thread]
    and [dequeue_thread] the links and the flags of the thread and the links of its
    neighbours. *)
Theorem operations_set_members s :
  (forall a e,
    entry_ok e -> mapped (mem s) a 8 ->
    sets (put_entry a e) tt s
      [(a, gdt_entry_t, "limit", limit e); (a, gdt_entry_t, "baselow16", baselow16 e); (a, gdt_entry_t, "basemid8", basemid8 e);
       (a, gdt_entry_t, "access", access e); (a, gdt_entry_t, "granularity", granularity e); (a, gdt_entry_t, "basehigh8", basehigh8 e)]%string) /\
  (forall idt vector p flags, let g := idt + 16 * vector in
    0 <= p < 2 ^ 64 -> 0 <= flags < 2 ^ 8 -> mapped (mem s) g 16 ->
    sets (encode_idt_entry idt vector p flags) tt s
      [(g, idt_gate_t, "offset_low16", p mod 2 ^ 16); (g, idt_gate_t, "selector", 0x28); (g, idt_gate_t, "ist", 0);
       (g, idt_gate_t, "flags", flags); (g, idt_gate_t, "offset_mid16", p / 2 ^ 16 mod 2 ^ 16);
       (g, idt_gate_t, "offset_high32", p / 2 ^ 32); (g, idt_gate_t, "reserved", 0)]%string) /\
  (forall gdt gdtr,
    0 <= gdt < 2 ^ 64 -> mapped (mem s) gdtr 10 ->
    sets (gdt_load gdt gdtr) tt s [(gdtr, gdt_register_t, "limit", 11 * sizeof gdt_entry_t - 1); (gdtr, gdt_register_t, "base", gdt)]%string) /\
  (forall free_list bs live c k,
    heap_ok free_list (mem s) bs live -> 0 < c -> 0 <= k -> c + (24 + k) < 2 ^ 64 -> mapped (mem s) c (24 + k) ->
    (forall r, r ∈ regions free_list bs live -> apart r (c, 24 + k)) ->
    sets (add_block free_list c (24 + k)) tt s
      [(c, alloc_node_t, "size", k); (c, dll_t, "next", free_list); (c, dll_t, "prev", before free_list bs.*1);
       (before free_list bs.*1, dll_t, "next", c); (free_list, dll_t, "prev", c)]%string) /\
  (forall ts t, let t0 := fst (ends ts t) in let e := snd (ends ts t) in
    queue_ok s ts -> thread_at (mem s) t -> rd 1 (mem s) (t + thread_enqueued) = Some 0 -> (forall x, x ∈ ts -> disjoint_threads x t) ->
    sets (sched_enqueue_thread t) true s
      [(t, thread, "enqueued", 1); (t, thread, "prev", e); (t, thread, "next", t0); (e, thread, "next", t); (t0, thread, "prev", t)]%string) /\
  (forall t next prev w,
    thread_at (mem s) t -> thread_at (mem s) next -> thread_at (mem s) prev -> disjoint_threads next t -> disjoint_threads prev t ->
    rd 1 (mem s) (t + thread_enqueued) = Some 1 -> rd 8 (mem s) (t + thread_next) = Some next ->
    rd 8 (mem s) (t + thread_prev) = Some prev -> rd 4 (mem s) (t + thread_lock) = Some w -> next = prev \/ disjoint_threads next prev ->
    sets (dequeue_thread t) true s
      [(t, thread, "running", 0); (t, thread, "enqueued", 0); (prev, thread, "next", next); (next, thread, "prev", prev)]%string).
Proof.
  split; [intros; by apply put_entry_sets|]. split; [intros; by apply encode_sets|]. split; [intros; by apply gdt_load_sets|].
  split; [intros; by eapply add_block_sets|]. split; [intros; by apply enqueue_sets|]. intros. by eapply dequeue_sets.
Qed.

Lemma operations_set_members_witness :
  sets (put_entry 0x1000 (GdtEntry 0xffff 0 0 0x9a 0xcf 0)) tt gdt_machine
    [(0x1000, gdt_entry_t, "limit", 0xffff); (0x1000, gdt_entry_t, "baselow16", 0); (0x1000, gdt_entry_t, "basemid8", 0);
     (0x1000, gdt_entry_t, "access", 0x9a); (0x1000, gdt_entry_t, "granularity", 0xcf); (0x1000, gdt_entry_t, "basehigh8", 0)]%string /\
  sets (dequeue_thread 0x2000) true sched_two
    [(0x2000, thread, "running", 0); (0x2000, thread, "enqueued", 0); (0x1000, thread, "next", 0x1000); (0x1000, thread, "prev", 0x1000)]%string.
Proof.
  destruct gdt_machine_mapped as [Hm _]. unfold sizeof_gdt in Hm. split.
  - destruct (operations_set_members gdt_machine) as [H _]. apply (H 0x1000 (GdtEntry 0xffff 0 0 0x9a 0xcf 0)); [unfold entry_ok; simpl; lia|eapply mapped_sub; [exact Hm|lia|lia]].
  - destruct (qo_threads _ _ sched_two_queue 0x1000) as [T1 _]; [apply elem_of_cons; by left|].
    destruct (qo_threads _ _ sched_two_queue 0x2000) as [T2 _]; [apply elem_of_cons; right; apply elem_of_cons; by left|].
    destruct (operations_set_members sched_two) as (_ & _ & _ & _ & _ & H).
    apply (H 0x2000 0x1000 0x1000 0); [exact T2|exact T1|exact T1|unfold disjoint_threads, sizeof_thread; lia|unfold disjoint_threads, sizeof_thread; lia|..|by left];
      vm_compute; reflexivity.
Defined.

(** * The frame of an interrupt *)

(** The members of the frame and what they hold for an interrupted program. *)
Definition frame_members (c : cpu) (err : Z) : list (string * Z) :=
  [("es", sel c es); ("ds", sel c ds); ("r15", gpr c r15); ("r14", gpr c r14); ("r13", gpr c r13); ("r12", gpr c r12);
   ("r11", gpr c r11); ("r10", gpr c r10); ("r9", gpr c r9); ("r8", gpr c r8); ("rbp", gpr c rbp); ("rdi", gpr c rdi);
   ("rsi", gpr c rsi); ("rdx", gpr c rdx); ("rcx", gpr c rcx); ("rbx", gpr c rbx); ("rax", gpr c rax); ("err", err);
   ("rip", rip c); ("cs", sel c cs); ("rflags", rflags c); ("rsp", gpr c rsp); ("ss", sel c ss)]%string.

Lemma frame_member_at c err i name v :
  frame_members c err !! i = Some (name, v) -> offsetof interrupt_frame name = Some (8 * Z.of_nat i) /\ frame_words c err !! i = Some v.
Proof. intros H. do 23 (destruct i as [|i]; [injection H as <- <-; by split|]). done. Qed.

(** C16: the handler of an interrupt gets its vector and a pointer to an
    [interrupt_frame_t] each member of which holds the register of the interrupted
    program that it is named after; the error code is the processor's, or zero. *)
Theorem isr_stub_frame run ra seg_base isr top err v entry c s lo (base := Z.land top (Z.lnot 0xf)) :
  known v -> cpu_ok c -> 0 <= err < 2 ^ 64 -> 0 <= lo -> lo + 256 <= base -> base < 2 ^ 64 -> mapped (mem s) lo (base - lo) ->
  exists c1 s1, (c0 ← deliver top err v entry c; exec run ra seg_base 0 (isr_enter isr v) c0) s = Ok c1 s1 /\
    gpr c1 rdi = v /\ gpr c1 rbx = u64 (isr + 8 * v) /\ sel c1 cs = 0x28 /\ sel c1 ss = 0x30 /\ Z.testbit (rflags c1) 9 = false /\
    forall name x, (name, x) ∈ frame_members c (code_of v err) ->
      exists off, offsetof interrupt_frame name = Some off /\ rd 8 (mem s1) (gpr c1 rsi + off) = Some x.
Proof.
  intros Hv Hc He Hlo Hb Hb2 Hm.
  destruct (isr_enter_eq run ra seg_base isr top err v entry c s lo [] Hv Hc He Hlo Hb Hb2 Hm)
    as (c1 & s1 & E1 & [_ [W _ _ _] [A1 A2] T (_ & _ & S1 & S2) [F _] _]).
  rewrite app_nil_r in E1. exists c1, s1. do 6 (split; [done|]). intros name x [i Hi]%list_elem_of_lookup.
  apply frame_member_at in Hi as [Ho Hx]. exists (8 * Z.of_nat i). split; [done|]. rewrite A2. by apply W.
Qed.

Lemma isr_stub_frame_witness :
  exists c1 s1, (c0 ← deliver 0x1200 2 14 0x5000 asm_cpu; exec asm_handler 0x6000 (fun _ => 0) 0 (isr_enter 0x1200 14) c0) asm_machine = Ok c1 s1 /\
    gpr c1 rdi = 14 /\ rd 8 (mem s1) (gpr c1 rsi + 136) = Some 2 /\ rd 8 (mem s1) (gpr c1 rsi + 144) = Some 0x4000.
Proof.
  destruct (isr_stub_frame asm_handler 0x6000 (fun _ => 0) 0x1200 0x1200 2 14 0x5000 asm_cpu asm_machine 0x1000) as (c1 & s1 & E & D & _ & _ & _ & _ & H);
    [reflexivity|apply asm_cpu_ok|lia|lia|asm_lia|asm_lia|apply asm_mapped|].
  exists c1, s1. split; [exact E|]. split; [exact D|]. split.
  - destruct (H "err"%string 2) as (off & Ho & Hr); [apply (list_elem_of_lookup_2 _ 17); reflexivity|]. by injection Ho as <-.
  - destruct (H "rip"%string 0x4000) as (off & Ho & Hr); [apply (list_elem_of_lookup_2 _ 18); reflexivity|]. by injection Ho as <-.
Defined.

(** * Modes *)

(** A mode is its type and its permissions; the classes of permissions are made of
    their bits and, with the three other bits, of all that [GETMODE] keeps; and the
    types differ and lie in [S_IFMT]. *)
Theorem mode_parts :
  (forall m, 0 <= m < 2 ^ 16 -> Z.lor (MAKETYPE (GETTYPE m)) (GETMODE m) = m) /\
  Forall (fun p => foldr Z.lor 0 p.2 = p.1) permissions /\
  foldr Z.lor (Z.lor S_ISUID (Z.lor S_ISGID S_ISVTX)) permissions.*1 = GETMODE (-1) /\
  NoDup file_types.*2 /\ Forall (fun x => Z.land x S_IFMT = x /\ MAKETYPE (GETTYPE x) = x) file_types.*2.
Proof.
  split; [|split; [by repeat constructor|split; [done|split; [by apply (bool_decide_unpack _)|by repeat constructor]]]].
  intros m Hm. unfold MAKETYPE, GETTYPE, GETMODE. change 0xf with (Z.ones 4). change 0xfff with (Z.ones 12).
  rewrite <- Z.land_assoc, Z.land_diag, (Z.land_comm (Z.ones 12)), !Z.land_ones, Z.shiftr_div_pow2, Z.shiftl_mul_pow2 by lia.
  rewrite (Z.mod_small (m / 2 ^ 12)) by (split; [apply Z.div_pos; lia|apply Z.div_lt_upper_bound; lia]).
  rewrite (Z.mul_comm (m / 2 ^ 12)), lor_add_disjoint; [|lia|apply Z.mod_pos_bound; lia]. symmetry. apply Z.div_mod. lia.
Qed.
