(* ===== verification/PathSpec.v ===== *)
(** Path lookup: [path_to_node] against a lookup in a tree of names.

    A tree gives the entries of every directory.  [resolve] walks the components of a
    path through it, with the same pair of results as the code; the theorem says that
    [path_to_node] on nodes and hash maps that hold the tree computes it. *)
From S2P Require Import Prelude Machine Lock Str Layout Interfaces KheapSpec Heap Vector VectorSpec Hashmap HashmapSpec Lapic Sched Env Vfs.

(** * Loops that end in another computation *)

Section ends.
Context {X R : Type} (body : X -> K (X + R)).
Implicit Types (x : X) (s : kstate).

Lemma kiter_stops p n x s x' s' :
  rounds body n x s x' s' -> (forall a s'', body x' s' <> Ok a s'') ->
  ((n < Pos.to_nat p)%nat -> kiter p body x s = body x' s') /\
  ((Pos.to_nat p <= n)%nat -> exists x1 s1, kiter p body x s = Ok (inl x1) s1 /\ rounds body (n - Pos.to_nat p) x1 s1 x' s').
Proof.
  intros Hr Hbad. assert (Hb : forall B (f : X + R -> K B), mbind f (body x') s' = match body x' s' with Halt => Halt | Fault => Fault | _ => NoFuel end).
  { intros B f. unfold mbind, K_bind. destruct (body x' s') as [a s''| | |] eqn:E; [by destruct (Hbad a s'')|done..]. }
  assert (Hb' : body x' s' = match body x' s' with Halt => Halt | Fault => Fault | _ => NoFuel end).
  { destruct (body x' s') as [a s''| | |] eqn:E; [by destruct (Hbad a s'')|done..]. }
  revert n x s Hr. induction p as [q IH|q IH|]; intros n x s Hr; simpl kiter.
  - rewrite Pos2Nat.inj_xI. pose proof (Pos2Nat.is_pos q). destruct Hr as [x s|n x s x1 s1 x'' s'' E Hr].
    { split; [intros _; rewrite Hb; by rewrite <- Hb'|lia]. }
    rewrite (bind_Ok _ _ _ _ _ E). destruct (IH n x1 s1 Hr) as [H1 H2].
    destruct (decide (n < Pos.to_nat q)%nat) as [Hn|Hn].
    { split; [intros _|lia]. unfold mbind, K_bind. rewrite (H1 Hn). destruct (body x'' s'') as [a s3| | |] eqn:E3; [by destruct (Hbad a s3)|done..]. }
    destruct H2 as (x2 & s2 & E2 & Hr2); [lia|]. rewrite (bind_Ok _ _ _ _ _ E2).
    destruct (IH _ x2 s2 Hr2) as [H3 H4]. split; [intros; apply H3; lia|].
    intros Hlt. destruct H4 as (x3 & s3 & E3 & Hr3); [lia|]. exists x3, s3. split; [done|].
    by replace (S n - S (2 * Pos.to_nat q))%nat with (n - Pos.to_nat q - Pos.to_nat q)%nat by lia.
  - rewrite Pos2Nat.inj_xO. pose proof (Pos2Nat.is_pos q). destruct (IH n x s Hr) as [H1 H2].
    destruct (decide (n < Pos.to_nat q)%nat) as [Hn|Hn].
    { split; [intros _|lia]. unfold mbind, K_bind. rewrite (H1 Hn). destruct (body x' s') as [a s3| | |] eqn:E3; [by destruct (Hbad a s3)|done..]. }
    destruct H2 as (x2 & s2 & E2 & Hr2); [lia|]. rewrite (bind_Ok _ _ _ _ _ E2).
    destruct (IH _ x2 s2 Hr2) as [H3 H4]. split; [intros; apply H3; lia|].
    intros Hlt. destruct H4 as (x3 & s3 & E3 & Hr3); [lia|]. exists x3, s3. split; [done|].
    by replace (n - 2 * Pos.to_nat q)%nat with (n - Pos.to_nat q - Pos.to_nat q)%nat by lia.
  - change (Pos.to_nat 1) with 1%nat. destruct Hr as [x s|n x s x1 s1 x'' s'' E Hr].
    + split; [done|lia].
    + split; [lia|]. intros _. exists x1, s1. split; [done|]. by replace (S n - 1)%nat with n by lia.
Qed.

Lemma runs_rounds n x s v s' x0 s0 : body x s = Ok (inr v) s' -> rounds body n x0 s0 x s -> runs body (n + 1) x0 s0 v s'.
Proof. intros E Hr. eapply rounds_runs; [exact Hr|]. by constructor. Qed.

(** After [n] rounds the body gets to [s2] and leaves the loop with the result of [c]. *)
Lemma kloop_ends n x s x' s' (c : K R) s2 :
  rounds body n x s x' s' -> body x' s' = (v ← c; mret (inr v)) s2 -> Z.of_nat n < 2 ^ 64 -> kloop body x s = c s2.
Proof.
  intros Hr Hb Hn. unfold mbind, K_bind in Hb. destruct (c s2) as [v s''| | |] eqn:Ec.
  { apply (kloop_runs _ (n + 1)); [by apply (runs_rounds _ x' s')|lia]. }
  all: unfold kloop, mbind, K_bind; destruct (kiter_stops loop_bound n x s x' s' Hr) as [H _]; [intros a s''; by rewrite Hb|];
    rewrite H, Hb; [done|apply Nat2Z.inj_lt; rewrite positive_nat_Z; unfold loop_bound; lia].
Qed.

End ends.

(** * The specification *)

(** The entries of the directories, by the address of their node. *)
Abbreviation tree := (gmap Z (gmap (list byte) Z)).

(** The walk over the components [comps] from the node [cur], where [par] is the last
    directory: the last directory and the node of the path, or [NULL].  [None] is a
    step through something that is no directory. *)
Fixpoint resolve (t : tree) (cur par : Z) (comps : list (list byte)) : option (Z * Z) :=
  match comps with
  | [] => Some (par, cur)
  | c :: cs =>
      match t !! cur with
      | None => None
      | Some M =>
          let n := default 0 (M !! c) in
          if n =? NULL then Some (match cs with [] => (par, NULL) | _ => (NULL, NULL) end)
          else resolve t n (match t !! n with Some _ => n | None => par end) cs
      end
  end.

Definition is_slash (b : byte) : bool := byte_Z b =? slash.
Definition ends_slash (l : list byte) : bool := match list.last l with Some b => is_slash b | None => false end.

(** A path without leading slashes and without one trailing slash. *)
Definition trimmed (l : list byte) : list byte :=
  let r := drop_slashes l in if ends_slash l then take (pred (length r)) r else r.

(** The components of a path; [None] if it has slashes only. *)
Definition path_parts (l : list byte) : option (list (list byte)) :=
  match drop_slashes l with [] => None | _ => Some (split_on [slash_byte] (trimmed l)) end.

Definition absolute (l : list byte) : bool := match l with b :: _ => is_slash b | [] => false end.

(** * Strings of paths *)

Section strings.
Implicit Types (l r : list byte) (s : kstate) (path : Z).

Lemma drop_slashes_split l : exists pre, l = pre ++ drop_slashes l /\ Forall (fun b => is_slash b = true) pre.
Proof.
  induction l as [|b l (pre & E & H)]; [by exists []|]. simpl. destruct (byte_Z b =? slash) eqn:Eb; [|by exists []].
  exists (b :: pre). simpl. rewrite <- E. split; [done|]. by constructor.
Qed.

Lemma drop_slashes_head l b r : drop_slashes l = b :: r -> is_slash b = false.
Proof.
  induction l as [|c l IH]; [done|]. simpl. destruct (byte_Z c =? slash) eqn:E; [done|]. intros [= <- <-]. exact E.
Qed.

Lemma ends_slash_drop l : drop_slashes l <> [] -> ends_slash l = ends_slash (drop_slashes l).
Proof.
  intros Hne. destruct (drop_slashes_split l) as (pre & E & _). unfold ends_slash. rewrite E at 1.
  destruct (drop_slashes l) as [|b r]; [done|]. by rewrite last_app_cons.
Qed.

(** The length of the trimmed path, as the code computes it. *)
Lemma trimmed_length l :
  drop_slashes l <> [] ->
  Z.of_nat (length (trimmed l)) = Z.of_nat (length (drop_slashes l)) - (if ends_slash l then 1 else 0) /\ (0 < length (trimmed l))%nat.
Proof.
  intros Hne. unfold trimmed. destruct (drop_slashes l) as [|b r] eqn:E; [done|]. destruct (ends_slash l) eqn:Es; [|simpl; lia].
  rewrite length_take. rewrite ends_slash_drop in Es by (by rewrite E). rewrite E in Es. destruct r as [|c r]; [|simpl; lia].
  unfold ends_slash in Es. simpl in Es. apply drop_slashes_head in E. congruence.
Qed.

Lemma trimmed_prefix l : exists e, drop_slashes l = trimmed l ++ e.
Proof.
  unfold trimmed. destruct (ends_slash l); [|exists []; by rewrite app_nil_r].
  exists (drop (pred (length (drop_slashes l))) (drop_slashes l)). by rewrite take_drop.
Qed.

(** The loop over the leading slashes, of which those of [dn] are done. *)
Lemma skip_slashes_runs s path len dn todo :
  cstr (mem s) path (dn ++ todo) -> todo <> [] -> len = Z.of_nat (length dn) + Z.of_nat (length todo) -> len < 2 ^ 31 ->
  exists n, (n <= length todo)%nat /\
    runs (skip_slashes path len) n (Z.of_nat (length dn)) s
      (match drop_slashes todo with [] => None | r => Some (len - Z.of_nat (length r)) end) s.
Proof.
  revert dn. induction todo as [|b todo IH]; [done|]. intros dn Hc _ Hl Hlen. simpl length in Hl.
  assert (Hb : mem s !! (path + Z.of_nat (length dn)) = Some b).
  { destruct Hc as [H _]. apply H. rewrite <- app_assoc. by apply list_lookup_middle. }
  assert (E0 : skip_slashes path len (Z.of_nat (length dn)) s =
    Ok (if negb (byte_Z b =? slash) then inr (Some (Z.of_nat (length dn)))
        else if Z.of_nat (length dn) =? u64 (len - 1) then inr None else inl (u64 (Z.of_nat (length dn) + 1))) s).
  { unfold skip_slashes. rewrite (bind_Ok _ _ _ _ _ (ld_byte _ _ _ Hb)). destruct (byte_Z b =? slash); [|done]. simpl. by destruct (_ =? _). }
  simpl drop_slashes. rewrite !u64_small in E0 by lia. destruct (byte_Z b =? slash) eqn:E; simpl in E0.
  - destruct todo as [|c todo].
    + exists 1%nat. split; [simpl; lia|]. apply runs_exit. rewrite E0. simpl in Hl. by destruct (Z.eqb_spec (Z.of_nat (length dn)) (len - 1)); [|lia].
    + destruct (IH (dn ++ [b])) as (n & Hn & Hr); [by rewrite <- app_assoc|done|rewrite length_app; simpl in *; lia|done|].
      exists (S n). split; [simpl in *; lia|]. eapply runs_next; [|exact Hr]. rewrite E0. simpl in Hl. rewrite length_app. simpl length.
      destruct (Z.eqb_spec (Z.of_nat (length dn)) (len - 1)); [lia|]. by rewrite Nat2Z.inj_add.
  - exists 1%nat. split; [simpl; lia|]. apply runs_exit. rewrite E0. simpl length. do 3 f_equal. lia.
Qed.

End strings.

(** * The copy of the path *)

Section copy.
Context `{KH : KernelHeap}.
Implicit Types (s : kstate) (blocks ext : list (Z * Z)) (l : list byte).

Definition owned (rs : list (Z * Z)) (a n : Z) : Prop := forall x, a <= x < a + n -> in_regions rs x.

(** Writing inside the block that was allocated last. *)
Lemma fill_block s blocks ext p k m :
  heap_inv s ((p, k) :: blocks) ext -> same_outside p k (mem s) m ->
  heap_inv (with_mem s m) ((p, k) :: blocks) ext /\ kept (blocks ++ ext) s (with_mem s m).
Proof.
  intros Hi [Hd Ho]. split.
  - apply (hk_write s); [intros x; by rewrite Hd| |done]. intros x Hx. apply Ho. intros Hin. apply Hx. exists (p, k).
    split; [apply elem_of_app; left; apply elem_of_cons; by left|done].
  - intros x Hx. apply Ho. by eapply fresh_outside.
Qed.

Lemma kept_then rs s1 s2 s3 : kept rs s1 s2 -> kept rs s2 s3 -> kept rs s1 s3.
Proof. intros H1 H2 x Hx. by rewrite H2, H1. Qed.

Lemma kept_bytes rs s s' a l : kept rs s s' -> owned rs a (Z.of_nat (length l)) -> bytes_at (mem s) a l -> bytes_at (mem s') a l.
Proof. intros Hk Ho. apply bytes_at_agree. intros x Hx. by apply Hk, Ho. Qed.

(** Bytes of a client are copied to the block. *)
Lemma copy_to_block s blocks ext p k src l :
  heap_inv s ((p, k) :: blocks) ext -> bytes_at (mem s) src l -> owned (blocks ++ ext) src (Z.of_nat (length l)) ->
  0 < src -> Z.of_nat (length l) <= k -> (0 < length l)%nat ->
  exists m, memcpy p src (Z.of_nat (length l)) s = Ok tt (with_mem s m) /\ bytes_at m p l /\ same_outside p (Z.of_nat (length l)) (mem s) m.
Proof.
  intros Hi Hb Ho Hs Hk Hl. destruct (hk_range s _ ext p k Hi) as (P1 & P2 & P3 & P4); [apply elem_of_cons; by left|].
  destruct (memcpy_eq s p src (Z.of_nat (length l))) as (m & E & Hso & Hc); [unfold NULL; lia|unfold NULL; lia|lia| | | |].
  - eapply mapped_sub; [exact P4|lia|lia].
  - by apply bytes_at_mapped.
  - destruct (decide (p <= src)) as [|Hn]; [by left|right]. destruct (decide (src + Z.of_nat (length l) <= p)) as [|Hn2]; [done|].
    exfalso. eapply (fresh_outside s blocks ext p k p Hi); [apply Ho; lia|lia].
  - exists m. split; [done|]. split; [|done]. intros i b Hib. pose proof (lookup_lt_Some _ _ _ Hib). rewrite Hc by lia. by apply Hb.
Qed.

(** The string [c] is in a block of the heap. *)
Record copy_of s blocks ext np k (c : list byte) s1 : Prop := {
  cp_str : cstr (mem s1) np c;
  cp_pos : 0 < np;
  cp_size : Z.of_nat (length c) + 1 <= k;
  cp_inv : heap_inv s1 ((np, k) :: blocks) ext;
  cp_kept : kept (blocks ++ ext) s s1;
  cp_glob : same_globals s s1
}.

Lemma strdup_eq s blocks ext path l :
  cstr (mem s) path l -> Z.of_nat (length l) < 2 ^ 31 -> 0 < path -> owned (blocks ++ ext) path (Z.of_nat (length l) + 1) ->
  heap_ready s blocks ext (Z.of_nat (length l) + 1) ->
  exists np k s1, strdup path s = Ok np s1 /\ copy_of s blocks ext np k l s1.
Proof.
  intros Hc Hl Hp Ho Hr. destruct (hk_alloc _ _ _ _ Hr) as (np & k & s' & E & Hk & Hi & Hkept & Hg).
  destruct (hk_range s' _ ext np k Hi) as (P1 & P2 & P3 & P4); [apply elem_of_cons; by left|].
  pose proof Hc as [Hb Hn]. assert (Hlen : Z.of_nat (length (l ++ [Byte.x00])) = Z.of_nat (length l) + 1) by (rewrite length_app; simpl; lia).
  destruct (copy_to_block s' blocks ext np k path (l ++ [Byte.x00]) Hi) as (m & Em & Hm & Hso); [|by rewrite Hlen|done|lia|rewrite length_app; simpl; lia|].
  { eapply kept_bytes; [exact Hkept|by rewrite Hlen|done]. }
  rewrite Hlen in Em, Hso. destruct (fill_block s' blocks ext np k m Hi) as [Hi2 Hk2].
  { eapply same_outside_weaken; [exact Hso|lia|lia]. }
  exists np, k, (with_mem s' m). split.
  - unfold strdup. rewrite (bind_Ok _ _ _ _ _ (strlen_eq _ _ _ Hc Hl)). rewrite !u64_small by (rewrite ?u64_small; lia).
    rewrite (bind_Ok _ _ _ _ _ E). destruct (Z.eqb_spec np NULL) as [N|_]; [unfold NULL in N; lia|]. by rewrite (bind_Ok _ _ _ _ _ Em).
  - split; [by split|done|lia|done|by eapply kept_then|]. intros v. rewrite gval_with_mem. apply Hg.
Qed.

Lemma drop_slashes_all l : length (drop_slashes l) = length l -> drop_slashes l = l.
Proof.
  intros H. destruct (drop_slashes_split l) as (pre & E & _). pose proof (f_equal length E) as El. rewrite length_app in El.
  destruct pre; [done|simpl in El; lia].
Qed.

(** The last byte of a path. *)
Lemma last_byte m path l :
  cstr m path l -> l <> [] -> exists b, m !! (path + (Z.of_nat (length l) - 1)) = Some b /\ ends_slash l = (byte_Z b =? slash).
Proof.
  intros [H _] Hne. destruct (list.last l) as [b|] eqn:E; [|by apply last_None in E]. exists b. apply last_Some in E as [l' ->].
  rewrite <- app_assoc in H. apply bytes_at_app in H as [_ H]. apply bytes_at_cons in H as [H _]. rewrite length_app. simpl length. split.
  - rewrite <- H. f_equal. lia.
  - unfold ends_slash. by rewrite last_snoc.
Qed.

(** The bytes of the trimmed path within the path. *)
Lemma trimmed_bytes m path l (index := Z.of_nat (length l) - Z.of_nat (length (drop_slashes l))) :
  cstr m path l -> bytes_at m (path + index) (trimmed l) /\ Byte.x00 ∉ trimmed l.
Proof.
  intros [H Hn]. destruct (drop_slashes_split l) as (pre & E & _). destruct (trimmed_prefix l) as (e & Ee).
  assert (Hi : index = Z.of_nat (length pre)) by (pose proof (f_equal length E) as El; rewrite length_app in El; unfold index; lia). rewrite Hi.
  rewrite E, Ee in H, Hn. rewrite <- !app_assoc in H. apply bytes_at_app in H as [_ H]. apply bytes_at_app in H as [H _].
  split; [done|]. rewrite !elem_of_app in Hn. tauto.
Qed.

Lemma path_copy_eq s blocks ext path l :
  cstr (mem s) path l -> Z.of_nat (length l) < 2 ^ 31 -> 0 < path -> owned (blocks ++ ext) path (Z.of_nat (length l) + 1) ->
  drop_slashes l <> [] -> heap_ready s blocks ext (Z.of_nat (length (trimmed l)) + 1) ->
  exists np k s1, path_copy path (Z.of_nat (length l)) (Z.of_nat (length l) - Z.of_nat (length (drop_slashes l))) s = Ok np s1 /\
    copy_of s blocks ext np k (trimmed l) s1.
Proof.
  intros Hc Hl Hp Ho Hne Hr. assert (Hl0 : l <> []) by (by intros ->). set (index := Z.of_nat (length l) - Z.of_nat (length (drop_slashes l))).
  destruct (last_byte _ _ _ Hc Hl0) as (b & Hb & Es). destruct (trimmed_length l Hne) as [Ht Ht0].
  destruct (drop_slashes_split l) as (pre & E & _). assert (Hpre : index = Z.of_nat (length pre)) by (pose proof (f_equal length E) as El; rewrite length_app in El; unfold index; lia).
  unfold path_copy. rewrite (bind_Ok _ _ _ _ _ (ld_byte _ _ _ Hb)). rewrite <- Es.
  assert (Hle : index <= Z.of_nat (length l)) by (unfold index; lia).
  rewrite (u64_small (index + _)) by (destruct (ends_slash l); lia).
  destruct (Z.eqb_spec (index + (if ends_slash l then 1 else 0)) 0) as [Hz|Hz].
  - simpl negb. cbv iota. assert (Hd : drop_slashes l = l) by (apply drop_slashes_all; unfold index in *; destruct (ends_slash l); lia).
    assert (Htl : trimmed l = l) by (unfold trimmed; rewrite Hd; destruct (ends_slash l); [lia|done]).
    rewrite Htl in *. by apply strdup_eq.
  - replace (Z.of_nat (length l) - (index + (if ends_slash l then 1 else 0))) with (Z.of_nat (length (trimmed l))) by (unfold index; lia).
    assert (Hlt : Z.of_nat (length (trimmed l)) <= Z.of_nat (length l)) by (unfold index in Hpre; destruct (ends_slash l); lia).
    rewrite !(u64_small (Z.of_nat _)), (u64_small (Z.of_nat _ + 1)) by lia. destruct (hk_alloc _ _ _ _ Hr) as (np & k & s' & Ea & Hk & Hi & Hkept & Hg).
    destruct (hk_range s' _ ext np k Hi) as (P1 & P2 & P3 & P4); [apply elem_of_cons; by left|].
    destruct (trimmed_bytes _ _ _ Hc) as [Hbt Hnt]. fold index in Hbt.
    assert (Hot : owned (blocks ++ ext) (path + index) (Z.of_nat (length (trimmed l)))).
    { intros x Hx. apply Ho. destruct (ends_slash l); unfold index in *; lia. }
    destruct (copy_to_block s' blocks ext np k (path + index) (trimmed l) Hi) as (m & Em & Hm & Hso); [by eapply kept_bytes|done|lia|lia|done|].
    set (n := Z.of_nat (length (trimmed l))) in *. set (m2 := <[np + n := Byte.x00]> m).
    assert (Hso2 : same_outside np k (mem s') m2).
    { eapply same_outside_weaken; [apply (same_outside_insert _ _ np (n + 1) (np + n))|lia|lia].
      - eapply same_outside_weaken; [exact Hso|lia|lia].
      - apply P4. lia.
      - lia. }
    destruct (fill_block s' blocks ext np k m2 Hi Hso2) as [Hi2 Hk2].
    exists np, k, (with_mem s' m2). split.
    + cbn [negb]. rewrite (bind_Ok _ _ _ _ _ Ea), (bind_Ok _ _ _ _ _ Em). rewrite u64_small by lia.
      rewrite (bind_Ok _ _ _ tt (with_mem s' m2)); [done|]. rewrite st_byte; [done|]. cbn [mem with_mem]. apply Hso. apply P4. lia.
    + split; [|done|done|done|by eapply kept_then|intros v; rewrite gval_with_mem; apply Hg].
      split; [|done]. apply bytes_at_app. cbn [mem with_mem]. split.
      * eapply bytes_at_agree; [|exact Hm]. intros x Hx. unfold m2. by rewrite lookup_insert_ne by lia.
      * apply bytes_at_cons. split; [unfold m2; by rewrite lookup_insert_eq|apply bytes_at_nil].
Qed.

End copy.

(** * Trees in memory *)

Section trees.
Context `{KH : KernelHeap} (heap_free : Z -> K unit) `{LC : LibC} (im : image).
Implicit Types (s : kstate) (blocks ext : list (Z * Z)) (t : tree) (c : list byte) (cs : list (list byte)).

(** The nodes of the directories have hash maps with their entries; the other
    entries are nodes without one. *)
Record tree_at s blocks ext t : Prop := {
  ta_dir n M : t !! n = Some M -> exists ch d bk, ch <> NULL /\ rd 8 (mem s) (n + node_children) = Some ch /\
    hmap s blocks ext ch d bk /\ hm_model d bk M /\ owned (blocks ++ ext) (n + node_children) 8;
  ta_file n M key f : t !! n = Some M -> M !! key = Some f -> f <> NULL -> t !! f = None ->
    rd 8 (mem s) (f + node_children) = Some NULL /\ owned (blocks ++ ext) (f + node_children) 8
}.

Lemma owned_more blocks blocks' ext a n :
  (forall r, r ∈ blocks -> r ∈ blocks') -> owned (blocks ++ ext) a n -> owned (blocks' ++ ext) a n.
Proof.
  intros Hb Ho x Hx. destruct (Ho x Hx) as (r & Hr & Hin). exists r. split; [|done].
  apply elem_of_app. apply elem_of_app in Hr as [Hr|Hr]; [left; by apply Hb|by right].
Qed.

Lemma kept_rd rs s s' (n : nat) a : kept rs s s' -> owned rs a (Z.of_nat n) -> rd n (mem s') a = rd n (mem s) a.
Proof. intros Hk Ho. apply rd_ext. intros x Hx. by apply Hk, Ho. Qed.

Lemma hmap_mem s s' blocks ext h d bk : mem s' = mem s -> hmap s blocks ext h d bk -> hmap s' blocks ext h d bk.
Proof. intros E [H1 H2 H3 H4 H5 H6]. split; by rewrite ?E. Qed.

Lemma tree_kept s s' blocks blocks' ext t :
  tree_at s blocks ext t -> kept (blocks ++ ext) s s' -> (forall r, r ∈ blocks -> r ∈ blocks') -> tree_at s' blocks' ext t.
Proof.
  intros [H1 H2] Hk Hb. split.
  - intros n M Hn. destruct (H1 n M Hn) as (ch & d & bk & Hc & Hr & Hm & Hmod & Ho). exists ch, d, bk. split; [done|].
    split; [by rewrite (kept_rd (blocks ++ ext) s)|]. split; [|split; [done|by eapply owned_more]].
    apply (hmap_mem (with_mem s (mem s'))); [done|]. by eapply hmap_kept.
  - intros n M key f Hn HM Hf Ht. destruct (H2 n M key f Hn HM Hf Ht) as [Hr Ho].
    split; [by rewrite (kept_rd (blocks ++ ext) s)|by eapply owned_more].
Qed.

End trees.

(** * The walk *)

Section walk.
Context `{KH : KernelHeap} (heap_free : Z -> K unit) `{LC : LibC} (im : image).
Context (blocks ext : list (Z * Z)) (t : tree) (np k : Z).
Implicit Types (s : kstate) (c : list byte) (cs : list (list byte)).

(** The block of the copy is nobody else's. *)
Context (Hfresh : forall x, in_regions (blocks ++ ext) x -> ~ (np <= x < np + k)).

(** The string ["/"] and the tree. *)
Record walking s : Prop := {
  wk_slash : cstr (mem s) (lit_slash im) [slash_byte];
  wk_lit : 0 < lit_slash im /\ owned (blocks ++ ext) (lit_slash im) 2;
  wk_tree : tree_at s blocks ext t
}.

(** The components [cs] are still to come from [strtok]. *)
Definition pending s cs : Prop :=
  match cs with
  | [] => gval s g_strtok_s = NULL
  | _ => exists p l, gval s g_strtok_s = p /\ 0 < p /\ np <= p /\ p + Z.of_nat (length l) + 1 <= np + k /\
      Z.of_nat (length l) < 2 ^ 31 /\ cstr (mem s) p l /\ split_on [slash_byte] l = cs
  end.

Lemma kept_outside s s' : same_outside np k (mem s) (mem s') -> kept (blocks ++ ext) s s'.
Proof. intros [_ Ho] x Hx. by apply Ho, Hfresh. Qed.

Lemma walking_kept s s' : walking s -> kept (blocks ++ ext) s s' -> walking s'.
Proof.
  intros [[Hb Hn] [H2 H3] H4] Hk. split; [|done|by eapply tree_kept].
  split; [|done]. eapply kept_bytes; [exact Hk|exact H3|exact Hb].
Qed.

(** A call of [strtok] at the position [p] of the copy. *)
Lemma strtok_next s str p l :
  walking s -> 0 < p -> np <= p -> p + Z.of_nat (length l) + 1 <= np + k -> Z.of_nat (length l) < 2 ^ 31 ->
  cstr (mem s) p l -> str = p \/ str = NULL /\ gval s g_strtok_s = p ->
  exists c cs s', split_on [slash_byte] l = c :: cs /\ strtok str (lit_slash im) s = Ok p s' /\
    cstr (mem s') p c /\ Z.of_nat (length c) < 2 ^ 31 /\ pending s' cs /\ same_outside np k (mem s) (mem s') /\ strtok_frame s s'.
Proof.
  intros [Hsl [Hs0 _] _] Hp Hnp Hpk Hlen Hc Hstr. assert (Hp0 : p <> NULL) by (unfold NULL; lia).
  destruct (split_first [slash_byte] l) as [Hend|(tok & d & rest & -> & Htok & Hd)].
  - destruct (strtok_last str p (lit_slash im) [slash_byte] l s) as (s' & E & Hm & Hg & Hf); [done..|].
    exists l, [], s'. split; [by apply split_on_end|]. split; [done|]. rewrite Hm. split; [done|]. split; [done|].
    split; [done|]. split; [apply same_outside_refl|done].
  - destruct (strtok_first str p (lit_slash im) [slash_byte] tok d rest s) as (s' & E & Hm & Hg & Hf); [done..|].
    destruct (cstr_cut _ _ _ _ _ Hc) as [C1 C2]. rewrite <- Hm in C1, C2. rewrite length_app in *. simpl length in *.
    exists tok, (split_on [slash_byte] rest), s'. split; [by apply split_on_hit|]. split; [done|]. split; [done|]. split; [lia|].
    split; [|split; [|done]].
    + destruct (split_on [slash_byte] rest) as [|c' cs'] eqn:Er; [destruct rest as [|b0 rest]; [done|]; simpl in Er; repeat case_match; done|].
      exists (p + Z.of_nat (length tok) + 1), rest. split; [done|]. do 4 (split; [lia|]). by split.
    + rewrite Hm. apply same_outside_insert; [apply same_outside_refl| |lia].
      destruct Hc as [Hb%bytes_at_mapped _]. apply Hb. rewrite !length_app. simpl. lia.
Qed.

(** The token in [seg]. *)
Definition token s seg cs : Prop :=
  match cs with
  | [] => seg = NULL
  | c :: cs' => 0 < seg /\ cstr (mem s) seg c /\ Z.of_nat (length c) < 2 ^ 31 /\ pending s cs'
  end.

Lemma strtok_pending s cs :
  walking s -> pending s cs ->
  exists seg s', strtok NULL (lit_slash im) s = Ok seg s' /\ same_outside np k (mem s) (mem s') /\ strtok_frame s s' /\ token s' seg cs.
Proof.
  intros Hw Hp. destruct cs as [|c0 cs0].
  - exists NULL, s. split; [by apply strtok_null_done|]. split; [apply same_outside_refl|]. by split; [split|].
  - destruct Hp as (p & l & Hg & H0 & H1 & H2 & H3 & Hc & Hs).
    destruct (strtok_next s NULL p l Hw H0 H1 H2 H3 Hc) as (c & cs & s' & Es & E & Hc' & Hl & Hp & Hso & Hf); [by right|].
    rewrite Hs in Es. injection Es as -> ->. by exists p, s'.
Qed.

(** What the code does with the result of the walk. *)
Definition finish (r : Z * Z) : K (Z * Z) := (if snd r =? NULL then heap_free np else mret tt) ;; mret r.

(** One component. *)
Lemma walk_step s seg cur par c cs M (n := default 0 (M !! c)) :
  walking s -> token s seg (c :: cs) -> t !! cur = Some M ->
  exists seg' s', kept (blocks ++ ext) s s' /\ strtok_frame s s' /\ token s' seg' cs /\
    walk heap_free im np (seg, cur, par) s =
      (if n =? NULL then (v ← finish (match cs with [] => (par, NULL) | _ => (NULL, NULL) end); mret (inr v)) s'
       else Ok (inl (seg', n, match t !! n with Some _ => n | None => par end)) s').
Proof.
  intros Hw (Hs0 & Hc & Hlen & Hp) HM. destruct (ta_dir _ _ _ _ (wk_tree _ Hw) _ _ HM) as (ch & d & bk & Hch & Hr & Hm & Hmod & _).
  destruct (strtok_pending s cs Hw Hp) as (seg' & s' & E & Hso & Hf & Htok). exists seg', s'.
  pose proof (kept_outside _ _ Hso) as Hk. split; [done|]. split; [done|]. split; [done|].
  unfold walk. destruct (Z.eqb_spec seg NULL) as [N|_]; [unfold NULL in N; lia|].
  rewrite (ld_then 8 _ _ _ _ Hr), (bind_Ok _ _ _ _ _ (hashmap_get_eq _ _ _ _ _ _ _ _ Hm Hc Hlen)), (Hmod c). fold n. rewrite (bind_Ok _ _ _ _ _ E).
  destruct (Z.eqb_spec n NULL) as [Hn|Hn]; cbn [negb].
  - assert (Es : negb (seg' =? NULL) = match cs with [] => false | _ => true end).
    { destruct cs as [|c1 cs]; [by rewrite Htok|]. destruct Htok as [H _]. by destruct (Z.eqb_spec seg' NULL) as [N|_]; [unfold NULL in N; lia|]. }
    rewrite Es. unfold finish, mbind, K_bind. destruct cs; cbn [snd]; change (NULL =? NULL) with true; cbv iota; by destruct (heap_free np s').
  - assert (HMc : M !! c = Some n) by (unfold n in *; destruct (M !! c); [done|by simpl in Hn]).
    destruct (t !! n) as [M'|] eqn:Et.
    + destruct (ta_dir _ _ _ _ (wk_tree _ (walking_kept _ _ Hw Hk)) _ _ Et) as (ch' & _ & _ & Hch' & Hr' & _).
      rewrite (ld_then 8 _ _ _ _ Hr'). by destruct (Z.eqb_spec ch' NULL).
    + destruct (ta_file _ _ _ _ (wk_tree _ (walking_kept _ _ Hw Hk)) _ _ _ _ HM HMc Hn Et) as [Hr' _]. by rewrite (ld_then 8 _ _ _ _ Hr').
Qed.

Lemma frame_after s1 s2 s3 :
  kept (blocks ++ ext) s1 s2 -> strtok_frame s1 s2 -> kept (blocks ++ ext) s2 s3 -> strtok_frame s2 s3 ->
  kept (blocks ++ ext) s1 s3 /\ strtok_frame s1 s3.
Proof. intros K1 F1 K2 F2. split; [by eapply kept_then|by eapply strtok_frame_trans]. Qed.

Lemma walk_ends cs : forall c seg cur par s r,
  walking s -> token s seg (c :: cs) -> resolve t cur par (c :: cs) = Some r ->
  exists n x' s' s2, rounds (walk heap_free im np) n (seg, cur, par) s x' s' /\ (n <= S (length cs))%nat /\
    walk heap_free im np x' s' = (v ← finish r; mret (inr v)) s2 /\ kept (blocks ++ ext) s s2 /\ strtok_frame s s2.
Proof.
  induction cs as [|c1 cs IH]; intros c seg cur par s r Hw Htok Hr; simpl in Hr; destruct (t !! cur) as [M|] eqn:HM; try done;
    destruct (walk_step s seg cur par c _ M Hw Htok HM) as (seg' & s' & Hk & Hf & Htok' & E);
    set (n := default 0 (M !! c)) in *; destruct (Z.eqb_spec n NULL) as [Hn|Hn].
  - injection Hr as <-. exists 0%nat, (seg, cur, par), s, s'. split; [constructor|]. split; [lia|]. by split.
  - injection Hr as <-. simpl in Htok'. subst seg'. eexists 1%nat, _, s', s'. split; [eapply rounds_S; [exact E|constructor]|]. split; [simpl; lia|].
    split; [|done]. unfold finish. cbn [snd]. by destruct (Z.eqb_spec n NULL).
  - injection Hr as <-. exists 0%nat, (seg, cur, par), s, s'. split; [constructor|]. split; [lia|]. by split.
  - destruct (IH c1 seg' n (match t !! n with Some _ => n | None => par end) s' r) as (m & x' & s2 & s3 & R & Hm & E3 & K3 & F3);
      [by eapply walking_kept|done|exact Hr|].
    exists (S m), x', s2, s3. split; [by eapply rounds_S|]. split; [simpl; lia|]. split; [done|]. by eapply frame_after.
Qed.

End walk.

(** * [path_to_node] *)

Section path_to_node.
Context `{KH : KernelHeap} (heap_free : Z -> K unit) `{LC : LibC} (im : image).
Implicit Types (s : kstate) (blocks ext : list (Z * Z)) (t : tree) (l : list byte).

(** The path and the literal of the code, in memory that the heap leaves alone. *)
Record path_ok s blocks ext path l : Prop := {
  po_str : cstr (mem s) path l;
  po_pos : 0 < path;
  po_len : l <> [] /\ Z.of_nat (length l) < 2 ^ 31;
  po_own : owned (blocks ++ ext) path (Z.of_nat (length l) + 1);
  po_slash : cstr (mem s) (lit_slash im) [slash_byte];
  po_lit : 0 < lit_slash im /\ owned (blocks ++ ext) (lit_slash im) 2
}.

(** The part of [path_to_node] behind the leading slashes. *)
Lemma walk_path s blocks ext t path l cur par r comps :
  path_ok s blocks ext path l -> tree_at s blocks ext t -> path_parts l = Some comps ->
  heap_ready s blocks ext (Z.of_nat (length (trimmed l)) + 1) -> resolve t cur par comps = Some r ->
  exists np s2,
    (new_path ← path_copy path (Z.of_nat (length l)) (Z.of_nat (length l) - Z.of_nat (length (drop_slashes l)));
     segment ← strtok new_path (lit_slash im);
     kloop (walk heap_free im new_path) (segment, cur, par)) s = finish heap_free np r s2 /\
    kept (blocks ++ ext) s s2 /\ tree_at s2 blocks ext t.
Proof.
  intros [Hc Hp0 [Hne Hlen] Ho Hsl Hlit] Ht Hparts Hr Hres. unfold path_parts in Hparts.
  destruct (drop_slashes l) as [|b0 r0] eqn:Ed; [done|]. injection Hparts as <-. rewrite <- Ed.
  destruct (path_copy_eq s blocks ext path l Hc Hlen Hp0 Ho ltac:(by rewrite Ed) Hr) as (np & k & s1 & E1 & [C1 C2 C3 C4 C5 C6]).
  rewrite (bind_Ok _ _ _ _ _ E1). assert (Hfresh : forall x, in_regions (blocks ++ ext) x -> ~ (np <= x < np + k)) by (intros x; by apply (fresh_outside s1)).
  assert (Hw0 : walking im blocks ext t s) by (by split). pose proof (walking_kept im blocks ext t s s1 Hw0 C5) as Hw1.
  destruct (trimmed_length l ltac:(by rewrite Ed)) as [Htl Htl0]. destruct (drop_slashes_split l) as (pre & El & _). apply (f_equal length) in El. rewrite length_app in El.
  assert (Hlt : Z.of_nat (length (trimmed l)) < 2 ^ 31) by (destruct (ends_slash l); lia).
  destruct (strtok_next im blocks ext t np k s1 np np (trimmed l) Hw1) as (c & cs & s2 & Es & E2 & Hcc & Hcl & Hpend & Hso & Hf);
    [lia|lia|lia|lia|done|by left|]. rewrite (bind_Ok _ _ _ _ _ E2). rewrite Es in Hres.
  pose proof (kept_outside blocks ext np k Hfresh _ _ Hso) as K2.
  destruct (walk_ends heap_free im blocks ext t np k Hfresh cs c np cur par s2 r) as (n & x' & s3 & s4 & R & Hn & E4 & K4 & F4);
    [by eapply walking_kept|by split|done|].
  assert (Hcs : (length cs <= length (trimmed l))%nat).
  { pose proof (f_equal length Es) as Hl. simpl in Hl. clear -Hl. revert Hl. generalize (trimmed l). intros q.
    assert (Hq : forall q, (length (split_on [slash_byte] q) <= S (length q))%nat).
    { induction q0 as [|b q0 IHq]; simpl; [lia|]. case_decide; simpl; [lia|]. destruct (split_on [slash_byte] q0); simpl in *; lia. }
    specialize (Hq q). lia. }
  exists np, s4. assert (K : kept (blocks ++ ext) s s4) by (eapply kept_then; [exact C5|by eapply kept_then]).
  split; [|split; [done|by eapply tree_kept]]. by apply (kloop_ends _ n _ _ x' s3); [|exact E4|lia].
Qed.

Lemma path_to_node_eq s blocks ext t parent path l start rt r (cur := if absolute l then rt else start) :
  path_ok s blocks ext path l -> tree_at s blocks ext t ->
  reduce_node (if parent =? NULL then gval s g_root else parent) s = Ok start s ->
  reduce_node (gval s g_root) s = Ok rt s ->
  heap_ready s blocks ext (Z.of_nat (length (trimmed l)) + 1) ->
  match path_parts l with
  | None => path_to_node heap_free im parent path s = Ok (start, cur) s
  | Some comps =>
      resolve t cur start comps = Some r ->
      exists np s2, path_to_node heap_free im parent path s = ((if snd r =? NULL then heap_free np else mret tt) ;; mret r) s2 /\
        kept (blocks ++ ext) s s2 /\ tree_at s2 blocks ext t
  end.
Proof.
  intros Hpo Ht Hst Hrt Hr. pose proof Hpo as [Hc Hp0 [Hne Hlen] Ho Hsl Hlit].
  assert (E : path_to_node heap_free im parent path s =
    match path_parts l with
    | None => Ok (start, cur) s
    | Some _ => (new_path ← path_copy path (Z.of_nat (length l)) (Z.of_nat (length l) - Z.of_nat (length (drop_slashes l)));
        segment ← strtok new_path (lit_slash im); kloop (walk heap_free im new_path) (segment, cur, start)) s
    end).
  { unfold path_to_node. destruct (Z.eqb_spec path NULL) as [N|_]; [unfold NULL in N; lia|].
    pose proof (strlen_eq _ _ _ Hc Hlen) as Es. rewrite (bind_Ok _ _ s false s).
    2: { rewrite (bind_Ok _ _ _ _ _ Es). destruct l; [done|]. by destruct (Z.eqb_spec (Z.of_nat (length (b :: l))) 0) as [N|_]; [simpl in N; lia|]. }
    rewrite (bind_Ok _ _ _ _ _ Es), u64_small by lia.
    rewrite (bind_Ok _ _ s (if parent =? NULL then gval s g_root else parent) s) by (by destruct (parent =? NULL)).
    rewrite (bind_Ok _ _ _ _ _ Hst). destruct l as [|b l]; [done|]. pose proof (cstr_cons _ _ _ _ Hc) as (Hb & _ & _).
    rewrite (bind_Ok _ _ _ _ _ (ld_byte _ _ _ Hb)).
    rewrite (bind_Ok _ _ s cur s). 2: { unfold cur. simpl. unfold is_slash. destruct (byte_Z b =? slash); [|done]. by rewrite (bind_Ok _ _ s (gval s g_root) s). }
    destruct (skip_slashes_runs s path (Z.of_nat (length (b :: l))) [] (b :: l) Hc) as (n & Hn & Hruns); [done|simpl; lia|done|].
    rewrite (bind_Ok _ _ _ _ _ (kloop_runs _ _ _ _ _ _ Hruns ltac:(lia))). unfold path_parts. by destruct (drop_slashes (b :: l)). }
  rewrite E. destruct (path_parts l) as [comps|] eqn:Ep; [|done]. intros Hres. by eapply walk_path.
Qed.

(** C11: [path_to_node] computes the lookup of the path in the tree that the nodes and
    their hash maps hold.  A path of slashes is the directory itself.  Otherwise the
    components between slashes are looked up one by one, from the root for an
    absolute path; the results are the last directory and the node.  The copy of the
    path is freed only when there is no node, and the tree is as it was. *)
Theorem path_to_node_resolves s blocks ext t parent path l start rt r (cur := if absolute l then rt else start) :
  path_ok s blocks ext path l -> tree_at s blocks ext t ->
  reduce_node (if parent =? NULL then gval s g_root else parent) s = Ok start s ->
  reduce_node (gval s g_root) s = Ok rt s ->
  heap_ready s blocks ext (Z.of_nat (length (trimmed l)) + 1) ->
  match path_parts l with
  | None => path_to_node heap_free im parent path s = Ok (start, cur) s
  | Some comps =>
      resolve t cur start comps = Some r ->
      exists np s2, path_to_node heap_free im parent path s = ((if snd r =? NULL then heap_free np else mret tt) ;; mret r) s2 /\
        kept (blocks ++ ext) s s2 /\ tree_at s2 blocks ext t
  end.
Proof. apply path_to_node_eq. Qed.

(** C37: an absolute path that names nothing in the root: the directory that
    [path_to_node] returns, in which [vfs_create] creates the node, is the one where
    the lookup started and not the root. *)
Theorem path_to_node_absolute_parent s blocks ext t parent path l start rt c M :
  path_ok s blocks ext path l -> tree_at s blocks ext t ->
  reduce_node (if parent =? NULL then gval s g_root else parent) s = Ok start s ->
  reduce_node (gval s g_root) s = Ok rt s ->
  heap_ready s blocks ext (Z.of_nat (length (trimmed l)) + 1) ->
  absolute l = true -> path_parts l = Some [c] -> t !! rt = Some M -> M !! c = None ->
  exists np s2, path_to_node heap_free im parent path s = (heap_free np ;; mret (start, NULL)) s2.
Proof.
  intros Hpo Ht Hst Hrt Hr Ha Hp HM Hc.
  pose proof (path_to_node_eq s blocks ext t parent path l start rt (start, NULL) Hpo Ht Hst Hrt Hr) as H. rewrite Hp, Ha in H.
  destruct H as (np & s2 & E & _); [simpl; by rewrite HM, Hc|]. by exists np, s2.
Qed.

(** A component below something that is no directory: the hash map at address zero is
    read. *)
Theorem walk_through_file_faults s np seg cur par c :
  0 < seg -> cstr (mem s) seg c -> rd 8 (mem s) (cur + node_children) = Some NULL -> rd 8 (mem s) 8 = None ->
  walk heap_free im np (seg, cur, par) s = Fault.
Proof.
  intros Hs Hc Hr Hn. unfold walk. destruct (Z.eqb_spec seg NULL) as [N|_]; [unfold NULL in N; lia|].
  rewrite (ld_then 8 _ _ _ _ Hr). unfold hashmap_get, hashmap_entry_get, mbind, K_bind, ld. change (NULL + 8) with 8. by rewrite Hn.
Qed.

End path_to_node.
