(* ===== verification/PathWitness.v ===== *)
(** The theorems about paths on the heap of [memory/kheap.c] and a small state: the
    root at [0x9100] whose hash map at [0x9000] has one bucket with the entry ["a"],
    the file at [0x9200]; the paths ["/a"] at [0x90b0] and ["/b"] at [0x90d0]. *)
From S2P Require Import Prelude Machine Lock Str Layout Interfaces Pmm PmmSpec Kheap KheapSpec KheapProps KheapFree KheapWitness.
From S2P Require Import Heap KheapHeap Vector VectorSpec VectorWitness Hashmap HashmapSpec HashmapProps Env Vfs PathSpec.

#[local] Existing Instance kheap_heap.
#[local] Instance small_kernel_heap : KernelHeap := kheap_heap 0x10000 0x8000.
#[local] Existing Instance stat_h.

Definition path_mem : gmap Z byte :=
  wr 8 (wr 3 (wr 2 (wr 3 (wr 2 (wr 8 (wr 8 (wr 8 (wr 8 (wr 8 (wr 8 (wr 8 (small_heap_mem ∪ zeros 0x9000 0x400)
    0x9000 0x9040) 0x9008 1) 0x9010 1) 0x9040 0x9060) 0x9068 1) 0x9070 0x90a0) 0x9078 0x9200)
    0x90a0 0x61) 0x90b0 0x612f) 0x90c0 0x2f) 0x90d0 0x622f) 0x9110 0x9000.
Definition path_state : kstate := with_glob (small_state path_mem) g_root 0x9100.
Definition path_regions : list (Z * Z) := [(0x9000, 0x400)].
Definition path_image : image :=
  Build_image 0 0 0 0 0 0 0 0 0 0 0 0 0 0 0 0 0x90c0 0 0 0 0.

Definition name_a : list byte := [Z_byte 0x61].
Definition name_b : list byte := [Z_byte 0x62].
Definition path_buckets : list bucket := [(0, [Entry 0x9060 0x90a0 name_a 0x9200])].
Definition path_tree : tree := {[ 0x9100 := <[name_a := 0x9200]> {[ [] := 0 ]} ]}.

Ltac path_rd :=
  cbn [path_state small_state with_glob mem]; unfold path_mem, small_heap_mem, frame_heap_mem;
  match goal with |- rd _ _ ?a = _ => let b := eval vm_compute in a in change a with b end; mem_rd.

Ltac path_bytes :=
  cbn [path_state small_state with_glob mem]; unfold path_mem;
  generalize (small_heap_mem ∪ zeros 0x9000 0x400); intros m;
  repeat (apply bytes_at_cons; split; [repeat (rewrite lookup_wr_out by lia); rewrite lookup_wr_in by lia; vm_compute; reflexivity|]);
  by apply bytes_at_nil.

Lemma path_in x : 0x9000 <= x < 0x9400 -> in_regions (vec_blocks ++ path_regions) x.
Proof. intros Hx. exists (0x9000, 0x400). split; [apply elem_of_app; right; apply elem_of_cons; by left|simpl; lia]. Qed.

Lemma path_ready n : 0 <= n <= 0x100 -> heap_ready path_state vec_blocks path_regions n.
Proof.
  intros Hn. apply (hk_glob (small_state path_mem)); [intros [H|[H|[H|H]]]; discriminate H|]. exists small_free. split.
  - apply small_client; [|intros r Hr; repeat (apply elem_of_cons in Hr as [->|Hr]); [simpl; lia|by apply elem_of_nil in Hr]].
    intros x Hx. unfold path_mem. rewrite !lookup_wr_out by lia. destruct small_heap_mapped as [M1 M2].
    assert (Hs : is_Some (small_heap_mem !! x)) by (destruct Hx; [apply M2; lia|apply M1; lia]). destruct Hs as [b Hb].
    rewrite (lookup_union_Some_l _ _ x b) by exact Hb. symmetry. exact Hb.
  - split; [lia|]. left. exists [], 0x11000, 0x100, []. split; [done|]. split; [constructor|]. simpl. lia.
Qed.

Lemma path_at i k a kp ky :
  hm_at 0x9040 path_buckets i k = Some (a, kp, ky) ->
  i = 0%nat /\ (k = 0%nat /\ a = 0x9040 /\ kp = NULL /\ ky = [] \/ k = 1%nat /\ a = 0x9060 /\ kp = 0x90a0 /\ ky = name_a).
Proof.
  destruct i as [|i]; [|by destruct i]. destruct k as [|[|k]]; [| |by destruct k].
  - intros [= <- <- <-]. split; [done|]. left. done.
  - intros [= <- <- <-]. split; [done|]. right. done.
Qed.

Lemma path_hmap : hmap path_state vec_blocks path_regions 0x9000 0x9040 path_buckets.
Proof.
  split; [path_rd|path_rd|path_rd| | |].
  - intros [|i] b Hb; [|by destruct i]. injection Hb as <-. split; [split; [simpl; lia|]|split; [split; [simpl; lia|]|done]].
    + split; cbn [e_addr e_kptr e_key e_val sentinel fst length link]; try path_rd. by apply bytes_at_nil.
    + split; cbn [e_addr e_kptr e_key e_val sentinel fst length link]; try path_rd.
      path_bytes.
  - split.
    + intros i k i' k' a kp ky a' kp' ky' H1 H2 Hne. apply path_at in H1 as [-> H1], H2 as [-> H2]. unfold apart. simpl.
      destruct H1 as [(-> & -> & _)|(-> & -> & _)], H2 as [(-> & -> & _)|(-> & -> & _)]; try done; lia.
    + intros i k i' k' a kp ky a' kp' ky' x H1 H2. apply path_at in H1 as [-> H1], H2 as [-> H2].
      destruct H1 as [(-> & -> & -> & ->)|(-> & -> & -> & ->)], H2 as [(-> & -> & _)|(-> & -> & _)]; simpl; unfold NULL; lia.
    + intros i k a kp ky x H1. apply path_at in H1 as [-> H1]. unfold sizeof_hashmap.
      destruct H1 as [(-> & -> & -> & ->)|(-> & -> & -> & ->)]; simpl; unfold NULL; lia.
    + intros i k a kp ky x H1 Hx. apply path_at in H1 as [-> H1]. apply path_in.
      destruct H1 as [(-> & -> & -> & ->)|(-> & -> & -> & ->)]; simpl in Hx; unfold NULL in Hx; lia.
    + intros i k a kp ky H1. apply path_at in H1 as [-> H1]. destruct H1 as [(-> & -> & -> & ->)|(-> & -> & -> & ->)]; lia.
    + intros i k a kp ky H1. apply path_at in H1 as [-> H1]. destruct H1 as [(N & _)|(_ & -> & -> & ->)]; [done|]. split; [done|vm_compute; reflexivity].
    + intros i k k' a kp ky a' kp' H1 H2. apply path_at in H1 as [-> H1], H2 as [_ H2].
      destruct H1 as [(-> & -> & -> & ->)|(-> & -> & -> & ->)], H2 as [(-> & _ & _ & E)|(-> & _ & _ & E)]; done.
    + intros x Hx. unfold sizeof_hashmap in Hx. apply path_in. lia.
  - split; [vm_compute; lia|]. split; [lia|]. vm_compute. reflexivity.
Qed.

Lemma path_model : hm_model 0x9040 path_buckets (<[name_a := 0x9200]> {[ [] := 0 ]}).
Proof.
  intros key. unfold hm_lookup. replace (hm_index (length path_buckets) key) with 0%nat.
  2: { unfold hm_index. simpl length. by rewrite Z.mod_1_r. }
  cbn [path_buckets lookup list_lookup hm_chain chain_find sentinel e_key fst snd].
  destruct (decide ([] = key)) as [<-|H1]; [by rewrite lookup_insert_ne, lookup_singleton_eq by done|].
  destruct (decide (name_a = key)) as [<-|H2]; [by rewrite lookup_insert_eq|]. by rewrite lookup_insert_ne, lookup_singleton_ne by done.
Qed.

Lemma path_tree_at : tree_at path_state vec_blocks path_regions path_tree.
Proof.
  unfold path_tree. split.
  - intros n M [<- <-]%lookup_singleton_Some. exists 0x9000, 0x9040, path_buckets. split; [done|]. split; [path_rd|].
    split; [apply path_hmap|]. split; [apply path_model|]. intros x Hx. apply path_in. lia.
  - intros n M key f [<- <-]%lookup_singleton_Some HM Hf _.
    assert (f = 0x9200) as ->.
    { destruct (decide (key = name_a)) as [->|Hk]; [rewrite lookup_insert_eq in HM; congruence|].
      rewrite lookup_insert_ne in HM by done. apply lookup_singleton_Some in HM as [_ <-]. done. }
    split; [path_rd|]. intros x Hx. apply path_in. lia.
Qed.

Lemma path_reduce : reduce_node 0x9100 path_state = Ok 0x9100 path_state.
Proof.
  apply (kloop_runs _ 1); [|lia]. constructor. unfold reduce_step.
  rewrite (ld_then 8 _ 0); [|path_rd]. simpl. rewrite (ld_then 8 _ 0); [done|path_rd].
Qed.

Lemma path_path p b :
  (p = 0x90b0 /\ b = 0x61) \/ (p = 0x90d0 /\ b = 0x62) ->
  path_ok path_image path_state vec_blocks path_regions p [slash_byte; Z_byte b].
Proof.
  intros Hp. assert (Hlit : cstr (mem path_state) 0x90c0 [slash_byte]) by (split; [unfold slash_byte; simpl app; path_bytes|by apply (bool_decide_unpack _)]).
  destruct Hp as [[-> ->]|[-> ->]]; (split; [split; [simpl app; path_bytes|by apply (bool_decide_unpack _)]|lia|split; [done|simpl; lia]|intros x Hx; simpl in Hx; apply path_in; lia|exact Hlit|]);
    (split; [done|intros x Hx; simpl in Hx; apply path_in; lia]).
Qed.

(** ["/a"] is the file; the copy of the path stays allocated. *)
Lemma path_to_node_resolves_witness :
  exists s2, path_to_node (kheap_free 0x10000 0x8000) path_image NULL 0x90b0 path_state = Ok (0x9100, 0x9200) s2 /\
    tree_at s2 vec_blocks path_regions path_tree.
Proof.
  pose proof (path_to_node_resolves (kheap_free 0x10000 0x8000) path_image path_state vec_blocks path_regions path_tree NULL 0x90b0
    [slash_byte; Z_byte 0x61] 0x9100 0x9100 (0x9100, 0x9200)) as H.
  destruct H as (np & s2 & E & _ & Ht); [apply path_path; by left|apply path_tree_at|apply path_reduce|apply path_reduce|apply path_ready; vm_compute; by split|reflexivity|].
  exists s2. split; [rewrite E; reflexivity|exact Ht].
Defined.

(** ["/b"] is not in the root: the directory returned is the start, at [0x9300]. *)
Lemma path_to_node_absolute_parent_witness :
  exists np s2, path_to_node (kheap_free 0x10000 0x8000) path_image 0x9300 0x90d0 path_state = (kheap_free 0x10000 0x8000 np ;; mret (0x9300, NULL)) s2.
Proof.
  apply (path_to_node_absolute_parent (kheap_free 0x10000 0x8000) path_image path_state vec_blocks path_regions path_tree 0x9300 0x90d0
    [slash_byte; Z_byte 0x62] 0x9300 0x9100 name_b (<[name_a := 0x9200]> {[ [] := 0 ]}));
    [apply path_path; by right|apply path_tree_at| |apply path_reduce|apply path_ready; vm_compute; by split|reflexivity|reflexivity|reflexivity|reflexivity].
  apply (kloop_runs _ 1); [|lia]. constructor. unfold reduce_step.
  rewrite (ld_then 8 _ 0); [|path_rd]. simpl. rewrite (ld_then 8 _ 0); [done|path_rd].
Defined.
