(* ===== verification/UserSpace.v ===== *)
(** Address spaces of programs: writes to memory that is not a table, and the frames that
    the kernel allocates for a program and maps, as [syscall_mmap] and the loader do. *)
From S2P Require Import Prelude Machine Lock Str Interfaces Pmm PmmSpec PageTable Vmm VmmSpec VmmInit.

(** * Several frames at once *)

Lemma calloc_post_nfree_many hhdm s s' f n :
  1 <= f -> 0 <= n -> f + n <= gval s g_limit -> free_run s f n -> calloc_post hhdm s s' f n ->
  pmm_nfree s = (pmm_nfree s' + Z.to_nat n)%nat.
Proof.
  intros Hf Hn Hl Hr P. pose proof (cp_used _ _ _ _ _ P) as Hu. unfold pmm_nfree. rewrite (cp_globals _ _ _ _ _ P).
  set (L := gval s g_limit) in *.
  replace (L - 1) with ((f - 1) + (n + (L - f - n))) by lia. rewrite !seqZ_app by lia.
  replace (1 + (f - 1)) with f by lia. rewrite !list.filter_app, !length_app.
  assert (E1 : forall a k, (a + k <= f \/ f + n <= a) -> 1 <= a -> a + k <= L ->
    filter (fun g => used s' g = false) (seqZ a k) = filter (fun g => used s g = false) (seqZ a k)).
  { intros a k Ha H1 H2. apply filter_iff_elem. intros x Hx%elem_of_seqZ.
    rewrite Hu by lia. by rewrite bool_decide_eq_false_2 by lia. }
  rewrite (E1 1), (E1 (f + n)) by lia.
  rewrite (filter_all _ (seqZ f n)) by (intros x Hx%elem_of_seqZ; apply Hr; lia).
  assert (E2 : filter (fun g => used s' g = false) (seqZ f n) = []).
  { apply elem_of_nil_inv. intros x [Hx Hr']%list_elem_of_filter. apply elem_of_seqZ in Hr'.
    rewrite Hu, bool_decide_eq_true_2 in Hx by lia. done. }
  rewrite E2, length_seqZ. simpl. lia.
Qed.

(** * Writes outside the tables *)

Section spaces.
Context (HHDM_OFFSET : Z).
Implicit Types (s : kstate) (root pm v h x : Z).
Local Abbreviation va := (frame_va HHDM_OFFSET).
Local Abbreviation walk := PageTable.walk.
Local Abbreviation entries := (entries HHDM_OFFSET).
Local Abbreviation outside := (Vmm.outside HHDM_OFFSET).
Local Abbreviation vm_ok := (vm_ok HHDM_OFFSET).
Local Abbreviation space_ok := (space_ok HHDM_OFFSET).
Local Abbreviation evolves := (evolves HHDM_OFFSET).
Local Abbreviation pte_of := (pte_of HHDM_OFFSET).
Local Abbreviation cost := (cost HHDM_OFFSET).
Local Abbreviation translate_of := (translate_of HHDM_OFFSET).
Local Abbreviation owned := (pmm_owned HHDM_OFFSET).

(** The byte at [x] lies in a frame that somebody has, and that is not a table. *)
Definition off_table s root x : Prop := exists h, outside s root h /\ va h <= x < va (h + 1).
Definition off_tables s root a n : Prop := forall x, a <= x < a + n -> off_table s root x.

(** [s'] is [s] but for bytes of [P]. *)
Record touched s s' (P : Z -> Prop) : Prop := {
  to_dom : forall x, is_Some (mem s' !! x) <-> is_Some (mem s !! x);
  to_out : forall x, ~ P x -> mem s' !! x = mem s !! x;
  to_globals : same_globals s s'
}.

Lemma touched_agree s s' root (P : Z -> Prop) : (forall x, P x -> off_table s root x) -> touched s s' P -> pmm_agree s s'.
Proof.
  intros Ho [Hd He Hg]. split; [by intros v _; apply Hg|]. split; [done|]. intros x Hx. apply He. intros Hin.
  destruct (Ho x Hin) as (h & [(_ & _ & _ & Hob) _] & Hh). unfold off_bitmap in Hob. lia.
Qed.

Lemma touched_space s s' root pm (P : Z -> Prop) :
  space_ok s pm root -> (forall x, P x -> off_table s root x) -> touched s s' P -> (forall x, P x -> ~ (pm <= x < pm + 8)) ->
  space_ok s' pm root /\ pmm_nfree s' = pmm_nfree s /\ (forall h, owned s' h <-> owned s h) /\
  (forall q, path 3 q -> walk (entries s') root q = walk (entries s) root q) /\
  (forall v, pte_of s' root v = pte_of s root v).
Proof.
  intros [[Hi Ht] [Hr (hp & Hp & Hp1 & Hp2)] Hl] Ho T Hap.
  destruct (pmm_agree_inv HHDM_OFFSET s s' (touched_agree _ _ _ _ Ho T) Hi) as (Hi' & Hf & Hw).
  assert (He : forall p h j, path 3 p -> walk (entries s) root p = Some h -> index j -> entries s' h j = entries s h j).
  { intros p h j Hp' Hwk Hj. apply entries_ext; [done|]. intros x Hx. apply (to_out _ _ _ T). intros Hin.
    destruct (Ho x Hin) as (h' & [_ Hn] & Hh'). rewrite (frame_disjoint HHDM_OFFSET h h' x Hx Hh') in Hwk. by apply (Hn p). }
  assert (Hwk : forall q, path 3 q -> walk (entries s') root q = walk (entries s) root q).
  { intros q Hq. eapply walk_ext; [done|]. intros p h j [Hp' Hj]%path_snoc Hh. apply (He p); [by apply path_2_3|done|done]. }
  split; [|split; [done|split; [done|split; [done|]]]].
  - split; [split; [done|]| |by rewrite (to_globals _ _ _ T)].
    + destruct Ht as [T1 T2]. split.
      * intros q h Hq. rewrite Hwk by done. intros E. apply Hw. by eapply T1.
      * intros q q' h Hq Hq'. rewrite !Hwk by done. by apply T2.
    + split; [rewrite (rd_ext 8 (mem s)); [done|]; intros x Hx; apply (to_out _ _ _ T); intros Hin; apply (Hap x Hin); lia|].
      exists hp. split; [|done]. destruct Hp as [Hp0 Hpn]. split; [by apply Hw|]. intros q Hq. rewrite Hwk by done. by apply Hpn.
  - intros v. unfold Vmm.pte_of, pte. rewrite Hwk by auto with kernel.
    destruct (walk (entries s) root (dir v)) as [f|] eqn:E; [|done]. apply (He (dir v)); auto with kernel.
Qed.

Lemma touched_outside s s' root pm (P : Z -> Prop) h :
  space_ok s pm root -> (forall x, P x -> off_table s root x) -> touched s s' P -> (forall x, P x -> ~ (pm <= x < pm + 8)) ->
  outside s root h -> outside s' root h.
Proof.
  intros Hs Ho T Hap [Hh Hn]. destruct (touched_space _ _ _ _ _ Hs Ho T Hap) as (_ & _ & Hw & Hk & _).
  split; [by apply Hw|]. intros q Hq. rewrite Hk by done. by apply Hn.
Qed.

Lemma touched_fit s s' root (P : Z -> Prop) k :
  pmm_inv HHDM_OFFSET s -> (forall x, P x -> off_table s root x) -> touched s s' P -> 0 <= k -> no_fit s' k -> no_fit s k.
Proof.
  intros Hi Ho T Hk H g Hg1 Hg2 Hr. apply (H g Hg1); [by rewrite (to_globals _ _ _ T)|].
  intros x Hx. rewrite (used_agree s); [by apply Hr|apply (to_globals _ _ _ T)|lia|].
  destruct (touched_agree _ _ _ _ Ho T) as (_ & _ & Hb). exact Hb.
Qed.

(** The [n] frames from [f] on are new in [s'], and zero. *)
Record new_frames s s' f n : Prop := {
  nf_range : 1 <= f /\ 0x1000 * (f + n) <= 2 ^ 52;
  nf_fresh : forall g, f <= g < f + n -> ~ owned s g;
  nf_owned : forall g, owned s' g <-> owned s g \/ f <= g < f + n;
  nf_zero : forall x, va f <= x < va (f + n) -> mem s' !! x = Some Byte.x00;
  nf_kept : forall h x, owned s h -> va h <= x < va (h + 1) -> mem s' !! x = mem s !! x;
  nf_free : pmm_nfree s = (pmm_nfree s' + Z.to_nat n)%nat
}.

Lemma calloc_frames s pm root n :
  space_ok s pm root -> 1 <= n < 2 ^ 64 -> ~ no_fit s n ->
  exists f s', pmm_calloc HHDM_OFFSET n s = Ok (0x1000 * f) s' /\ new_frames s s' f n /\
    evolves s s' root /\ (forall v, pte_of s' root v = pte_of s root v) /\
    (forall g, f <= g < f + n -> outside s' root g).
Proof.
  intros Hs Hn Hfit. pose proof (sp_vm _ _ _ _ Hs) as [Hi Ht].
  destruct (pmm_calloc_eq HHDM_OFFSET s n Hi Hn) as [(f & s' & Hff & E & P)|[? _]]; [|done].
  pose proof (pi_limit _ _ Hi). pose proof Hff as (H1 & H2 & H3 & _).
  assert (Ho : forall g, owned s' g <-> owned s g \/ f <= g < f + n) by (intros g; by apply calloc_post_owned).
  assert (Hk : forall h x, owned s h -> va h <= x < va (h + 1) -> mem s' !! x = mem s !! x).
  { intros h x (Hh & Hu & _ & Hob) Hx. apply (cp_out _ _ _ _ _ P).
    - intros Hin. assert (f <= h < f + n) by (unfold frame_va in *; lia). rewrite H3 in Hu by done. done.
    - unfold off_bitmap in Hob. lia. }
  exists f, s'. split; [exact E|]. split.
  - split; [lia| |done|apply P|done|by eapply (calloc_post_nfree_many HHDM_OFFSET); try lia].
    intros g Hg (_ & Hu & _). rewrite H3 in Hu by done. done.
  - apply and_assoc. split; [apply evolves_kept; [by split|by eapply calloc_post_inv|by intros h Hh; apply Ho; left|done|apply P| |]|].
    { intros x [Hx1 Hx2]. apply (cp_out _ _ _ _ _ P); [|done]. unfold frame_va in *. lia. }
    { pose proof (calloc_post_nfree_many HHDM_OFFSET s s' f n ltac:(lia) ltac:(lia) H2 H3 P) as Hnf.
      change (fa_free s) with (pmm_nfree s). change (fa_free s') with (pmm_nfree s'). split; [change (pmm_nfree s' <= pmm_nfree s)%nat; lia|].
      intros k Hk'. change (pmm_room s' k). apply (calloc_post_room HHDM_OFFSET s s' f n); [lia|done|done|].
      by replace (Z.to_nat n + k)%nat with (pmm_nfree s - pmm_nfree s' + k)%nat by lia. }
    intros g Hg. split; [apply Ho; by right|]. intros q Hq. rewrite (walk_kept HHDM_OFFSET s s' root) by done.
    intros Eq. destruct (tree_owned _ _ _ Ht q g Hq Eq) as (_ & Hu & _). rewrite H3 in Hu by done. done.
Qed.

Lemma cost_evolves s s' root qs :
  Forall (path 3) qs -> (forall q h, path 3 q -> walk (entries s) root q = Some h -> walk (entries s') root q = Some h) ->
  (cost s' root qs <= cost s root qs)%nat.
Proof.
  intros Hqs Hw. apply subseteq_size. intros q. rewrite !elem_of_missing. intros [Hn Hq]. split; [|done].
  destruct (walk (entries s) root q) as [h|] eqn:E; [|done]. rewrite list.Forall_forall in Hqs. rewrite (Hw q h (Hqs q Hq) E) in Hn. done.
Qed.

(** * Frames for a program *)

(** The [n] pages from [virt] on are the new zeroed frames from [f] on; nothing else of
    the address space, and of the memory that is not a table, has changed. *)
Record mapped_frames s s' root virt n f : Prop := {
  mf_evolves : evolves s s' root;
  mf_range : 1 <= f /\ 0x1000 * (f + n) <= 2 ^ 52;
  mf_fresh : forall g, f <= g < f + n -> ~ owned s g;
  mf_outside : forall g, f <= g < f + n -> outside s' root g;
  mf_zero : forall x, va f <= x < va (f + n) -> mem s' !! x = Some Byte.x00;
  mf_translate : forall v, translate_of s' root v =
    if decide (page_off virt v < n) then Some (0x1000 * (f + page_off virt v) + v mod 0x1000) else translate_of s root v
}.

Lemma frame_of_byte f n x : va f <= x < va (f + n) -> exists g, f <= g < f + n /\ va g <= x < va (g + 1).
Proof. intros Hx. exists (f + (x - va f) / 0x1000). unfold frame_va in *. zlia. Qed.

Lemma map_new_frames s pm root virt flags n qs (reserve : nat) :
  space_ok s pm root -> leaf_flags flags -> 1 <= n <= 2 ^ 36 -> ~ no_fit s n -> Forall (path 3) qs ->
  (reserve + cost s root (page_dirs virt 0 n ++ qs) + Z.to_nat n <= pmm_nfree s)%nat ->
  exists f s1 s2, pmm_calloc HHDM_OFFSET n s = Ok (0x1000 * f) s1 /\ 0x1000 * f <> NULL /\ evolves s s1 root /\
    vmm_map_pages HHDM_OFFSET pm (0x1000 * f) virt flags n s1 = Ok tt s2 /\ mapped_frames s s2 root virt n f /\
    (reserve + cost s2 root qs <= pmm_nfree s2)%nat.
Proof.
  intros Hs Hfl Hn Hfit Hqs Hc. destruct (calloc_frames s pm root n Hs ltac:(lia) Hfit) as (f & s1 & E1 & N & V1 & Hp1 & Hout1).
  destruct (nf_range _ _ _ _ N) as [Hr1 Hr2].
  destruct (map_range HHDM_OFFSET s1 pm root (0x1000 * f) virt flags n qs reserve) as (s2 & E2 & V2 & P2 & C2 & _);
    [by eapply evolves_space|done|lia| |].
  { apply Nat.le_trans with (reserve + cost s root (page_dirs virt 0 n ++ qs))%nat.
    - apply Nat.add_le_mono_l, cost_evolves; [apply Forall_app; split; [apply page_dirs_paths|done]|].
      intros q h Hq Hw. by apply (ev_walk _ _ _ _ V1 q h Hq).
    - pose proof (nf_free _ _ _ _ N). change (reserve + cost s root (page_dirs virt 0 n ++ qs) <= pmm_nfree s1)%nat. lia. }
  exists f, s1, s2. split; [exact E1|]. split; [unfold NULL; lia|]. split; [exact V1|]. split; [exact E2|]. split; [|exact C2].
  split; [by eapply evolves_trans|lia|apply N| | |].
  - intros g Hg. apply (ev_outside _ _ _ _ V2), Hout1, Hg.
  - intros x Hx. destruct (frame_of_byte f n x Hx) as (g & Hg & Hxg).
    rewrite (proj2 (ev_outside _ _ _ _ V2 g (Hout1 g Hg)) x Hxg). by apply (nf_zero _ _ _ _ N).
  - intros v. rewrite !translate_leaf, P2, Hp1. case_decide as Hd; [|done]. pose proof (page_off_range virt v).
    rewrite (u64_small (0x1000 * f + _)) by lia. rewrite leaf_translation_map; [f_equal; lia| |done].
    split; [lia|zlia].
Qed.

(** * A budget of frames *)

(** A run of free frames that is long enough for the missing tables of [qs] and [k]
    frames more. *)
Definition budget s root (qs : list (list Z)) (k : nat) : Prop :=
  exists m, pmm_room s m /\ (cost s root qs + k <= m)%nat.

Lemma room_free s m : pmm_room s m -> (m <= pmm_nfree s)%nat.
Proof.
  intros (a & A1 & A2 & A3). unfold pmm_nfree. set (l := gval s g_limit) in *.
  replace (l - 1) with ((a - 1) + (Z.of_nat m + (l - a - Z.of_nat m))) by lia. rewrite !seqZ_app by lia.
  replace (1 + (a - 1)) with a by lia. rewrite !list.filter_app, !length_app.
  rewrite (filter_all _ (seqZ a _)) by (intros x Hx%elem_of_seqZ; apply A3; lia). rewrite length_seqZ. lia.
Qed.

Lemma room_fit s m n : pmm_room s m -> n <= Z.of_nat m -> ~ no_fit s n.
Proof. intros (a & A1 & A2 & A3) Hn H. apply (H a); [lia|lia|]. intros g Hg. apply A3. lia. Qed.

Lemma budget_mono s root qs k k' : (k' <= k)%nat -> budget s root qs k -> budget s root qs k'.
Proof. intros Hk (m & H1 & H2). exists m. split; [done|lia]. Qed.

Lemma touched_budget s s' root pm (P : Z -> Prop) qs k :
  space_ok s pm root -> (forall x, P x -> off_table s root x) -> touched s s' P -> (forall x, P x -> ~ (pm <= x < pm + 8)) ->
  Forall (path 3) qs -> budget s root qs k -> budget s' root qs k.
Proof.
  intros Hs Ho T Hap Hqs (m & Hm & Hc). destruct (touched_space _ _ _ _ _ Hs Ho T Hap) as (_ & _ & _ & Hw & _).
  exists m. split; [by eapply pmm_agree_room; [eapply touched_agree|]|].
  etrans; [|exact Hc]. apply Nat.add_le_mono_r, cost_evolves; [done|]. intros q h Hq. by rewrite Hw.
Qed.

Lemma map_new_budget s pm root virt flags n qs (k : nat) :
  space_ok s pm root -> leaf_flags flags -> 1 <= n <= 2 ^ 36 -> Forall (path 3) qs ->
  budget s root (page_dirs virt 0 n ++ qs) (Z.to_nat n + k) ->
  exists f s1 s2, pmm_calloc HHDM_OFFSET n s = Ok (0x1000 * f) s1 /\ 0x1000 * f <> NULL /\ evolves s s1 root /\
    vmm_map_pages HHDM_OFFSET pm (0x1000 * f) virt flags n s1 = Ok tt s2 /\ mapped_frames s s2 root virt n f /\
    budget s2 root qs k.
Proof.
  intros Hs Hfl Hn Hqs (m & Hm & Hc). pose proof (room_free s m Hm) as Hf. set (c := cost s root (page_dirs virt 0 n ++ qs)) in *.
  destruct (map_new_frames s pm root virt flags n qs (pmm_nfree s - c - Z.to_nat n)) as (f & s1 & s2 & E1 & Hf0 & V1 & E2 & M & C2);
    [done|done|done|apply (room_fit s m); [done|lia]|done|fold c; lia|].
  exists f, s1, s2. do 5 (split; [done|]). destruct (ev_room _ _ _ _ (mf_evolves _ _ _ _ _ _ M)) as [Hle Hr].
  change (pmm_nfree s2 <= pmm_nfree s)%nat in Hle. exists (m - (pmm_nfree s - pmm_nfree s2))%nat. split; [|lia].
  apply Hr. change (fa_free s) with (pmm_nfree s). change (fa_free s2) with (pmm_nfree s2).
  by replace (pmm_nfree s - pmm_nfree s2 + (m - (pmm_nfree s - pmm_nfree s2)))%nat with m by lia.
Qed.

End spaces.
