(* ===== verification/MmapSpec.v ===== *)
(** The address space that [syscall_mmap] builds: the bitmap allocator, the page
    tables and the process together. *)
From S2P Require Import Prelude Machine Lock Str Layout Interfaces Pmm PmmSpec PageTable Vmm VmmSpec VmmInit UserSpace KheapSpec Heap Vector Hashmap Lapic Sched Env Vfs Syscalls SyscallsSpec.

Section mmap.
Context (HHDM_OFFSET : Z).
Implicit Types (s : kstate) (root pm v h x : Z).
Local Abbreviation va := (frame_va HHDM_OFFSET).
Local Abbreviation outside := (Vmm.outside HHDM_OFFSET).
Local Abbreviation space_ok := (space_ok HHDM_OFFSET).
Local Abbreviation cost := (cost HHDM_OFFSET).
Local Abbreviation translate_of := (translate_of HHDM_OFFSET).
Local Abbreviation owned := (pmm_owned HHDM_OFFSET).
Local Abbreviation off_tables := (off_tables HHDM_OFFSET).

(** * The call *)

Context `{LC : LibC}.
Local Abbreviation mmap := (syscall_mmap HHDM_OFFSET).

(** A word of the kernel's memory that is apart from the tables and the process. *)
Definition kernel_word s root proc a : Prop := off_tables s root a 8 /\ (a + 8 <= proc \/ proc + 64 <= a).

(** The process that calls, with its address space: the structures are in memory that
    somebody has, apart from the tables and from each other. *)
Record caller s (proc pm root base : Z) : Prop := {
  ca_thread : exists thread, rd 8 (mem s) (gval s g_gs_base + cpu_current_thread) = Some thread /\
    rd 8 (mem s) (thread + thread_process) = Some proc /\
    kernel_word s root proc (gval s g_gs_base + cpu_current_thread) /\ kernel_word s root proc (thread + thread_process);
  ca_pagemap : rd 8 (mem s) (proc + process_pagemap) = Some pm;
  ca_anon : rd 8 (mem s) (proc + process_anon_base) = Some base;
  ca_off : off_tables s root proc 64;
  ca_apart : pm + 8 <= proc \/ proc + 64 <= pm;
  ca_space : space_ok s pm root
}.

Definition mmap_pages (length : Z) : Z := ALIGN_UP length FRAME_SIZE / FRAME_SIZE.
Definition fixed (flags : Z) : bool := negb (Z.land flags MAP_FIXED =? 0).
(** The address the call returns and the next address it will choose. *)
Definition mmap_virt (flags hint base : Z) : Z := if fixed flags then hint else base.
Definition mmap_next (flags base n : Z) : Z := if fixed flags then base else u64 (base + u64 (n * FRAME_SIZE)).

Lemma mmap_address_eq s proc pm root base hint length flags n :
  caller s proc pm root base -> (fixed flags = true -> 0 < hint <= USER_SPACE_END) -> 0 < length ->
  exists s1, mmap_address proc hint length flags n s = Ok (Some (mmap_virt flags hint base)) s1 /\
    touched s s1 (fun x => proc + process_anon_base <= x < proc + process_anon_base + 8) /\ trace s1 = trace s /\
    rd 8 (mem s1) (proc + process_anon_base) = Some (mmap_next flags base n).
Proof.
  intros C Hh Hl. unfold mmap_address, mmap_virt, mmap_next. fold (fixed flags). destruct (fixed flags) eqn:Hf.
  - specialize (Hh eq_refl). exists s. rewrite (proj2 (Z.ltb_ge _ _)), (proj2 (Z.eqb_neq length 0)), (proj2 (Z.eqb_neq hint NULL)) by (unfold NULL; lia).
    split; [done|]. split; [done|]. split; [done|apply C].
  - pose proof (ca_anon _ _ _ _ _ C) as Ha. rewrite !(ld_then 8 _ _ _ _ Ha).
    rewrite (bind_Ok _ _ _ _ _ (st_ok 8 _ (u64 (base + u64 (n * FRAME_SIZE))) _ (rd_Some_mapped 8 _ _ _ Ha))).
    eexists. split; [reflexivity|]. split; [|split; [done|]].
    + destruct (same_outside_wr 8 (mem s) (proc + process_anon_base) (u64 (base + u64 (n * FRAME_SIZE))) (rd_Some_mapped 8 _ _ _ Ha)) as [Hd He].
      split; [exact Hd| |done]. intros x Hx. by apply He.
    + cbn [mem with_mem]. rewrite rd_wr_same. f_equal. apply Z.mod_mod. done.
Qed.

Lemma mmap_flags prot :
  0 <= prot < 0x1000 -> leaf_flags (Z.lor (Z.lor (Z.lor (u64 prot) PTE_PRESENT) PTE_WRITABLE) PTE_USER).
Proof.
  intros Hp. rewrite u64_small by lia. rewrite <- !Z.lor_assoc.
  change (Z.lor PTE_PRESENT (Z.lor PTE_WRITABLE PTE_USER)) with 7.
  assert (Hr : forall r, 0 <= r < 8 -> Z.lor r 7 = 7).
  { intros r Hr. assert (r = 0 \/ r = 1 \/ r = 2 \/ r = 3 \/ r = 4 \/ r = 5 \/ r = 6 \/ r = 7) by lia.
    by repeat match goal with H : _ \/ _ |- _ => destruct H as [->|H] end; subst. }
  assert (E : Z.lor prot 7 = 8 * (prot / 8) + 7).
  { transitivity (Z.lor (2 ^ 3 * (prot / 8)) (Z.lor (prot mod 8) 7)).
    - rewrite Z.lor_assoc, lor_add_disjoint by zlia. f_equal. zlia.
    - rewrite Hr by zlia. by apply (lor_add_disjoint (prot / 8) 7 3). }
  rewrite E. split; [zlia|]. split; [apply (addr_mask 0 (8 * (prot / 8) + 7)); zlia|].
  rewrite (Z.land_ones _ 1) by lia. zlia.
Qed.

Lemma mmap_pages_range length : 0 < length < 2 ^ 48 -> 1 <= mmap_pages length <= 2 ^ 36.
Proof. intros H. unfold mmap_pages, FRAME_SIZE. rewrite ALIGN_UP_page by lia. zlia. Qed.

(** The structures of the caller stay what they are when only its next address and
    tables change. *)
Lemma caller_kept s s' proc pm root base next :
  caller s proc pm root base ->
  (forall h x, outside s root h -> va h <= x < va (h + 1) ->
     ~ (proc + process_anon_base <= x < proc + process_anon_base + 8) -> mem s' !! x = mem s !! x) ->
  (forall h, outside s root h -> outside s' root h) -> same_globals s s' -> space_ok s' pm root ->
  rd 8 (mem s') (proc + process_anon_base) = Some next -> caller s' proc pm root next.
Proof.
  intros [(thread & H1 & H2 & [K1 A1] & [K2 A2]) Hp Ha Ho Hap Hs] Hm Hout Hg Hs' Hn.
  assert (Hoff : forall a n, off_tables s root a n -> off_tables s' root a n).
  { intros a n H x Hx. destruct (H x Hx) as (h & Hh & Hxh). by exists h; split; [apply Hout|]. }
  assert (Hrd : forall a, off_tables s root a 8 -> (a + 8 <= proc + process_anon_base \/ proc + process_anon_base + 8 <= a) ->
    rd 8 (mem s') a = rd 8 (mem s) a).
  { intros a H Hne. apply rd_ext. intros x Hx. destruct (H x ltac:(lia)) as (h & Hh & Hxh). apply (Hm h x Hh Hxh). lia. }
  split; [|rewrite Hrd; [done|intros x Hx; apply Ho; lia|lia]|done|by apply Hoff|done|done].
  exists thread. rewrite Hg, !Hrd by (done || lia). split; [done|]. split; [done|]. by split; split; [apply Hoff| |apply Hoff|].
Qed.

(** What a successful call has done: the pages from [virt] on are new zeroed frames, in
    order; every other page, and every byte of the rest of the kernel but the next
    address of the process, is what it was. *)
Record mmapped s s' (proc pm root virt n next : Z) (f : Z) : Prop := {
  mm_caller : caller s' proc pm root next;
  mm_fresh : forall g, f <= g < f + n -> ~ owned s g;
  mm_zero : forall x, va f <= x < va (f + n) -> mem s' !! x = Some Byte.x00;
  mm_translate : forall v, translate_of s' root v =
    if decide (page_off virt v < n) then Some (0x1000 * (f + page_off virt v) + v mod 0x1000) else translate_of s root v;
  mm_kept : forall h x, outside s root h -> va h <= x < va (h + 1) ->
    ~ (proc + process_anon_base <= x < proc + process_anon_base + 8) -> mem s' !! x = mem s !! x
}.

Lemma mmap_eq s proc pm root base hint length prot flags fd off
    (n := mmap_pages length) (virt := mmap_virt flags hint base) :
  caller s proc pm root base -> Z.land flags MAP_ANON <> 0 -> (fixed flags = true -> 0 < hint <= USER_SPACE_END) ->
  0 < length < 2 ^ 48 -> 0 <= prot < 0x1000 -> ~ no_fit s n ->
  (cost s root (page_dirs virt 0 n) + Z.to_nat n <= pmm_nfree s)%nat ->
  exists f s', mmap hint length prot flags fd off s = Ok virt s' /\ mmapped s s' proc pm root virt n (mmap_next flags base n) f.
Proof.
  intros C Ha Hint Hl Hp Hfit Hc. pose proof (mmap_pages_range length Hl) as Hn. fold n in Hn.
  destruct (ca_thread _ _ _ _ _ C) as (thread & Ht1 & Ht2 & _). unfold syscall_mmap.
  rewrite (bind_Ok _ _ _ _ _ (current_thread_eq s _ thread eq_refl Ht1)), (ld_then 8 _ _ _ _ Ht2).
  rewrite (proj2 (Z.eqb_neq _ _) Ha). fold (mmap_pages length). fold n.
  destruct (mmap_address_eq s proc pm root base hint length flags n C Hint (proj1 Hl)) as (s1 & E1 & T & _ & Hnx).
  rewrite (bind_Ok _ _ _ _ _ E1). fold virt.
  assert (Hoff : off_tables s root (proc + process_anon_base) 8) by (intros x Hx; apply (ca_off _ _ _ _ _ C); lia).
  pose proof (ca_space _ _ _ _ _ C) as Hs. pose proof (ca_apart _ _ _ _ _ C).
  assert (Hap : forall x, proc + process_anon_base <= x < proc + process_anon_base + 8 -> ~ (pm <= x < pm + 8)) by lia.
  destruct (touched_space HHDM_OFFSET s s1 root pm _ Hs Hoff T Hap) as (Hs1 & Hf1 & Ho1 & Hw1 & Hp1).
  destruct (map_new_frames HHDM_OFFSET s1 pm root virt _ n [] 0 Hs1 (mmap_flags prot Hp) ltac:(lia)) as (f & s2 & s3 & E2 & Hf0 & V2 & E3 & M & _).
  { intros H'. apply Hfit. apply (touched_fit HHDM_OFFSET s s1 root _ n (proj1 (sp_vm _ _ _ _ Hs)) Hoff T ltac:(lia) H'). }
  { by constructor. }
  { rewrite app_nil_r, Hf1. etrans; [apply Nat.add_le_mono_r|exact Hc]. apply cost_evolves; [apply page_dirs_paths|].
    intros q h Hq. by rewrite Hw1. }
  rewrite (bind_Ok _ _ _ _ _ E2), (proj2 (Z.eqb_neq _ NULL)) by done.
  assert (Hout : forall h, outside s root h -> outside s1 root h) by (intros h; by apply (touched_outside HHDM_OFFSET s s1 root pm _ h Hs Hoff T Hap)).
  assert (Hpm : rd 8 (mem s2) (proc + process_pagemap) = Some pm).
  { rewrite <- (ca_pagemap _ _ _ _ _ C). apply rd_ext. intros x Hx.
    destruct (ca_off _ _ _ _ _ C x ltac:(lia)) as (h & Hh & Hxh). rewrite (proj2 (ev_outside _ _ _ _ V2 h (Hout h Hh)) x Hxh).
    apply (to_out _ _ _ T). lia. }
  rewrite (ld_then 8 _ _ _ _ Hpm), (bind_Ok _ _ _ _ _ E3). exists f, s3. split; [done|]. pose proof (mf_evolves _ _ _ _ _ _ _ M) as V3.
  assert (Hkeep : forall h x, outside s root h -> va h <= x < va (h + 1) -> mem s3 !! x = mem s1 !! x)
    by (intros h x Hh; apply (ev_outside _ _ _ _ V3 h (Hout h Hh))).
  split.
  - apply (caller_kept s s3 proc pm root base); [done| | | | |].
    + intros h x Hh Hx Hn'. rewrite (Hkeep h x Hh Hx). by apply (to_out _ _ _ T).
    + intros h Hh. by apply (ev_outside _ _ _ _ V3), Hout.
    + intros v. by rewrite (ev_globals _ _ _ _ V3), (to_globals _ _ _ T).
    + by eapply evolves_space.
    + rewrite <- Hnx. apply rd_ext. intros x Hx. destruct (Hoff x ltac:(lia)) as (h & Hh & Hxh). by apply (Hkeep h).
  - intros g Hg Hown. apply (mf_fresh _ _ _ _ _ _ _ M g Hg). by apply Ho1.
  - apply M.
  - intros v. rewrite (mf_translate _ _ _ _ _ _ _ M), !translate_leaf. by rewrite Hp1.
  - intros h x Hh Hx Hn'. rewrite (Hkeep h x Hh Hx). by apply (to_out _ _ _ T).
Qed.

(** C21: an anonymous [mmap] with enough frames returns the address that was asked for
    ([MAP_FIXED]) or the next one of the process, which then moves on by the pages of
    the call; the pages from there on translate, in order, to frames that nobody had,
    filled with zeros; every other page translates as before, and no other byte of
    the kernel changes. *)
Theorem syscall_mmap_maps s proc pm root base hint length prot flags fd off
    (n := mmap_pages length) (virt := mmap_virt flags hint base) :
  caller s proc pm root base -> Z.land flags MAP_ANON <> 0 -> (fixed flags = true -> 0 < hint <= USER_SPACE_END) ->
  0 < length < 2 ^ 48 -> 0 <= prot < 0x1000 -> ~ no_fit s n ->
  (cost s root (page_dirs virt 0 n) + Z.to_nat n <= pmm_nfree s)%nat ->
  exists f s', mmap hint length prot flags fd off s = Ok virt s' /\ mmapped s s' proc pm root virt n (mmap_next flags base n) f.
Proof. apply mmap_eq. Qed.

(** C39: [mmap] checks the start of a fixed range and not its end: a range that passes
    the end of the user space is mapped, and the first page of the kernel half, where
    the direct map starts, then translates to a frame of the program. *)
Theorem syscall_mmap_fixed_escapes s proc pm root base hint length prot flags fd off (n := mmap_pages length) :
  caller s proc pm root base -> Z.land flags MAP_ANON <> 0 -> fixed flags = true -> 0 < hint <= USER_SPACE_END ->
  0 < length < 2 ^ 48 -> 0 <= prot < 0x1000 -> ~ no_fit s n ->
  (cost s root (page_dirs hint 0 n) + Z.to_nat n <= pmm_nfree s)%nat ->
  USER_SPACE_END < hint + 0x1000 * (n - 1) ->
  exists f s', mmap hint length prot flags fd off s = Ok hint s' /\
    let g := f + (2 ^ 35 - hint / 0x1000) in
    f <= g < f + n /\ ~ owned s g /\
    forall k, 0 <= k < 0x1000 -> translate_of s' root (0xffff800000000000 + k) = Some (0x1000 * g + k).
Proof.
  intros C Ha Hf Hh Hl Hp Hfit Hc Hend. pose proof (mmap_pages_range length Hl) as Hn. fold n in Hn. unfold USER_SPACE_END in *.
  assert (Ev : mmap_virt flags hint base = hint) by (unfold mmap_virt; by rewrite Hf).
  destruct (mmap_eq s proc pm root base hint length prot flags fd off) as (f & s' & E & M);
    [done|done|by intros _|done|done|done|by rewrite Ev|]. rewrite Ev in E, M. fold n in M.
  exists f, s'. split; [exact E|]. set (g := f + (2 ^ 35 - hint / 0x1000)). cbv zeta. assert (Hg : f <= g < f + n) by (unfold g; zlia).
  split; [exact Hg|]. split; [by apply (mm_fresh _ _ _ _ _ _ _ _ _ M)|]. intros k Hk.
  rewrite (mm_translate _ _ _ _ _ _ _ _ _ M).
  assert (Eo : page_off hint (0xffff800000000000 + k) = 2 ^ 35 - hint / 0x1000).
  { unfold page_off, page. rewrite (Z.mod_small (hint / 0x1000)) by zlia. zlia. }
  rewrite Eo, decide_True by lia. f_equal. zlia.
Qed.

(** The calls that fail before anything is allocated. *)
Theorem syscall_mmap_invalid s thread proc hint length prot flags fd off :
  rd 8 (mem s) (gval s g_gs_base + cpu_current_thread) = Some thread -> rd 8 (mem s) (thread + thread_process) = Some proc ->
  mapped (mem s) (thread + thread_errno) 4 ->
  Z.land flags MAP_ANON = 0 \/ (fixed flags = true /\ (USER_SPACE_END < hint \/ length = 0 \/ hint = NULL)) ->
  exists s', mmap hint length prot flags fd off s = Ok MAP_FAILED s' /\
    same_outside (thread + thread_errno) 4 (mem s) (mem s') /\ same_globals s s' /\
    (Z.land flags MAP_ANON <> 0 -> rd 4 (mem s') (thread + thread_errno) = Some (u32 EINVAL)).
Proof.
  intros Ht Hp Hm Hbad. unfold syscall_mmap. pose proof (current_thread_eq s _ thread eq_refl Ht) as Hcur.
  rewrite (bind_Ok _ _ _ _ _ Hcur), (ld_then 8 _ _ _ _ Hp). destruct (Z.eqb_spec (Z.land flags MAP_ANON) 0) as [Ha|Ha].
  - eexists. split; [reflexivity|]. split; [apply same_outside_refl|]. by split.
  - destruct Hbad as [?|[Hf Hbad]]; [done|]. unfold mmap_address. fold (fixed flags). rewrite Hf.
    assert ((USER_SPACE_END <? hint) || (length =? 0) || (hint =? NULL) = true) as ->.
    { rewrite !orb_true_iff, Z.ltb_lt, !Z.eqb_eq. tauto. }
    rewrite (bind_Ok _ _ _ None _ (bind_Ok _ _ _ _ _ (set_errno_eq s thread EINVAL Hcur Hm))).
    eexists. split; [reflexivity|]. split; [by apply (same_outside_wr 4)|]. split; [done|]. intros _. apply rd_wr4_u32.
Qed.

End mmap.
