(* ===== verification/MmapWitness.v ===== *)
(** A process in a small machine, on which the theorems about [mmap] are applied. *)
From S2P Require Import Prelude Machine Lock Str Interfaces Pmm PmmSpec PageTable Vmm VmmSpec VmmInit UserSpace KheapSpec Heap Lapic Sched Env Syscalls MmapSpec.

(** Twelve frames behind a direct map at [0x10000]: the bitmap in frame 0, an empty root
    table in frame 1; in frame 2 the pagemap, the core, the thread and the process;
    nine free frames. *)
Definition mmap_machine : kstate :=
  let m := wr 1 (zeros 0x10000 (Z.to_nat 0xc000)) 0x10000 7 in
  let m := wr 8 m 0x12000 0x11000 in
  let m := wr 8 m 0x12108 0x12200 in
  let m := wr 8 m 0x12230 0x12300 in
  let m := wr 8 m 0x12308 0x12000 in
  let m := wr 8 m 0x12338 0x80000000000 in
  KState m {[ g_bitmap := 0x10000; g_limit := 12; g_gs_base := 0x12100 ]} [].

Lemma mmap_machine_globals :
  gval mmap_machine g_bitmap = 0x10000 /\ gval mmap_machine g_limit = 12 /\ bitmap_bytes mmap_machine = 2 /\
  gval mmap_machine g_pmm_lock = 0 /\ gval mmap_machine g_vmm_lock = 0 /\ gval mmap_machine g_gs_base = 0x12100.
Proof. by repeat split. Qed.

Lemma mmap_machine_mapped a n : 0x10000 <= a -> a + n <= 0x1c000 -> mapped (mem mmap_machine) a n.
Proof. intros H1 H2. unfold mmap_machine. cbn [mem]. do 6 apply mapped_wr. intros x Hx. apply zeros_mapped. lia. Qed.

Lemma mmap_machine_zero x : 0x10001 <= x < 0x12000 -> mem mmap_machine !! x = Some Byte.x00.
Proof. intros Hx. unfold mmap_machine. cbn [mem]. rewrite !lookup_wr_out by lia. apply zeros_byte. lia. Qed.

Lemma mmap_machine_inv : pmm_inv 0x10000 mmap_machine.
Proof.
  destruct mmap_machine_globals as (Hb & Hl & Hbb & Hp & _).
  split; [split; [done|split; [by rewrite Hl|]]|lia|by rewrite Hl|by rewrite Hl|].
  - rewrite Hb, Hbb. by apply mmap_machine_mapped.
  - intros g Hg _. rewrite Hl in Hg. split.
    + apply mmap_machine_mapped; unfold frame_va, FRAME_SIZE; lia.
    + right. rewrite Hb, Hbb. unfold frame_va. lia.
Qed.

Lemma mmap_machine_owned g : g = 1 \/ g = 2 -> pmm_owned 0x10000 mmap_machine g.
Proof.
  destruct mmap_machine_globals as (Hb & Hl & Hbb & _). intros Hg. split; [rewrite Hl; lia|]. split.
  - destruct Hg as [-> | ->]; vm_compute; reflexivity.
  - split; [apply mmap_machine_mapped; unfold frame_va, FRAME_SIZE; lia|].
    right. rewrite Hb, Hbb. unfold frame_va. lia.
Qed.

Lemma mmap_machine_tree :
  tree (pmm_owned 0x10000 mmap_machine) (entries 0x10000 mmap_machine) 1 /\
  forall q h, path 3 q -> walk (entries 0x10000 mmap_machine) 1 q = Some h -> q = [].
Proof.
  apply empty_tree; [apply mmap_machine_owned; by left|]. intros j Hj. unfold entries. rewrite (rd_zero 8); [done|].
  unfold index, frame_va in *. intros x Hx. apply mmap_machine_zero. lia.
Qed.

Lemma mmap_machine_frame : Vmm.outside 0x10000 mmap_machine 1 2.
Proof.
  split; [apply mmap_machine_owned; by right|]. intros q Hq E.
  pose proof (proj2 mmap_machine_tree q _ Hq E) as ->. discriminate E.
Qed.

Lemma mmap_machine_off a n : 0x12000 <= a -> a + n <= 0x13000 -> off_tables 0x10000 mmap_machine 1 a n.
Proof. intros H1 H2 x Hx. exists 2. split; [apply mmap_machine_frame|]. unfold frame_va. lia. Qed.

Lemma mmap_machine_caller : caller 0x10000 mmap_machine 0x12300 0x12000 1 0x80000000000.
Proof.
  split.
  - exists 0x12200. split; [vm_compute; reflexivity|]. split; [vm_compute; reflexivity|].
    split; (split; [by apply mmap_machine_off|vm_compute; intuition congruence]).
  - vm_compute. reflexivity.
  - vm_compute. reflexivity.
  - by apply mmap_machine_off.
  - lia.
  - split; [split; [apply mmap_machine_inv|apply mmap_machine_tree]| |done].
    split; [vm_compute; reflexivity|]. exists 2. split; [apply mmap_machine_frame|]. unfold frame_va. lia.
Qed.

Lemma mmap_machine_free : pmm_nfree mmap_machine = 9%nat.
Proof. vm_compute. reflexivity. Qed.

Lemma mmap_machine_fit n : 1 <= n <= 2 -> ~ no_fit mmap_machine n.
Proof.
  intros Hn H. destruct mmap_machine_globals as (_ & Hl & _). apply (H 3); [lia|rewrite Hl; lia|].
  intros g Hg. assert (g = 3 \/ g = 4) as [-> | ->] by lia; vm_compute; reflexivity.
Qed.

Lemma mmap_machine_cost qs : (length qs <= 6)%nat -> (cost 0x10000 mmap_machine 1 qs <= 6)%nat.
Proof. intros H. etrans; [apply cost_le_paths|]. etrans; [apply size_list_to_set_le|done]. Qed.

(** One page at an address of the kernel's choice. *)
Lemma syscall_mmap_maps_witness :
  exists f s', syscall_mmap 0x10000 (LC := stat_h) 0 0x800 3 0x20 0 0 mmap_machine = Ok 0x80000000000 s' /\
    mmapped 0x10000 mmap_machine s' 0x12300 0x12000 1 0x80000000000 1 0x80000001000 f.
Proof.
  apply (syscall_mmap_maps 0x10000 (LC := stat_h) mmap_machine 0x12300 0x12000 1 0x80000000000 0 0x800 3 0x20 0 0);
    [apply mmap_machine_caller|vm_compute; discriminate|vm_compute; discriminate|lia|lia|by apply mmap_machine_fit|].
  change (cost 0x10000 mmap_machine 1 (page_dirs 0x80000000000 0 1) + 1 <= pmm_nfree mmap_machine)%nat.
  rewrite mmap_machine_free. pose proof (mmap_machine_cost (page_dirs 0x80000000000 0 1) ltac:(vm_compute; lia)). lia.
Defined.

(** Two pages at the last page of the user space. *)
Lemma syscall_mmap_fixed_escapes_witness :
  exists f s', syscall_mmap 0x10000 (LC := stat_h) 0x7ffffffff000 0x2000 3 0x30 0 0 mmap_machine = Ok 0x7ffffffff000 s' /\
    (f <= f + 1 < f + 2 /\ ~ pmm_owned 0x10000 mmap_machine (f + 1) /\
     forall k, 0 <= k < 0x1000 -> translate_of 0x10000 s' 1 (0xffff800000000000 + k) = Some (0x1000 * (f + 1) + k)).
Proof.
  apply (syscall_mmap_fixed_escapes 0x10000 (LC := stat_h) mmap_machine 0x12300 0x12000 1 0x80000000000 0x7ffffffff000 0x2000 3 0x30 0 0);
    [apply mmap_machine_caller|vm_compute; discriminate|vm_compute; reflexivity|by unfold USER_SPACE_END|lia|lia|by apply mmap_machine_fit| |
     by vm_compute].
  change (cost 0x10000 mmap_machine 1 (page_dirs 0x7ffffffff000 0 2) + 2 <= pmm_nfree mmap_machine)%nat.
  rewrite mmap_machine_free. pose proof (mmap_machine_cost (page_dirs 0x7ffffffff000 0 2) ltac:(vm_compute; lia)). lia.
Defined.
