(* ===== verification/Boot.v ===== *)
(** The memory of the kernel after the boot: [pmm_init], [vmm_init] and [kheap_init], one
    after the other as [_start] calls them, from the bootloader's memory map to the
    translation that the processor uses and the heap that the rest of the kernel is
    built on.  The accesses of the model itself go through the mapping of the
    bootloader; the theorems say what the tables of the kernel make of it. *)
From S2P Require Import Prelude Machine Lock Str Interfaces Pmm PmmSpec PmmInit PageTable Vmm VmmSpec VmmInit Kheap KheapSpec KheapProps.

Section boot.
Context (HHDM_OFFSET : Z).
Implicit Types (s : kstate) (e : memmap_entry).
Local Abbreviation translate_of := (translate_of HHDM_OFFSET).
Local Abbreviation boot_ok := (boot_ok HHDM_OFFSET).

Definition carved l1 e l2 : list memmap_entry := l1 ++ carve (bitmap_size (l1 ++ e :: l2)) e :: l2.

(** The frames that can be handed out one by one. *)
Definition usable_frames l1 e l2 : list Z :=
  filter (fun g => covered (carved l1 e l2) g = true) (seqZ 1 (mm_highest (l1 ++ e :: l2) / FRAME_SIZE - 1)).

(** A kernel image and a direct map that [vmm_init] can map. *)
Record image_ok l1 e l2 (pb vb ke : Z) : Prop := {
  io_hhdm : 2 ^ 20 <= page HHDM_OFFSET <= 2 ^ 36 - 2 ^ 20;
  io_base : page_aligned pb;
  io_size : u64 (ALIGN_UP ke 0x1000 - vb) <= 2 ^ 48;
  io_end : pb + kernel_pages vb ke * 0x1000 <= 2 ^ 52;
  io_frames : (3 + size (list_to_set (boot_dirs HHDM_OFFSET vb ke) : gset (list Z)) <= length (usable_frames l1 e l2))%nat
}.

Lemma built_free s s' l1 e l2 :
  pmm_built HHDM_OFFSET s s' l1 e l2 -> pmm_nfree s' = length (usable_frames l1 e l2).
Proof.
  intros B. unfold pmm_nfree, usable_frames. rewrite <- (pb_limit _ _ _ _ _ _ B). f_equal.
  apply filter_iff_elem. intros g Hg%elem_of_seqZ. rewrite (pb_used _ _ _ _ _ _ B) by lia. unfold carved.
  by destruct (covered _ g).
Qed.

(** The static variable [free_list] as its initialiser leaves it, outside the memory
    that the bootloader's map describes. *)
Record heap_static s (mmaps : list memmap_entry) (free_list : Z) : Prop := {
  hs_next : rd 8 (mem s) free_list = Some free_list;
  hs_prev : rd 8 (mem s) (free_list + 8) = Some free_list;
  hs_range : 0 < free_list /\ free_list + 16 < 2 ^ 64;
  hs_apart : free_list + 16 <= HHDM_OFFSET \/ HHDM_OFFSET + mm_highest mmaps <= free_list;
  hs_lock : gval s g_kheap_lock = 0
}.

(** The translation that [vmm_init] installs. *)
Definition boot_translation (pb vb ke v : Z) : option Z :=
  if decide (1 <= page v < 2 ^ 20) then Some (0x1000 * page v + v mod 0x1000)
  else if decide (1 <= page_off HHDM_OFFSET v < 2 ^ 20) then Some (0x1000 * page_off HHDM_OFFSET v + v mod 0x1000)
  else if decide (page_off vb v < kernel_pages vb ke) then Some (pb + page_off vb v * 0x1000 + v mod 0x1000)
  else None.

Lemma boot_memory_eq s l1 e l2 pb vb ke :
  boot_ok s l1 e l2 -> gval s g_vmm_lock = 0 -> image_ok l1 e l2 pb vb ke ->
  exists s1 root s', pmm_init HHDM_OFFSET 0 (l1 ++ e :: l2) s = Ok (carved l1 e l2) s1 /\
    pmm_built HHDM_OFFSET s s1 l1 e l2 /\ vmm_init HHDM_OFFSET pb vb ke s1 = Ok tt s' /\
    space_ok HHDM_OFFSET s' (gval s' g_kernel_pagemap) root /\ gval s' g_cr3 = 0x1000 * root /\
    (1 <= pmm_nfree s')%nat /\
    ((forall x, pmm_static HHDM_OFFSET s1 x -> mem s' !! x = mem s1 !! x) /\
     forall y : gvar, y <> g_kernel_pagemap -> y <> g_cr3 -> gval s' y = gval s1 y) /\
    forall v, translate_of s' root v = boot_translation pb vb ke v.
Proof.
  intros Hb Hl [I1 I2 I3 I4 I5]. destruct (pmm_init_eq HHDM_OFFSET s l1 e l2 Hb) as (s1 & E & B).
  destruct (vmm_init_maps HHDM_OFFSET s1 pb vb ke 1) as (root & s' & E' & Hs & Hc & Hf & [St Hg] & Ht);
    [apply B|by rewrite (pb_globals _ _ _ _ _ _ B)|done|done|done|done| |by exists s1, root, s'].
  change (3 + size (list_to_set (boot_dirs HHDM_OFFSET vb ke) : gset (list Z)) <= pmm_nfree s1)%nat. by rewrite (built_free _ _ _ _ _ B).
Qed.

(** The memory that the map describes holds the frames and the bitmap. *)
Lemma built_extent s s1 l1 e l2 :
  boot_ok s l1 e l2 -> pmm_built HHDM_OFFSET s s1 l1 e l2 ->
  frame_va HHDM_OFFSET (gval s1 g_limit) <= HHDM_OFFSET + mm_highest (l1 ++ e :: l2) /\
  HHDM_OFFSET <= gval s1 g_bitmap /\
  HHDM_OFFSET + mm_base e + bitmap_size (l1 ++ e :: l2) <= HHDM_OFFSET + mm_highest (l1 ++ e :: l2) /\
  gval s1 g_bitmap + bitmap_bytes s1 <= HHDM_OFFSET + mm_base e + bitmap_size (l1 ++ e :: l2).
Proof.
  intros Hb B. assert (He : e ∈ l1 ++ e :: l2) by (apply elem_of_app; right; apply elem_of_cons; by left).
  destruct (bo_entries _ _ _ _ _ Hb e He (bo_usable _ _ _ _ _ Hb)) as [(He1 & He2 & _) _].
  pose proof (mm_highest_bound _ e He (bo_usable _ _ _ _ _ Hb)). pose proof (bo_room _ _ _ _ _ Hb).
  pose proof (bo_long _ _ _ _ _ Hb). unfold bitmap_bytes. rewrite (pb_limit _ _ _ _ _ _ B), (pb_bitmap _ _ _ _ _ _ B).
  unfold frame_va, FRAME_SIZE in *. split; [zlia|]. split; [lia|]. split; lia.
Qed.

(** What is static for the frame allocator has come through the boot. *)
Lemma boot_heap_ready s l1 e l2 s1 s2 free_list :
  boot_ok s l1 e l2 -> heap_static s (l1 ++ e :: l2) free_list -> pmm_built HHDM_OFFSET s s1 l1 e l2 ->
  pmm_inv HHDM_OFFSET s2 -> (forall x, pmm_static HHDM_OFFSET s1 x -> mem s2 !! x = mem s1 !! x) ->
  (forall y : gvar, y <> g_kernel_pagemap -> y <> g_cr3 -> gval s2 y = gval s1 y) ->
  kheap_inv HHDM_OFFSET free_list s2 [] [].
Proof.
  intros Hb [H1 H2 [H3 H3'] H4 H5] B Hp St Hg. destruct (built_extent _ _ _ _ _ Hb B) as (X1 & X2 & X3 & X4).
  pose proof (pb_bitmap _ _ _ _ _ _ B) as Hbm. pose proof (bo_hhdm _ _ _ _ _ Hb).
  assert (Hm : forall x, free_list <= x < free_list + 16 -> mem s2 !! x = mem s !! x).
  { intros x Hx. rewrite St; [apply (pb_kept _ _ _ _ _ _ B)|split]; unfold frame_va in *; lia. }
  assert (Hr : forall r, r ∈ regions free_list [] [] -> r = (free_list, 16))
    by (intros r [?|(? & [[]%elem_of_nil|[]%elem_of_nil] & _)]%elem_of_regions; done).
  split; [|by rewrite Hg, (pb_globals _ _ _ _ _ _ B)|done| |].
  - apply heap_ok_empty; [rewrite (rd_ext 8 (mem s))..|done|done]; try done; intros x Hx; apply Hm; lia.
  - intros r ->%Hr. unfold apart, bitmap_bytes in *. rewrite !Hg by done. simpl. lia.
  - intros r g ->%Hr. rewrite Hg by done. intros Hgl _. unfold apart, frame_va, FRAME_SIZE in *. simpl. lia.
Qed.

(** [kheap_init] keeps the address spaces. *)
Lemma kheap_init_space s s' fl f pm root :
  space_ok HHDM_OFFSET s pm root -> kheap_inv HHDM_OFFSET fl s [] [] -> kheap_inv HHDM_OFFSET fl s' [grow_block HHDM_OFFSET 0 f] [] ->
  (forall h, pmm_owned HHDM_OFFSET s h -> fl + 16 <= frame_va HHDM_OFFSET h \/ frame_va HHDM_OFFSET (h + 1) <= fl) ->
  same_globals s s' -> same_dom (mem s) (mem s') -> foreign_kept HHDM_OFFSET fl s s' [] [] ->
  (forall g, 0 <= g < gval s g_limit -> used s' g = if decide (g = f) then true else used s g) ->
  space_ok HHDM_OFFSET s' pm root /\ forall v, pte_of HHDM_OFFSET s' root v = pte_of HHDM_OFFSET s root v.
Proof.
  intros Hs Hk Hk' Hfl Hg Hd Hf Hu. apply space_kept; [done|apply Hk'| | |done].
  - intros h (H1 & H2 & H3 & H4). split; [by rewrite Hg|]. split; [rewrite Hu by lia; by case_decide|].
    split; [intros x Hx; by apply Hd, H3|]. unfold off_bitmap, bitmap_bytes in *. by rewrite !Hg.
  - intros h x Hh Hx. apply Hf. specialize (Hfl h Hh). destruct Hh as (H1 & H2 & _ & H4). split; [|split].
    + intros r [->|(? & [[]%elem_of_nil|[]%elem_of_nil] & _)]%elem_of_regions. simpl. lia.
    + unfold off_bitmap in H4. lia.
    + intros g Hgl Hug Hin. assert (g = h) as -> by (unfold frame_va, FRAME_SIZE in *; lia). congruence.
Qed.


(** C40: memory above 4 GiB: [pmm_init] makes its usable frames free, and [vmm_init] does
    not map them, so that the address in the direct map through which the kernel uses
    such a frame has no translation. *)
Theorem boot_high_frames_unmapped s l1 e l2 pb vb ke g :
  boot_ok s l1 e l2 -> gval s g_vmm_lock = 0 -> image_ok l1 e l2 pb vb ke ->
  2 ^ 20 <= g < mm_highest (l1 ++ e :: l2) / FRAME_SIZE -> covered (carved l1 e l2) g = true ->
  2 ^ 20 <= page HHDM_OFFSET + g < 2 ^ 36 -> kernel_pages vb ke <= page_off vb (HHDM_OFFSET + 0x1000 * g) ->
  HHDM_OFFSET mod 0x1000 = 0 ->
  exists s1 root s', pmm_init HHDM_OFFSET 0 (l1 ++ e :: l2) s = Ok (carved l1 e l2) s1 /\ used s1 g = false /\
    vmm_init HHDM_OFFSET pb vb ke s1 = Ok tt s' /\ gval s' g_cr3 = 0x1000 * root /\
    translate_of s' root (HHDM_OFFSET + 0x1000 * g) = None.
Proof.
  intros Hb Hl Hi Hg Hcov Hp Hk Ha. destruct (boot_memory_eq s l1 e l2 pb vb ke Hb Hl Hi) as (s1 & root & s' & E1 & B & E2 & _ & Hc & _ & _ & Ht).
  exists s1, root, s'. split; [done|]. split; [|split; [done|split; [done|]]].
  - rewrite (pb_used _ _ _ _ _ _ B) by (rewrite (pb_limit _ _ _ _ _ _ B); lia). unfold carved in Hcov. by rewrite Hcov.
  - assert (Epg : page (HHDM_OFFSET + 0x1000 * g) = page HHDM_OFFSET + g) by (unfold page in *; zlia).
    assert (Eof : page_off HHDM_OFFSET (HHDM_OFFSET + 0x1000 * g) = g) by (pose proof (page_range HHDM_OFFSET); unfold page_off; rewrite Epg, Z.mod_small; lia).
    rewrite Ht. unfold boot_translation. rewrite Epg, Eof. by rewrite !decide_False by lia.
Qed.

End boot.

(** * A machine with 64 GiB *)

(** Its direct map starts where bootloaders put it. *)
Definition big_hhdm : Z := 0xffff800000000000.

Lemma big_boot_dirs : (length (boot_dirs big_hhdm 0xffffffff80000000 0xffffffff80004000) <= Z.to_nat (2 ^ 23))%nat.
Proof.
  unfold boot_dirs, page_dirs, direct_dirs.
  change (kernel_pages 0xffffffff80000000 0xffffffff80004000) with 4.
  rewrite length_app, (length_bind_const _ 3), (length_bind_const _ 6), !length_seqZ by done. lia.
Qed.

Definition boot_map : memmap_entry := MemmapEntry 0 (2 ^ 36) 0.
(** The static [free_list] in the kernel image. *)
Definition boot_list : Z := 0xffffffff80000000.
Definition boot_machine : kstate :=
  KState (wr 8 (wr 8 (zeros big_hhdm (Z.to_nat (2 ^ 36)) ∪ zeros boot_list 16) boot_list boot_list) (boot_list + 8) boot_list) ∅ [].

Lemma boot_map_size : mm_highest [boot_map] = 2 ^ 36 /\ bitmap_size [boot_map] = 2 ^ 21.
Proof. by split. Qed.

Lemma boot_mapped : mapped (mem boot_machine) (big_hhdm + 0) (2 ^ 36).
Proof.
  unfold boot_machine. cbn [mem]. do 2 apply mapped_wr. intros x Hx. apply lookup_union_is_Some. left.
  apply zeros_mapped. rewrite Z2Nat.id by lia. lia.
Qed.

Lemma boot_machine_ok : boot_ok big_hhdm boot_machine [] boot_map [].
Proof.
  destruct boot_map_size as [H1 H2]. split; cbn [app]; rewrite ?H1, ?H2; [done|done|done| |constructor|done|done| |done].
  - intros d ->%list_elem_of_singleton _. split; [by repeat split|exact boot_mapped].
  - intros d Hd. by apply not_elem_of_nil in Hd.
Qed.

Lemma boot_covered g : 512 <= g < 2 ^ 24 -> covered (carved [] boot_map []) g = true.
Proof.
  intros Hg. unfold carved. cbn [app]. destruct boot_map_size as [_ ->]. unfold covered, carve, entry_frames. cbn [existsb mm_base mm_length mm_type boot_map].
  change ((0 + 2 ^ 21) / FRAME_SIZE) with 512. change ((0 + 2 ^ 21 + (2 ^ 36 - 2 ^ 21)) / FRAME_SIZE) with (2 ^ 24).
  rewrite (proj2 (Z.leb_le _ _)), (proj2 (Z.ltb_lt _ _)) by lia. done.
Qed.

Lemma filter_tail (P : Z -> Prop) `{!forall g, Decision (P g)} k n :
  0 <= k <= n -> (length (filter P (seqZ (1 + k) (n - k))) <= length (filter P (seqZ 1 n)))%nat.
Proof. intros Hk. replace n with (k + (n - k)) at 2 by lia. rewrite seqZ_app, list.filter_app, length_app by lia. lia. Qed.

Lemma boot_image : image_ok big_hhdm [] boot_map [] 0x200000 0xffffffff80000000 0xffffffff80004000.
Proof.
  split; [by split|by unfold page_aligned|done|done|].
  pose proof big_boot_dirs as H. pose proof (size_list_to_set_le (boot_dirs big_hhdm 0xffffffff80000000 0xffffffff80004000)) as H'.
  pose proof (filter_tail (fun g => covered (carved [] boot_map []) g = true) 511 (2 ^ 24 - 1) ltac:(by split)) as Ht.
  rewrite filter_all, length_seqZ in Ht by (intros g Hg%elem_of_seqZ; apply boot_covered; lia).
  unfold usable_frames. cbn [app]. rewrite (proj1 boot_map_size). change (2 ^ 36 / FRAME_SIZE - 1) with (2 ^ 24 - 1). lia.
Qed.

Lemma boot_heap : heap_static big_hhdm boot_machine [boot_map] boot_list.
Proof.
  split; [| |by split|right; rewrite (proj1 boot_map_size); unfold boot_list, big_hhdm; lia|done]; cbn [mem boot_machine].
  - by rewrite rd_wr_ne, rd_wr_same by lia.
  - by rewrite rd_wr_same.
Qed.


Lemma boot_high_frames_unmapped_witness :
  exists s1 root s', pmm_init big_hhdm 0 [boot_map] boot_machine = Ok (carved [] boot_map []) s1 /\ used s1 (2 ^ 21) = false /\
    vmm_init big_hhdm 0x200000 0xffffffff80000000 0xffffffff80004000 s1 = Ok tt s' /\ gval s' g_cr3 = 0x1000 * root /\
    translate_of big_hhdm s' root (big_hhdm + 0x1000 * 2 ^ 21) = None.
Proof.
  apply (boot_high_frames_unmapped big_hhdm boot_machine [] boot_map [] 0x200000 0xffffffff80000000 0xffffffff80004000 (2 ^ 21));
    [apply boot_machine_ok|reflexivity|apply boot_image|by split|by apply boot_covered|by split|done|done].
Defined.
