(* ===== verification/UserStack.v ===== *)
(** The first stack of a program: what [sched_user_thread] leaves on it is the process
    stack of the System V ABI, the number of arguments, the arguments, the environment
    and the auxiliary vector, with the strings above them. *)
From S2P Require Import Prelude Machine Lock Str Layout Interfaces PageTable Vmm KheapSpec Heap Vector Lapic Idt Sched Asm AsmSpec.

(** * Strings and pointers *)

Definition str_size (l : list byte) : Z := Z.of_nat (length l) + 1.
Definition strs_size (strs : list (list byte)) : Z := foldr (fun l n => str_size l + n) 0 strs.

(** The strings are placed one below the other, from [top] down. *)
Fixpoint addresses (top : Z) (strs : list (list byte)) : list Z :=
  match strs with
  | [] => []
  | l :: strs' => (top - str_size l) :: addresses (top - str_size l) strs'
  end.

Lemma strs_size_nonneg strs : 0 <= strs_size strs.
Proof. induction strs as [|l strs IH]; simpl; [lia|]. unfold str_size. lia. Qed.

Lemma addresses_length top strs : length (addresses top strs) = length strs.
Proof. revert top. induction strs as [|l strs IH]; intros top; simpl; [done|]. by rewrite IH. Qed.

Lemma addresses_range top strs : 0 <= top - strs_size strs -> top < 2 ^ 64 -> Forall (fun a => 0 <= a < 2 ^ 64) (addresses top strs).
Proof.
  revert top. induction strs as [|l strs IH]; intros top H1 H2; simpl in *; constructor.
  - pose proof (strs_size_nonneg strs). unfold str_size in *. lia.
  - apply IH; [lia|]. unfold str_size. lia.
Qed.

(** * The vectors of the caller *)

Definition clear_of (lo hi a n : Z) : Prop := a + n <= lo \/ hi <= a.

(** A vector of pointers to strings at [a] that ends in [NULL], as [argv] and [envp] are;
    neither the vector nor a string touches the memory from [lo] to [hi]. *)
Record string_vector (m : gmap Z byte) (lo hi a : Z) (ptrs : list Z) (strs : list (list byte)) : Prop := {
  sv_words : words_at m a (ptrs ++ [NULL]);
  sv_clear : clear_of lo hi a (8 * (Z.of_nat (length ptrs) + 1));
  sv_strings : Forall2 (fun p l => p <> NULL /\ cstr m p l /\ str_size l <= 2 ^ 31 /\ clear_of lo hi p (str_size l)) ptrs strs
}.

Lemma string_vector_length m lo hi a ptrs strs : string_vector m lo hi a ptrs strs -> length ptrs = length strs.
Proof. intros [_ _ H]. by apply Forall2_length in H. Qed.

Lemma string_vector_outside m m' lo hi a ptrs strs b n :
  string_vector m lo hi a ptrs strs -> same_outside b n m m' -> lo <= b -> b + n <= hi -> string_vector m' lo hi a ptrs strs.
Proof.
  intros [H1 H2 H3] Hs Hb Hn. unfold clear_of in *. split; [|done|].
  - apply (words_at_agree m); [|done]. intros x Hx. apply (proj2 Hs). rewrite length_app in Hx. simpl in Hx. lia.
  - eapply list.Forall2_impl; [exact H3|]. intros p l (Hp & Hc & Hl & Ho). split; [done|]. split; [|done].
    eapply cstr_outside; [exact Hs| |exact Hc]. unfold str_size in Ho. lia.
Qed.

(** The rest of a vector behind its first pointer. *)
Lemma string_vector_tail m lo hi a p ptrs l strs :
  string_vector m lo hi a (p :: ptrs) (l :: strs) ->
  rd 8 m a = Some p /\ p <> NULL /\ cstr m p l /\ str_size l <= 2 ^ 31 /\ clear_of lo hi p (str_size l) /\
  string_vector m lo hi (a + 8) ptrs strs.
Proof.
  intros [H1 H2 H3]. apply words_at_cons in H1 as [Hp H1]. apply list.Forall2_cons_1 in H3 as [(H4 & H5 & H6 & H7) H3].
  do 5 (split; [done|]). split; [done| |done]. unfold clear_of in *. cbn [length] in H2. lia.
Qed.

(** * Copying the strings *)

Definition strings_at (m : gmap Z byte) (top : Z) (strs : list (list byte)) : Prop :=
  Forall2 (cstr m) (addresses top strs) strs.

Lemma strings_at_outside m m' top strs b n :
  strings_at m top strs -> same_outside b n m m' -> b + n <= top - strs_size strs \/ top <= b -> strings_at m' top strs.
Proof.
  unfold strings_at. revert top. induction strs as [|l strs IH]; intros top H Hs Hb; simpl in *; [constructor|].
  apply list.Forall2_cons_1 in H as [Hc H]. pose proof (strs_size_nonneg strs). constructor.
  - eapply cstr_outside; [exact Hs| |exact Hc]. unfold str_size in *. lia.
  - apply IH; [done|done|]. unfold str_size in *. lia.
Qed.

(** Memory that is zero. *)
Definition zero_from (m : gmap Z byte) (lo hi : Z) : Prop := forall x, lo <= x < hi -> m !! x = Some Byte.x00.

Lemma zero_from_mapped m lo hi : zero_from m lo hi -> mapped m lo (hi - lo).
Proof. intros H x Hx. rewrite (H x) by lia. by eexists. Qed.

Lemma copied_cstr m m' dest src l :
  copied m m' dest src (Z.of_nat (length l)) -> cstr m src l -> m !! (dest + Z.of_nat (length l)) = Some Byte.x00 -> cstr m' dest l.
Proof.
  intros [Ho Hc] Hs Hz. split; [|apply Hs]. apply bytes_at_app. split.
  - intros i b Hb. pose proof (lookup_lt_Some _ _ _ Hb). rewrite Hc by lia. by apply (bytes_at_cstr _ _ _ Hs).
  - apply bytes_at_cons. split; [|apply bytes_at_nil]. rewrite <- Hz. apply (proj2 Ho). lia.
Qed.

Lemma copy_runs strs ptrs lo hi a i top s :
  string_vector (mem s) lo hi (a + 8 * i) ptrs strs -> zero_from (mem s) (top - strs_size strs) top ->
  lo <= top - strs_size strs -> 0 < lo -> top <= hi -> hi < 2 ^ 64 ->
  exists m', runs (copy_strings a) (S (length strs)) (i, top) s (i + Z.of_nat (length strs), top - strs_size strs) (with_mem s m') /\
    same_outside (top - strs_size strs) (strs_size strs) (mem s) m' /\ strings_at m' top strs.
Proof.
  revert ptrs i top s. induction strs as [|l strs IH]; intros ptrs i top s V Hz Hlo H0 Htop Hhi.
  - pose proof (string_vector_length _ _ _ _ _ _ V) as Hl. destruct ptrs; [|done]. exists (mem s). simpl. rewrite Z.sub_0_r, Z.add_0_r.
    split; [|split; [done|constructor]]. apply runs_exit. unfold copy_strings.
    destruct V as [Hw _ _]. apply words_at_cons in Hw as [Hw _]. rewrite (ld_then 8 _ _ _ _ Hw). by destruct s.
  - destruct ptrs as [|p ptrs]; [by apply string_vector_length in V|].
    apply string_vector_tail in V as (Hp & Hn & Hc & Hl & Ho & V). cbn [strs_size foldr] in *. fold (strs_size strs) in *.
    pose proof (strs_size_nonneg strs) as Hss. unfold str_size in Hl, Ho. set (n := Z.of_nat (length l)) in *.
    assert (Esz : str_size l = n + 1) by reflexivity. rewrite Esz in *. set (top' := top - (n + 1)) in *.
    destruct (memcpy_eq s top' p n) as (m1 & E & C).
    { unfold NULL. lia. } { done. } { lia. }
    { intros x Hx. rewrite Hz by lia. by eexists. }
    { eapply mapped_sub; [apply bytes_at_mapped, (bytes_at_cstr _ _ _ Hc)|lia|fold n; lia]. }
    { unfold clear_of in Ho. lia. }
    assert (Hc1 : cstr m1 top' l) by (eapply copied_cstr; [exact C|exact Hc|apply Hz; fold n; lia]).
    pose proof (proj1 C) as So. replace (a + 8 * i + 8) with (a + 8 * (i + 1)) in V by lia.
    destruct (IH ptrs (i + 1) top' (with_mem s m1)) as (m' & R & Hso & Hst).
    { eapply string_vector_outside; [exact V|exact So|lia|lia]. }
    { intros x Hx. cbn [mem with_mem]. rewrite (proj2 So) by lia. apply Hz. lia. }
    { lia. } { lia. } { lia. } { done. }
    exists m'. cbn [length]. replace (i + Z.of_nat (S (length strs))) with (i + 1 + Z.of_nat (length strs)) by lia.
    replace (top - (n + 1 + strs_size strs)) with (top' - strs_size strs) by lia. split; [|split].
    + eapply runs_next; [|exact R]. unfold copy_strings. rewrite (ld_then 8 _ _ _ _ Hp), (proj2 (Z.eqb_neq _ _) Hn).
      rewrite (bind_Ok _ _ _ _ _ (strlen_eq p l s Hc ltac:(lia))). fold n.
      rewrite (u64_small n) by lia. rewrite (u64_small (top - n - 1)) by lia. replace (top - n - 1) with top' by lia.
      by rewrite (bind_Ok _ _ _ _ _ E).
    + eapply same_outside_trans; [eapply same_outside_weaken; [exact So|lia|lia]|].
      eapply same_outside_weaken; [exact Hso|lia|lia].
    + unfold strings_at. cbn [addresses]. rewrite Esz. fold top'. constructor; [|exact Hst].
      eapply cstr_outside; [exact Hso|lia|exact Hc1].
Qed.

(** * Storing the pointers *)

Lemma store_pointers_eq strs ptrs lo hi a stack i rsp s :
  string_vector (mem s) lo hi (a + 8 * i) ptrs strs ->
  mapped (mem s) (stack + 8 * i) (8 * Z.of_nat (length strs)) ->
  lo <= stack + 8 * i -> stack + 8 * i + 8 * Z.of_nat (length strs) <= hi -> 0 <= stack -> 0 <= i -> hi < 2 ^ 64 ->
  strs_size strs <= rsp < 2 ^ 64 ->
  exists m', store_pointers (length strs) i a stack rsp s = Ok (rsp - strs_size strs) (with_mem s m') /\
    same_outside (stack + 8 * i) (8 * Z.of_nat (length strs)) (mem s) m' /\ words_at m' (stack + 8 * i) (addresses rsp strs).
Proof.
  revert ptrs i rsp s. induction strs as [|l strs IH]; intros ptrs i rsp s V Hm Hlo Hhi Hst Hi Hh Hr.
  - exists (mem s). simpl. rewrite Z.sub_0_r. split; [by destruct s|]. split; [done|apply words_at_nil].
  - destruct ptrs as [|p ptrs]; [by apply string_vector_length in V|].
    apply string_vector_tail in V as (Hp & _ & Hc & Hl & _ & V). cbn [strs_size foldr length store_pointers addresses] in *.
    fold (strs_size strs) in *. pose proof (strs_size_nonneg strs) as Hss. unfold str_size in *. set (n := Z.of_nat (length l)) in *.
    rewrite (ld_then 8 _ _ _ _ Hp), (bind_Ok _ _ _ _ _ (strlen_eq p l s Hc ltac:(lia))). fold n.
    rewrite (u64_small (rsp - (n + 1))), (u64_small (stack + 8 * i)) by lia.
    assert (Hm8 : mapped (mem s) (stack + 8 * i) 8) by (eapply mapped_sub; [exact Hm|lia|lia]).
    rewrite (st_then 8) by exact Hm8. set (m1 := wr 8 (mem s) (stack + 8 * i) (rsp - (n + 1))).
    pose proof (same_outside_wr 8 (mem s) (stack + 8 * i) (rsp - (n + 1)) Hm8) as So. fold m1 in So.
    replace (a + 8 * i + 8) with (a + 8 * (i + 1)) in V by lia.
    destruct (IH ptrs (i + 1) (rsp - (n + 1)) (with_mem s m1)) as (m' & E & Hso & Hw).
    { eapply string_vector_outside; [exact V|exact So|lia|lia]. }
    { eapply same_outside_mapped; [exact So|]. eapply mapped_sub; [exact Hm|lia|lia]. }
    { lia. } { lia. } { lia. } { lia. } { done. } { lia. }
    exists m'. split; [|split].
    + rewrite E. f_equal. lia.
    + eapply same_outside_trans; [eapply same_outside_weaken; [exact So|lia|lia]|eapply same_outside_weaken; [exact Hso|lia|lia]].
    + apply words_at_cons. split; [|by replace (stack + 8 * i + 8) with (stack + 8 * (i + 1)) by lia].
      rewrite (same_outside_rd _ _ _ _ 8 _ Hso) by lia. cbn [mem with_mem]. unfold m1. rewrite rd_wr_same. f_equal. apply Z.mod_small. simpl. lia.
Qed.

(** * The auxiliary vector *)

Section stack.
Context (AT_ENTRY AT_PHDR AT_PHENT AT_PHNUM : Z).

Definition aux_words (entry phdr phent phnum : Z) : list Z :=
  [AT_PHNUM; phnum; AT_PHENT; phent; AT_PHDR; phdr; AT_ENTRY; entry; 0; 0].

Lemma rd_word m a b v : a = b -> 0 <= v < 2 ^ 64 -> rd 8 (wr 8 m a v) b = Some v.
Proof. intros <- Hv. rewrite rd_wr_same. f_equal. by apply Z.mod_small. Qed.

(** Runs a store to, and reads from, a region that is mapped. *)
Ltac stack_st := rewrite (st_then 8) by (cbn [mem with_mem]; repeat apply mapped_wr; eapply mapped_sub; [eassumption|lia|lia]); cbn [mem with_mem].
Ltac stack_rd := repeat first [rewrite rd_word by lia | rewrite rd_wr_ne by lia].
Ltac stack_ld W := match type of W with rd 8 _ ?a = Some ?v => rewrite (ld_then 8 a v) by (cbn [mem with_mem]; stack_rd; exact W) end.

Lemma store_aux_eq s stack aux entry phdr phent phnum :
  mapped (mem s) (stack - 80) 80 -> 80 <= stack < 2 ^ 64 -> words_at (mem s) aux [entry; phdr; phent; phnum] ->
  clear_of (stack - 80) stack aux 32 -> Forall (fun w => 0 <= w < 2 ^ 64) [AT_ENTRY; AT_PHDR; AT_PHENT; AT_PHNUM] ->
  exists m', store_aux AT_ENTRY AT_PHDR AT_PHENT AT_PHNUM stack aux s = Ok (stack - 80) (with_mem s m') /\
    same_outside (stack - 80) 80 (mem s) m' /\ words_at m' (stack - 80) (aux_words entry phdr phent phnum).
Proof.
  intros Hm Hs Hw Hc Hat. unfold clear_of in Hc. unfold store_aux. rewrite !list.Forall_cons in Hat.
  apply words_at_cons in Hw as [W1 Hw]. apply words_at_cons in Hw as [W2 Hw]. apply words_at_cons in Hw as [W3 Hw].
  apply words_at_cons in Hw as [W4 _]. replace (aux + 8 + 8) with (aux + 16) in * by lia. replace (aux + 16 + 8) with (aux + 24) in * by lia.
  pose proof (rd_range 8 _ _ _ W1). pose proof (rd_range 8 _ _ _ W2). pose proof (rd_range 8 _ _ _ W3). pose proof (rd_range 8 _ _ _ W4).
  rewrite !(u64_small (stack - _)), !(u64_small (stack - _ - _)), !(u64_small (stack - _ - _ - _)), !(u64_small (stack - _ - _ - _ - _)) by lia.
  stack_st. stack_st. stack_ld W1. stack_st. stack_st. stack_ld W2. stack_st. stack_st. stack_ld W3. stack_st. stack_st.
  stack_ld W4. stack_st. stack_st. eexists. split; [apply f_equal2; [lia|reflexivity]|]. split.
  - repeat (eapply same_outside_trans; [|eapply same_outside_weaken; [apply same_outside_wr|lia|lia];
      repeat apply mapped_wr; eapply mapped_sub; [exact Hm|lia|lia]]). done.
  - unfold aux_words. repeat (apply words_at_cons; split; [stack_rd; reflexivity|]). apply words_at_nil.
Qed.


(** * The whole stack *)

(** What a program finds from [rsp] on; its strings are where the pointers say. *)
Definition stack_words (rsp : Z) (args envs : list (list byte)) (aux : list Z) : list Z :=
  Z.of_nat (length args) :: (addresses (rsp - strs_size envs) args ++ [0]) ++ (addresses rsp envs ++ [0]) ++ aux.

(** The number of bytes: the strings, rounded up to 16, a word when it is needed for
    the alignment, and the words. *)
Definition stack_count (args envs : list (list byte)) : Z := Z.of_nat (length args) + Z.of_nat (length envs).
Definition stack_size (args envs : list (list byte)) : Z :=
  16 * ((strs_size envs + strs_size args + 15) / 16) + (if stack_count args envs mod 2 =? 0 then 8 else 0) + 8 * (13 + stack_count args envs).

Lemma stack_size_aligned args envs : stack_size args envs mod 16 = 0.
Proof. unfold stack_size. destruct (Z.eqb_spec (stack_count args envs mod 2) 0); zlia. Qed.

Lemma words_at_outside m m' a l b n :
  same_outside b n m m' -> a + 8 * Z.of_nat (length l) <= b \/ b + n <= a -> words_at m a l -> words_at m' a l.
Proof. intros [_ E] H. apply words_at_agree. intros x Hx. apply E. lia. Qed.

Lemma odd_pad c : negb (Z.land (c + 1) 1 =? 0) = (c mod 2 =? 0).
Proof. rewrite (Z.land_ones _ 1) by lia. change (2 ^ 1) with 2. destruct (Z.eqb_spec ((c + 1) mod 2) 0), (Z.eqb_spec (c mod 2) 0); try done; zlia. Qed.

Lemma shift_strings m d top strs : strings_at m (top + d) strs <-> Forall2 (fun p l => cstr m (p + d) l) (addresses top strs) strs.
Proof.
  unfold strings_at. revert top. induction strs as [|l strs IH]; intros top; simpl; [by split; constructor|].
  rewrite !list.Forall2_cons. replace (top + d - str_size l) with (top - str_size l + d) by lia. by rewrite IH.
Qed.

Lemma strs_size_count strs : Z.of_nat (length strs) <= strs_size strs.
Proof. induction strs as [|l strs IH]; simpl; [lia|]. unfold str_size. lia. Qed.

Lemma copy_eq s lo hi a ptrs strs top :
  string_vector (mem s) lo hi a ptrs strs -> zero_from (mem s) (top - strs_size strs) top ->
  lo <= top - strs_size strs -> 0 < lo -> top <= hi -> hi < 2 ^ 64 ->
  exists m', kloop (copy_strings a) (0, top) s = Ok (Z.of_nat (length strs), top - strs_size strs) (with_mem s m') /\
    same_outside (top - strs_size strs) (strs_size strs) (mem s) m' /\ strings_at m' top strs.
Proof.
  intros V Hz Hlo H0 Htop Hhi. pose proof (strs_size_count strs).
  destruct (copy_runs strs ptrs lo hi a 0 top s) as (m' & R & H'); [by rewrite Z.add_0_r|done..|].
  exists m'. split; [|exact H']. eapply kloop_runs; [exact R|lia].
Qed.

(** A block of pointers with its terminator: [*(--stack) = 0], the space, the loop. *)
Lemma store_block s lo hi a ptrs strs stack rsp :
  string_vector (mem s) lo hi a ptrs strs -> mapped (mem s) lo (hi - lo) -> hi < 2 ^ 64 -> 0 <= lo ->
  let n := Z.of_nat (length strs) in
  lo <= stack - 8 - 8 * n -> stack <= hi -> strs_size strs <= rsp < 2 ^ 64 ->
  exists m', (st 8 (stack - 8) 0 ;; store_pointers (Z.to_nat n) 0 a (stack - 8 - 8 * n) rsp) s = Ok (rsp - strs_size strs) (with_mem s m') /\
    same_outside (stack - 8 - 8 * n) (8 + 8 * n) (mem s) m' /\ words_at m' (stack - 8 - 8 * n) (addresses rsp strs ++ [0]).
Proof.
  intros V Hm Hhi H0 n Hlo Hst Hr.
  assert (Hm8 : mapped (mem s) (stack - 8) 8) by (eapply mapped_sub; [exact Hm|lia|lia]).
  rewrite (st_then 8) by exact Hm8. pose proof (same_outside_wr 8 (mem s) (stack - 8) 0 Hm8) as So.
  set (m1 := wr 8 (mem s) (stack - 8) 0) in *.
  destruct (store_pointers_eq strs ptrs lo hi a (stack - 8 - 8 * n) 0 rsp (with_mem s m1)) as (m' & E & Hso & Hw); rewrite ?Z.mul_0_r, ?Z.add_0_r in *.
  { eapply string_vector_outside; [exact V|exact So|lia|lia]. }
  { eapply same_outside_mapped; [exact So|]. fold n. eapply mapped_sub; [exact Hm|lia|lia]. }
  { lia. } { fold n. lia. } { lia. } { lia. } { done. } { done. }
  exists m'. replace (Z.to_nat n) with (length strs) by lia. split; [exact E|]. fold n in Hso. split.
  - eapply same_outside_trans; [eapply same_outside_weaken; [exact So|lia|lia]|eapply same_outside_weaken; [exact Hso|lia|lia]].
  - apply words_at_app. split; [exact Hw|]. rewrite addresses_length. fold n. apply words_at_cons. split; [|apply words_at_nil].
    rewrite (same_outside_rd _ _ _ _ 8 _ Hso) by lia. cbn [mem with_mem]. apply rd_word; lia.
Qed.

(** The copies of all strings, from [top] down. *)
Lemma copies_eq s lo top argv envp aptrs eptrs args envs (base := top - strs_size envs - strs_size args) :
  string_vector (mem s) lo top argv aptrs args -> string_vector (mem s) lo top envp eptrs envs ->
  zero_from (mem s) lo top -> 0 < lo -> lo <= base -> top < 2 ^ 64 ->
  exists m1 m2, kloop (copy_strings envp) (0, top) s = Ok (Z.of_nat (length envs), top - strs_size envs) (with_mem s m1) /\
    kloop (copy_strings argv) (0, top - strs_size envs) (with_mem s m1) = Ok (Z.of_nat (length args), base) (with_mem s m2) /\
    same_outside base (top - base) (mem s) m2 /\ strings_at m2 top envs /\ strings_at m2 (top - strs_size envs) args.
Proof.
  intros VA VE Hz H0 Hlo Htop. pose proof (strs_size_nonneg envs). pose proof (strs_size_nonneg args).
  destruct (copy_eq s lo top envp eptrs envs top VE) as (m1 & E1 & S1 & T1); [intros x Hx; apply Hz; lia|lia|lia|lia|done|].
  destruct (copy_eq (with_mem s m1) lo top argv aptrs args (top - strs_size envs)) as (m2 & E2 & S2 & T2).
  { eapply string_vector_outside; [exact VA|exact S1|lia|lia]. }
  { intros x Hx. cbn [mem with_mem]. rewrite (proj2 S1) by lia. apply Hz. lia. }
  { lia. } { lia. } { lia. } { done. }
  exists m1, m2. split; [exact E1|]. split; [exact E2|]. cbn [mem with_mem] in S2. split; [|split; [|exact T2]].
  - eapply same_outside_trans; eapply same_outside_weaken; [exact S1|lia|lia|exact S2|lia|lia].
  - eapply strings_at_outside; [exact T1|exact S2|lia].
Qed.

(** The part of [build_stack] behind the copies. *)
Definition build_vectors (na ne stack top rsp argv envp aux : Z) : K Z :=
  stack ← store_aux AT_ENTRY AT_PHDR AT_PHENT AT_PHNUM stack aux;
  st 8 (u64 (stack - 8)) 0 ;;
  let stack := u64 (stack - 8 - 8 * ne) in
  old_rsp ← store_pointers (Z.to_nat ne) 0 envp stack rsp;
  st 8 (u64 (stack - 8)) 0 ;;
  let stack := u64 (stack - 8 - 8 * na) in
  store_pointers (Z.to_nat na) 0 argv stack old_rsp ;;
  let stack := u64 (stack - 8) in
  st 8 stack na ;;
  mret (u64 (top - stack)).

Lemma build_vectors_eq s lo top rsp argv envp aux aptrs eptrs args envs entry phdr phent phnum
    (na := Z.of_nat (length args)) (ne := Z.of_nat (length envs)) (stack := lo + 8 * (13 + na + ne)) :
  string_vector (mem s) lo top argv aptrs args -> string_vector (mem s) lo top envp eptrs envs ->
  mapped (mem s) lo (top - lo) -> 0 < lo -> stack <= top -> top < 2 ^ 64 -> strs_size envs + strs_size args <= rsp < 2 ^ 64 ->
  words_at (mem s) aux [entry; phdr; phent; phnum] -> clear_of lo top aux 32 ->
  Forall (fun w => 0 <= w < 2 ^ 64) [AT_ENTRY; AT_PHDR; AT_PHENT; AT_PHNUM] ->
  exists m', build_vectors na ne stack top rsp argv envp aux s = Ok (top - lo) (with_mem s m') /\
    same_outside lo (stack - lo) (mem s) m' /\ words_at m' lo (stack_words rsp args envs (aux_words entry phdr phent phnum)).
Proof.
  intros VA VE Hm H0 Hst Htop Hr Wx Cx Hat. assert (Hn : 0 <= na /\ 0 <= ne) by (unfold na, ne; lia).
  pose proof (strs_size_nonneg envs). pose proof (strs_size_nonneg args). set (E := strs_size envs) in *. unfold clear_of in Cx.
  destruct (store_aux_eq s stack aux entry phdr phent phnum) as (m3 & E3 & S3 & W3);
    [eapply mapped_sub; [exact Hm|lia|lia]|lia|done|unfold clear_of; lia|done|].
  pose proof (same_outside_mapped _ _ _ _ _ _ S3 Hm) as Hm3.
  destruct (store_block (with_mem s m3) lo top envp eptrs envs (stack - 80) rsp) as (m4 & E4 & S4 & W4); cbn [mem with_mem] in *; fold ne; fold E.
  { eapply string_vector_outside; [exact VE|exact S3|lia|lia]. } { done. } { done. } { lia. } { lia. } { lia. } { lia. }
  fold ne in E4, S4, W4. fold E in E4. pose proof (same_outside_mapped _ _ _ _ _ _ S4 Hm3) as Hm4.
  destruct (store_block (with_mem s m4) lo top argv aptrs args (stack - 80 - 8 - 8 * ne) (rsp - E)) as (m5 & E5 & S5 & W5); cbn [mem with_mem] in *; fold na.
  { do 2 (eapply string_vector_outside; [|eassumption|lia|lia]). exact VA. } { done. } { done. } { lia. } { lia. } { lia. } { lia. }
  fold na in E5, S5, W5. assert (Hm8 : mapped m5 lo 8) by (eapply mapped_sub; [exact (same_outside_mapped _ _ _ _ _ _ S5 Hm4)|lia|lia]).
  assert (Hlo : stack - 80 - 8 - 8 * ne - 8 - 8 * na - 8 = lo) by lia.
  pose proof (same_outside_wr 8 m5 lo na Hm8) as S6. set (m6 := wr 8 m5 lo na) in *. exists m6. split; [|split].
  - unfold build_vectors. rewrite (bind_Ok _ _ _ _ _ E3), (u64_small (stack - 80 - 8)), (u64_small (stack - 80 - 8 - 8 * ne)) by lia.
    rewrite (bind_assoc_Ok _ _ _ _ _ _ E4), (u64_small (stack - 80 - 8 - 8 * ne - 8)), (u64_small (stack - 80 - 8 - 8 * ne - 8 - 8 * na)) by lia.
    rewrite (bind_assoc_Ok _ _ _ _ _ _ E5), (u64_small (stack - 80 - 8 - 8 * ne - 8 - 8 * na - 8)) by lia. rewrite Hlo.
    rewrite (st_then 8) by exact Hm8. cbn [mem with_mem]. by rewrite with_mem_mem, u64_small by lia.
  - do 4 (eapply same_outside_trans; [|eapply same_outside_weaken; [eassumption|lia|lia]]). done.
  - apply (words_at_cons m6 lo na). split; [by apply (rd_word m5 lo lo na); [|lia]|]. fold E.
    assert (Hl : Z.of_nat (length (addresses (rsp - E) args ++ [0])) = na + 1 /\ Z.of_nat (length (addresses rsp envs ++ [0])) = ne + 1)
      by (rewrite !length_app, !addresses_length; simpl; lia). destruct Hl as [La Le].
    apply words_at_app. rewrite La. split; [|apply words_at_app; rewrite Le; split].
    + eapply words_at_outside; [exact S6|lia|]. by replace (lo + 8) with (stack - 80 - 8 - 8 * ne - 8 - 8 * na) by lia.
    + replace (lo + 8 + 8 * (na + 1)) with (stack - 80 - 8 - 8 * ne) by lia.
      eapply words_at_outside; [exact S6|lia|]. eapply words_at_outside; [exact S5|lia|exact W4].
    + replace (lo + 8 + 8 * (na + 1) + 8 * (ne + 1)) with (stack - 80) by lia.
      do 3 (eapply words_at_outside; [eassumption|lia|]). exact W3.
Qed.

(** C22: [build_stack] leaves the process stack of the System V ABI: from the lowered [rsp],
    which stays a multiple of 16, the number of arguments, the pointers to them and
    NULL, the pointers to the environment and NULL, and the auxiliary vector; every
    pointer is the address, in the address space of the program, of a copy of the string
    of the caller; nothing else is written. *)
Theorem build_stack_abi s top rsp argv envp aux aptrs eptrs args envs entry phdr phent phnum
    (size := stack_size args envs) (lo := top - stack_size args envs) :
  top mod 16 = 0 -> 0 < lo -> top < 2 ^ 64 -> size <= rsp < 2 ^ 64 -> zero_from (mem s) lo top ->
  string_vector (mem s) lo top argv aptrs args -> string_vector (mem s) lo top envp eptrs envs ->
  words_at (mem s) aux [entry; phdr; phent; phnum] -> clear_of lo top aux 32 ->
  Forall (fun w => 0 <= w < 2 ^ 64) [AT_ENTRY; AT_PHDR; AT_PHENT; AT_PHNUM] ->
  exists m', build_stack AT_ENTRY AT_PHDR AT_PHENT AT_PHNUM top rsp argv envp aux s = Ok size (with_mem s m') /\
    size mod 16 = 0 /\ same_outside lo size (mem s) m' /\
    words_at m' lo (stack_words rsp args envs (aux_words entry phdr phent phnum)) /\
    Forall2 (fun p l => cstr m' (p + (top - rsp)) l) (addresses (rsp - strs_size envs) args ++ addresses rsp envs) (args ++ envs).
Proof.
  intros Ht H0 Htop Hr Hz VA VE Wx Cx Hat. pose proof (strs_size_nonneg envs). pose proof (strs_size_nonneg args).
  set (na := Z.of_nat (length args)). set (ne := Z.of_nat (length envs)). set (E := strs_size envs) in *. set (A := strs_size args) in *.
  assert (Hn : 0 <= na /\ 0 <= ne) by (unfold na, ne; lia).
  set (st0 := 16 * ((top - E - A) / 16)). set (st1 := lo + 8 * (13 + na + ne)).
  assert (Hst : (if (na + ne) mod 2 =? 0 then u64 (st0 - 8) else st0) = st1 /\ st1 <= top - E - A).
  { assert (Hlo : lo = st0 - (if (na + ne) mod 2 =? 0 then 8 else 0) - 8 * (13 + na + ne)).
    { unfold lo, stack_size, stack_count. fold na; fold ne; fold E; fold A. unfold st0. destruct (_ =? _); zlia. }
    assert (st0 <= top - E - A) by (unfold st0; zlia). unfold st1. destruct (_ =? _); rewrite ?u64_small; lia. }
  destruct Hst as [Est Hst]. destruct (copies_eq s lo top argv envp aptrs eptrs args envs) as (m1 & m2 & E1 & E2 & S2 & T1 & T2);
    [done|done|done|done|fold E A; lia|done|]. fold E in E1, E2, S2, T2. fold A in E2, S2.
  destruct (build_vectors_eq (with_mem s m2) lo top rsp argv envp aux aptrs eptrs args envs entry phdr phent phnum) as (m3 & E3 & S3 & W3);
    cbn [mem with_mem]; fold na ne E A st1.
  { eapply string_vector_outside; [exact VA|exact S2|lia|lia]. } { eapply string_vector_outside; [exact VE|exact S2|lia|lia]. }
  { eapply same_outside_mapped; [exact S2|by apply zero_from_mapped]. } { done. } { lia. } { done. } { fold size in lo. lia. }
  { eapply words_at_outside; [exact S2| |exact Wx]. unfold clear_of in Cx. simpl. lia. } { done. } { done. }
  fold na ne in E3, S3. fold st1 in E3, S3. cbn [mem with_mem] in S3. exists m3. split; [|split; [apply stack_size_aligned|split; [|split; [exact W3|]]]].
  - unfold build_stack. rewrite (bind_Ok _ _ _ _ _ E1), (bind_Ok _ _ _ _ _ E2). fold na ne.
    rewrite (ALIGN_DOWN_spec _ 4) by lia. change (2 ^ 4) with 16. fold st0. rewrite odd_pad, Est. etrans; [exact E3|].
    f_equal. unfold lo. fold size. lia.
  - eapply same_outside_trans; eapply same_outside_weaken; [exact S2|lia|unfold size; lia|exact S3|lia|unfold size; lia].
  - fold E. apply Forall2_app; rewrite <- (shift_strings _ (top - rsp)).
    + replace (rsp - E + (top - rsp)) with (top - E) by lia. eapply strings_at_outside; [exact T2|exact S3|fold A; lia].
    + replace (rsp + (top - rsp)) with top by lia. eapply strings_at_outside; [exact T1|exact S3|fold E; lia].
Qed.

End stack.

(** * A stack with two arguments and one variable *)

Definition stack_args : list (list byte) := String.list_byte_of_string <$> ["init"; "-v"]%string.
Definition stack_envs : list (list byte) := String.list_byte_of_string <$> ["A=b"]%string.

(** Zeros below [0x1100] for the stack; above it [argv], [envp], the auxiliary values and the
    strings. *)
Definition stack_mem : gmap Z byte :=
  let m := wr 8 (wr 8 (zeros 0x1000 0x300) 0x1140 0x1200) 0x1148 0x1210 in
  let m := wr 8 m 0x1160 0x1220 in
  let m := wr 8 (wr 8 (wr 8 (wr 8 m 0x1180 0x400000) 0x1188 0x400040) 0x1190 56) 0x1198 9 in
  wr 8 (wr 8 (wr 8 m 0x1200 0x74696e69) 0x1210 0x762d) 0x1220 0x623d41.
Definition stack_state : kstate := KState stack_mem ∅ [].

Ltac stack_bytes := split; [repeat (apply bytes_at_cons; split; [vm_compute; reflexivity|]); apply bytes_at_nil|by apply (bool_decide_unpack _)].
Ltac stack_wds := repeat (apply words_at_cons; split; [vm_compute; reflexivity|]); apply words_at_nil.
Ltac stack_vector :=
  split; [stack_wds|by right|];
  repeat (apply Forall2_cons; [split; [done|]; split; [stack_bytes|]; split; [done|by right]|]); apply Forall2_nil.

Lemma build_stack_abi_witness :
  exists m', build_stack 9 3 4 5 0x1100 0x70000000 0x1140 0x1160 0x1180 stack_state = Ok 144 (with_mem stack_state m') /\
    144 mod 16 = 0 /\ same_outside 0x1070 144 stack_mem m' /\
    words_at m' 0x1070 (stack_words 0x70000000 stack_args stack_envs (aux_words 9 3 4 5 0x400000 0x400040 56 9)) /\
    Forall2 (fun p l => cstr m' (p + (0x1100 - 0x70000000)) l)
      (addresses (0x70000000 - strs_size stack_envs) stack_args ++ addresses 0x70000000 stack_envs) (stack_args ++ stack_envs).
Proof.
  apply (build_stack_abi 9 3 4 5 stack_state 0x1100 0x70000000 0x1140 0x1160 0x1180 [0x1200; 0x1210] [0x1220] stack_args stack_envs
           0x400000 0x400040 56 9).
  - done.
  - done.
  - done.
  - by split.
  - intros x Hx. change (0x1100 - stack_size stack_args stack_envs) with 0x1070 in Hx. unfold stack_state, stack_mem. cbn [mem].
    rewrite !lookup_wr_out by lia. apply zeros_byte. lia.
  - stack_vector.
  - stack_vector.
  - stack_wds.
  - by right.
  - by apply (bool_decide_unpack _); vm_compute.
Defined.
