(* ===== verification/ElfSpec.v ===== *)
(** What the loader of [lib/elf.c] makes of a segment: the frame allocator, the page
    tables and the file system together. *)
From S2P Require Import Prelude Machine Lock Str Layout Interfaces Pmm PmmSpec PageTable Vmm VmmSpec VmmInit UserSpace KheapSpec Heap Vector Hashmap Lapic Sched Env Vfs Tmpfs VfsOps TmpfsSpec Elf.

Section elf_spec.
Context (HHDM_OFFSET : Z) `{KH : KernelHeap} `{LC : LibC} (im : image) (eh : elf_h).
Context (lit_ELFMAG elf_header program_header : Z).
Implicit Types (s : kstate) (root pm v h x node data size pos : Z).
Local Abbreviation va := (frame_va HHDM_OFFSET).
Local Abbreviation outside := (Vmm.outside HHDM_OFFSET).
Local Abbreviation space_ok := (space_ok HHDM_OFFSET).
Local Abbreviation evolves := (evolves HHDM_OFFSET).
Local Abbreviation cost := (cost HHDM_OFFSET).
Local Abbreviation translate_of := (translate_of HHDM_OFFSET).
Local Abbreviation owned := (pmm_owned HHDM_OFFSET).
Local Abbreviation off_table := (off_table HHDM_OFFSET).
Local Abbreviation off_tables := (off_tables HHDM_OFFSET).
Local Abbreviation budget := (budget HHDM_OFFSET).
Local Abbreviation mapped_frames := (mapped_frames HHDM_OFFSET).
Local Abbreviation load_segment := (load_segment HHDM_OFFSET im eh program_header).

(** * Memory that the loader does not move *)

(** A byte of the rest of the kernel: in a frame that somebody has and that is not a
    table, or a static variable. *)
Definition stable s root x : Prop := off_table s root x \/ pmm_static HHDM_OFFSET s x.

Lemma evolves_stable s s' root x : evolves s s' root -> stable s root x -> mem s' !! x = mem s !! x.
Proof.
  intros V [(h & Hh & Hx)|Hx]; [by apply (ev_outside _ _ _ _ V h Hh)|]. by apply (ev_static _ _ _ _ V).
Qed.

Lemma evolves_rd s s' root (n : nat) a :
  evolves s s' root -> (forall x, a <= x < a + Z.of_nat n -> stable s root x) -> rd n (mem s') a = rd n (mem s) a.
Proof. intros V H. apply rd_ext. intros x Hx. by apply (evolves_stable s s' root), H. Qed.

Lemma static_globals s s' x : same_globals s s' -> pmm_static HHDM_OFFSET s x -> pmm_static HHDM_OFFSET s' x.
Proof. intros Hg. unfold pmm_static, bitmap_bytes. by rewrite !Hg. Qed.

(** [s'] has the rest of the kernel where [s] has it, and the same bytes in it but for those
    of [W]. *)
Record keeps s s' root (W : Z -> Prop) : Prop := {
  kp_off x : off_table s root x -> off_table s' root x;
  kp_globals : same_globals s s';
  kp_mem x : stable s root x -> ~ W x -> mem s' !! x = mem s !! x
}.

Lemma keeps_stable s s' root W x : keeps s s' root W -> stable s root x -> stable s' root x.
Proof. intros K [H|H]; [left; by apply (kp_off _ _ _ _ K)|right]. eapply static_globals; [apply K|done]. Qed.

Lemma keeps_refl s root W : keeps s s root W.
Proof. by split. Qed.

Lemma keeps_trans s1 s2 s3 root W : keeps s1 s2 root W -> keeps s2 s3 root W -> keeps s1 s3 root W.
Proof.
  intros K1 K2. split; [intros x Hx; by apply K2, K1|etrans; [apply K1|apply K2]|].
  intros x Hx Hn. rewrite (kp_mem _ _ _ _ K2) by (done || by eapply keeps_stable). by apply (kp_mem _ _ _ _ K1).
Qed.

Lemma keeps_weaken s s' root (W W' : Z -> Prop) : (forall x, W x -> W' x) -> keeps s s' root W -> keeps s s' root W'.
Proof. intros H [K1 K2 K3]. split; [done|done|]. intros x Hx Hn. apply K3; [done|]. intros HW. by apply Hn, H. Qed.

Lemma keeps_rd s s' root W (n : nat) a :
  keeps s s' root W -> (forall x, a <= x < a + Z.of_nat n -> stable s root x /\ ~ W x) -> rd n (mem s') a = rd n (mem s) a.
Proof. intros K H. apply rd_ext. intros x Hx. destruct (H x Hx). by apply (kp_mem _ _ _ _ K). Qed.

Lemma evolves_off s s' root x : evolves s s' root -> off_table s root x -> off_table s' root x.
Proof. intros V (h & Hh & Hx). exists h. split; [by apply (ev_outside _ _ _ _ V)|done]. Qed.

Lemma stable_not_new s s' root virt n f x :
  mapped_frames s s' root virt n f -> stable s root x -> ~ (va f <= x < va (f + n)).
Proof.
  intros M Hx Hin. destruct (frame_of_byte HHDM_OFFSET f n x Hin) as (g & Hg & Hxg). destruct Hx as [(h & [Hh _] & Hxh)|[Hx _]].
  - apply (mf_fresh _ _ _ _ _ _ _ M g Hg). by rewrite (frame_disjoint HHDM_OFFSET g h x).
  - destruct (mf_outside _ _ _ _ _ _ _ M g Hg) as [(Hl & _) _].
    rewrite (ev_globals _ _ _ _ (mf_evolves _ _ _ _ _ _ _ M)) in Hl. apply Hx. unfold frame_va in *. lia.
Qed.

(** An object of the rest of the kernel and a buffer in the new frames. *)
Lemma new_apart s s' root virt n f a m buff len :
  mapped_frames s s' root virt n f -> (forall x, buff <= x < buff + len -> va f <= x < va (f + n)) ->
  (forall x, a <= x < a + m -> stable s root x) -> 0 < m -> 0 < len -> a + m <= buff \/ buff + len <= a.
Proof.
  intros M Hb Ha Hm Hl. destruct (decide (a + m <= buff \/ buff + len <= a)) as [|Hno]; [done|]. exfalso.
  pose (x := Z.max a buff). apply (stable_not_new s s' root virt n f x M); [apply Ha|apply Hb]; unfold x; lia.
Qed.

(** * The file and the program header *)

(** The file system of [node] is the memory file system, and its table of functions
    stays where it is. *)
Record tmpfs_node s root node fs : Prop := {
  tn_fs : rd 8 (mem s) (node + node_fs) = Some fs;
  tn_read : rd 8 (mem s) (fs + fs_read) = Some (sym_tmpfs_read im);
  tn_stable x : fs + fs_read <= x < fs + fs_read + 8 -> stable s root x /\ ~ (node <= x < node + sizeof_vfs_node)
}.

(** The loader's file and address space. *)
Record loader s pm root node fs data k size pos : Prop := {
  lo_space : space_ok s pm root;
  lo_file : file_at s node data k size pos 0;
  lo_size : size <= k;
  lo_tmpfs : tmpfs_node s root node fs;
  lo_node : off_tables s root node sizeof_vfs_node;
  lo_data : off_tables s root data k;
  lo_apart : pm + 8 <= node \/ node + sizeof_vfs_node <= pm
}.

Record segment := { sg_vaddr : Z; sg_memsz : Z; sg_filesz : Z; sg_offset : Z }.
Implicit Types (sg : segment).

Definition sg_words sg : list (Z * Z) :=
  [(off_p_vaddr eh, sg_vaddr sg); (off_p_memsz eh, sg_memsz sg); (off_p_filesz eh, sg_filesz sg); (off_p_offset eh, sg_offset sg)].

(** The program header that was read last. *)
Definition segment_at s root sg : Prop :=
  Forall (fun '(off, w) => rd 8 (mem s) (program_header + off) = Some w /\
    forall x, program_header + off <= x < program_header + off + 8 -> stable s root x) (sg_words sg).

(** A segment that the theorem covers: its bytes are in the file, and it lies in the
    lower half of the address space. *)
Record segment_ok sg size : Prop := {
  so_addr : 0 <= sg_vaddr sg /\ sg_vaddr sg + sg_memsz sg <= 2 ^ 47;
  so_file : 0 < sg_filesz sg < 2 ^ 31 /\ sg_filesz sg <= sg_memsz sg;
  so_bytes : 0 <= sg_offset sg /\ sg_offset sg + sg_filesz sg <= size
}.

Definition segment_pages sg : Z :=
  ALIGN_UP (u64 (sg_memsz sg + Z.land (sg_vaddr sg) (FRAME_SIZE - 1))) FRAME_SIZE / FRAME_SIZE.

Lemma segment_pages_spec sg size :
  segment_ok sg size -> let u := sg_vaddr sg mod 0x1000 in
  Z.land (sg_vaddr sg) (FRAME_SIZE - 1) = u /\ 1 <= segment_pages sg <= 2 ^ 36 /\
  sg_memsz sg + u <= 0x1000 * segment_pages sg.
Proof.
  intros [[A1 A2] [F1 F2] _] u.
  assert (E : Z.land (sg_vaddr sg) (FRAME_SIZE - 1) = u) by (apply (Z.land_ones _ 12); lia).
  split; [done|]. unfold segment_pages. rewrite E. rewrite u64_small by (unfold u; zlia).
  unfold FRAME_SIZE. rewrite ALIGN_UP_page by (unfold u; zlia). unfold u. zlia.
Qed.

Lemma segment_words s root sg :
  segment_at s root sg ->
  rd 8 (mem s) (program_header + off_p_vaddr eh) = Some (sg_vaddr sg) /\
  rd 8 (mem s) (program_header + off_p_memsz eh) = Some (sg_memsz sg) /\
  rd 8 (mem s) (program_header + off_p_filesz eh) = Some (sg_filesz sg) /\
  rd 8 (mem s) (program_header + off_p_offset eh) = Some (sg_offset sg).
Proof.
  intros H. unfold segment_at, sg_words in H. rewrite !list.Forall_cons in H. tauto.
Qed.

Lemma segment_at_evolves s s' root sg :
  evolves s s' root -> segment_at s root sg ->
  rd 8 (mem s') (program_header + off_p_filesz eh) = Some (sg_filesz sg) /\
  rd 8 (mem s') (program_header + off_p_offset eh) = Some (sg_offset sg).
Proof.
  intros V H. pose proof (segment_words _ _ _ H) as (_ & _ & W3 & W4).
  unfold segment_at, sg_words in H. rewrite !list.Forall_cons in H. destruct H as (_ & _ & [_ H3] & [_ H4] & _).
  by rewrite !(evolves_rd s s' root) by done.
Qed.

(** * Reading through the table of functions *)

Lemma vfs_read_at s root node fs data k size pos buff count offset (n := Z.min count (size - offset)) :
  tmpfs_node s root node fs -> file_at s node data k size pos 0 ->
  0 <= offset <= size -> size <= k -> 0 <= count < 2 ^ 31 -> pos + count < 2 ^ 31 ->
  0 < buff -> mapped (mem s) buff n ->
  (forall x, buff <= x < buff + n -> ~ (node <= x < node + sizeof_vfs_node) /\ ~ (data <= x < data + k)) ->
  exists s', vfs_read im node buff count offset s = Ok n s' /\ read_at s s' node data k size pos buff offset n.
Proof.
  intros [T1 T2 _] Hf Ho Hk Hc Hp Hb Hm Hd. unfold vfs_read. rewrite (ld_then 8 _ _ _ _ T1), (ld_then 8 _ _ _ _ T2).
  unfold call_read. rewrite Z.eqb_refl. by apply tmpfs_read_at.
Qed.

(** The loader's file after a step that changes tables, takes frames and maps them. *)
Lemma loader_evolves s s' pm root node fs data k size pos :
  evolves s s' root -> loader s pm root node fs data k size pos -> loader s' pm root node fs data k size pos.
Proof.
  intros V [L1 L2 L3 [T1 T2 T3] L5 L6 L7].
  assert (Hn : forall x, node <= x < node + sizeof_vfs_node -> stable s root x) by (intros x Hx; left; by apply L5).
  assert (Hx : forall x, stable s root x -> stable s' root x).
  { intros x [Hx|Hx]; [left; by eapply evolves_off|right]. by eapply static_globals; [apply V|]. }
  split; [by eapply evolves_space| |done| | | |done].
  - destruct L2 as [F1 F2 F3 F4 (M1 & M2 & M3 & M4) F6].
    assert (R : forall (j : nat) a, node <= a -> a + Z.of_nat j <= node + sizeof_vfs_node -> rd j (mem s') a = rd j (mem s) a)
      by (intros j a A1 A2; apply (evolves_rd s s' root); [done|]; intros x X; apply Hn; lia).
    pose proof node_layout. unfold sizeof_vfs_node, node_lock, node_offset in *.
    split; unfold sizeof_vfs_node, node_lock, node_offset; rewrite ?R by lia; try done. do 3 (split; [done|]). intros x X.
    rewrite (evolves_stable s s' root); [by apply M4|done|]. left. by apply L6.
  - pose proof node_layout. split; [|rewrite (evolves_rd s s' root); [done..|]; intros x X; by apply T3|].
    + rewrite (evolves_rd s s' root); [done..|]. intros x X. apply Hn. unfold sizeof_vfs_node, node_lock, node_offset in *. lia.
    + intros x X. destruct (T3 x X). by split; [apply Hx|].
  - intros x X. by eapply evolves_off, L5.
  - intros x X. by eapply evolves_off, L6.
Qed.

(** The loader's file after a read into memory that is neither a table nor the file's. *)
Definition read_into (node buff n x : Z) : Prop := node <= x < node + sizeof_vfs_node \/ buff <= x < buff + n.

Lemma read_at_touched s s' node data k size pos buff offset n :
  read_at s s' node data k size pos buff offset n -> touched s s' (read_into node buff n).
Proof.
  intros [_ Hd Hs _ Ho]. pose proof node_layout. split; [exact Hd| |by rewrite Hs].
  intros x Hx. unfold read_into, sizeof_vfs_node, node_lock, node_offset in *. apply Ho; unfold node_lock, node_offset; lia.
Qed.

(** A write to memory of the rest of the kernel. *)
Record only_touched s s' root : Prop := {
  ot_translate v : translate_of s' root v = translate_of s root v;
  ot_outside h : outside s root h -> outside s' root h;
  ot_budget qs m : Forall (path 3) qs -> budget s root qs m -> budget s' root qs m
}.

Lemma touched_kept s s' pm root (P : Z -> Prop) :
  space_ok s pm root -> (forall x, P x -> off_table s root x) -> touched s s' P -> (forall x, P x -> ~ (pm <= x < pm + 8)) ->
  space_ok s' pm root /\ only_touched s s' root /\ keeps s s' root P.
Proof.
  intros Hs Ho T Hap. destruct (touched_space HHDM_OFFSET _ _ _ _ _ Hs Ho T Hap) as (S1 & _ & _ & _ & S5).
  assert (Hout : forall h, outside s root h -> outside s' root h)
    by (intros h; by apply (touched_outside HHDM_OFFSET s s' root pm P h Hs Ho T Hap)).
  split; [done|]. split; split; [|done| | |apply T|].
  - intros v. by rewrite !translate_leaf, S5.
  - intros qs m. by apply (touched_budget HHDM_OFFSET s s' root pm P qs m Hs Ho T Hap).
  - intros x (h & Hh & Hx). exists h. split; [by apply Hout|done].
  - intros x _ Hn. by apply (to_out _ _ _ T).
Qed.

(** The loader's file after a write that does not concern it. *)
Lemma loader_keeps s s' pm root node fs data k size pos (W : Z -> Prop) :
  loader s pm root node fs data k size pos -> space_ok s' pm root -> keeps s s' root W -> same_dom (mem s) (mem s') ->
  (forall x, node <= x < node + sizeof_vfs_node \/ fs + fs_read <= x < fs + fs_read + 8 -> ~ W x) ->
  loader s' pm root node fs data k size pos.
Proof.
  intros [L1 L2 L3 [T1 T2 T3] L5 L6 L7] S1 K Hd Hn. pose proof node_layout.
  assert (Hk : forall x, node <= x < node + sizeof_vfs_node -> mem s' !! x = mem s !! x).
  { intros x Hx. apply (kp_mem _ _ _ _ K); [left; by apply L5|]. apply Hn. by left. }
  split; [done|by apply (file_at_ext s)|done| |intros x X; by apply (kp_off _ _ _ _ K), L5|intros x X; by apply (kp_off _ _ _ _ K), L6|done].
  split.
  - rewrite (rd_ext 8 (mem s)); [done|]. intros x X. apply Hk. unfold sizeof_vfs_node, node_lock, node_offset in *. lia.
  - rewrite (keeps_rd s s' root W); [done..|]. intros x X. split; [by apply T3|]. apply Hn. by right.
  - intros x X. destruct (T3 x X). split; [by eapply keeps_stable|done].
Qed.

Lemma loader_read s s' pm root node fs data k size pos buff offset n :
  loader s pm root node fs data k size pos -> read_at s s' node data k size pos buff offset n ->
  off_tables s root buff n -> pm + 8 <= buff \/ buff + n <= pm ->
  fs + fs_read + 8 <= buff \/ buff + n <= fs + fs_read -> (forall x, node <= x < node + sizeof_vfs_node -> ~ (buff <= x < buff + n)) ->
  loader s' pm root node fs data k size (pos + n) /\ only_touched s s' root /\ keeps s s' root (read_into node buff n).
Proof.
  intros [L1 L2 L3 [T1 T2 T3] L5 L6 L7] R Hb Hpb Hfb Hnb. pose proof (read_at_touched _ _ _ _ _ _ _ _ _ _ R) as T.
  destruct (touched_kept s s' pm root (read_into node buff n) L1) as (S1 & O & K); [by intros x [X|X]; [apply L5|apply Hb]|done|by intros x [X|X]; lia|].
  split; [|done]. pose proof node_layout.
  split; [done|apply R|done| |intros x X; by apply (kp_off _ _ _ _ K), L5|intros x X; by apply (kp_off _ _ _ _ K), L6|done].
  split.
  - rewrite (rd_ext 8 (mem s)); [done|]. intros x X. unfold sizeof_vfs_node, node_lock, node_offset in *.
    apply (ra_out _ _ _ _ _ _ _ _ _ _ R); unfold node_lock, node_offset; [lia..|]. apply Hnb. lia.
  - rewrite (keeps_rd s s' root _ 8 (fs + fs_read) K); [done|]. intros x X. destruct (T3 x X) as [St Hn]. split; [done|].
    intros [?|?]; [done|lia].
  - intros x X. destruct (T3 x X). split; [by eapply keeps_stable|done].
Qed.

(** * A segment *)

(** What a loaded segment is: its pages translate to frames that nobody had, and through
    them the program sees the bytes of the file and zeros behind them; the rest of the
    address space and of the kernel's memory, but the position of the file, is kept. *)
Record segment_loaded s s' root node data sg (f : Z) : Prop := {
  sl_fresh : forall g, f <= g < f + segment_pages sg -> ~ owned s g /\ outside s' root g;
  sl_byte i : 0 <= i < sg_memsz sg -> exists p, translate_of s' root (sg_vaddr sg + i) = Some p /\
    va f <= HHDM_OFFSET + p < va (f + segment_pages sg) /\
    mem s' !! (HHDM_OFFSET + p) = if decide (i < sg_filesz sg) then mem s !! (data + sg_offset sg + i) else Some Byte.x00;
  sl_other v : segment_pages sg <= page_off (sg_vaddr sg) v -> translate_of s' root v = translate_of s root v;
  sl_new x : va f <= x < va (f + segment_pages sg) -> ~ stable s root x;
  sl_keeps : keeps s s' root (fun x => node <= x < node + sizeof_vfs_node)
}.

(** The program reads its segment: frames that were mapped and then read into. *)
Lemma segment_loaded_read s s2 s' pm root node fs data k size pos sg f (n := segment_pages sg) (u := sg_vaddr sg mod 0x1000) :
  loader s pm root node fs data k size pos -> segment_ok sg size -> mapped_frames s s2 root (sg_vaddr sg) n f ->
  read_at s2 s' node data k size pos (va f + u) (sg_offset sg) (sg_filesz sg) ->
  (forall v, translate_of s' root v = translate_of s2 root v) -> (forall h, outside s2 root h -> outside s' root h) ->
  segment_loaded s s' root node data sg f.
Proof.
  intros L Hok M R P3 O3. destruct (segment_pages_spec sg size Hok) as (_ & Hn & Hend). fold n u in Hn, Hend.
  pose proof (mf_evolves _ _ _ _ _ _ _ M) as V2. pose proof (read_at_touched _ _ _ _ _ _ _ _ _ _ R) as T.
  destruct Hok as [[A1 A2] [B1 B2] [C1 C2]]. pose proof (mf_range _ _ _ _ _ _ _ M) as Hr.
  assert (Hnew : forall x, stable s root x -> ~ (va f <= x < va (f + n))) by (intros x; by eapply stable_not_new).
  split.
  - intros g Hg. split; [by apply (mf_fresh _ _ _ _ _ _ _ M)|]. by apply O3, (mf_outside _ _ _ _ _ _ _ M).
  - intros i Hi. exists (0x1000 * f + u + i).
    assert (Hin : va f <= va f + u + i < va (f + n)) by (unfold frame_va, u in *; zlia).
    replace (HHDM_OFFSET + (0x1000 * f + u + i)) with (va f + u + i) by (unfold frame_va; lia). split; [|split; [done|]].
    + rewrite P3, (mf_translate _ _ _ _ _ _ _ M).
      assert (Ep : page_off (sg_vaddr sg) (sg_vaddr sg + i) = (u + i) / 0x1000) by (unfold page_off, page, u; zlia).
      rewrite Ep, decide_True by (unfold u in *; zlia). f_equal. unfold u. zlia.
    + case_decide as Hd.
      * rewrite (ra_bytes _ _ _ _ _ _ _ _ _ _ R) by lia. apply (evolves_stable s s2 root); [done|].
        left. apply (lo_data _ _ _ _ _ _ _ _ _ L). pose proof (lo_size _ _ _ _ _ _ _ _ _ L). lia.
      * rewrite <- (mf_zero _ _ _ _ _ _ _ M _ Hin). apply (to_out _ _ _ T). intros [X|X]; [|lia].
        apply (Hnew (va f + u + i)); [left; by apply (lo_node _ _ _ _ _ _ _ _ _ L)|done].
  - intros v Hv. rewrite P3, (mf_translate _ _ _ _ _ _ _ M). fold n in Hv. by rewrite decide_False by lia.
  - intros x Hx Hst. by apply (Hnew x).
  - split.
    + intros x (h & Hh & Hx). exists h. split; [by apply O3, (ev_outside _ _ _ _ V2)|done].
    + etrans; [apply V2|apply T].
    + intros x Hx Hnx. rewrite (to_out _ _ _ T); [by apply (evolves_stable s s2 root)|].
      intros [X|X]; [done|]. apply (Hnew x Hx). unfold frame_va, u in *. zlia.
Qed.

Lemma load_segment_eq s pm root node fs data k size pos sg qs (m : nat) (n := segment_pages sg) :
  loader s pm root node fs data k size pos -> segment_at s root sg -> segment_ok sg size -> pos + sg_filesz sg < 2 ^ 31 ->
  Forall (path 3) qs -> budget s root (page_dirs (sg_vaddr sg) 0 n ++ qs) (Z.to_nat n + m) ->
  exists f s', load_segment pm node s = Ok true s' /\
    loader s' pm root node fs data k size (pos + sg_filesz sg) /\ segment_loaded s s' root node data sg f /\
    budget s' root qs m.
Proof.
  intros L Hsg Hok Hpos Hqs Hc. destruct (segment_pages_spec sg size Hok) as (Eu & Hn & Hend). fold n in Hn, Hend.
  set (u := sg_vaddr sg mod 0x1000) in *. destruct (segment_words _ _ _ Hsg) as (W1 & W2 & _).
  destruct (map_new_budget HHDM_OFFSET s pm root (sg_vaddr sg) (Z.lor (Z.lor PTE_PRESENT PTE_WRITABLE) PTE_USER) n qs m
    (lo_space _ _ _ _ _ _ _ _ _ L) ltac:(by split) Hn Hqs Hc) as (f & s1 & s2 & E1 & Hf0 & V1 & E2 & M & Hb2).
  pose proof (mf_evolves _ _ _ _ _ _ _ M) as V2. pose proof (mf_range _ _ _ _ _ _ _ M) as Hr.
  destruct (segment_at_evolves _ _ _ _ V2 Hsg) as (W3 & W4).
  pose proof (loader_evolves _ _ _ _ _ _ _ _ _ _ V2 L) as L2. pose proof Hok as [[A1 A2] [B1 B2] [C1 C2]].
  destruct (mf_outside _ _ _ _ _ _ _ M (f + n - 1) ltac:(lia)) as [(Hl & _) _].
  pose proof (proj1 (sp_vm _ _ _ _ (lo_space _ _ _ _ _ _ _ _ _ L2))) as Hinv. change (pmm_inv HHDM_OFFSET s2) in Hinv.
  pose proof (pi_top _ _ Hinv) as Htop. pose proof (pi_hhdm _ _ Hinv) as Hpos0. set (buff := va f + u).
  assert (Hbuf : forall x, buff <= x < buff + sg_filesz sg -> va f <= x < va (f + n)) by (unfold buff, frame_va, u in *; zlia).
  assert (Hnode : forall x, node <= x < node + sizeof_vfs_node -> stable s root x) by (intros x Hx; left; by apply (lo_node _ _ _ _ _ _ _ _ _ L)).
  destruct (vfs_read_at s2 root node fs data k size pos buff (sg_filesz sg) (sg_offset sg)) as (s' & E3 & R);
    [apply L2|apply L2|lia|apply L2|lia|done|unfold buff, frame_va, u; zlia| | |].
  { intros x Hx. rewrite (mf_zero _ _ _ _ _ _ _ M); [done|]. apply Hbuf. lia. }
  { intros x Hx. assert (Hx' : va f <= x < va (f + n)) by (apply Hbuf; lia).
    split; intros Hin; apply (stable_not_new _ _ _ _ _ _ x M); try done; [by apply Hnode|left; by apply (lo_data _ _ _ _ _ _ _ _ _ L)]. }
  rewrite (Z.min_l (sg_filesz sg)) in E3, R by lia.
  destruct (loader_read s2 s' pm root node fs data k size pos buff (sg_offset sg) (sg_filesz sg) L2 R) as (L3 & [P3 O3 B3] & _).
  { intros x Hx. destruct (frame_of_byte HHDM_OFFSET f n x (Hbuf x Hx)) as (g & Hg & Hxg). exists g. by split; [apply (mf_outside _ _ _ _ _ _ _ M)|]. }
  { destruct (sp_pm _ _ _ _ (lo_space _ _ _ _ _ _ _ _ _ L)) as [_ (h & Hh & H1 & H2)].
    apply (new_apart s s2 root _ _ _ _ _ _ _ M Hbuf); [|lia|lia]. intros x Hx. left. exists h. split; [done|lia]. }
  { apply (new_apart s s2 root _ _ _ _ _ _ _ M Hbuf); [|lia|lia]. apply (lo_tmpfs _ _ _ _ _ _ _ _ _ L). }
  { intros x Hx Hin. by apply (stable_not_new _ _ _ _ _ _ x M); [apply Hnode|apply Hbuf]. }
  exists f, s'. split; [|split; [done|split; [by eapply segment_loaded_read|by apply B3]]].
  unfold Elf.load_segment. rewrite (ld_then 8 _ _ _ _ W1), (ld_then 8 _ _ _ _ W2). cbv zeta. fold (segment_pages sg). fold n.
  change (frame_calloc n) with (pmm_calloc HHDM_OFFSET n). rewrite (bind_Ok _ _ _ _ _ E1), (proj2 (Z.eqb_neq _ _) Hf0).
  rewrite (bind_Ok _ _ _ _ _ E2), (ld_then 8 _ _ _ _ W3), (ld_then 8 _ _ _ _ W4), Eu.
  replace (u64 (0x1000 * f + u + HHDM_OFFSET)) with buff by (unfold buff, frame_va, u in *; rewrite u64_small; zlia).
  rewrite (bind_Ok _ _ _ _ _ E3), (proj2 (Z.eqb_neq (sg_filesz sg) 0)) by lia. done.
Qed.

End elf_spec.
