(* ===== verification/ElfLoad.v ===== *)
(** The whole of [elf_load]: the headers of a file in the memory file system, its segments
    one after the other, and the vector of auxiliary values. *)
From S2P Require Import Prelude Machine Lock Str Layout Interfaces Pmm PmmSpec PageTable Vmm VmmSpec VmmInit UserSpace KheapSpec Heap Vector Hashmap Lapic Sched Env Vfs Tmpfs VfsOps TmpfsSpec Elf ElfSpec.

(** * Executable files *)

Section elf_file.
Context (eh : elf_h).

(** What the loader relies on: the members that it reads are inside their structures. *)
Record elf_layout : Prop := {
  el_ehdr : 0 < sizeof_Ehdr eh < 2 ^ 30 /\ 4 <= sizeof_Ehdr eh /\
    Forall (fun '(off, w) => 0 <= off /\ off + w <= sizeof_Ehdr eh)
      [(EI_CLASS eh, 1); (EI_DATA eh, 1); (off_e_machine eh, 2); (off_e_version eh, 4); (off_e_entry eh, 8);
       (off_e_phoff eh, 8); (off_e_phentsize eh, 2); (off_e_phnum eh, 2)];
  el_phdr : 0 < sizeof_Phdr eh < 2 ^ 30 /\
    Forall (fun '(off, w) => 0 <= off /\ off + w <= sizeof_Phdr eh)
      [(off_p_type eh, 4); (off_p_vaddr eh, 8); (off_p_memsz eh, 8); (off_p_filesz eh, 8); (off_p_offset eh, 8)]
}.

Record ehdr := { eh_entry : Z; eh_phoff : Z; eh_phentsize : Z }.
Record phdr := { ph_type : Z; ph_seg : segment }.

(** The program header at address [a]. *)
Definition phdr_at (m : gmap Z byte) (a : Z) (ph : phdr) : Prop :=
  rd 4 m (a + off_p_type eh) = Some (ph_type ph) /\
  Forall (fun '(off, w) => rd 8 m (a + off) = Some w) (sg_words eh (ph_seg ph)).

Definition phdr_offset (h : ehdr) (i : Z) : Z := eh_phoff h + i * eh_phentsize h.

(** The members of the header that are read after the checks. *)
Definition ehdr_at (m : gmap Z byte) (a : Z) (h : ehdr) (n : Z) : Prop :=
  rd 8 m (a + off_e_entry eh) = Some (eh_entry h) /\ rd 8 m (a + off_e_phoff eh) = Some (eh_phoff h) /\
  rd 2 m (a + off_e_phentsize eh) = Some (eh_phentsize h) /\ rd 2 m (a + off_e_phnum eh) = Some n.

(** The members that [check_headers] looks at. *)
Definition ident_at (m : gmap Z byte) (a : Z) (magic : list byte) : Prop :=
  bytes_at m a magic /\ rd 1 m (a + EI_CLASS eh) = Some (ELFCLASS64 eh) /\ rd 1 m (a + EI_DATA eh) = Some (ELFDATA2LSB eh) /\
  rd 2 m (a + off_e_machine eh) = Some (EM_X86_64 eh) /\ rd 4 m (a + off_e_version eh) = Some (EV_CURRENT eh).

(** An executable of [size] bytes at [data]. *)
Record elf_file (m : gmap Z byte) (data size : Z) (magic : list byte) (h : ehdr) (phs : list phdr) : Prop := {
  ef_size : sizeof_Ehdr eh <= size;
  ef_ident : ident_at m data magic;
  ef_ehdr : ehdr_at m data h (Z.of_nat (length phs));
  ef_phdrs i ph : phs !! i = Some ph -> phdr_at m (data + phdr_offset h (Z.of_nat i)) ph /\
    0 <= phdr_offset h (Z.of_nat i) /\ phdr_offset h (Z.of_nat i) + sizeof_Phdr eh <= size
}.

(** A segment that is loaded. *)
Definition loads (ph : phdr) : bool := ph_type ph =? PT_LOAD eh.
Definition loaded (phs : list phdr) : list segment := ph_seg <$> filter (fun ph => loads ph = true) phs.

(** What loading them takes: pages for the tables, frames, and bytes of the file. *)
Definition load_dirs (phs : list phdr) : list (list Z) :=
  loaded phs ≫= (fun sg => page_dirs (sg_vaddr sg) 0 (segment_pages sg)).
Definition load_frames (phs : list phdr) : nat := sum_list ((fun sg => Z.to_nat (segment_pages sg)) <$> loaded phs).
Definition load_bytes (phs : list phdr) : Z :=
  foldr (fun ph n => sizeof_Phdr eh + (if loads ph then sg_filesz (ph_seg ph) else 0) + n) 0 phs.

(** The value of [at_phdr]. *)
Definition phdr_address (phs : list phdr) (old : Z) : Z :=
  foldl (fun old ph => if loads ph then old else if ph_type ph =? PT_INTERP eh then old
                       else if ph_type ph =? PT_PHDR eh then sg_vaddr (ph_seg ph) else old) old phs.

(** No page of a segment is also one of an earlier segment. *)
Definition apart_pages (sgs : list segment) : Prop :=
  forall l1 b l2, sgs = l1 ++ b :: l2 -> forall a, a ∈ l1 -> forall i, 0 <= i < sg_memsz a ->
    segment_pages b <= page_off (sg_vaddr b) (sg_vaddr a + i).

Lemma loaded_cons ph phs : loaded (ph :: phs) = if loads ph then ph_seg ph :: loaded phs else loaded phs.
Proof. unfold loaded. rewrite filter_cons. by destruct (loads ph). Qed.

Lemma loaded_app phs1 phs2 : loaded (phs1 ++ phs2) = loaded phs1 ++ loaded phs2.
Proof. unfold loaded. by rewrite list.filter_app, fmap_app. Qed.

Lemma loaded_skip ph phs : loads ph = false -> load_dirs (ph :: phs) = load_dirs phs /\ load_frames (ph :: phs) = load_frames phs.
Proof. intros E. unfold load_dirs, load_frames. by rewrite loaded_cons, E. Qed.

Lemma loaded_take ph phs :
  loads ph = true ->
  load_dirs (ph :: phs) = page_dirs (sg_vaddr (ph_seg ph)) 0 (segment_pages (ph_seg ph)) ++ load_dirs phs /\
  load_frames (ph :: phs) = (Z.to_nat (segment_pages (ph_seg ph)) + load_frames phs)%nat.
Proof. intros E. unfold load_dirs, load_frames. by rewrite loaded_cons, E. Qed.

Lemma phdr_address_app phs1 phs2 old : phdr_address (phs1 ++ phs2) old = phdr_address phs2 (phdr_address phs1 old).
Proof. apply foldl_app. Qed.

Lemma apart_pages_prefix sgs1 sgs2 : apart_pages (sgs1 ++ sgs2) -> apart_pages sgs1.
Proof. intros H l1 b l2 ->. apply (H l1 b (l2 ++ sgs2)). by rewrite <- app_assoc. Qed.

Lemma load_dirs_paths phs : Forall (path 3) (load_dirs phs).
Proof.
  unfold load_dirs. apply list.Forall_forall. intros q (sg & Hq & _)%list_elem_of_bind.
  by apply (proj1 (list.Forall_forall _ _) (page_dirs_paths (sg_vaddr sg) 0 (segment_pages sg))).
Qed.

Lemma load_bytes_nonneg phs :
  elf_layout -> Forall (fun ph => loads ph = true -> 0 <= sg_filesz (ph_seg ph)) phs -> 0 <= load_bytes phs.
Proof.
  intros [_ [? _]]. induction 1 as [|ph phs Hp _ IH]; simpl; [lia|]. destruct (loads ph); [specialize (Hp eq_refl)|]; lia.
Qed.

Lemma load_bytes_app phs1 phs2 : load_bytes (phs1 ++ phs2) = load_bytes phs1 + load_bytes phs2.
Proof. induction phs1 as [|ph phs1 IH]; simpl; [done|]. rewrite IH. lia. Qed.

Lemma ehdr_ext (m m' : gmap Z byte) a h n :
  elf_layout -> (forall x, a <= x < a + sizeof_Ehdr eh -> m' !! x = m !! x) -> ehdr_at m a h n -> ehdr_at m' a h n.
Proof.
  intros [(_ & _ & L) _] H. rewrite !list.Forall_cons in L. destruct L as (_ & _ & _ & _ & L5 & L6 & L7 & L8 & _).
  unfold ehdr_at. rewrite !(rd_ext _ m m') by (intros x Hx; apply H; lia). done.
Qed.

Lemma phdr_copy (m m' : gmap Z byte) a b ph :
  elf_layout -> (forall j, 0 <= j < sizeof_Phdr eh -> m' !! (a + j) = m !! (b + j)) -> phdr_at m b ph -> phdr_at m' a ph.
Proof.
  intros [_ [_ L]] H [P1 P2]. rewrite !list.Forall_cons in L. destruct L as (L1 & L2 & L3 & L4 & L5 & _).
  assert (R : forall (n : nat) off, 0 <= off -> off + Z.of_nat n <= sizeof_Phdr eh -> rd n m' (a + off) = rd n m (b + off)).
  { intros n off H1 H2. apply rd_copy. intros j Hj. rewrite <- !Z.add_assoc. apply H. lia. }
  unfold phdr_at, sg_words in *. rewrite !list.Forall_cons in P2. rewrite !list.Forall_cons. cbv beta iota in *. rewrite !R by lia.
  destruct P2 as (? & ? & ? & ? & _). repeat (split; [done|]). by constructor.
Qed.

Lemma ehdr_copy (m m' : gmap Z byte) a b magic h n :
  elf_layout -> length magic = 4%nat -> (forall j, 0 <= j < sizeof_Ehdr eh -> m' !! (a + j) = m !! (b + j)) ->
  ident_at m b magic -> ehdr_at m b h n -> ident_at m' a magic /\ ehdr_at m' a h n.
Proof.
  intros [(_ & L0 & L) _] Hl H [I0 I1] E. rewrite !list.Forall_cons in L. destruct L as (L1 & L2 & L3 & L4 & L5 & L6 & L7 & L8 & _).
  assert (R : forall (n : nat) off, 0 <= off -> off + Z.of_nat n <= sizeof_Ehdr eh -> rd n m' (a + off) = rd n m (b + off)).
  { intros j off H1 H2. apply rd_copy. intros i Hi. rewrite <- !Z.add_assoc. apply H. lia. }
  unfold ident_at, ehdr_at in *. rewrite !R by lia. split; [|done]. split; [|done].
  intros i c Hi. pose proof (lookup_lt_Some _ _ _ Hi). rewrite H by lia. by apply I0.
Qed.

Lemma check_headers_eq s lit header magic :
  bytes_at (mem s) lit magic -> length magic = 4%nat -> ident_at (mem s) header magic ->
  check_headers eh lit header s = Ok true s.
Proof.
  intros Hl Hm (I0 & I1 & I2 & I3 & I4). unfold check_headers.
  assert (E : memcmp header lit 4 s = Ok 0 s).
  { rewrite <- (lex_refl magic). replace 4 with (Z.of_nat (length magic)) by lia. by apply memcmp_eq. }
  rewrite (bind_Ok _ _ _ _ _ E). change (negb (0 =? 0)) with false. cbv iota.
  rewrite (ld_then 1 _ _ _ _ I1), Z.eqb_refl. change (negb true) with false. cbv iota.
  rewrite (ld_then 1 _ _ _ _ I2), Z.eqb_refl. change (negb true) with false. cbv iota.
  rewrite (ld_then 2 _ _ _ _ I3), Z.eqb_refl. change (negb true) with false. cbv iota.
  rewrite (ld_then 4 _ _ _ _ I4). by rewrite Z.eqb_refl.
Qed.

End elf_file.

(** * The loop over the program headers *)

Section elf_load.
Context (HHDM_OFFSET : Z) `{KH : KernelHeap} `{LC : LibC} (im : image) (eh : elf_h).
Context (lit_ELFMAG elf_header program_header aux : Z) (s0 : kstate) (pm root node fs data k size pos0 : Z).
Context (magic : list byte) (h : ehdr) (phs : list phdr).
Implicit Types (s : kstate) (v x pos : Z).
Local Abbreviation va := (frame_va HHDM_OFFSET).
Local Abbreviation translate_of := (translate_of HHDM_OFFSET).
Local Abbreviation off_table := (off_table HHDM_OFFSET).
Local Abbreviation off_tables := (off_tables HHDM_OFFSET).
Local Abbreviation budget := (budget HHDM_OFFSET).
Local Abbreviation stable := (stable HHDM_OFFSET).
Local Abbreviation keeps := (keeps HHDM_OFFSET).
Local Abbreviation loader := (loader HHDM_OFFSET im).
Local Abbreviation loads := (loads eh).
Local Abbreviation loaded := (loaded eh).
Local Abbreviation load_bytes := (load_bytes eh).

(** What a caller of [elf_load] has: the file, the address space, and on its stack the two
    headers and the auxiliary values; all of them apart from each other. *)
Definition objects : list (Z * Z) :=
  [(elf_header, sizeof_Ehdr eh); (program_header, sizeof_Phdr eh); (aux, 32); (node, sizeof_vfs_node); (data, k);
   (pm, 8); (fs + fs_read, 8); (lit_ELFMAG, 4)].

(** The bytes that the loader writes, besides tables and new frames. *)
Definition written x : Prop :=
  elf_header <= x < elf_header + sizeof_Ehdr eh \/ program_header <= x < program_header + sizeof_Phdr eh \/
  aux <= x < aux + 32 \/ node <= x < node + sizeof_vfs_node.

Record elf_caller : Prop := {
  ec_loader : loader s0 pm root node fs data k size pos0;
  ec_ehdr : off_tables s0 root elf_header (sizeof_Ehdr eh);
  ec_phdr : off_tables s0 root program_header (sizeof_Phdr eh);
  ec_aux : off_tables s0 root aux 32;
  ec_magic : bytes_at (mem s0) lit_ELFMAG magic /\ length magic = 4%nat /\
    forall x, lit_ELFMAG <= x < lit_ELFMAG + 4 -> stable s0 root x;
  ec_apart : seps objects
}.

(** The program sees the segment [sg] of the file, zeros included, in memory that was
    nobody's when the load began. *)
Definition visible s (sg : segment) : Prop :=
  forall i, 0 <= i < sg_memsz sg -> exists p, translate_of s root (sg_vaddr sg + i) = Some p /\
    mem s !! (HHDM_OFFSET + p) = (if decide (i < sg_filesz sg) then mem s0 !! (data + sg_offset sg + i) else Some Byte.x00) /\
    off_table s root (HHDM_OFFSET + p) /\ ~ stable s0 root (HHDM_OFFSET + p).

(** The state in the middle of a load, with the segments [sgs] in place. *)
Record loading s pos (sgs : list segment) : Prop := {
  pg_loader : loader s pm root node fs data k size pos;
  pg_keeps : keeps s0 s root written;
  pg_visible sg : sg ∈ sgs -> visible s sg;
  pg_other v : (forall sg, sg ∈ sgs -> segment_pages sg <= page_off (sg_vaddr sg) v) -> translate_of s root v = translate_of s0 root v
}.

Context (C : elf_caller).

Lemma written_stable x : written x -> off_table s0 root x.
Proof using C.
  intros [H|[H|[H|H]]]; [by apply (ec_ehdr C)|by apply (ec_phdr C)|by apply (ec_aux C)|by apply (lo_node _ _ _ _ _ _ _ _ _ _ _ (ec_loader C))].
Qed.

(** A step that changes only what the caller had keeps what has been loaded. *)
Lemma visible_keeps s s' sg :
  keeps s0 s root written -> keeps s s' root written ->
  (forall i, 0 <= i < sg_memsz sg -> translate_of s' root (sg_vaddr sg + i) = translate_of s root (sg_vaddr sg + i)) ->
  visible s sg -> visible s' sg.
Proof using C.
  intros K0 K Ht Hv i Hi. destruct (Hv i Hi) as (p & P1 & P2 & P3 & P4). exists p. rewrite (Ht i Hi). split; [done|].
  split; [|split; [by apply (kp_off _ _ _ _ _ K)|done]]. rewrite <- P2. apply (kp_mem _ _ _ _ _ K); [by left|].
  intros W. apply P4. left. by apply written_stable.
Qed.

Lemma loading_keeps s s' pos pos' sgs :
  loading s pos sgs -> loader s' pm root node fs data k size pos' -> keeps s s' root written ->
  (forall v, translate_of s' root v = translate_of s root v) -> loading s' pos' sgs.
Proof using C.
  intros [P1 P2 P3 P4] L K Ht. split; [done|by eapply keeps_trans| |].
  - intros sg Hsg. by apply (visible_keeps s); [..|by apply P3].
  - intros v Hv. rewrite Ht. by apply P4.
Qed.

(** ** The objects of the caller *)

Lemma objects_apart :
  Forall (apart (elf_header, sizeof_Ehdr eh)) [(program_header, sizeof_Phdr eh); (aux, 32); (node, sizeof_vfs_node); (data, k); (pm, 8); (fs + fs_read, 8); (lit_ELFMAG, 4)] /\
  Forall (apart (program_header, sizeof_Phdr eh)) [(aux, 32); (node, sizeof_vfs_node); (data, k); (pm, 8); (fs + fs_read, 8); (lit_ELFMAG, 4)] /\
  Forall (apart (aux, 32)) [(node, sizeof_vfs_node); (data, k); (pm, 8); (fs + fs_read, 8); (lit_ELFMAG, 4)] /\
  Forall (apart (node, sizeof_vfs_node)) [(data, k); (pm, 8); (fs + fs_read, 8); (lit_ELFMAG, 4)].
Proof using C.
  destruct (ec_apart C) as (H1 & H2 & H3 & H4 & _). by repeat split; apply list.Forall_forall.
Qed.

(** The two headers are local variables that are read into; the file is apart from them. *)
Definition local buff n : Prop := (buff = elf_header /\ n = sizeof_Ehdr eh) \/ (buff = program_header /\ n = sizeof_Phdr eh).

Lemma local_apart buff n :
  local buff n ->
  apart (buff, n) (node, sizeof_vfs_node) /\ apart (buff, n) (data, k) /\ apart (buff, n) (pm, 8) /\
  apart (buff, n) (fs + fs_read, 8) /\ off_tables s0 root buff n.
Proof using C.
  destruct objects_apart as (H1 & H2 & _). rewrite !list.Forall_cons in H1; rewrite !list.Forall_cons in H2.
  intros [[-> ->]|[-> ->]]; (do 4 (split; [tauto|]); by apply C).
Qed.

(** The file and the literal are not written. *)
Lemma read_only x :
  data <= x < data + k \/ lit_ELFMAG <= x < lit_ELFMAG + 4 \/ fs + fs_read <= x < fs + fs_read + 8 -> ~ written x.
Proof using C.
  destruct objects_apart as (H1 & H2 & H3 & H4). rewrite !list.Forall_cons in H1; rewrite !list.Forall_cons in H2; rewrite !list.Forall_cons in H3; rewrite !list.Forall_cons in H4.
  destruct H1 as (_ & _ & _ & A1 & _ & A2 & A3 & _), H2 as (_ & _ & B1 & _ & B2 & B3 & _), H3 as (_ & C1 & _ & C2 & C3 & _), H4 as (D1 & _ & D2 & D3 & _).
  unfold apart in *. cbn [fst snd] in *. intros Hx [W|[W|[W|W]]]; destruct Hx as [X|[X|X]]; lia.
Qed.

Lemma written_not_pm x : written x -> ~ (pm <= x < pm + 8).
Proof using C.
  destruct objects_apart as (H1 & H2 & H3 & H4). rewrite !list.Forall_cons in H1; rewrite !list.Forall_cons in H2; rewrite !list.Forall_cons in H3; rewrite !list.Forall_cons in H4.
  destruct H1 as (_ & _ & _ & _ & A1 & _), H2 as (_ & _ & _ & B1 & _), H3 as (_ & _ & C1 & _), H4 as (_ & D1 & _).
  unfold apart in *. cbn [fst snd] in *. intros [W|[W|[W|W]]]; lia.
Qed.

Lemma local_written buff n x : local buff n -> read_into node buff n x -> written x.
Proof using Type. intros [[-> ->]|[-> ->]] [H|H]; unfold written; tauto. Qed.

Lemma off_table_mapped s a n : off_tables s root a n -> mapped (mem s) a n /\ (0 < n -> pmm_inv HHDM_OFFSET s -> 0 < a).
Proof using Type.
  intros H. split.
  - intros x Hx. destruct (H x Hx) as (f & [(_ & _ & Hm & _) _] & Hf). apply Hm. unfold frame_va, FRAME_SIZE in *. lia.
  - intros Hn Hi. destruct (H a ltac:(lia)) as (f & [(Hr & _) _] & Hf). pose proof (pi_hhdm _ _ Hi). unfold frame_va in *. lia.
Qed.

(** ** Reading a header *)

Lemma read_local s pos sgs buff n offset :
  loading s pos sgs -> local buff n -> 0 < n < 2 ^ 30 -> 0 <= offset -> offset + n <= size -> pos + n < 2 ^ 31 ->
  exists s', vfs_read im node buff n offset s = Ok n s' /\ loading s' (pos + n) sgs /\
    only_touched HHDM_OFFSET s s' root /\ keeps s s' root (read_into node buff n) /\
    forall j, 0 <= j < n -> mem s' !! (buff + j) = mem s0 !! (data + offset + j).
Proof using C.
  intros P Hl Hn Ho Hs Hp. destruct (local_apart buff n Hl) as (A1 & A2 & A3 & A4 & Hoff). unfold apart in *. cbn [fst snd] in *.
  pose proof (pg_loader _ _ _ P) as L. pose proof L as [L1 L2 L3 L4 L5 L6 L7]. pose proof (pg_keeps _ _ _ P) as K.
  assert (Hb : off_tables s root buff n) by (intros x Hx; by apply (kp_off _ _ _ _ _ K), Hoff).
  destruct (off_table_mapped s buff n Hb) as [Hm H0].
  destruct (vfs_read_at HHDM_OFFSET im s root node fs data k size pos buff n offset) as (s' & E & R);
    [done|done|lia|done|lia|lia|by apply H0; [lia|apply (sp_vm _ _ _ _ L1)]| |intros x Hx; lia|].
  { intros x Hx. apply Hm. lia. }
  rewrite (Z.min_l n) in E, R by lia. exists s'. split; [done|].
  destruct (loader_read HHDM_OFFSET im s s' pm root node fs data k size pos buff offset n L R Hb) as (L' & O & K'); [lia|lia|intros x; lia|].
  split; [|split; [done|split; [done|]]].
  - apply (loading_keeps s s' pos); [done|done| |apply O]. eapply keeps_weaken; [|exact K']. intros x. by apply local_written.
  - intros j Hj. rewrite (ra_bytes _ _ _ _ _ _ _ _ _ _ R) by done. apply (kp_mem _ _ _ _ _ K).
    + left. apply (lo_data _ _ _ _ _ _ _ _ _ _ _ (ec_loader C)). lia.
    + apply read_only. left. lia.
Qed.

(** ** A word of the auxiliary vector *)

Lemma aux_word_eq s pos sgs off w :
  loading s pos sgs -> off = 0 \/ off = 8 \/ off = 16 \/ off = 24 ->
  let s' := with_mem s (wr 8 (mem s) (aux + off) w) in
  st 8 (aux + off) w s = Ok tt s' /\ loading s' pos sgs /\ only_touched HHDM_OFFSET s s' root /\
  keeps s s' root (fun x => aux + off <= x < aux + off + 8).
Proof using C.
  intros P Ho s'. pose proof (pg_loader _ _ _ P) as L. pose proof (pg_keeps _ _ _ P) as K.
  assert (Hoff : forall x, aux + off <= x < aux + off + 8 -> off_table s root x)
    by (intros x Hx; apply (kp_off _ _ _ _ _ K), (ec_aux C); lia).
  assert (Hw : forall x, aux + off <= x < aux + off + 8 -> written x) by (intros x Hx; right; right; left; lia).
  destruct (off_table_mapped s (aux + off) 8 Hoff) as [Hm _].
  assert (T : touched s s' (fun x => aux + off <= x < aux + off + 8)).
  { destruct (same_outside_wr 8 (mem s) (aux + off) w Hm) as [Hd He]. by split. }
  destruct (touched_kept HHDM_OFFSET s s' pm root _ (lo_space _ _ _ _ _ _ _ _ _ _ _ L) Hoff T) as (S1 & O & K');
    [intros x Hx; by apply written_not_pm, Hw|].
  split; [by apply st_ok|]. split; [|done].
  apply (loading_keeps s s' pos); [done| |exact (keeps_weaken _ _ _ _ _ _ Hw K')|apply O].
  apply (loader_keeps HHDM_OFFSET im s s' pm root node fs data k size pos _ L S1 K'); [exact (to_dom _ _ _ T)|].
  intros x [X|X] Hx; [|by apply (read_only x); [right; by right|by apply Hw]].
  destruct objects_apart as (_ & _ & H3 & _). rewrite !list.Forall_cons in H3. destruct H3 as [A _]. unfold apart in A. cbn [fst snd] in A. lia.
Qed.

(** ** A segment more *)

Lemma loading_load s s' pos sgs sg f :
  loading s pos sgs -> segment_ok sg size -> loader s' pm root node fs data k size (pos + sg_filesz sg) ->
  segment_loaded HHDM_OFFSET s s' root node data sg f -> apart_pages (sgs ++ [sg]) ->
  loading s' (pos + sg_filesz sg) (sgs ++ [sg]).
Proof using C.
  intros [P1 P2 P3 P4] Hok L [S1 S2 S3 S4 S5] Hap.
  assert (K : keeps s s' root written) by (eapply keeps_weaken; [|exact S5]; intros x Hx; by right; right; right).
  split; [done|by eapply keeps_trans| |].
  - intros sg' [Hsg| ->%list_elem_of_singleton]%elem_of_app.
    + apply (visible_keeps s); [done|done| |by apply P3]. intros i Hi. apply S3. by apply (Hap sgs sg []).
    + intros i Hi. destruct (S2 i Hi) as (p & Hp & Hf & Hb). exists p. split; [done|].
      destruct (frame_of_byte HHDM_OFFSET _ _ _ Hf) as (g & Hg & Hx). split; [|split].
      * rewrite Hb. case_decide as Hd; [|done]. apply (kp_mem _ _ _ _ _ P2).
        -- left. apply (lo_data _ _ _ _ _ _ _ _ _ _ _ (ec_loader C)). destruct Hok as [_ _ [? ?]].
           pose proof (lo_size _ _ _ _ _ _ _ _ _ _ _ (ec_loader C)). lia.
        -- apply read_only. left. destruct Hok as [_ _ [? ?]]. pose proof (lo_size _ _ _ _ _ _ _ _ _ _ _ (ec_loader C)). lia.
      * exists g. split; [by apply S1|done].
      * intros Hst. apply (S4 _ Hf). by eapply keeps_stable.
  - intros v Hv. rewrite S3 by (apply Hv, elem_of_app; right; by apply list_elem_of_singleton).
    apply P4. intros sg' Hsg. apply Hv, elem_of_app. by left.
Qed.

(** ** One round of the loop *)

Context (F : elf_file eh (mem s0) data size magic h phs) (Hlay : elf_layout eh).
Context (old : Z) (Hold : rd 8 (mem s0) (aux + 8) = Some old).
Context (Hphs : Forall (fun ph => ph_type ph <> PT_INTERP eh /\ (loads ph = true -> segment_ok (ph_seg ph) size)) phs).
Context (Hpages : apart_pages (loaded phs)) (Hpos : pos0 + sizeof_Ehdr eh + load_bytes phs < 2 ^ 31).

Record round s (phs1 phs2 : list phdr) : Prop := {
  rn_progress : loading s (pos0 + sizeof_Ehdr eh + load_bytes phs1) (loaded phs1);
  rn_ehdr : ehdr_at eh (mem s) elf_header h (Z.of_nat (length phs));
  rn_budget : budget s root (load_dirs eh phs2) (load_frames eh phs2);
  rn_aux : rd 8 (mem s) (aux + 8) = Some (phdr_address eh phs1 old)
}.

(** What a step that writes elsewhere keeps of the caller's words. *)
Lemma round_ehdr s s' W :
  keeps s0 s root written -> keeps s s' root W ->
  (forall x, W x -> ~ (elf_header <= x < elf_header + sizeof_Ehdr eh)) ->
  ehdr_at eh (mem s) elf_header h (Z.of_nat (length phs)) -> ehdr_at eh (mem s') elf_header h (Z.of_nat (length phs)).
Proof using C Hlay.
  intros K0 K Hw.
  apply ehdr_ext; [done|]. intros x Hx. apply (kp_mem _ _ _ _ _ K); [left; by apply (kp_off _ _ _ _ _ K0), (ec_ehdr C)|].
  intros HW. by apply (Hw x).
Qed.

Lemma round_aux s s' W off w :
  keeps s0 s root written -> keeps s s' root W -> off = 0 \/ off = 8 \/ off = 16 \/ off = 24 ->
  (forall x, W x -> ~ (aux + off <= x < aux + off + 8)) ->
  rd 8 (mem s) (aux + off) = Some w -> rd 8 (mem s') (aux + off) = Some w.
Proof using C.
  intros K0 K Ho Hw <-. apply (keeps_rd HHDM_OFFSET s s' root W); [done|]. intros x Hx.
  split; [left; apply (kp_off _ _ _ _ _ K0), (ec_aux C); lia|]. intros HW. by apply (Hw x).
Qed.

(** What happens with a header that has been read. *)
Definition phdr_case (ld_path i : Z) : K (Z + bool) :=
  p_type ← ld 4 (program_header + off_p_type eh);
  if p_type =? PT_LOAD eh then
    ok ← load_segment HHDM_OFFSET im eh program_header pm node;
    mret (if ok : bool then inl (i + 1) else inr false)
  else if p_type =? PT_INTERP eh then load_interp im eh program_header node ld_path ;; mret (inl (i + 1))
  else if p_type =? PT_PHDR eh then
    p_vaddr ← ld 8 (program_header + off_p_vaddr eh);
    st 8 (aux + 8) p_vaddr ;; mret (inl (i + 1))
  else mret (inl (i + 1)).

(** The state with the header of [ph] in [program_header]. *)
Record header_read s (phs1 : list phdr) (ph : phdr) (phs2 : list phdr) : Prop := {
  hr_progress : loading s (pos0 + sizeof_Ehdr eh + load_bytes phs1 + sizeof_Phdr eh) (loaded phs1);
  hr_ehdr : ehdr_at eh (mem s) elf_header h (Z.of_nat (length phs));
  hr_budget : budget s root (load_dirs eh (ph :: phs2)) (load_frames eh (ph :: phs2));
  hr_aux : rd 8 (mem s) (aux + 8) = Some (phdr_address eh phs1 old);
  hr_phdr : phdr_at eh (mem s) program_header ph
}.

Lemma phs_bytes phs1 ph phs2 :
  phs = phs1 ++ ph :: phs2 ->
  0 <= load_bytes phs1 /\ 0 <= load_bytes phs2 /\
  load_bytes phs = load_bytes phs1 + (sizeof_Phdr eh + (if loads ph then sg_filesz (ph_seg ph) else 0) + load_bytes phs2).
Proof using Hlay Hphs.
  intros E. assert (Hf : Forall (fun ph => loads ph = true -> 0 <= sg_filesz (ph_seg ph)) phs).
  { eapply list.Forall_impl; [exact Hphs|]. intros p [_ Hp] Hl. destruct (Hp Hl) as [_ [? ?] _]. lia. }
  rewrite E in Hf |- *. rewrite load_bytes_app. apply Forall_app in Hf as [H1 [_ H2]%list.Forall_cons].
  split; [by apply load_bytes_nonneg|]. split; [by apply load_bytes_nonneg|done].
Qed.

Lemma round_read s phs1 ph phs2 ld_path :
  phs = phs1 ++ ph :: phs2 -> round s phs1 (ph :: phs2) -> 0 <= pos0 ->
  exists s1, elf_phdr HHDM_OFFSET im eh elf_header program_header pm node aux ld_path (Z.of_nat (length phs1)) s =
    phdr_case ld_path (Z.of_nat (length phs1)) s1 /\ header_read s1 phs1 ph phs2.
Proof using C F Hlay Hphs Hpos.
  intros E [P1 P2 P3 P4] Hp0. set (i := Z.of_nat (length phs1)) in *. pose proof P2 as (_ & E2 & E3 & E4).
  destruct (phs_bytes phs1 ph phs2 E) as (B1 & B2 & B3). pose proof Hlay as [(L1 & _) (L2 & _)].
  assert (Hi : phs !! length phs1 = Some ph) by (rewrite E; by apply list_lookup_middle).
  destruct (ef_phdrs _ _ _ _ _ _ _ F _ _ Hi) as (Hat & Ho1 & Ho2). fold i in Hat, Ho1, Ho2.
  assert (Hsz : size < 2 ^ 64).
  { pose proof (at_mapped _ _ _ _ _ _ _ (lo_file _ _ _ _ _ _ _ _ _ _ _ (ec_loader C))).
    pose proof (lo_size _ _ _ _ _ _ _ _ _ _ _ (ec_loader C)). lia. }
  assert (Hb : load_bytes phs1 + sizeof_Phdr eh <= load_bytes phs).
  { rewrite B3. assert (0 <= (if loads ph then sg_filesz (ph_seg ph) else 0)); [|lia].
    destruct (loads ph) eqn:El; [|done]. pose proof (proj1 (list.Forall_forall _ _) Hphs ph) as [_ Hok]; [|].
    - rewrite E. apply elem_of_app. right. apply elem_of_cons. by left.
    - destruct (Hok El) as [_ [? ?] _]. lia. }
  destruct (read_local s _ _ program_header (sizeof_Phdr eh) (phdr_offset h i) P1) as (s1 & E1 & Q1 & O & K & Q2);
    [by right|done|done|done|lia|].
  pose proof (pg_keeps _ _ _ P1) as K0. destruct objects_apart as (H1 & H2 & H3 & H4).
  rewrite !list.Forall_cons in H1; rewrite !list.Forall_cons in H2; rewrite !list.Forall_cons in H3.
  destruct H1 as (A1 & _ & A2 & _), H2 as (A3 & _), H3 as (A4 & _). unfold apart in A1, A2, A3, A4. cbn [fst snd] in *.
  exists s1. split.
  - unfold elf_phdr. rewrite (ld_then 2 _ _ _ _ E4), (proj2 (Z.leb_gt _ _)).
    2:{ rewrite E, length_app. unfold i. simpl. lia. }
    rewrite (ld_then 8 _ _ _ _ E2), (ld_then 2 _ _ _ _ E3), u64_small by (unfold phdr_offset in *; lia).
    change (eh_phoff h + i * eh_phentsize h) with (phdr_offset h i). rewrite (bind_Ok _ _ _ _ _ E1).
    rewrite (proj2 (Z.leb_gt (sizeof_Phdr eh) 0)) by lia. done.
  - split; [done| | | |].
    + eapply round_ehdr; [done|exact K| |done]. intros x [X|X]; lia.
    + by apply O; [apply load_dirs_paths|].
    + eapply round_aux; [done|exact K|lia| |done]. intros x [X|X]; lia.
    + eapply phdr_copy; [done| |exact Hat]. intros j Hj. by apply Q2.
Qed.

Lemma segment_read s phs1 ph phs2 : header_read s phs1 ph phs2 -> segment_at HHDM_OFFSET eh program_header s root (ph_seg ph).
Proof using C Hlay.
  intros [P1 _ _ _ [_ P5]]. pose proof (pg_keeps _ _ _ P1) as K0. destruct Hlay as [_ [_ L]].
  rewrite !list.Forall_cons in L. destruct L as (_ & L2 & L3 & L4 & L5 & _).
  assert (Hst : forall off, 0 <= off /\ off + 8 <= sizeof_Phdr eh ->
    forall x, program_header + off <= x < program_header + off + 8 -> stable s root x).
  { intros off Hoff x Hx. left. apply (kp_off _ _ _ _ _ K0), (ec_phdr C). lia. }
  unfold segment_at, sg_words in *. rewrite !list.Forall_cons in *. cbv beta iota in *. destruct P5 as (? & ? & ? & ? & _).
  repeat (split; [split; [done|by apply Hst]|]). by constructor.
Qed.

Lemma round_load s phs1 ph phs2 ld_path :
  phs = phs1 ++ ph :: phs2 -> header_read s phs1 ph phs2 -> loads ph = true -> 0 <= pos0 ->
  exists s', phdr_case ld_path (Z.of_nat (length phs1)) s = Ok (inl (Z.of_nat (length phs1) + 1)) s' /\ round s' (phs1 ++ [ph]) phs2.
Proof using C Hlay Hphs Hpages Hpos.
  intros E H Hl Hp0. pose proof H as [P1 P2 P3 P4 [P5 P6]]. destruct (phs_bytes phs1 ph phs2 E) as (B1 & B2 & B3). rewrite Hl in B3.
  assert (Hin : ph ∈ phs) by (rewrite E; apply elem_of_app; right; apply elem_of_cons; by left).
  destruct (proj1 (list.Forall_forall _ _) Hphs ph Hin) as [_ Hok]. specialize (Hok Hl). pose proof Hok as [_ [Hf _] _].
  destruct (loaded_take eh ph phs2 Hl) as [D1 D2]. rewrite D1, D2 in P3.
  destruct (load_segment_eq HHDM_OFFSET im eh program_header s pm root node fs data k size _ (ph_seg ph) (load_dirs eh phs2) (load_frames eh phs2)
    (pg_loader _ _ _ P1) (segment_read _ _ _ _ H) Hok) as (f & s' & E1 & L & S & Hb); [lia|apply load_dirs_paths|exact P3|].
  pose proof (pg_keeps _ _ _ P1) as K0. pose proof (sl_keeps _ _ _ _ _ _ _ _ S) as K.
  destruct objects_apart as (H1 & _ & H3 & _). rewrite !list.Forall_cons in H1; rewrite !list.Forall_cons in H3.
  destruct H1 as (_ & _ & A1 & _), H3 as (A2 & _). unfold apart in A1, A2. cbn [fst snd] in *.
  assert (Es : loaded (phs1 ++ [ph]) = loaded phs1 ++ [ph_seg ph]) by (rewrite loaded_app, loaded_cons, Hl; done).
  exists s'. split.
  - unfold phdr_case. rewrite (ld_then 4 _ _ _ _ P5). fold (loads ph). rewrite Hl. by rewrite (bind_Ok _ _ _ _ _ E1).
  - split; [|eapply round_ehdr; [done|exact K|intros x X; cbv beta in X; lia|done]|done|].
    + rewrite Es. replace (pos0 + sizeof_Ehdr eh + load_bytes (phs1 ++ [ph]))
        with (pos0 + sizeof_Ehdr eh + load_bytes phs1 + sizeof_Phdr eh + sg_filesz (ph_seg ph)) by (rewrite load_bytes_app; simpl; rewrite Hl; lia).
      eapply loading_load; [done|done|done|exact S|]. rewrite <- Es. apply (apart_pages_prefix _ (loaded phs2)).
      rewrite <- loaded_app, <- app_assoc. cbn [app]. by rewrite <- E.
    + rewrite phdr_address_app. simpl. rewrite Hl. eapply round_aux; [done|exact K|lia|intros x X; cbv beta in X; lia|done].
Qed.

(** A header of another kind: at most the address of the headers is recorded. *)
Lemma round_skip s phs1 ph phs2 ld_path :
  phs = phs1 ++ ph :: phs2 -> header_read s phs1 ph phs2 -> loads ph = false ->
  exists s', phdr_case ld_path (Z.of_nat (length phs1)) s = Ok (inl (Z.of_nat (length phs1) + 1)) s' /\ round s' (phs1 ++ [ph]) phs2.
Proof using C Hlay Hphs.
  intros E H Hl. pose proof H as [P1 P2 P3 P4 [P5 P6]]. destruct (loaded_skip eh ph phs2 Hl) as [D1 D2]. rewrite D1, D2 in P3.
  assert (Hin : ph ∈ phs) by (rewrite E; apply elem_of_app; right; apply elem_of_cons; by left).
  destruct (proj1 (list.Forall_forall _ _) Hphs ph Hin) as [Hint _].
  assert (Es : loaded (phs1 ++ [ph]) = loaded phs1) by (rewrite loaded_app, loaded_cons, Hl; apply app_nil_r).
  assert (Eb : load_bytes (phs1 ++ [ph]) = load_bytes phs1 + sizeof_Phdr eh) by (rewrite load_bytes_app; simpl; rewrite Hl; lia).
  assert (Ea : phdr_address eh (phs1 ++ [ph]) old =
    if ph_type ph =? PT_PHDR eh then sg_vaddr (ph_seg ph) else phdr_address eh phs1 old).
  { rewrite phdr_address_app. simpl. by rewrite Hl, (proj2 (Z.eqb_neq _ _) Hint). }
  unfold phdr_case. rewrite (ld_then 4 _ _ _ _ P5). fold (loads ph). rewrite Hl, (proj2 (Z.eqb_neq _ _) Hint).
  destruct (ph_type ph =? PT_PHDR eh).
  - pose proof (segment_words _ _ _ _ _ _ (segment_read _ _ _ _ H)) as (W & _). rewrite (ld_then 8 _ _ _ _ W).
    destruct (aux_word_eq s _ _ 8 (sg_vaddr (ph_seg ph)) P1 ltac:(lia)) as (E1 & Q & O & K).
    rewrite (bind_Ok _ _ _ _ _ E1). eexists. split; [reflexivity|].
    destruct objects_apart as (H1 & _). rewrite !list.Forall_cons in H1. destruct H1 as (_ & A1 & _). unfold apart in A1. cbn [fst snd] in *.
    split; [rewrite Es, Eb, Z.add_assoc; exact Q| |by apply O; [apply load_dirs_paths|]|].
    + eapply round_ehdr; [apply P1|exact K|intros x X; cbv beta in X; lia|done].
    + rewrite Ea. cbn [mem with_mem]. rewrite rd_wr_same. f_equal. pose proof (rd_range _ _ _ _ W). by apply Z.mod_small.
  - exists s. split; [done|]. split; [by rewrite Es, Eb, Z.add_assoc|done|done|by rewrite Ea].
Qed.

(** ** The loop *)

Lemma elf_rounds ld_path phs2 phs1 s :
  phs = phs1 ++ phs2 -> round s phs1 phs2 -> 0 <= pos0 ->
  exists s', runs (elf_phdr HHDM_OFFSET im eh elf_header program_header pm node aux ld_path) (S (length phs2)) (Z.of_nat (length phs1)) s true s' /\
    round s' phs [].
Proof using C F Hlay Hphs Hpages Hpos.
  revert phs1 s. induction phs2 as [|ph phs2 IH]; intros phs1 s E H Hp0.
  - rewrite app_nil_r in E. subst phs1. exists s. split; [|done]. apply runs_exit. unfold elf_phdr.
    destruct (rn_ehdr _ _ _ H) as (_ & _ & _ & E4). by rewrite (ld_then 2 _ _ _ _ E4), Z.leb_refl.
  - destruct (round_read s phs1 ph phs2 ld_path E H Hp0) as (s1 & E1 & H1).
    assert (Hc : exists s2, phdr_case ld_path (Z.of_nat (length phs1)) s1 = Ok (inl (Z.of_nat (length phs1) + 1)) s2 /\ round s2 (phs1 ++ [ph]) phs2)
      by (destruct (loads ph) eqn:El; [by apply round_load|by apply round_skip]).
    destruct Hc as (s2 & E2 & H2). destruct (IH (phs1 ++ [ph]) s2) as (s' & R & H'); [by rewrite <- app_assoc|done|done|].
    exists s'. split; [|done]. rewrite length_app in R. simpl in R.
    replace (Z.of_nat (length phs1 + 1)) with (Z.of_nat (length phs1) + 1) in R by lia.
    eapply runs_next; [|exact R]. by rewrite E1.
Qed.

(** ** Before and after the loop *)

(** The auxiliary values, [struct auxval]. *)
Definition aux_vector s : Prop :=
  rd 8 (mem s) aux = Some (eh_entry h) /\ rd 8 (mem s) (aux + 8) = Some (phdr_address eh phs old) /\
  rd 8 (mem s) (aux + 16) = Some (eh_phentsize h) /\ rd 8 (mem s) (aux + 24) = Some (Z.of_nat (length phs)).

(** One more of the values that come from the header. *)
Lemma aux_store s off w (n : nat) src :
  loading s (pos0 + sizeof_Ehdr eh + load_bytes phs) (loaded phs) -> off = 0 \/ off = 16 \/ off = 24 ->
  ehdr_at eh (mem s) elf_header h (Z.of_nat (length phs)) -> rd n (mem s) src = Some w -> 0 <= w < 2 ^ 64 ->
  exists s', (forall A (c : K A), (x ← ld n src; st 8 (aux + off) x ;; c) s = c s') /\
    loading s' (pos0 + sizeof_Ehdr eh + load_bytes phs) (loaded phs) /\
    ehdr_at eh (mem s') elf_header h (Z.of_nat (length phs)) /\ rd 8 (mem s') (aux + off) = Some w /\
    forall off', off' = 0 \/ off' = 8 \/ off' = 16 \/ off' = 24 -> off' <> off -> rd 8 (mem s') (aux + off') = rd 8 (mem s) (aux + off').
Proof using C Hlay.
  intros P Ho Hh Hw Hr. destruct (aux_word_eq s _ _ off w P ltac:(lia)) as (E & Q & _ & K).
  destruct objects_apart as (H1 & _). rewrite !list.Forall_cons in H1. destruct H1 as (_ & A1 & _). unfold apart in A1. cbn [fst snd] in *.
  eexists. split; [intros A c; rewrite (ld_then n _ _ _ _ Hw); by rewrite (bind_Ok _ _ _ _ _ E)|]. split; [done|]. split; [|split].
  - eapply round_ehdr; [apply P|exact K|intros x X; cbv beta in X; lia|done].
  - cbn [mem with_mem]. rewrite rd_wr_same. f_equal. by apply Z.mod_small.
  - intros off' Ho' Hne. cbn [mem with_mem]. apply rd_wr_ne. lia.
Qed.

Lemma elf_load_eq ld_path :
  0 <= pos0 -> budget s0 root (load_dirs eh phs) (load_frames eh phs) ->
  exists s', elf_load HHDM_OFFSET im eh lit_ELFMAG elf_header program_header pm node aux ld_path s0 = Ok true s' /\
    loading s' (pos0 + sizeof_Ehdr eh + load_bytes phs) (loaded phs) /\ aux_vector s'.
Proof using C F Hlay Hphs Hpages Hpos Hold.
  intros Hp0 Hb. pose proof Hlay as [(L1 & _) _]. destruct (ec_magic C) as (M1 & M2 & M3).
  assert (P0 : loading s0 pos0 []) by (split; [apply C|apply keeps_refl|by intros sg ?%elem_of_nil|done]).
  assert (Hbytes : 0 <= load_bytes phs).
  { apply load_bytes_nonneg; [done|]. eapply list.Forall_impl; [exact Hphs|]. intros p [_ Hp] Hl. destruct (Hp Hl) as [_ [? ?] _]. lia. }
  destruct (read_local s0 pos0 [] elf_header (sizeof_Ehdr eh) 0 P0) as (s1 & E1 & P1 & O & K & Hcp);
    [by left|done|done|apply F|lia|].
  destruct (ehdr_copy eh (mem s0) (mem s1) elf_header data magic h (Z.of_nat (length phs)) Hlay M2) as [I1 H1];
    [intros j Hj; rewrite Hcp by done; f_equal; lia|apply F|apply F|].
  destruct objects_apart as (A & _ & A' & _). rewrite !list.Forall_cons in A; rewrite !list.Forall_cons in A'.
  destruct A as (_ & A1 & _), A' as (A2 & _). unfold apart in A1, A2. cbn [fst snd] in *.
  assert (R1 : round s1 [] phs).
  { split; [simpl; by rewrite Z.add_0_r|done|by apply O; [apply load_dirs_paths|]|].
    eapply round_aux; [apply P0|exact K|lia| |exact Hold]. intros x [X|X]; lia. }
  destruct (elf_rounds ld_path phs [] s1 eq_refl R1 Hp0) as (s2 & Hr & [P2 H2 _ X2]).
  assert (Hlen : Z.of_nat (length phs) < 2 ^ 16) by (destruct H1 as (_ & _ & _ & W); apply rd_range in W; simpl in W; lia).
  pose proof H2 as (W1 & _). destruct (aux_store s2 0 _ _ _ P2 ltac:(lia) H2 W1) as (s3 & E3 & P3 & H3 & X3 & Y3); [apply rd_range in W1; simpl in W1; lia|].
  pose proof H3 as (_ & _ & W3 & _). destruct (aux_store s3 16 _ _ _ P3 ltac:(lia) H3 W3) as (s4 & E4 & P4 & H4 & X4 & Y4); [apply rd_range in W3; simpl in W3; lia|].
  pose proof H4 as (_ & _ & _ & W4). destruct (aux_store s4 24 _ _ _ P4 ltac:(lia) H4 W4) as (s5 & E5 & P5 & H5 & X5 & Y5); [lia|].
  exists s5. split; [|split; [done|]].
  - unfold elf_load. rewrite (bind_Ok _ _ _ _ _ E1), (proj2 (Z.leb_gt (sizeof_Ehdr eh) 0)) by lia.
    rewrite (bind_Ok _ _ s1 true s1).
    2:{ eapply check_headers_eq; [|exact M2|exact I1]. intros j b Hj. pose proof (lookup_lt_Some _ _ _ Hj).
        rewrite (kp_mem _ _ _ _ _ (pg_keeps _ _ _ P1)); [by apply M1|apply M3; lia|apply read_only; lia]. }
    change (negb true) with false. cbv iota. rewrite (bind_Ok _ _ s1 true s2) by (apply (kloop_runs _ _ _ _ _ _ Hr); lia).
    change (negb true) with false. cbv iota. rewrite Z.add_0_r in E3. etrans; [apply E3|]. etrans; [apply E4|]. by etrans; [apply E5|].
  - assert (X0 : rd 8 (mem s5) (aux + 0) = Some (eh_entry h)) by (by rewrite Y5, Y4 by lia).
    rewrite Z.add_0_r in X0. split; [done|]. split; [|split].
    + by rewrite Y5, Y4, Y3 by lia.
    + by rewrite Y5 by lia.
    + done.
Qed.

End elf_load.

(** * The program that is loaded *)

(** What the loader can load without the path of an interpreter: segments in the file and
    in the lower half of the address space, on pages of their own, and a file position
    that stays an [int]. *)
Record loadable (eh : elf_h) (phs : list phdr) (size pos0 : Z) : Prop := {
  lb_headers : Forall (fun ph => ph_type ph <> PT_INTERP eh /\ (loads eh ph = true -> segment_ok (ph_seg ph) size)) phs;
  lb_pages : apart_pages (loaded eh phs);
  lb_position : 0 <= pos0 /\ pos0 + sizeof_Ehdr eh + load_bytes eh phs < 2 ^ 31
}.

Section theorem.
Context (HHDM_OFFSET : Z) `{KH : KernelHeap} `{LC : LibC} (im : image) (eh : elf_h).
Context (lit_ELFMAG elf_header program_header : Z).
Implicit Types (s : kstate) (v x pos : Z).

(** C5: [elf_load] of an executable in the memory file system returns [true] when the file
    is [loadable] (no interpreter; segments on pages of their own, each with bytes in
    the file) and there are frames enough ([budget]), and then the
    processor sees in the address space of the program every segment of the file, byte
    for byte and with zeros up to its size in memory, in frames that nobody had; every
    page without a segment translates as before; the auxiliary values are those of the
    headers; and of the memory that the kernel had, only the two headers, the auxiliary
    values and the node of the file have changed. *)
Theorem elf_load_maps s pm root node fs data k size pos aux ld_path magic h phs old :
  elf_caller HHDM_OFFSET im eh lit_ELFMAG elf_header program_header aux s pm root node fs data k size pos magic ->
  elf_layout eh -> elf_file eh (mem s) data size magic h phs -> loadable eh phs size pos ->
  rd 8 (mem s) (aux + 8) = Some old -> budget HHDM_OFFSET s root (load_dirs eh phs) (load_frames eh phs) ->
  exists s', elf_load HHDM_OFFSET im eh lit_ELFMAG elf_header program_header pm node aux ld_path s = Ok true s' /\
    space_ok HHDM_OFFSET s' pm root /\
    (forall sg, sg ∈ loaded eh phs -> visible HHDM_OFFSET s root data s' sg) /\
    (forall v, (forall sg, sg ∈ loaded eh phs -> segment_pages sg <= page_off (sg_vaddr sg) v) ->
       translate_of HHDM_OFFSET s' root v = translate_of HHDM_OFFSET s root v) /\
    aux_vector eh aux h phs old s' /\
    keeps HHDM_OFFSET s s' root (written eh elf_header program_header aux node).
Proof.
  intros C Hl F [H1 H2 [H3 H4]] Ho Hb.
  destruct (elf_load_eq HHDM_OFFSET im eh lit_ELFMAG elf_header program_header aux s pm root node fs data k size pos magic h phs
    C F Hl old Ho H1 H2 H4 ld_path H3 Hb) as (s' & E & [P1 P2 P3 P4] & A).
  exists s'. split; [done|]. split; [apply P1|done].
Qed.

End theorem.
