(* ===== verification/ElfWitness.v ===== *)
(** A small executable in a small machine, on which the theorem about [elf_load] is applied. *)
From S2P Require Import Prelude Machine Lock Str Layout Interfaces Pmm PmmSpec PageTable Vmm VmmSpec VmmInit UserSpace KheapSpec Heap KheapHeap Lapic Sched Env Vfs Tmpfs VfsOps TmpfsSpec Elf ElfSpec ElfLoad.

#[local] Instance elf_heap : KernelHeap := kheap_heap 0x10000 0x8000.
#[local] Existing Instance stat_h.

(** The structures and numbers of the ELF specification. *)
Definition elf64 : elf_h := {|
  sizeof_Ehdr := 64; off_e_machine := 18; off_e_version := 20; off_e_entry := 24; off_e_phoff := 32;
  off_e_phentsize := 54; off_e_phnum := 56; sizeof_Phdr := 56; off_p_type := 0; off_p_offset := 8; off_p_vaddr := 16;
  off_p_filesz := 32; off_p_memsz := 40; EI_CLASS := 4; EI_DATA := 5; ELFCLASS64 := 2; ELFDATA2LSB := 1;
  EM_X86_64 := 62; EV_CURRENT := 1; PT_LOAD := 1; PT_INTERP := 3; PT_PHDR := 6
|}.

Lemma elf64_layout : elf_layout elf64.
Proof. split; [split; [by split|split; [done|]]|split; [by split|]]; repeat (constructor; [by apply (bool_decide_unpack _)|]); constructor. Qed.

Definition elf_image : image := {|
  sym_tmpfs := 0x12200; sym_tmpfs_mount := 1; sym_tmpfs_create := 2; sym_tmpfs_read := 3; sym_tmpfs_write := 4;
  sym_ext2fs := 5; sym_ext2fs_mount := 6; sym_ext2fs_create := 7; sym_ext2fs_read := 8; sym_ext2fs_write := 9;
  sym_filesystems := 10; sym_basename := 11; lit_empty := 12; lit_dot := 13; lit_str_dot := 14; lit_dotdot := 15;
  lit_slash := 16; lit_tmpfs := 17; lit_ext2fs := 18; lit_ustar := 19; lit_init := 20
|}.

(** The file: the header, two program headers, and 16 bytes of a program that is 32 bytes
    long in memory. *)
Definition elf_words (m : gmap Z byte) : gmap Z byte :=
  let m := wr 8 m 0x13000 0x10102464c457f in
  let m := wr 4 (wr 4 m 0x13010 0x3e0002) 0x13014 1 in
  let m := wr 8 (wr 8 m 0x13018 0x400010) 0x13020 64 in
  let m := wr 2 (wr 2 m 0x13036 56) 0x13038 2 in
  let m := wr 8 (wr 4 m 0x13040 6) 0x13050 0x400040 in
  let m := wr 8 (wr 8 (wr 4 m 0x13078 1) 0x13080 0xb0) 0x13088 0x400010 in
  let m := wr 8 (wr 8 m 0x13098 16) 0x130a0 32 in
  wr 8 (wr 8 m 0x130b0 0x1122334455667788) 0x130b8 0x99aabbccddeeff.

(** Eight frames behind a direct map at [0x10000]: the bitmap in frame 0, an empty root
    table in frame 1; in frame 2 the pagemap, the node, the table of the file system and
    the stack of the loader; in frame 3 the file; four free frames. *)
Definition elf_machine : kstate :=
  let m := wr 1 (zeros 0x10000 (Z.to_nat 0x8000)) 0x10000 15 in
  let m := wr 8 m 0x12000 0x11000 in
  let m := wr 8 (wr 8 m 0x12118 0x12200) 0x12148 0x13000 in
  let m := wr 8 m 0x12178 0x100 in
  let m := wr 8 m 0x12210 3 in
  let m := wr 4 m 0x12600 0x464c457f in
  KState (elf_words m) {[ g_bitmap := 0x10000; g_limit := 8 ]} [].

Definition elf_ehdr : ehdr := {| eh_entry := 0x400010; eh_phoff := 64; eh_phentsize := 56 |}.
Definition elf_phdrs : list phdr := [
  {| ph_type := 6; ph_seg := {| sg_vaddr := 0x400040; sg_memsz := 0; sg_filesz := 0; sg_offset := 0 |} |};
  {| ph_type := 1; ph_seg := {| sg_vaddr := 0x400010; sg_memsz := 32; sg_filesz := 16; sg_offset := 0xb0 |} |}
].
Definition elf_magic : list byte := [Byte.x7f; Byte.x45; Byte.x4c; Byte.x46].

Lemma elf_machine_globals :
  gval elf_machine g_bitmap = 0x10000 /\ gval elf_machine g_limit = 8 /\ bitmap_bytes elf_machine = 1.
Proof. by repeat split. Qed.

Lemma elf_machine_mapped a n : 0x10000 <= a -> a + n <= 0x18000 -> mapped (mem elf_machine) a n.
Proof. intros H1 H2. unfold elf_machine, elf_words. cbn [mem]. do 23 apply mapped_wr. intros x Hx. apply zeros_mapped. lia. Qed.

Lemma elf_machine_zero x : 0x11000 <= x < 0x12000 -> mem elf_machine !! x = Some Byte.x00.
Proof. intros Hx. unfold elf_machine, elf_words. cbn [mem]. rewrite !lookup_wr_out by lia. apply zeros_byte. lia. Qed.

Lemma elf_machine_inv : pmm_inv 0x10000 elf_machine.
Proof.
  destruct elf_machine_globals as (Hb & Hl & Hbb).
  split; [split; [done|split; [by rewrite Hl|]]|lia|by rewrite Hl|by rewrite Hl|].
  - rewrite Hb, Hbb. by apply elf_machine_mapped.
  - intros g Hg _. rewrite Hl in Hg. split.
    + apply elf_machine_mapped; unfold frame_va, FRAME_SIZE; lia.
    + right. rewrite Hb, Hbb. unfold frame_va. lia.
Qed.

Lemma elf_machine_owned g : g = 1 \/ g = 2 \/ g = 3 -> pmm_owned 0x10000 elf_machine g.
Proof.
  destruct elf_machine_globals as (Hb & Hl & Hbb). intros Hg. split; [rewrite Hl; lia|]. split.
  - destruct Hg as [-> | [-> | ->]]; vm_compute; reflexivity.
  - split; [apply elf_machine_mapped; unfold frame_va, FRAME_SIZE; lia|].
    right. rewrite Hb, Hbb. unfold frame_va. lia.
Qed.

Lemma elf_machine_tree :
  tree (pmm_owned 0x10000 elf_machine) (entries 0x10000 elf_machine) 1 /\
  forall q h, path 3 q -> PageTable.walk (entries 0x10000 elf_machine) 1 q = Some h -> q = [].
Proof.
  apply empty_tree; [apply elf_machine_owned; by left|]. intros j Hj. unfold entries. rewrite (rd_zero 8); [done|].
  unfold index, frame_va in *. intros x Hx. apply elf_machine_zero. lia.
Qed.

Lemma elf_machine_frame g : g = 2 \/ g = 3 -> Vmm.outside 0x10000 elf_machine 1 g.
Proof.
  intros Hg. split; [apply elf_machine_owned; by right|]. intros q Hq E.
  pose proof (proj2 elf_machine_tree q _ Hq E) as ->. injection E. lia.
Qed.

Lemma elf_machine_off a n : 0x12000 <= a -> a + n <= 0x14000 -> off_tables 0x10000 elf_machine 1 a n.
Proof.
  intros H1 H2 x Hx. exists (if decide (x < 0x13000) then 2 else 3).
  split; [apply elf_machine_frame; case_decide; lia|]. unfold frame_va. case_decide; lia.
Qed.

Lemma elf_machine_space : space_ok 0x10000 elf_machine 0x12000 1.
Proof.
  split; [split; [apply elf_machine_inv|apply elf_machine_tree]| |done].
  split; [vm_compute; reflexivity|]. exists 2. split; [apply elf_machine_frame; by left|]. unfold frame_va. lia.
Qed.

Lemma elf_machine_caller :
  elf_caller 0x10000 elf_image elf64 0x12600 0x12300 0x12400 0x12500 elf_machine 0x12000 1 0x12100 0x12200 0x13000 0x100 0x100 0 elf_magic.
Proof.
  change sizeof_vfs_node with 216. split.
  - split; [apply elf_machine_space| |done| |by apply elf_machine_off|by apply elf_machine_off|by left].
    + split; [vm_compute; reflexivity..| |intros x Hx; change sizeof_vfs_node with 216 in Hx; lia].
      do 3 (split; [done|]). by apply elf_machine_mapped.
    + split; [vm_compute; reflexivity..|]. intros x Hx. change sizeof_vfs_node with 216.
      split; [left; by apply (elf_machine_off 0x12210 8)|lia].
  - by apply elf_machine_off.
  - by apply elf_machine_off.
  - by apply elf_machine_off.
  - split; [|split; [done|intros x Hx; left; by apply (elf_machine_off 0x12600 4)]].
    unfold elf_magic. repeat (apply bytes_at_cons; split; [vm_compute; reflexivity|]). apply bytes_at_nil.
  - unfold objects. change sizeof_vfs_node with 216. cbn [seps].
    repeat (split; [intros r Hr; repeat (apply elem_of_cons in Hr as [->|Hr]; [unfold apart; simpl; lia|]); by apply elem_of_nil in Hr|]). done.
Qed.

Lemma elf_machine_file : elf_file elf64 (mem elf_machine) 0x13000 0x100 elf_magic elf_ehdr elf_phdrs.
Proof.
  split; [done| | |].
  - split; [|by vm_compute]. unfold elf_magic. repeat (apply bytes_at_cons; split; [vm_compute; reflexivity|]). apply bytes_at_nil.
  - by vm_compute.
  - intros [|[|i]] ph Hi; [injection Hi as <-|injection Hi as <-|done]; (split; [|by vm_compute]);
      (split; [vm_compute; reflexivity|]); repeat (constructor; [vm_compute; reflexivity|]); constructor.
Qed.

Lemma elf_machine_loadable : loadable elf64 elf_phdrs 0x100 0.
Proof.
  split; [|intros [|a l1] b l2 E x Hx|by vm_compute].
  - repeat (constructor; [split; [done|]; intros Hl; first [by vm_compute in Hl|by repeat split]|]). constructor.
  - by apply elem_of_nil in Hx.
  - vm_compute in E. injection E as _ E. by destruct l1.
Qed.

Lemma elf_machine_budget : budget 0x10000 elf_machine 1 (load_dirs elf64 elf_phdrs) (load_frames elf64 elf_phdrs).
Proof.
  exists 4%nat. split.
  - exists 4. split; [lia|]. split; [by vm_compute|]. intros g Hg.
    assert (g ∈ seqZ 4 4) as Hin by (apply elem_of_seqZ; lia). change (seqZ 4 4) with [4; 5; 6; 7] in Hin.
    repeat (apply elem_of_cons in Hin as [->|Hin]; [vm_compute; reflexivity|]). by apply elem_of_nil in Hin.
  - change (load_frames elf64 elf_phdrs) with 1%nat.
    pose proof (cost_le_paths 0x10000 elf_machine 1 (load_dirs elf64 elf_phdrs)) as H1.
    pose proof (size_list_to_set_le (load_dirs elf64 elf_phdrs)) as H2. change (length (load_dirs elf64 elf_phdrs)) with 3%nat in H2. lia.
Qed.

Lemma elf_load_maps_witness :
  exists s', elf_load 0x10000 elf_image elf64 0x12600 0x12300 0x12400 0x12000 0x12100 0x12500 0 elf_machine = Ok true s' /\
    space_ok 0x10000 s' 0x12000 1 /\
    (forall sg, sg ∈ loaded elf64 elf_phdrs -> visible 0x10000 elf_machine 1 0x13000 s' sg) /\
    (forall v, (forall sg, sg ∈ loaded elf64 elf_phdrs -> segment_pages sg <= page_off (sg_vaddr sg) v) ->
       translate_of 0x10000 s' 1 v = translate_of 0x10000 elf_machine 1 v) /\
    aux_vector elf64 0x12500 elf_ehdr elf_phdrs 0 s' /\
    keeps 0x10000 elf_machine s' 1 (written elf64 0x12300 0x12400 0x12500 0x12100).
Proof.
  apply (elf_load_maps 0x10000 elf_image elf64 0x12600 0x12300 0x12400 elf_machine 0x12000 1 0x12100 0x12200 0x13000 0x100 0x100 0
    0x12500 0 elf_magic elf_ehdr elf_phdrs 0);
    [apply elf_machine_caller|apply elf64_layout|apply elf_machine_file|apply elf_machine_loadable|vm_compute; reflexivity|apply elf_machine_budget].
Defined.
